(* ===== verification/_CoqProject ===== *)
-Q . S2P
Prelude.v
Errors.v
Effects.v
Auth.v
Inventory.v
InventoryFacts.v
InventoryRaces.v
OrderDomain.v
OrderRepo.v
Saga.v
SagaFacts.v
SagaFrame.v
OrderService.v
SagaRuns.v
SagaRaces.v
Payment.v
PaymentFacts.v
PaymentRaces.v
System.v
OrderFacts.v
Outbox.v
OutboxFacts.v
OutboxRaces.v
Users.v
UsersFacts.v
Kafka.v
KafkaFacts.v
Codec.v
Catalog.v
CatalogFacts.v
CatalogRaces.v
Checkout.v
Analytics.v
Batcher.v
AnalyticsFacts.v
Notification.v
NotificationFacts.v
Flags.v
FlagsFacts.v
Middleware.v
MiddlewareFacts.v
Transport.v
TransportFacts.v
Lifecycle.v
Workers.v
Recovery.v
EnvConfig.v
Wiring.v
Startup.v
Deadlines.v
Seed.v
SagaRecovery.v
SystemRecovery.v
Delivery.v
Serving.v
