(* ===== verification/Prelude.v ===== *)
(** * A verification library for go-ozon-marketplace

    The program is a marketplace of Go services that talk gRPC, Postgres, Redis
    and Kafka.  An order goes from [order-service] through a saga: its items are
    reserved at [inventory-service], its total is charged at [payment-service],
    and the order is confirmed; a failed step is compensated.  Orders and their
    events are written in one transaction, and a relay publishes the events.
    [catalog-service] keeps products in Postgres and projects them, through an
    outbox of its own, into a search index.  [user-service] owns accounts and
    issues tokens; [notification-service] and [analytics-service] consume the
    events of the others.  [pkg/] holds what the services share (errors,
    authentication, transactions, the Kafka consumer, interceptors, gRPC clients,
    feature flags, configuration).

    ** How code is modelled

    A method that does input/output is a function of an oracle and a world
    ([Effects.v]): the oracle decides at every tick whether a database
    statement, a commit, a publication or a call fails before its effect, after
    it (a lost reply), or not at all, and what clocks, UUIDs, random draws and
    cancelled contexts return.  A theorem that quantifies over the oracle covers
    every failure pattern; a theorem with [no_faults] describes the run in which
    nothing fails.  Errors are values ([Errors.v]) with their wrapping chain.
    Tables are finite maps or lists with the constraints of the migrations;
    [txmanager.Run] restores the tables when its body or its commit fails.
    Integers keep their width ([int32], [int64] below), and float64 is the
    Standard Library's SpecFloat ([Codec.v]).  Third-party libraries
    (google/uuid, golang-jwt, bcrypt, grpc status, gobreaker, ulule/limiter, TLS
    loading) are type classes with their documented behaviour as laws, and each
    class has an instance that the witnesses run on; JSON parsing, the search
    engine, ClickHouse's SUM, address and duration parsing are arguments of the
    definitions that use them.  In the monadic models a statement of the database
    is atomic and transactions run one after the other.  The files named [*Races]
    drop that: they run the transactions of inventory- and payment-service
    statement by statement with their row locks, any number of relays on one
    outbox, and any number of instances of one saga call by call, interleaved
    freely, and tie these machines to the monadic definitions.  Where
    goroutines share memory (the analytics batcher, the relays and the recovery
    worker, a serving process from start to exit) the model is a step relation over
    threads whose critical sections interleave freely.

    ** Files

    - [Prelude.v]: machine integers, Go strings, sums, tactics and hint databases.
    - [Errors.v]: [pkg/errors].  Conversions to gRPC statuses never lose the
      kind of a sentinel wrapped by [fmt.Errorf], and round-trip where the
      registry allows it.
    - [Effects.v]: the effect monad, [pkg/txmanager], the invariant rule [pres]
      and the triples used by all proofs.
    - [Auth.v]: [pkg/auth] and the authentication interceptors of
      [pkg/middleware].
    - [Inventory.v], [InventoryFacts.v]: [services/inventory-service] (domain,
      repository, use case, handler).  An invariant over every history of calls
      (stock, reservations and ledger agree, units are conserved), and a
      refinement of Reserve and Release to an abstract book of holds.
      [InventoryRaces.v]: concurrent transactions at READ COMMITTED are
      serialisable, keep the invariant and never deadlock.
    - [OrderDomain.v], [OrderRepo.v]: order statuses, orders, saga rows, outbox
      events, and the Postgres repositories of [services/order-service].
    - [Saga.v], [SagaFacts.v], [SagaRuns.v]: [internal/saga] (steps,
      orchestrator, recovery, cancellation).  The services it calls are the
      classes [InventoryClient] and [PaymentClient]; what it relies on are the
      classes [SagaClientLaws] and [SagaCalmLaws].  Termination, soundness of a
      confirmed saga under every failure, all-or-nothing without failures; and
      concrete runs that show defects of recovery.  [SagaFrame.v]: what the
      orchestrator leaves alone, by one frame rule.  [SagaRaces.v]: ProcessOrder
      cut into its calls (proved to be the same run when alone), several
      instances interleaved, where a request has the order it built and a recovery
      pass the order it reads back: sound without compensation when the two have
      the items in the same order, and two defects with compensation.
      [SagaRecovery.v]: what stopped instances leave, over the class
      [SagaCrashLaws], and what a calm recovery pass makes of each saga it lists.
    - [OrderService.v], [OrderFacts.v]: the order use case and handler.
      Totals, the outbox invariant, authorisation, the status machine, the row
      scan of ListByUser with its slice aliasing.
    - [Payment.v], [PaymentFacts.v]: [services/payment-service]; its invariant
      over every history, and in [PaymentRaces.v] over every interleaving.
    - [System.v]: the gRPC clients of order-service over the handlers of the
      other two services; the instances of the saga's laws, and what follows for
      the composed system, down to the reservation rows and the amount of the
      payment row.  [Checkout.v]: the catalog joins them, and CreateOrder
      as a whole is followed into the tables of the four services.
      [SystemRecovery.v]: the three services satisfy [SagaCrashLaws], so that a
      crash of order-service is recovered from in their tables.
    - [Outbox.v], [OutboxFacts.v]: the outbox repository with its transaction
      handle and the relay.  At-least-once delivery, the calm poll, the delays.
      [OutboxRaces.v]: several relays with SKIP LOCKED; the poll refines their
      machine, nothing is lost, and nothing is published twice unless a failure
      made the outbox forget.  [Delivery.v]: CreateOrder and the relay together
      announce every stored order.
    - [Users.v], [UsersFacts.v]: [services/user-service]: the rate limiter as a
      sliding window, unique accounts, the round trip of registration and login.
    - [Kafka.v], [KafkaFacts.v]: the message handling of [pkg/kafka]: exactly which
      calls, waits, marks and dead letters a message leads to.
    - [Codec.v]: float64 and the decoding of JSON objects into structs.
    - [Catalog.v], [CatalogFacts.v]: [services/catalog-service].  Table, outbox
      and search index stay in step under every failure, and the relay brings the
      index up to the table.  [CatalogRaces.v]: several relays lose nothing, but
      can leave the index stale.
    - [Analytics.v], [Batcher.v], [AnalyticsFacts.v]: [services/analytics-service].
      [Batcher.v] runs Add, Flush, Stop and the ticker as threads: no event is
      lost, Stop can always return, and the sequential methods are runs of it.
    - [Notification.v], [NotificationFacts.v]: [services/notification-service]:
      what is sent, the round trip of a message, the masking of addresses.
    - [Flags.v], [FlagsFacts.v]: [pkg/featureflags] and [pkg/abtesting]: rollouts
      grow with their percentage, variations get their weights.
    - [Middleware.v], [MiddlewareFacts.v]: the rest of [pkg/middleware]: client
      addresses, rate limits, request ids, logging, metrics, validation.
    - [Transport.v], [TransportFacts.v]: [pkg/grpcclient], [pkg/tracing], the
      circuit breaker and the interceptor chain of [pkg/server].  What a server
      lets through, how a service call arrives, when the breaker refuses.
    - [Lifecycle.v]: the Kafka consumer's construction, restart loop and end.
    - [Workers.v]: Start, Stop and loops of the relays and the recovery worker as
      threads.  [Recovery.v]: the recovery pass under its advisory lock.
    - [EnvConfig.v]: [pkg/config] and the Load functions of the seven services.
    - [Wiring.v]: [pkg/fxmodules] and the [internal/app] packages as data; which
      applications resolve (an exact check), and in which order the hooks of the
      services stop.
    - [Startup.v]: [pkg/app], [pkg/logger], the tracer, [StartService], pools and
      clients, consumer settings and the seven main functions: how each process
      of the fleet ends.
    - [Serving.v]: [RegisterGRPCService], [RunService] and the two servers as the
      goroutines of one process among the hooks of its application, with hooks and
      listeners that fail, requests in flight, the time limits of the shutdown,
      [log.Fatal] and the exit.
    - [Deadlines.v]: the saga under an expired context; the timeouts that every
      constructor ends up with under an accepted configuration.
    - [Seed.v]: [pkg/graphqlclient] and [scripts/seed.go], and what the script
      does to a running system.

    ** Bounds

    The fuel of the orchestrator loop is [saga_fuel], the number of items plus
    six: one iteration per item, one to see that all are reserved, one for each of
    the other steps and one to find no next step; [ProcessOrder_terminates] proves
    that it is never exhausted.  The resolution check of [Wiring.v] takes one more
    than the number of constructors, since a chain of constructors repeats none;
    [starts_decides] proves that this is exact.  All other recursions are
    structural, with the iteration counts of the code.  The consumer loop of
    [Lifecycle.v] takes its number of turns as an argument, and its theorem holds
    for every number.

    ** Not modelled

    The libraries themselves: fx is its documented resolution by type and order of
    hooks, the network and the databases are the oracle.  The profiling listener of
    order-service, log lines and metrics other than the request counters; the
    registration of the feature flag provider with OpenFeature; which store
    ulule/limiter counts in (Redis, or memory when there is none); interface
    declarations and constructors that only store their arguments; generated code,
    mocks, tests and the Rust gateway.  What recovery concludes is stated for sagas
    whose items come back from the database in the order of the request and that
    nobody has begun to compensate: otherwise it can skip an item
    ([recovery_skips_item] of SagaRuns.v), and a saga that stopped while compensating is
    never resumed ([compensating_saga_is_stuck] of SagaFacts.v). *)
From stdpp Require Export base tactics list gmap strings pretty numbers sorting.
From Stdlib Require Export ZArith Lia.

Declare Scope go_scope.
Delimit Scope go_scope with go.
#[global] Open Scope Z_scope.
#[global] Open Scope go_scope.

Create HintDb go_pres.
Create Rewrite HintDb go_simpl.

(** ** Tactics of the development *)

(** [split_match] destructs the innermost scrutinee of a [match] of the goal. *)
Ltac split_match :=
  match goal with
  | |- context [match ?x with _ => _ end] =>
      lazymatch x with
      | context [match _ with _ => _ end] => fail
      | _ => destruct x eqn:?
      end
  end.

(** [split_match_in H] does the same on a hypothesis. *)
Ltac split_match_in H :=
  match type of H with
  | context [match ?x with _ => _ end] =>
      lazymatch x with
      | context [match _ with _ => _ end] => fail
      | _ => destruct x eqn:?
      end
  end.

(** [crush] is the closing tactic of the routine cases. *)
Ltac crush := simplify_eq/=; try done; try lia; try naive_solver.

(** ** Machine integers

    Go's [int] is 64 bits wide on the supported platforms; a conversion to a
    narrower signed type keeps the low bits and reads them as two's complement. *)

Definition wrap (w z : Z) : Z := (z + 2 ^ (w - 1)) mod 2 ^ w - 2 ^ (w - 1).

Definition int32 (z : Z) : Z := wrap 32 z.

Definition int64 (z : Z) : Z := wrap 64 z.

Definition uint32 (z : Z) : Z := z mod 2 ^ 32.

Definition uint64 (z : Z) : Z := z mod 2 ^ 64.

Definition in_int32 (z : Z) : bool := (- 2 ^ 31 <=? z) && (z <? 2 ^ 31).

Definition in_int64 (z : Z) : bool := (- 2 ^ 63 <=? z) && (z <? 2 ^ 63).

Lemma wrap_id w z : 0 < w -> - 2 ^ (w - 1) <= z < 2 ^ (w - 1) -> wrap w z = z.
Proof.
  intros Hw Hz. unfold wrap.
  assert (H2 : 2 ^ w = 2 * 2 ^ (w - 1)).
  { rewrite <- Z.pow_succ_r by lia. f_equal. lia. }
  rewrite Z.mod_small; lia.
Qed.

Lemma wrap_range w z : 0 < w -> - 2 ^ (w - 1) <= wrap w z < 2 ^ (w - 1).
Proof.
  intros Hw. unfold wrap.
  assert (H2 : 2 ^ w = 2 * 2 ^ (w - 1)).
  { rewrite <- Z.pow_succ_r by lia. f_equal. lia. }
  pose proof (Z.mod_pos_bound (z + 2 ^ (w - 1)) (2 ^ w)) as Hb.
  pose proof (Z.pow_pos_nonneg 2 (w - 1)). lia.
Qed.

Lemma int32_id z : in_int32 z = true -> int32 z = z.
Proof.
  unfold in_int32, int32. intros [?%Z.leb_le ?%Z.ltb_lt]%andb_prop.
  apply wrap_id; [lia|]. change (2 ^ (32 - 1)) with (2 ^ 31). lia.
Qed.

Lemma int64_id z : in_int64 z = true -> int64 z = z.
Proof.
  unfold in_int64, int64. intros [?%Z.leb_le ?%Z.ltb_lt]%andb_prop.
  apply wrap_id; [lia|]. change (2 ^ (64 - 1)) with (2 ^ 63). lia.
Qed.

Lemma int32_range z : - 2 ^ 31 <= int32 z < 2 ^ 31.
Proof. apply (wrap_range 32). lia. Qed.

Lemma int64_range z : - 2 ^ 63 <= int64 z < 2 ^ 63.
Proof. apply (wrap_range 64). lia. Qed.

(** A sum or product may be wrapped at every step or once at the end. *)
Lemma wrap_add_l w a b : 0 < w -> wrap w (wrap w a + b) = wrap w (a + b).
Proof.
  intros Hw. unfold wrap. f_equal.
  replace ((a + 2 ^ (w - 1)) mod 2 ^ w - 2 ^ (w - 1) + b + 2 ^ (w - 1))
    with ((a + 2 ^ (w - 1)) mod 2 ^ w + b) by lia.
  rewrite Zplus_mod_idemp_l. f_equal. lia.
Qed.

Lemma wrap_add_r w a b : 0 < w -> wrap w (a + wrap w b) = wrap w (a + b).
Proof. intros Hw. rewrite Z.add_comm, wrap_add_l by done. f_equal. lia. Qed.

(** ** Go strings

    A Go string is a byte sequence; [String.string] is its model.  [ToLower]
    and [TrimSpace] are the ASCII cases of the library functions. *)

Definition is_upper (c : Ascii.ascii) : bool :=
  let n := Ascii.nat_of_ascii c in Nat.leb 65 n && Nat.leb n 90.

Definition lower (c : Ascii.ascii) : Ascii.ascii :=
  if is_upper c then Ascii.ascii_of_nat (Ascii.nat_of_ascii c + 32) else c.

Fixpoint ToLower (s : string) : string :=
  match s with
  | EmptyString => EmptyString
  | String c s' => String (lower c) (ToLower s')
  end.

Definition HasPrefix (s p : string) : bool := String.prefix p s.

Definition drop_str (n : nat) (s : string) : string :=
  String.substring n (String.length s - n) s.

Definition take_str (n : nat) (s : string) : string := String.substring 0 n s.

Definition TrimPrefix (s p : string) : string :=
  if HasPrefix s p then drop_str (String.length p) s else s.

Fixpoint TrimLeft (s : string) : string :=
  match s with
  | String c s' => if Ascii.is_space c then TrimLeft s' else s
  | EmptyString => EmptyString
  end.

Definition TrimSpace (s : string) : string :=
  String.rev (TrimLeft (String.rev (TrimLeft s))).

Fixpoint Repeat (c : string) (n : nat) : string :=
  match n with O => "" | S n' => c +:+ Repeat c n' end.

Fixpoint Join (l : list string) (sep : string) : string :=
  match l with
  | [] => ""
  | [s] => s
  | s :: l' => s +:+ sep +:+ Join l' sep
  end.

(** The position of the first byte [c], [strings.Index] on a one-byte pattern;
    [None] is Go's [-1]. *)
Fixpoint index_byte (c : Ascii.ascii) (s : string) : option nat :=
  match s with
  | EmptyString => None
  | String d s' =>
      if decide (c = d) then Some O else S <$> index_byte c s'
  end.

(** [strings.Split] on a one-byte separator. *)
Fixpoint split_byte_go (c : Ascii.ascii) (acc s : string) : list string :=
  match s with
  | EmptyString => [String.rev acc]
  | String d s' =>
      if decide (c = d) then String.rev acc :: split_byte_go c "" s'
      else split_byte_go c (String d acc) s'
  end.

Definition Split (s : string) (c : Ascii.ascii) : list string := split_byte_go c "" s.

Definition bytes_of (s : string) : list Z :=
  (fun c => Z.of_nat (Ascii.nat_of_ascii c)) <$> String.list_ascii_of_string s.

Lemma string_prefix_app p s : String.prefix p (p +:+ s) = true.
Proof. induction p as [|c p IH]; simpl; [by destruct s|]. by destruct (Ascii.ascii_dec c c). Qed.

Lemma substring_full s : String.substring 0 (String.length s) s = s.
Proof. induction s; simpl; by f_equal. Qed.

Lemma string_length_app s1 s2 : String.length (s1 +:+ s2) = (String.length s1 + String.length s2)%nat.
Proof. induction s1; simpl; by f_equal. Qed.

Lemma drop_str_app p s : drop_str (String.length p) (p +:+ s) = s.
Proof.
  unfold drop_str. rewrite string_length_app.
  replace (String.length p + String.length s - String.length p)%nat with (String.length s) by lia.
  induction p as [|c p IH]; simpl; [apply substring_full|done].
Qed.

Lemma TrimPrefix_app p s : TrimPrefix (p +:+ s) p = s.
Proof. unfold TrimPrefix, HasPrefix. rewrite string_prefix_app. apply drop_str_app. Qed.

(** ** Sums over finite maps *)

Section MapSum.
Context {K V : Type} `{Countable K}.
Implicit Types (f : K -> V -> Z) (m : gmap K V).

Definition map_sum f m : Z := map_fold (fun k v acc => f k v + acc) 0 m.

Lemma map_sum_empty f : map_sum f ∅ = 0.
Proof. apply map_fold_empty. Qed.

Lemma map_sum_insert_None f m i x :
  m !! i = None -> map_sum f (<[i:=x]> m) = f i x + map_sum f m.
Proof. intros Hi. unfold map_sum. apply (map_fold_insert_L (fun k v acc => f k v + acc)); [|done]. intros; lia. Qed.

Lemma map_sum_delete f m i x :
  m !! i = Some x -> map_sum f m = f i x + map_sum f (delete i m).
Proof. intros Hi. unfold map_sum. apply (map_fold_delete_L (fun k v acc => f k v + acc)); [|done]. intros; lia. Qed.

Lemma map_sum_insert_Some f m i x y :
  m !! i = Some y -> map_sum f (<[i:=x]> m) = map_sum f m - f i y + f i x.
Proof.
  intros Hi. rewrite (map_sum_delete f m i y Hi).
  rewrite <- insert_delete_eq, map_sum_insert_None by apply lookup_delete_eq. lia.
Qed.

Lemma map_sum_nonneg f m :
  (forall k v, m !! k = Some v -> 0 <= f k v) -> 0 <= map_sum f m.
Proof.
  induction m as [|k v m Hk IH] using map_ind; intros Hf.
  - by rewrite map_sum_empty.
  - rewrite map_sum_insert_None by done.
    assert (0 <= f k v) by (apply Hf; by simplify_map_eq).
    assert (0 <= map_sum f m); [|lia].
    apply IH. intros k' v' Hk'. apply Hf. rewrite lookup_insert_ne; [done|]. congruence.
Qed.
End MapSum.

(** Sum of a projection over a list. *)
Definition list_sumZ {A} (f : A -> Z) (l : list A) : Z := foldr (fun x acc => f x + acc) 0 l.

Lemma list_sumZ_app {A} (f : A -> Z) l1 l2 :
  list_sumZ f (l1 ++ l2) = list_sumZ f l1 + list_sumZ f l2.
Proof. induction l1; simpl; lia. Qed.

Lemma list_sumZ_permutation {A} (f : A -> Z) l1 l2 : l1 ≡ₚ l2 -> list_sumZ f l1 = list_sumZ f l2.
Proof. induction 1; simpl; lia. Qed.

(** A text without a byte, and the prefix of an append. *)
Fixpoint no_byte (c : Ascii.ascii) (s : string) : Prop :=
  match s with EmptyString => True | String d s' => c ≠ d /\ no_byte c s' end.

Lemma take_str_app l s : take_str (String.length l) (l +:+ s) = l.
Proof.
  unfold take_str. induction l as [|c l IH]; simpl; [by destruct s|]. exact (f_equal (String c) IH).
Qed.

(** ** Lists *)

Section Filters.
Context {A : Type} (P : A -> Prop) `{!forall x, Decision (P x)}.
Implicit Types (l : list A).

Lemma list_filter_all l : (forall x, x ∈ l -> P x) -> filter P l = l.
Proof.
  induction l as [|x l IH]; intros Hl; [done|]. rewrite filter_cons_True by (apply Hl; left).
  f_equal. apply IH. intros y Hy. apply Hl. by right.
Qed.

Lemma list_filter_nil l : (forall x, x ∈ l -> ~ P x) -> filter P l = [].
Proof.
  induction l as [|x l IH]; intros Hl; [done|]. rewrite filter_cons_False by (apply Hl; left).
  apply IH. intros y Hy. apply Hl. by right.
Qed.
End Filters.

Lemma StronglySorted_weaken {A} (R R' : A -> A -> Prop) l :
  (forall x y, R x y -> R' x y) -> StronglySorted R l -> StronglySorted R' l.
Proof.
  intros HR Hl. induction Hl as [|x l Hl IH Hx]; constructor; [done|]. eapply Forall_impl; [exact Hx|]. intros y. apply HR.
Qed.

Lemma lookup_snoc_cases {A} (l : list A) i a b : (l ++ [a]) !! i = Some b -> l !! i = Some b \/ (i = length l /\ b = a).
Proof.
  intros H. destruct (decide (i < length l)%nat) as [Hlt|Hge]; [left; by rewrite lookup_app_l in H|right].
  rewrite lookup_app_r in H by lia. apply list_lookup_singleton_Some in H as [Hz <-]. split; [lia|done].
Qed.

Lemma lookup_insert_cases {A} (l : list A) i a j b : <[i := a]> l !! j = Some b -> (j = i /\ b = a) \/ (j ≠ i /\ l !! j = Some b).
Proof.
  intros H. destruct (decide (j = i)) as [->|Hne]; [left|right; by rewrite list_lookup_insert_ne in H].
  split; [done|]. pose proof (lookup_lt_Some _ _ _ H) as Hl. rewrite length_insert in Hl. rewrite list_lookup_insert_eq in H by done. by simplify_eq.
Qed.

Lemma elem_of_concat_fmap {A B} (f : A -> list B) (l : list A) b : b ∈ concat (f <$> l) <-> exists a, a ∈ l /\ b ∈ f a.
Proof.
  induction l as [|a l IH]; csimpl.
  - split; [by intros ?%elem_of_nil|]. by intros (a & ?%elem_of_nil & _).
  - rewrite elem_of_app, IH. split.
    + intros [Ha|(a' & Ha' & Hb)]; [exists a; split; [apply list_elem_of_here|done]|exists a'; split; [by apply list_elem_of_further|done]].
    + intros (a' & [->|Ha']%elem_of_cons & Hb); [by left|right; by exists a'].
Qed.

(** ** Exclusive locks of a list of threads *)

Section Exclusive.
Context {T K : Type} (lock : T -> option K).
Implicit Types (ths : list T) (i j : nat).

(** No thread but [i] holds [k]. *)
Definition unlocked ths i (k : K) : Prop := forall j u, j ≠ i -> ths !! j = Some u -> lock u ≠ Some k.

Definition exclusive ths : Prop := forall i t k, ths !! i = Some t -> lock t = Some k -> unlocked ths i k.

Lemma exclusive_insert ths i t t' :
  exclusive ths -> ths !! i = Some t -> (forall k, lock t' = Some k -> lock t = Some k \/ unlocked ths i k) -> exclusive (<[i := t']> ths).
Proof.
  intros Hex Hi Hnew a u k [[-> ->]|[Hai Ha]]%lookup_insert_cases Hk j v Hja [[-> ->]|[Hji Hj]]%lookup_insert_cases Hv; [done|..].
  - destruct (Hnew k Hk) as [Hold|Hfree]; [by eapply (Hex i t k)|by eapply Hfree].
  - destruct (Hnew k Hv) as [Hold|Hfree]; [by eapply (Hex i t k)|by eapply Hfree].
  - by eapply (Hex a u k).
Qed.

Lemma exclusive_snoc ths t : exclusive ths -> lock t = None -> exclusive (ths ++ [t]).
Proof.
  intros Hex Ht i u k [Hi|[-> ->]]%lookup_snoc_cases Hk; [|congruence].
  intros j v Hji [Hj|[-> ->]]%lookup_snoc_cases; [by eapply (Hex i u k)|congruence].
Qed.

Lemma exclusive_nil : exclusive [].
Proof. by intros i t k Hi. Qed.
End Exclusive.
