(* ===== verification/Errors.v ===== *)
(** * pkg/errors: the domain error vocabulary and its transport adapters

    Go [error] values are modelled as their wrapping chain: a sentinel, a plain
    text error, a [fmt.Errorf] wrapper, an [AppError], a gRPC status or a joined
    error.  [Is], [Error] and [Unwrap] are the chain walks of the Go standard
    library; the rest is [pkg/errors]: the registry of kinds, the constructors
    and the adapters to gRPC, GraphQL and logs. *)
From S2P Require Import Prelude.

(** ** Error values *)

(** gRPC status codes ([google.golang.org/grpc/codes]). *)
Inductive code :=
| OK | Canceled | Unknown | InvalidArgument | DeadlineExceeded | NotFound
| AlreadyExists | PermissionDenied | ResourceExhausted | FailedPrecondition
| Aborted | OutOfRange | Unimplemented | Internal | Unavailable | DataLoss
| Unauthenticated.

#[global] Instance code_eq_dec : EqDecision code.
Proof. solve_decision. Defined.

(** The sentinel errors of [pkg/errors]; the last group are the sentinels of
    other packages that the services compare against. *)
Inductive sentinel :=
| ErrNotFound | ErrAlreadyExists | ErrInvalidArgument | ErrInvalidCredentials
| ErrPermissionDenied | ErrConflict | ErrInsufficientStock | ErrFailedPrecondition
| ErrUnauthenticated | ErrUnavailable | ErrDeadlineExceeded
| ErrPoison | ErrMissingJWTSecret | ErrJWTSecretTooShort | ErrMissingPostgresDSN
| ErrInvalidPostgresDSN | ErrMissingKafkaBrokers | ErrMissingKafkaTopics
| ErrMissingClickHouseDSN | ErrInvalidClickHouseDSN.

#[global] Instance sentinel_eq_dec : EqDecision sentinel.
Proof. solve_decision. Defined.

Definition sentinel_text (s : sentinel) : string :=
  match s with
  | ErrNotFound => "not found"
  | ErrAlreadyExists => "already exists"
  | ErrInvalidArgument => "invalid argument"
  | ErrInvalidCredentials => "invalid credentials"
  | ErrPermissionDenied => "permission denied"
  | ErrConflict => "conflict"
  | ErrInsufficientStock => "insufficient stock"
  | ErrFailedPrecondition => "failed precondition"
  | ErrUnauthenticated => "unauthenticated"
  | ErrUnavailable => "unavailable"
  | ErrDeadlineExceeded => "deadline exceeded"
  | ErrPoison => "poison outbox event"
  | ErrMissingJWTSecret => "JWT_SECRET is required"
  | ErrJWTSecretTooShort => "JWT_SECRET is too short"
  | ErrMissingPostgresDSN => "POSTGRES_DSN is required"
  | ErrInvalidPostgresDSN => "POSTGRES_DSN is invalid"
  | ErrMissingKafkaBrokers => "KAFKA_BROKERS is required"
  | ErrMissingKafkaTopics => "KAFKA_TOPICS is required"
  | ErrMissingClickHouseDSN => "CLICKHOUSE_DSN is required"
  | ErrInvalidClickHouseDSN => "CLICKHOUSE_DSN is invalid"
  end.

(** [type Kind string]. *)
Definition Kind := string.

Definition KindNotFound : Kind := "not_found".
Definition KindAlreadyExists : Kind := "already_exists".
Definition KindInvalidArgument : Kind := "invalid_argument".
Definition KindInvalidCredentials : Kind := "invalid_credentials".
Definition KindPermissionDenied : Kind := "permission_denied".
Definition KindConflict : Kind := "conflict".
Definition KindInsufficientStock : Kind := "insufficient_stock".
Definition KindFailedPrecondition : Kind := "failed_precondition".
Definition KindUnauthenticated : Kind := "unauthenticated".
Definition KindUnavailable : Kind := "unavailable".
Definition KindDeadlineExceeded : Kind := "deadline_exceeded".
Definition KindInternal : Kind := "internal".

(** The dynamic types an [error] takes in the services.  [EPlain] is an error
    with no chain below it (a driver error, [errors.New], [fmt.Errorf] without
    [%w]); [EWrap pre e post] is [fmt.Errorf("pre%wpost", e)]; [EWrap2] the form
    with two [%w] verbs; [EPg] a [*pgconn.PgError] with its SQLSTATE. *)
Inductive error :=
| ESentinel (s : sentinel)
| EPlain (msg : string)
| EPg (sqlstate msg : string)
| EWrap (pre : string) (e : error) (post : string)
| EWrap2 (pre : string) (e1 : error) (mid : string) (e2 : error)
| EApp (ae_Code ae_Message : string) (ae_Err : option error) (ae_Kind : Kind) (ae_Detail : string)
| EStatus (c : code) (msg : string)
| EJoin (es : list error).

Definition code_text (c : code) : string :=
  match c with
  | OK => "OK" | Canceled => "Canceled" | Unknown => "Unknown"
  | InvalidArgument => "InvalidArgument" | DeadlineExceeded => "DeadlineExceeded"
  | NotFound => "NotFound" | AlreadyExists => "AlreadyExists"
  | PermissionDenied => "PermissionDenied" | ResourceExhausted => "ResourceExhausted"
  | FailedPrecondition => "FailedPrecondition" | Aborted => "Aborted"
  | OutOfRange => "OutOfRange" | Unimplemented => "Unimplemented"
  | Internal => "Internal" | Unavailable => "Unavailable" | DataLoss => "DataLoss"
  | Unauthenticated => "Unauthenticated"
  end.

(** [err.Error()]. *)
Fixpoint Error (e : error) : string :=
  match e with
  | ESentinel s => sentinel_text s
  | EPlain m => m
  | EPg st m => "ERROR: " +:+ m +:+ " (SQLSTATE " +:+ st +:+ ")"
  | EWrap pre e' post => pre +:+ Error e' +:+ post
  | EWrap2 pre e1 mid e2 => pre +:+ Error e1 +:+ mid +:+ Error e2
  | EApp _ m (Some e') _ _ => m +:+ ": " +:+ Error e'
  | EApp _ m None _ _ => m
  | EStatus c m => "rpc error: code = " +:+ code_text c +:+ " desc = " +:+ m
  | EJoin es =>
      (fix go (l : list error) : string :=
         match l with
         | [] => ""
         | [e'] => Error e'
         | e' :: l' => Error e' +:+ String (Ascii.ascii_of_nat 10) "" +:+ go l'
         end) es
  end.

(** [errors.Is(err, target)] for a sentinel target. *)
Fixpoint Is (e : error) (target : sentinel) : bool :=
  match e with
  | ESentinel s => bool_decide (s = target)
  | EPlain _ | EPg _ _ | EStatus _ _ => false
  | EWrap _ e' _ => Is e' target
  | EWrap2 _ e1 _ e2 => Is e1 target || Is e2 target
  | EApp _ _ (Some e') _ _ => Is e' target
  | EApp _ _ None _ _ => false
  | EJoin es => existsb (fun e' => Is e' target) es
  end.

(** [errors.Unwrap]: the single-error form only, as in the standard library. *)
Definition Unwrap (e : error) : option error :=
  match e with
  | EWrap _ e' _ => Some e'
  | EApp _ _ oe _ _ => oe
  | _ => None
  end.

(** [fmt.Errorf("pre: %w", err)] and [fmt.Errorf("%w: post", s)]. *)
Definition wrapf (pre : string) (e : error) : error := EWrap (pre +:+ ": ") e "".

Definition wrapS (s : sentinel) (post : string) : error :=
  EWrap "" (ESentinel s) (": " +:+ post).

(** [errors.Join]: nil when every error is nil. *)
Definition errors_Join (es : list error) : option error :=
  match es with [] => None | _ => Some (EJoin es) end.

(** ** Registry *)

Record Entry := MkEntry {
  GRPCCode : code;
  HTTPStatus : Z;
  PublicKey : string;
  Retryable : bool
}.

Definition registry_list : list (Kind * Entry) :=
  [ (KindNotFound, MkEntry NotFound 404 "NOT_FOUND" false);
    (KindAlreadyExists, MkEntry AlreadyExists 409 "ALREADY_EXISTS" false);
    (KindInvalidArgument, MkEntry InvalidArgument 400 "INVALID_ARGUMENT" false);
    (KindInvalidCredentials, MkEntry Unauthenticated 401 "INVALID_CREDENTIALS" false);
    (KindPermissionDenied, MkEntry PermissionDenied 403 "PERMISSION_DENIED" false);
    (KindConflict, MkEntry FailedPrecondition 409 "CONFLICT" false);
    (KindInsufficientStock, MkEntry FailedPrecondition 409 "INSUFFICIENT_STOCK" false);
    (KindFailedPrecondition, MkEntry FailedPrecondition 409 "FAILED_PRECONDITION" false);
    (KindUnauthenticated, MkEntry Unauthenticated 401 "UNAUTHENTICATED" false);
    (KindUnavailable, MkEntry Unavailable 503 "UNAVAILABLE" true);
    (KindDeadlineExceeded, MkEntry DeadlineExceeded 504 "DEADLINE_EXCEEDED" true);
    (KindInternal, MkEntry Internal 500 "INTERNAL" false) ].

Definition registry : gmap string Entry := list_to_map registry_list.

Definition EntryFor (kind : Kind) : option Entry := registry !! kind.

(** Go iterates a map in an unspecified order; the list order stands for one. *)
Definition Kinds : list Kind := (map_to_list registry).*1.

Definition ParseKind (s : string) : Kind :=
  match registry !! s with Some _ => s | None => KindInternal end.

(** ** Constructors *)

Definition E (kind : Kind) (message : string) : error :=
  EApp kind message None kind "".

Definition New (code message : string) : error :=
  EApp code message None (ParseKind code) "".

Definition Wrap (err : error) (code message : string) : error :=
  EApp code message (Some err) (ParseKind code) "".

Definition WithDetail (err : option error) (detail : string) : option error :=
  match err with
  | None => None
  | Some (EApp c m e k _) => Some (EApp c m e k detail)
  | Some e => Some (EApp KindInternal (Error e) (Some e) KindInternal detail)
  end.

(** ** Adapters *)

(** The switch over the sentinels at the end of [ToStatus]. *)
Definition sentinel_code (err : error) : option code :=
  if Is err ErrNotFound then Some NotFound
  else if Is err ErrAlreadyExists then Some AlreadyExists
  else if Is err ErrInvalidArgument then Some InvalidArgument
  else if Is err ErrInvalidCredentials then Some Unauthenticated
  else if Is err ErrPermissionDenied then Some PermissionDenied
  else if Is err ErrConflict || Is err ErrInsufficientStock || Is err ErrFailedPrecondition
       then Some FailedPrecondition
  else if Is err ErrUnauthenticated then Some Unauthenticated
  else if Is err ErrUnavailable then Some Unavailable
  else if Is err ErrDeadlineExceeded then Some DeadlineExceeded
  else None.

Definition ToStatus_switch (err : error) : error :=
  match sentinel_code err with
  | Some c => EStatus c (Error err)
  | None => EStatus Internal "internal error"
  end.

(** [ToStatus] on a non-nil error. *)
Definition ToStatus (err : error) : error :=
  match err with
  | EApp c _ _ k _ =>
      let entry := match EntryFor k with
                   | Some en => Some en
                   | None => if bool_decide (c = "") then None else EntryFor (ParseKind c)
                   end in
      match entry with
      | Some en => EStatus (GRPCCode en) (Error err)
      | None => ToStatus_switch err
      end
  | _ => ToStatus_switch err
  end.

(** [ToStatus(nil)] is nil. *)
Definition ToStatus_opt (err : option error) : option error := ToStatus <$> err.

Definition kindFromGRPC (c : code) : Kind :=
  match c with
  | NotFound => KindNotFound
  | AlreadyExists => KindAlreadyExists
  | InvalidArgument => KindInvalidArgument
  | Unauthenticated => KindUnauthenticated
  | PermissionDenied => KindPermissionDenied
  | FailedPrecondition => KindFailedPrecondition
  | Unavailable => KindUnavailable
  | DeadlineExceeded => KindDeadlineExceeded
  | _ => KindInternal
  end.

(** [status.FromError] of google.golang.org/grpc: a parameter.  The services
    rely only on its documented behaviour on an error made by [status.Error]. *)
Class GrpcStatus := { status_FromError : error -> option (code * string) }.

Class GrpcStatusLaws `{GrpcStatus} : Prop := {
  status_FromError_status : forall c m, status_FromError (EStatus c m) = Some (c, m)
}.

(** A concrete instance, used by the witnesses. *)
Definition grpc_direct : GrpcStatus :=
  {| status_FromError e := match e with EStatus c m => Some (c, m) | _ => None end |}.

Lemma grpc_direct_laws : @GrpcStatusLaws grpc_direct.
Proof. by constructor. Qed.

Section Adapters.
Context `{G : GrpcStatus}.

Definition FromStatus (err : error) : error :=
  match status_FromError err with
  | None => EApp KindInternal (Error err) None KindInternal ""
  | Some (c, m) => let kind := kindFromGRPC c in EApp kind m None kind ""
  end.

Definition Code (err : option error) : code :=
  match err with
  | None => OK
  | Some e => match status_FromError (ToStatus e) with
              | None => Internal
              | Some (c, _) => c
              end
  end.

(** The [AppError] an adapter works on: the error itself, or its gRPC image. *)
Definition as_app (err : error) : string * string * Kind * string :=
  match err with
  | EApp c m _ k d => (c, m, k, d)
  | _ => match FromStatus (ToStatus err) with
         | EApp c m _ k d => (c, m, k, d)
         | _ => ("", "", "", "")
         end
  end.

Definition entry_or_internal (k : Kind) : Entry :=
  match EntryFor k with
  | Some en => en
  | None => default (MkEntry OK 0 "" false) (EntryFor KindInternal)
  end.

Record GraphQLError := MkGraphQLError {
  gq_Message : string;
  gq_code : string;
  gq_publicKey : string;
  gq_retryable : bool;
  gq_detail : string
}.

Definition ToGraphQLError (err : option error) : option GraphQLError :=
  match err with
  | None => None
  | Some e =>
      let '(_, m, k, d) := as_app e in
      let entry := entry_or_internal k in
      Some (MkGraphQLError m (code_text (GRPCCode entry)) (PublicKey entry) (Retryable entry) d)
  end.

(** [Fields] returns zap fields: (kind, code, message, detail, retryable, error). *)
Definition Fields (err : option error) : option (string * string * string * string * bool * error) :=
  match err with
  | None => None
  | Some e =>
      let '(c, m, k, d) := as_app e in
      Some (k, c, m, d, Retryable (entry_or_internal k), e)
  end.
End Adapters.

(** [IsKind]'s loop over [stderrors.Unwrap]; the recursion follows the chain. *)
Fixpoint IsKind (err : error) (kind : Kind) : bool :=
  match err with
  | EWrap _ e' _ => IsKind e' kind
  | EApp _ _ oe k _ =>
      bool_decide (k = kind) || match oe with Some e' => IsKind e' kind | None => false end
  | _ => false
  end.

(** ** Theorems *)

(** Wrapping with [fmt.Errorf] is transparent to [errors.Is]. *)
Lemma Is_wrapf pre e t : Is (wrapf pre e) t = Is e t.
Proof. done. Qed.

Lemma Is_wrapS s post t : Is (wrapS s post) t = bool_decide (s = t).
Proof. done. Qed.

#[global] Hint Rewrite Is_wrapf Is_wrapS : go_simpl.

(** A chain of [n] [fmt.Errorf] wrappers around an error. *)
Fixpoint wrap_chain (pres : list string) (e : error) : error :=
  match pres with [] => e | p :: ps => wrapf p (wrap_chain ps e) end.

Lemma Is_wrap_chain pres e t : Is (wrap_chain pres e) t = Is e t.
Proof. by induction pres. Qed.

Lemma sentinel_code_ext e1 e2 :
  (forall t, Is e1 t = Is e2 t) -> sentinel_code e1 = sentinel_code e2.
Proof. intros H. unfold sentinel_code. by rewrite !H. Qed.

Definition is_app (e : error) : bool := match e with EApp _ _ _ _ _ => true | _ => false end.

Definition status_code (e : error) : option code :=
  match e with EStatus c _ => Some c | _ => None end.

Lemma ToStatus_not_app e : is_app e = false -> ToStatus e = ToStatus_switch e.
Proof. by destruct e. Qed.

Lemma sentinel_code_not_ok e c : sentinel_code e = Some c -> c ≠ OK.
Proof. unfold sentinel_code. intros H. repeat case_match; simplify_eq; done. Qed.

Lemma registry_not_ok k en : EntryFor k = Some en -> GRPCCode en ≠ OK.
Proof.
  unfold EntryFor, registry. intros H.
  apply (elem_of_list_to_map_2 registry_list) in H.
  unfold registry_list in H. set_unfold. naive_solver.
Qed.

(** Every non-nil error becomes a gRPC status, and never the success code: a
    failed call is never reported as [OK]. *)
Theorem ToStatus_is_failure err :
  exists c m, ToStatus err = EStatus c m /\ c ≠ OK.
Proof.
  assert (Hsw : exists c m, ToStatus_switch err = EStatus c m /\ c ≠ OK).
  { unfold ToStatus_switch. destruct (sentinel_code err) eqn:Hc; eauto.
    eauto using sentinel_code_not_ok. }
  destruct err; simpl; try done.
  repeat case_match; simplify_eq; eauto using registry_not_ok.
Qed.

(** The gRPC code of a sentinel does not depend on how often and with which
    text it was wrapped on the way up. *)
Theorem ToStatus_wrap_invariant pres p s c :
  sentinel_code (ESentinel s) = Some c ->
  status_code (ToStatus (wrap_chain (p :: pres) (ESentinel s))) = Some c /\
  status_code (ToStatus (ESentinel s)) = Some c.
Proof.
  intros Hc.
  assert (Hcode : sentinel_code (wrap_chain (p :: pres) (ESentinel s)) = Some c).
  { rewrite <- Hc. apply sentinel_code_ext. intros t. apply Is_wrap_chain. }
  split; (rewrite ToStatus_not_app by done); unfold ToStatus_switch;
    [rewrite Hcode | rewrite Hc]; done.
Qed.

Lemma ToStatus_wrap_invariant_witness :
  status_code (ToStatus (wrap_chain ["reserve"; "update stock"] (ESentinel ErrInsufficientStock)))
    = Some FailedPrecondition.
Proof. apply (ToStatus_wrap_invariant ["update stock"] "reserve" ErrInsufficientStock). reflexivity. Defined.

(** The registry and [kindFromGRPC] are mirror images up to the two kinds that
    share a code: an [AppError] built by [E] survives the trip through a gRPC
    status whenever its kind is the canonical one of its code. *)
Theorem status_roundtrip `{GrpcStatusLaws} kind msg en :
  EntryFor kind = Some en -> kindFromGRPC (GRPCCode en) = kind ->
  FromStatus (ToStatus (E kind msg)) = E kind msg.
Proof.
  intros Hen Hk. unfold E, ToStatus. rewrite Hen.
  unfold FromStatus. rewrite status_FromError_status. by rewrite Hk.
Qed.

Lemma status_roundtrip_witness :
  @FromStatus grpc_direct (ToStatus (E KindUnavailable "db down")) = E KindUnavailable "db down".
Proof.
  apply (@status_roundtrip grpc_direct grpc_direct_laws KindUnavailable "db down"
           (MkEntry Unavailable 503 "UNAVAILABLE" true)); reflexivity.
Defined.

(** The kinds that do not survive the trip are exactly the three that share a
    code with a canonical kind. *)
Theorem status_roundtrip_loss :
  filter (fun k => ~ (kindFromGRPC <$> (GRPCCode <$> EntryFor k)) = Some k) registry_list.*1
    = [KindInvalidCredentials; KindConflict; KindInsufficientStock].
Proof. vm_compute. reflexivity. Qed.

(** An [AppError] that is built with an unregistered code is reported as
    [Internal] even when it wraps a classified sentinel; the same sentinel
    wrapped with [fmt.Errorf] keeps its code. *)
Theorem Wrap_unregistered_hides_sentinel s code msg :
  registry !! code = None ->
  status_code (ToStatus (Wrap (ESentinel s) code msg)) = Some Internal /\
  Is (Wrap (ESentinel s) code msg) s = true.
Proof.
  intros Hc. unfold Wrap, ParseKind. rewrite Hc. split.
  - done.
  - simpl. by apply bool_decide_eq_true.
Qed.

Lemma Wrap_unregistered_hides_sentinel_witness :
  status_code (ToStatus (Wrap (ESentinel ErrInvalidArgument) "invalid_quantity"
                           "quantity must be positive")) = Some Internal.
Proof. by apply Wrap_unregistered_hides_sentinel. Defined.

(** [WithDetail] changes the detail only: kind, code and the chain are kept. *)
Theorem WithDetail_keeps_chain err detail t :
  exists e', WithDetail (Some err) detail = Some e' /\ Is e' t = Is err t.
Proof. destruct err as [| | | | |c m [] k d| |]; simpl; eauto. Qed.
