(* ===== verification/Effects.v ===== *)
(** * Effects: failing input/output, clocks, fresh identifiers, transactions

    A Go method that talks to a database or to another service is a function
    of an [oracle] (what the environment does at each tick) and of a [world]
    (the tick counter and the stores the method reads and writes).  Every
    input/output operation consults the oracle: it may succeed, fail before
    its effect, or fail after its effect (the reply is lost).  Deadlines and
    cancellations of a [context.Context] show up as such failures.  A theorem
    that quantifies over the oracle therefore holds for every pattern of
    failures.

    [RunTx] and [Run] are [pkg/txmanager]. *)
From S2P Require Import Prelude Errors.

(** ** Postgres errors of the modelled statements *)

Definition pg_check_violation : error := EPg "23514" "new row violates check constraint".
Definition pg_unique_violation : error := EPg "23505" "duplicate key value violates unique constraint".
Definition pg_foreign_key_violation : error := EPg "23503" "insert or update violates foreign key constraint".
Definition pg_out_of_range : error := EPg "22003" "integer out of range".
Definition pg_negative_limit : error := EPg "2201W" "LIMIT must not be negative".

(** The characters of a UTF-8 string: bytes that are not continuation bytes. *)
Fixpoint rune_count (s : string) : nat :=
  match s with
  | EmptyString => 0
  | String c s' => (if Nat.eqb (Nat.div (Ascii.nat_of_ascii c) 64) 2 then 0 else 1) + rune_count s'
  end.

Definition fits_varchar (n : nat) (s : string) : bool := Nat.leb (rune_count s) n.

Definition pg_too_long : error := EPg "22001" "value too long for type character varying".

(** ** google/uuid, a parameter *)

Class UuidLib := {
  UUID : Type;
  UUID_eq_dec :: EqDecision UUID;
  UUID_countable :: Countable UUID;
  uuid_Nil : UUID;
  uuid_Parse : string -> option UUID;
  (* the text of the error of [uuid.Parse] on a rejected input *)
  uuid_error : string -> string;
  uuid_String : UUID -> string
}.

(** The documented behaviour the services rely on: the printed form parses back,
    and a string of another length than the accepted encodings is rejected. *)
Class UuidLaws `{UuidLib} : Prop := {
  uuid_Parse_String : forall u, uuid_Parse (uuid_String u) = Some u;
  uuid_Parse_length : forall s u, uuid_Parse s = Some u ->
    String.length s = 36%nat \/ String.length s = 45%nat \/
    String.length s = 38%nat \/ String.length s = 32%nat
}.

(** Postgres compares UUIDs bytewise, as their printed forms compare. *)
Definition uuid_le `{UuidLib} (u v : UUID) : Prop := String.leb (uuid_String u) (uuid_String v) = true.

#[global] Instance uuid_le_dec `{UuidLib} : RelDecision uuid_le.
Proof. intros u v. unfold uuid_le. apply _. Defined.

Lemma uuid_String_inj `{UuidLaws} u v : uuid_String u = uuid_String v -> u = v.
Proof. intros Huv. apply (f_equal uuid_Parse) in Huv. rewrite !uuid_Parse_String in Huv. by simplify_eq. Qed.

Lemma uuid_String_nonempty `{UuidLaws} u : uuid_String u ≠ "".
Proof.
  intros Hu. pose proof (uuid_Parse_length _ _ (uuid_Parse_String u)) as Hl.
  rewrite Hu in Hl. simpl in Hl. lia.
Qed.

(** The canonical 36-byte form: lower-case hex digits and dashes at fixed places. *)
Definition is_hex (c : Ascii.ascii) : bool :=
  let n := Ascii.nat_of_ascii c in
  (Nat.leb 48 n && Nat.leb n 57) || (Nat.leb 97 n && Nat.leb n 102).

Definition is_dash (c : Ascii.ascii) : bool := Nat.eqb (Ascii.nat_of_ascii c) 45.

Fixpoint canonical_from (i : nat) (s : string) : bool :=
  match s with
  | EmptyString => Nat.eqb i 36
  | String c s' =>
      (if Nat.eqb i 8 || Nat.eqb i 13 || Nat.eqb i 18 || Nat.eqb i 23
       then is_dash c else is_hex c) && canonical_from (S i) s'
  end.

Definition canonical (s : string) : Prop := canonical_from 0 s.

(** A concrete instance of the library, used by the witnesses: a UUID is its
    canonical text. *)
Definition text_uuid : Type := {s : string | canonical s}.

#[global] Instance text_uuid_eq_dec : EqDecision text_uuid.
Proof. apply sig_eq_dec; apply _. Defined.

#[global] Instance text_uuid_countable : Countable text_uuid.
Proof. unfold text_uuid, canonical. apply _. Defined.

Definition text_uuid_parse (s : string) : option text_uuid :=
  match decide (canonical_from 0 s) with left H => Some (exist _ s H) | right _ => None end.

Definition uuid_nil_text : text_uuid := exist _ "00000000-0000-0000-0000-000000000000" I.

Definition uuid_text : UuidLib := {|
  UUID := text_uuid;
  uuid_Nil := uuid_nil_text;
  uuid_Parse := text_uuid_parse;
  uuid_error s := "invalid UUID length: " +:+ pretty (N.of_nat (String.length s));
  uuid_String := proj1_sig
|}.

Lemma canonical_from_length i s :
  canonical_from i s = true -> (i + String.length s = 36)%nat.
Proof.
  revert i. induction s as [|c s IH]; intros i; simpl.
  - intros ->%Nat.eqb_eq. lia.
  - intros [_ H]%andb_prop. apply IH in H. lia.
Qed.

Lemma uuid_text_laws : @UuidLaws uuid_text.
Proof.
  constructor.
  - intros [s Hs]. unfold uuid_Parse, uuid_String. simpl. unfold text_uuid_parse.
    case_match; [|done]. f_equal. by apply (sig_eq_pi _).
  - intros s u. unfold uuid_Parse. simpl. unfold text_uuid_parse. destruct (decide (canonical_from 0 s)) as [Hc|Hc]; [|done].
    intros _. left. apply Is_true_eq_true in Hc as Hc'. apply canonical_from_length in Hc'. done.
Qed.

(** A sample of identifiers for concrete runs: the last digits vary. *)
Definition uuid_sample (n : nat) : text_uuid :=
  match n with
  | 0%nat => exist _ "00000000-0000-0000-0000-000000000001" I
  | 1%nat => exist _ "00000000-0000-0000-0000-000000000002" I
  | 2%nat => exist _ "00000000-0000-0000-0000-000000000003" I
  | 3%nat => exist _ "00000000-0000-0000-0000-000000000004" I
  | 4%nat => exist _ "00000000-0000-0000-0000-000000000005" I
  | 5%nat => exist _ "00000000-0000-0000-0000-000000000006" I
  | 6%nat => exist _ "00000000-0000-0000-0000-000000000007" I
  | 7%nat => exist _ "00000000-0000-0000-0000-000000000008" I
  | 8%nat => exist _ "00000000-0000-0000-0000-000000000009" I
  | 9%nat => exist _ "00000000-0000-0000-0000-00000000000a" I
  | 10%nat => exist _ "00000000-0000-0000-0000-00000000000b" I
  | 11%nat => exist _ "00000000-0000-0000-0000-00000000000c" I
  | 12%nat => exist _ "00000000-0000-0000-0000-00000000000d" I
  | 13%nat => exist _ "00000000-0000-0000-0000-00000000000e" I
  | 14%nat => exist _ "00000000-0000-0000-0000-00000000000f" I
  | 15%nat => exist _ "00000000-0000-0000-0000-000000000010" I
  | 16%nat => exist _ "00000000-0000-0000-0000-000000000011" I
  | 17%nat => exist _ "00000000-0000-0000-0000-000000000012" I
  | 18%nat => exist _ "00000000-0000-0000-0000-000000000013" I
  | 19%nat => exist _ "00000000-0000-0000-0000-000000000014" I
  | 20%nat => exist _ "00000000-0000-0000-0000-000000000015" I
  | 21%nat => exist _ "00000000-0000-0000-0000-000000000016" I
  | 22%nat => exist _ "00000000-0000-0000-0000-000000000017" I
  | 23%nat => exist _ "00000000-0000-0000-0000-000000000018" I
  | 24%nat => exist _ "00000000-0000-0000-0000-000000000019" I
  | 25%nat => exist _ "00000000-0000-0000-0000-00000000001a" I
  | 26%nat => exist _ "00000000-0000-0000-0000-00000000001b" I
  | 27%nat => exist _ "00000000-0000-0000-0000-00000000001c" I
  | 28%nat => exist _ "00000000-0000-0000-0000-00000000001d" I
  | 29%nat => exist _ "00000000-0000-0000-0000-00000000001e" I
  | 30%nat => exist _ "00000000-0000-0000-0000-00000000001f" I
  | 31%nat => exist _ "00000000-0000-0000-0000-000000000020" I
  | 32%nat => exist _ "00000000-0000-0000-0000-000000000021" I
  | 33%nat => exist _ "00000000-0000-0000-0000-000000000022" I
  | 34%nat => exist _ "00000000-0000-0000-0000-000000000023" I
  | 35%nat => exist _ "00000000-0000-0000-0000-000000000024" I
  | 36%nat => exist _ "00000000-0000-0000-0000-000000000025" I
  | 37%nat => exist _ "00000000-0000-0000-0000-000000000026" I
  | 38%nat => exist _ "00000000-0000-0000-0000-000000000027" I
  | 39%nat => exist _ "00000000-0000-0000-0000-000000000028" I
  | 40%nat => exist _ "00000000-0000-0000-0000-000000000029" I
  | 41%nat => exist _ "00000000-0000-0000-0000-00000000002a" I
  | 42%nat => exist _ "00000000-0000-0000-0000-00000000002b" I
  | 43%nat => exist _ "00000000-0000-0000-0000-00000000002c" I
  | 44%nat => exist _ "00000000-0000-0000-0000-00000000002d" I
  | 45%nat => exist _ "00000000-0000-0000-0000-00000000002e" I
  | 46%nat => exist _ "00000000-0000-0000-0000-00000000002f" I
  | 47%nat => exist _ "00000000-0000-0000-0000-000000000030" I
  | _ => exist _ "00000000-0000-0000-0000-0000000000ff" I
  end.

(** ** Oracle, world and the effect monad *)

Inductive fault :=
| FNone
| FBefore (e : error)
| FAfter (e : error).

Section Effects.
Context `{U : UuidLib}.

(** [o_fault n] is what happens to the operation of tick [n]; [o_now] is
    [time.Now] in nanoseconds; [o_uuid] is [uuid.New]; [o_done] tells whether a
    [select] on [ctx.Done()] at tick [n] fires, and with which [ctx.Err()];
    [o_rand] is [rand.Float64() < 0.9] of the payment simulator. *)
Record oracle := Oracle {
  o_fault : nat -> fault;
  o_now : nat -> Z;
  o_uuid : nat -> UUID;
  o_done : nat -> option error;
  o_rand : nat -> bool
}.

Record world (S : Type) := World { w_tick : nat; w_st : S }.
#[global] Arguments World {S}.
#[global] Arguments w_tick {S}.
#[global] Arguments w_st {S}.

Definition M (S A : Type) : Type := oracle -> world S -> (error + A) * world S.

Definition ret {S A} (a : A) : M S A := fun _ w => (inr a, w).

Definition throw {S A} (e : error) : M S A := fun _ w => (inl e, w).

Definition bind {S A B} (m : M S A) (k : A -> M S B) : M S B :=
  fun o w => match m o w with
             | (inl e, w') => (inl e, w')
             | (inr a, w') => k a o w'
             end.

(** Go code that looks at the error value: [r, err := m]. *)
Definition attempt {S A} (m : M S A) : M S (error + A) :=
  fun o w => let '(r, w') := m o w in (inr r, w').

(** [return fmt.Errorf("pre: %w", err)]. *)
Definition wrap_err {S A} (f : error -> error) (m : M S A) : M S A :=
  fun o w => match m o w with
             | (inl e, w') => (inl (f e), w')
             | (inr a, w') => (inr a, w')
             end.

Definition next {S} (w : world S) : world S := World (Datatypes.S (w_tick w)) (w_st w).

(** [time.Now().UTC()]. *)
Definition now {S} : M S Z := fun o w => (inr (o_now o (w_tick w)), next w).

(** [uuid.New()]. *)
Definition new_uuid {S} : M S UUID := fun o w => (inr (o_uuid o (w_tick w)), next w).

(** [ctx.Err()] when the select takes the [ctx.Done()] branch. *)
Definition ctx_done {S} : M S (option error) := fun o w => (inr (o_done o (w_tick w)), next w).

Definition rand_below_09 {S} : M S bool := fun o w => (inr (o_rand o (w_tick w)), next w).

(** One input/output operation with effect [f] on the stores. *)
Definition io {S A} (f : S -> (error + A) * S) : M S A :=
  fun o w =>
    match o_fault o (w_tick w) with
    | FNone => let '(r, s) := f (w_st w) in (r, World (Datatypes.S (w_tick w)) s)
    | FBefore e => (inl e, next w)
    | FAfter e => let '(_, s) := f (w_st w) in (inl e, World (Datatypes.S (w_tick w)) s)
    end.

(** A read: no effect.  [g] is what the caller wraps an error of the driver with; the
    errors of [f], such as a missing row, are returned as they are. *)
Definition read_with {S A} (g : error -> error) (f : S -> error + A) : M S A :=
  fun o w => match o_fault o (w_tick w) with FNone => (f (w_st w), next w) | FBefore e | FAfter e => (inl (g e), next w) end.

(** A call of another service: the network may lose the request or the reply;
    otherwise the handler [m] runs, with failures of its own. *)
Definition rpc {S A} (m : M S A) : M S A :=
  fun o w =>
    match o_fault o (w_tick w) with
    | FNone => m o (next w)
    | FBefore e => (inl e, next w)
    | FAfter e => let '(_, w') := m o (next w) in (inl e, w')
    end.

(** ** Transactions: [pkg/txmanager]

    [pool.Begin] may fail; an error of [fn] or of [Commit] leaves the deferred
    [Rollback] to restore the stores, except that a commit whose reply is lost
    has taken effect.  The resource [T] that the factory builds from the
    transaction handle is the repository itself: its operations act on the
    stores of the world, which hold the transaction's view while [fn] runs. *)
Definition Run {S A} (fn : M S A) : M S A :=
  fun o w =>
    match o_fault o (w_tick w) with
    | FBefore e | FAfter e => (inl (wrapf "begin tx" e), next w)
    | FNone =>
        match fn o (next w) with
        | (inl e, w1) => (inl e, World (w_tick w1) (w_st w))
        | (inr a, w1) =>
            match o_fault o (w_tick w1) with
            | FNone => (inr a, next w1)
            | FBefore e => (inl (wrapf "commit tx" e), World (Datatypes.S (w_tick w1)) (w_st w))
            | FAfter e => (inl (wrapf "commit tx" e), next w1)
            end
        end
    end.

(** The low-level variant with the raw handle has the same body. *)
Definition RunTx {S A} (fn : M S A) : M S A := Run fn.
End Effects.

(** A query; and one whose driver errors are wrapped with [msg]. *)
Notation read := (read_with (fun e => e)).
Notation read_as msg := (read_with (wrapf msg)).

Notation "'let*' x ':=' m 'in' k" := (bind m (fun x => k))
  (at level 10, x binder, m at level 100, k at level 200,
   format "'let*'  x  ':='  m  'in' '//' k") : go_scope.
Notation "'do*' m 'in' k" := (bind m (fun _ => k))
  (at level 10, m at level 100, k at level 200,
   format "'do*'  m  'in' '//' k") : go_scope.

(** An environment without failures. *)
Definition no_faults `{UuidLib} (o : oracle) : Prop :=
  (forall n, o_fault o n = FNone) /\ (forall n, o_done o n = None).

(** ** Lifting an operation on a part of the stores *)

Record lens (S T : Type) := Lens { l_get : S -> T; l_put : T -> S -> S }.
Arguments Lens {S T}.
Arguments l_get {S T}.
Arguments l_put {S T}.

Class LensLaws {S T} (l : lens S T) : Prop := {
  l_get_put : forall t s, l_get l (l_put l t s) = t;
  l_put_get : forall s, l_put l (l_get l s) s = s;
  l_put_put : forall t1 t2 s, l_put l t1 (l_put l t2 s) = l_put l t1 s
}.

Definition zoom `{UuidLib} {S T A} (l : lens S T) (m : M T A) : M S A :=
  fun o w =>
    let '(r, w') := m o (World (w_tick w) (l_get l (w_st w))) in
    (r, World (w_tick w') (l_put l (w_st w') (w_st w))).

(** ** Proof rules *)

Section Rules.
Context `{U : UuidLib}.
Implicit Types (o : oracle).

(** [pres I m]: the operation keeps [I] whatever the environment does. *)
Definition pres {S A} (I : S -> Prop) (m : M S A) : Prop :=
  forall o w, I (w_st w) -> I (w_st (snd (m o w))).

Lemma pres_ret {S A} (I : S -> Prop) (a : A) : pres I (ret a).
Proof. by intros o w. Qed.

Lemma pres_throw {S A} (I : S -> Prop) e : pres I (@throw _ S A e).
Proof. by intros o w. Qed.

Lemma pres_bind {S A B} (I : S -> Prop) (m : M S A) (k : A -> M S B) :
  pres I m -> (forall a, pres I (k a)) -> pres I (bind m k).
Proof.
  intros Hm Hk o w HI. unfold bind. specialize (Hm o w HI).
  destruct (m o w) as [[e|a] w']; simpl in *; [done|]. by apply Hk.
Qed.

Lemma pres_attempt {S A} (I : S -> Prop) (m : M S A) : pres I m -> pres I (attempt m).
Proof.
  intros Hm o w HI. unfold attempt. specialize (Hm o w HI). by destruct (m o w).
Qed.

Lemma pres_wrap_err {S A} (I : S -> Prop) f (m : M S A) : pres I m -> pres I (wrap_err f m).
Proof.
  intros Hm o w HI. unfold wrap_err. specialize (Hm o w HI). by destruct (m o w) as [[] ?].
Qed.

Lemma pres_now {S} (I : S -> Prop) : pres I (@now _ S).
Proof. by intros o w. Qed.

Lemma pres_new_uuid {S} (I : S -> Prop) : pres I (@new_uuid _ S).
Proof. by intros o w. Qed.

Lemma pres_ctx_done {S} (I : S -> Prop) : pres I (@ctx_done _ S).
Proof. by intros o w. Qed.

Lemma pres_rand {S} (I : S -> Prop) : pres I (@rand_below_09 _ S).
Proof. by intros o w. Qed.

Lemma pres_io {S A} (I : S -> Prop) (f : S -> (error + A) * S) :
  (forall s, I s -> I (snd (f s))) -> pres I (io f).
Proof.
  intros Hf o w HI. unfold io. specialize (Hf (w_st w) HI).
  destruct (o_fault o (w_tick w)); simpl; try done; by destruct (f (w_st w)).
Qed.

Lemma pres_read {S A g} (I : S -> Prop) (f : S -> error + A) : pres I (read_with g f).
Proof. intros o w HI. unfold read_with. by destruct (o_fault o (w_tick w)). Qed.

Lemma pres_rpc {S A} (I : S -> Prop) (m : M S A) : pres I m -> pres I (rpc m).
Proof.
  intros Hm o w HI. unfold rpc. specialize (Hm o (next w) HI).
  destruct (o_fault o (w_tick w)); [done|done|]. by destruct (m o (next w)).
Qed.

Lemma rpc_ok {S A} (m : M S A) o w a w' : rpc m o w = (inr a, w') -> m o (next w) = (inr a, w').
Proof. unfold rpc. destruct (o_fault o (w_tick w)); [done|done|]. by destruct (m o (next w)). Qed.

Lemma rpc_no_faults {S A} (m : M S A) o w : no_faults o -> rpc m o w = m o (next w).
Proof. intros [Hf _]. unfold rpc. by rewrite Hf. Qed.

(** A transaction keeps [I] when a successful body re-establishes it: a failing
    body is rolled back. *)
Definition ok_pres {S A} (I : S -> Prop) (m : M S A) : Prop :=
  forall o w a w', I (w_st w) -> m o w = (inr a, w') -> I (w_st w').

Lemma pres_ok_pres {S A} (I : S -> Prop) (m : M S A) : pres I m -> ok_pres I m.
Proof. intros Hm o w a w' HI Hrun. specialize (Hm o w HI). by rewrite Hrun in Hm. Qed.

Lemma pres_Run {S A} (I : S -> Prop) (fn : M S A) : ok_pres I fn -> pres I (Run fn).
Proof.
  intros Hfn o w HI. unfold Run.
  destruct (o_fault o (w_tick w)); simpl; try done.
  destruct (fn o (next w)) as [[e|a] w1] eqn:Hrun; simpl; [done|].
  assert (I (w_st w1)) by (eapply Hfn; [|exact Hrun]; done).
  by destruct (o_fault o (w_tick w1)).
Qed.

(** Atomicity: the stores after a transaction are the initial ones or those of a
    body that succeeded; and a success is always a committed body. *)
Lemma Run_atomic {S A} (fn : M S A) o w r w' :
  Run fn o w = (r, w') ->
  w_st w' = w_st w \/
  exists a w1, fn o (next w) = (inr a, w1) /\ w_st w' = w_st w1.
Proof.
  unfold Run. intros H.
  destruct (o_fault o (w_tick w)); simplify_eq/=; try (by left).
  destruct (fn o (next w)) as [[e|a] w1] eqn:Hrun; simplify_eq/=; [by left|].
  destruct (o_fault o (w_tick w1)); simplify_eq/=; eauto.
Qed.

Lemma Run_ok {S A} (fn : M S A) o w a w' :
  Run fn o w = (inr a, w') ->
  exists w1, fn o (next w) = (inr a, w1) /\ w_st w' = w_st w1.
Proof.
  unfold Run. intros H.
  destruct (o_fault o (w_tick w)); simplify_eq/=.
  destruct (fn o (next w)) as [[e|b] w1] eqn:Hrun; simplify_eq/=.
  destruct (o_fault o (w_tick w1)); simplify_eq/=; eauto.
Qed.

Lemma Run_no_faults {S A} (fn : M S A) o w :
  no_faults o ->
  Run fn o w = match fn o (next w) with
               | (inl e, w1) => (inl e, World (w_tick w1) (w_st w))
               | (inr a, w1) => (inr a, next w1)
               end.
Proof.
  intros [Hf _]. unfold Run. rewrite !Hf.
  destruct (fn o (next w)) as [[e|a] w1]; [done|]. by rewrite Hf.
Qed.

Lemma io_no_faults {S A} (f : S -> (error + A) * S) o w :
  no_faults o -> io f o w = let '(r, s) := f (w_st w) in (r, World (Datatypes.S (w_tick w)) s).
Proof. intros [Hf _]. unfold io. by rewrite Hf. Qed.

Lemma read_no_faults {S A g} (f : S -> error + A) o w :
  no_faults o -> read_with g f o w = (f (w_st w), next w).
Proof. intros [Hf _]. unfold read_with. by rewrite Hf. Qed.

(** A read never changes the stores, and its successful result is the value. *)
Lemma read_inv {S A g} (f : S -> error + A) o w r w' :
  read_with g f o w = (r, w') ->
  w_st w' = w_st w /\ (forall a, r = inr a -> f (w_st w) = inr a).
Proof.
  unfold read_with. intros H. destruct (o_fault o (w_tick w)); simplify_eq/=; split; naive_solver.
Qed.

(** A successful operation has had its effect. *)
Lemma io_ok {S A} (f : S -> (error + A) * S) o w a w' :
  io f o w = (inr a, w') -> f (w_st w) = (inr a, w_st w').
Proof.
  unfold io. intros H. destruct (o_fault o (w_tick w)); simplify_eq/=;
    destruct (f (w_st w)); by simplify_eq/=.
Qed.

Lemma io_inv {S A} (f : S -> (error + A) * S) o w r w' :
  io f o w = (r, w') -> w_st w' = w_st w \/ w_st w' = snd (f (w_st w)).
Proof.
  unfold io. intros H. destruct (o_fault o (w_tick w)); simplify_eq/=; eauto;
    destruct (f (w_st w)); simplify_eq/=; eauto.
Qed.

Lemma bind_ok {S A B} (m : M S A) (k : A -> M S B) o w b w' :
  bind m k o w = (inr b, w') -> exists a w1, m o w = (inr a, w1) /\ k a o w1 = (inr b, w').
Proof. unfold bind. destruct (m o w) as [[e|a] w1]; naive_solver. Qed.

Lemma wrap_err_ok {S A} f (m : M S A) o w a w' :
  wrap_err f m o w = (inr a, w') -> m o w = (inr a, w').
Proof. unfold wrap_err. destruct (m o w) as [[e|b] w1]; naive_solver. Qed.

Lemma pres_zoom {S T A} (l : lens S T) `{!LensLaws l} (I : T -> Prop) (m : M T A) :
  pres I m -> pres (fun s => I (l_get l s)) (zoom l m).
Proof.
  intros Hm o w HI. unfold zoom.
  specialize (Hm o (World (w_tick w) (l_get l (w_st w))) HI).
  destruct (m o _) as [r w']. simpl in *. by rewrite l_get_put.
Qed.

(** ** Triples: [Q] after a success, [R] after an error, for every oracle of [O] *)

Definition triple {S A} (O : oracle -> Prop) (P : S -> Prop) (m : M S A) (Q : A -> S -> Prop) (R : S -> Prop) : Prop :=
  forall o w, O o -> P (w_st w) ->
    match m o w with
    | (inr a, w') => Q a (w_st w')
    | (inl _, w') => R (w_st w')
    end.

Section Triples.
Context {S : Type} (O : oracle -> Prop).
Implicit Types (P R : S -> Prop).

Lemma triple_conseq {A} P P' (m : M S A) (Q Q' : A -> S -> Prop) R R' :
  triple O P' m Q' R' -> (forall s, P s -> P' s) -> (forall a s, Q' a s -> Q a s) -> (forall s, R' s -> R s) ->
  triple O P m Q R.
Proof.
  intros Hm HP HQ HR o w Ho H. specialize (Hm o w Ho (HP _ H)). destruct (m o w) as [[e|a] w']; auto.
Qed.

Lemma triple_ret {A} (a : A) (Q : A -> S -> Prop) R : triple O (Q a) (ret a) Q R.
Proof. by intros o w. Qed.

Lemma triple_throw {A} e (Q : A -> S -> Prop) R : triple O R (throw e) Q R.
Proof. by intros o w. Qed.

Lemma triple_bind {A B} P (m : M S A) (k : A -> M S B) Q Q' R :
  triple O P m Q R -> (forall a, triple O (Q a) (k a) Q' R) -> triple O P (bind m k) Q' R.
Proof.
  intros Hm Hk o w Ho HP. unfold bind. specialize (Hm o w Ho HP).
  destruct (m o w) as [[e|a] w']; [done|]. by apply Hk.
Qed.

(** The last statement of a block returns a value computed from the result. *)
Lemma triple_bind_ret {A B} P (m : M S A) (f : A -> B) (Q : B -> S -> Prop) R :
  triple O P m (fun a => Q (f a)) R -> triple O P (bind m (fun a => ret (f a))) Q R.
Proof. intros Hm. eapply triple_bind; [exact Hm|]. intros a. apply (triple_ret (f a)). Qed.

Lemma triple_attempt {A} P (m : M S A) Q R R' :
  triple O P m Q R -> triple O P (attempt m) (fun r s => match r with inr a => Q a s | inl _ => R s end) R'.
Proof.
  intros Hm o w Ho HP. unfold attempt. specialize (Hm o w Ho HP). by destruct (m o w) as [[e|a] w'].
Qed.

Lemma triple_wrap_err {A} P f (m : M S A) Q R : triple O P m Q R -> triple O P (wrap_err f m) Q R.
Proof.
  intros Hm o w Ho HP. unfold wrap_err. specialize (Hm o w Ho HP). by destruct (m o w) as [[e|a] w'].
Qed.

Lemma triple_io {A} P (f : S -> (error + A) * S) Q R :
  (forall s, P s -> R s /\ R (snd (f s)) /\ match f s with (inr a, s') => Q a s' | (inl _, s') => R s' end) ->
  triple O P (io f) Q R.
Proof.
  intros Hf o w _ HP. unfold io. destruct (Hf _ HP) as (H1 & H2 & H3).
  destruct (o_fault o (w_tick w)); simpl; [| done |]; destruct (f (w_st w)) as [[e'|a] s']; done.
Qed.

Lemma triple_read {A g} P (f : S -> error + A) Q R :
  (forall s, P s -> R s) -> (forall s a, P s -> f s = inr a -> Q a s) -> triple O P (read_with g f) Q R.
Proof.
  intros HR HQ o w Ho HP. unfold read_with. destruct (o_fault o (w_tick w)); simpl; [|by apply HR..].
  destruct (f (w_st w)) as [e|a] eqn:Hf; auto.
Qed.

(** Operations that leave the stores alone. *)
Lemma triple_now P R : triple O P (@now _ S) (fun _ => P) R.
Proof. by intros o w. Qed.

Lemma triple_new_uuid P R : triple O P (@new_uuid _ S) (fun _ => P) R.
Proof. by intros o w. Qed.

Lemma triple_ctx_done P R : triple O P (@ctx_done _ S) (fun _ => P) R.
Proof. by intros o w. Qed.

Lemma triple_pres {A} I (m : M S A) : pres I m -> triple O I m (fun _ => I) I.
Proof. intros Hm o w _ HI. specialize (Hm o w HI). by destruct (m o w) as [[e|a] w']. Qed.

Lemma triple_frame {A} (I : S -> Prop) P (m : M S A) Q R :
  pres I m -> triple O P m Q R ->
  triple O (fun s => P s /\ I s) m (fun a s => Q a s /\ I s) (fun s => R s /\ I s).
Proof.
  intros Hi Hm o w Ho [HP HI]. specialize (Hm o w Ho HP). specialize (Hi o w HI).
  by destruct (m o w) as [[e|a] w'].
Qed.

Lemma triple_pure {A} (C : Prop) P (m : M S A) Q R :
  (C -> triple O P m Q R) -> triple O (fun s => C /\ P s) m Q R.
Proof. intros Hm o w Ho [HC HP]. by apply Hm. Qed.

(** What a run from a state of [P] leaves in the stores. *)
Lemma triple_final {A} P (m : M S A) Q R o w :
  triple O P m Q R -> O o -> P (w_st w) -> (forall a s, Q a s -> R s) -> R (w_st (snd (m o w))).
Proof. intros Hm Ho HP HQ. specialize (Hm o w Ho HP). destruct (m o w) as [[e|a] w']; simpl; eauto. Qed.
End Triples.

(** Without failures, an operation has its effect. *)
Lemma triple_io_calm {S A} (P : S -> Prop) (f : S -> (error + A) * S) (Q : A -> S -> Prop) (R : S -> Prop) :
  (forall s, P s -> match f s with (inr a, s') => Q a s' | (inl _, s') => R s' end) ->
  triple no_faults P (io f) Q R.
Proof.
  intros Hf o w Ho HP. rewrite (io_no_faults _ _ _ Ho). specialize (Hf _ HP).
  by destruct (f (w_st w)) as [[e|a] s'].
Qed.

Lemma triple_read_calm {S A g} (P : S -> Prop) (f : S -> error + A) (Q : A -> S -> Prop) (R : S -> Prop) :
  (forall s, P s -> match f s with inr a => Q a s | inl _ => R s end) -> triple no_faults P (read_with g f) Q R.
Proof. intros Hf o w Ho HP. rewrite (read_no_faults _ _ _ Ho). specialize (Hf (w_st w) HP). by destruct (f (w_st w)). Qed.

Lemma triple_zoom {S T A} (l : lens S T) `{!LensLaws l} O (P : T -> Prop) (m : M T A) Q R :
  triple O P m Q R ->
  triple O (fun s => P (l_get l s)) (zoom l m) (fun a s => Q a (l_get l s)) (fun s => R (l_get l s)).
Proof.
  intros Hm o w Ho HP. unfold zoom. specialize (Hm o (World (w_tick w) (l_get l (w_st w))) Ho HP).
  destruct (m o _) as [[e|a] w']; simpl in *; by rewrite l_get_put.
Qed.

(** A lifted operation changes only its part. *)
Lemma pres_zoom_other {S T A B} (l : lens S T) (f : S -> B) (m : M T A) b :
  (forall t s, f (l_put l t s) = f s) -> pres (fun s => f s = b) (zoom l m).
Proof. intros Hf o w Hb. unfold zoom. destruct (m o _) as [r w']. simpl. by rewrite Hf. Qed.
End Rules.

#[export] Hint Resolve pres_ret pres_throw pres_attempt pres_wrap_err pres_now pres_new_uuid
  pres_ctx_done pres_rand pres_read : go_pres.
#[export] Hint Extern 5 (pres _ (bind _ _)) => apply pres_bind; [|intros ?] : go_pres.
#[export] Hint Extern 6 (pres _ (match ?x with _ => _ end)) => destruct x : go_pres.

(** [go_run H] takes a successful run of a do-block apart. *)
Ltac go_run H :=
  repeat match type of H with
  | bind _ _ _ _ = (inr _, _) =>
      let a := fresh "a" in let w := fresh "w" in
      let H1 := fresh "Hrun" in
      apply bind_ok in H as (a & w & H1 & H)
  | wrap_err _ _ _ _ = (inr _, _) => apply wrap_err_ok in H
  | ret _ _ _ = _ => unfold ret in H; simplify_eq
  | throw _ _ _ = (inr _, _) => unfold throw in H; discriminate
  end.

(** [go_step] rewrites one operation of a fault-free run. *)
Ltac go_step Ho :=
  first [ rewrite (io_no_faults _ _ _ Ho) | rewrite (read_no_faults _ _ _ Ho)
        | rewrite (Run_no_faults _ _ _ Ho) ].
