(* ===== verification/Auth.v ===== *)
(** * pkg/auth and the auth middleware of pkg/middleware

    Roles and identities, the service-token issuer, the JWT verifier, the
    context accessors of the handlers and the interceptors that put an ident
    into the context.  The JWT library is a parameter. *)
From S2P Require Import Prelude Errors Effects.

(** ** Identities *)

(** [type Role string]. *)
Definition Role := string.
Definition RoleUser : Role := "user".
Definition RoleAdmin : Role := "admin".
Definition RoleService : Role := "service".

Record Identity := MkIdentity {
  UserID : string;
  id_Role : Role;
  AuthorizationHeader : string
}.

(** The dynamic type of the value under [auth.ContextKeyRole]. *)
Inductive role_value := RVRole (r : Role) | RVString (s : string) | RVOther.

(** The values a request context carries: the ident, the two legacy keys, the
    incoming gRPC metadata (the "authorization" values) and the request id. *)
Record Ctx := MkCtx {
  c_identity : option Identity;
  c_user_id : option string;
  c_role : option role_value;
  c_md : option (list string);
  c_outgoing : list string
}.

Definition Background : Ctx := MkCtx None None None None [].

Definition WithIdentity (ctx : Ctx) (id : Identity) : Ctx :=
  MkCtx (Some id) (c_user_id ctx) (c_role ctx) (c_md ctx) (c_outgoing ctx).

Definition IdentityFromContext (ctx : Ctx) : option Identity := c_identity ctx.

Definition GetUserID (ctx : Ctx) : option string :=
  match IdentityFromContext ctx with
  | Some id => Some (UserID id)
  | None => c_user_id ctx
  end.

(** The role and the [ok] flag. *)
Definition GetRole (ctx : Ctx) : Role * bool :=
  match IdentityFromContext ctx with
  | Some id => (id_Role id, true)
  | None =>
      match c_role ctx with
      | None => (RoleUser, false)
      | Some (RVRole r) => (r, true)
      | Some (RVString s) => (s, true)
      | Some RVOther => (RoleUser, false)
      end
  end.

Definition RequireRole (ctx : Ctx) (allowed : list Role) : option error :=
  let '(role, ok) := GetRole ctx in
  if negb ok then Some (EStatus PermissionDenied "missing role")
  else if existsb (fun a => bool_decide (role = a)) allowed then None
  else Some (EStatus PermissionDenied ("role " +:+ role +:+ " not allowed")).

Definition public_endpoints : list string :=
  [ "/user.v1.UserService/Register"; "/user.v1.UserService/Login";
    "/grpc.health.v1.Health/Check"; "/catalog.v1.CatalogService/GetProduct";
    "/catalog.v1.CatalogService/ListProducts"; "/catalog.v1.CatalogService/SearchProducts" ].

Definition isPublicEndpoint (method : string) : bool :=
  existsb (fun p => bool_decide (method = p)) public_endpoints.

(** ** Tokens *)

Record CustomClaims := MkClaims {
  Subject : string;
  Issuer : string;
  Audience : list string;
  cl_ID : string;
  NotBefore : option Z;
  IssuedAt : option Z;
  ExpiresAt : option Z;
  cl_Role : string
}.

#[global] Instance CustomClaims_eq_dec : EqDecision CustomClaims.
Proof. solve_decision. Defined.

(** golang-jwt: signing under an algorithm, and parsing at a point in time with a
    key function that sees the token's algorithm; the boolean is [token.Valid]. *)
Class JwtLib := {
  jwt_SignedString : string -> CustomClaims -> string -> error + string;
  jwt_ParseWithClaims : Z -> string -> (string -> error + string) -> error + (CustomClaims * bool)
}.

Definition time_valid (t : Z) (c : CustomClaims) : bool :=
  match ExpiresAt c with Some e => t <? e | None => true end &&
  match NotBefore c with Some n => n <=? t | None => true end.

(** Documented behaviour: a token signed with a secret parses back to its claims
    under a key function that returns that secret, while its dates are valid. *)
Class JwtLaws `{JwtLib} : Prop := {
  jwt_sign_parse : forall t alg c secret tok keyfunc,
    jwt_SignedString alg c secret = inr tok -> keyfunc alg = inr secret ->
    time_valid t c = true -> jwt_ParseWithClaims t tok keyfunc = inr (c, true)
}.

(** A library that can sign exactly one set of claims: a concrete instance for
    the witnesses. *)
Definition jwt_single (c0 : CustomClaims) (secret0 : string) : JwtLib := {|
  jwt_SignedString alg c secret :=
    if bool_decide (alg = "HS256") && bool_decide (c = c0) && bool_decide (secret = secret0)
    then inr "h.p.s" else inl (EPlain "sign");
  jwt_ParseWithClaims t tok keyfunc :=
    match keyfunc "HS256" with
    | inr secret =>
        if bool_decide (tok = "h.p.s") && bool_decide (secret = secret0) && time_valid t c0
        then inr (c0, true) else inl (EPlain "token is malformed")
    | inl e => inl e
    end
|}.

Lemma jwt_single_laws c0 secret0 : @JwtLaws (jwt_single c0 secret0).
Proof.
  constructor. intros t alg c secret tok keyfunc. simpl.
  destruct (bool_decide (alg = "HS256")) eqn:H1; simpl; [|done].
  destruct (bool_decide (c = c0)) eqn:H2; simpl; [|done].
  destruct (bool_decide (secret = secret0)) eqn:H3; simpl; [|done].
  apply bool_decide_eq_true in H1, H2, H3. intros ? Hk Ht. simplify_eq.
  rewrite Hk, Ht. by rewrite !bool_decide_eq_true_2 by done.
Qed.

Definition audienceContains (aud : list string) (target : string) : bool :=
  existsb (fun a => bool_decide (a = target)) aud.

Definition is_hmac (alg : string) : bool :=
  existsb (fun a => bool_decide (alg = a)) ["HS256"; "HS384"; "HS512"].

Section Tokens.
Context `{U : UuidLib} `{J : JwtLib}.
Context {S : Type}.

Definition hmac_keyfunc (secret alg : string) : error + string :=
  if is_hmac alg then inr secret
  else inl (EPlain ("unexpected signing method: " +:+ alg)).

Definition with_role (c : CustomClaims) (r : string) : CustomClaims :=
  MkClaims (Subject c) (Issuer c) (Audience c) (cl_ID c) (NotBefore c) (IssuedAt c) (ExpiresAt c) r.

Definition parseJWT (tokenStr secret issuer audience : string) : M S CustomClaims :=
  let* t0 := now in
  match jwt_ParseWithClaims t0 tokenStr (hmac_keyfunc secret) with
  | inl err => throw (wrapf "invalid token" err)
  | inr (_, false) => throw (EPlain "invalid token: %!w(<nil>)")
  | inr (claims, true) =>
      if bool_decide (Subject claims = "") then throw (EPlain "missing subject in token")
      else if negb (bool_decide (Issuer claims = issuer)) then throw (EPlain "invalid token issuer")
      else if negb (audienceContains (Audience claims) audience) then throw (EPlain "invalid token audience")
      else if bool_decide (cl_ID claims = "") then throw (EPlain "missing token id")
      else
        let* t1 := now in
        if match NotBefore claims with Some n => t1 <? n | None => false end
        then throw (EPlain "token not valid yet")
        else
          let* t2 := now in
          if match ExpiresAt claims with Some e => e <? t2 | None => false end
          then throw (EPlain "token expired")
          else if bool_decide (cl_Role claims = "") then ret (with_role claims RoleUser)
          else ret claims
  end.

Definition ParseJWT (tokenStr secret : string) : M S CustomClaims :=
  parseJWT tokenStr secret "go-ozon-marketplace" "api-gateway".

Definition ParseBearer (bearer secret : string) : M S CustomClaims :=
  let tokenStr := TrimPrefix bearer "Bearer " in
  if bool_decide (tokenStr = bearer) then throw (EPlain "invalid authorization header format")
  else ParseJWT tokenStr secret.

Record JWTVerifier := MkVerifier { v_secret : string; v_issuer : string; v_audience : string }.

Definition WithIssuer (issuer : string) (v : JWTVerifier) : JWTVerifier :=
  MkVerifier (v_secret v) issuer (v_audience v).

Definition WithAudience (audience : string) (v : JWTVerifier) : JWTVerifier :=
  MkVerifier (v_secret v) (v_issuer v) audience.

Definition NewJWTVerifier (secret : string) (opts : list (JWTVerifier -> JWTVerifier)) : JWTVerifier :=
  foldl (fun v opt => opt v) (MkVerifier secret "go-ozon-marketplace" "api-gateway") opts.

(** The [Verifier] interface, and the JWT implementation of it. *)
Definition Verifier : Type := string -> M S Identity.

Definition Verify (v : JWTVerifier) : Verifier := fun token =>
  let* claims := parseJWT token (v_secret v) (v_issuer v) (v_audience v) in
  ret (MkIdentity (Subject claims) (cl_Role claims) "").

Record ServiceTokenIssuer := MkIssuer { is_secret : string; is_subject : string; is_audience : string }.

Definition NewServiceTokenIssuer (secret subject audience : string) : ServiceTokenIssuer :=
  MkIssuer secret subject audience.

Definition second : Z := 10 ^ 9.
Definition hour : Z := 3600 * 10 ^ 9.

(** [jwt.NewNumericDate]: the library keeps whole seconds. *)
Definition NewNumericDate (t : Z) : Z := t / second * second.

Definition service_claims (i : ServiceTokenIssuer) (jti : UUID) (t : Z) : CustomClaims :=
  MkClaims (is_subject i) "go-ozon-marketplace" [is_audience i] (uuid_String jti)
    None None (Some (NewNumericDate (t + hour))) RoleService.

Definition Issue (i : ServiceTokenIssuer) : M S string :=
  let* jti := new_uuid in
  let* t := now in
  match jwt_SignedString "HS256" (service_claims i jti t) (is_secret i) with
  | inl err => throw (wrapf "sign service token" err)
  | inr signed => ret ("Bearer " +:+ signed)
  end.

(** [metadata.AppendToOutgoingContext(ctx, "authorization", v)]. *)
Definition AppendAuthorization (ctx : Ctx) (v : string) : Ctx :=
  MkCtx (c_identity ctx) (c_user_id ctx) (c_role ctx) (c_md ctx) (c_outgoing ctx ++ [v]).

(** The client interceptors: [invoker] performs the call with the context. *)
Definition ServiceAuthInterceptor {A} (i : ServiceTokenIssuer) (ctx : Ctx) (invoker : Ctx -> M S A) : M S A :=
  let* token := Issue i in
  invoker (AppendAuthorization ctx token).

Definition UserAuthInterceptor {A} (ctx : Ctx) (invoker : Ctx -> M S A) : M S A :=
  match IdentityFromContext ctx with
  | Some id =>
      if bool_decide (AuthorizationHeader id = "") then invoker ctx
      else invoker (AppendAuthorization ctx (AuthorizationHeader id))
  | None => invoker ctx
  end.

Definition AuthUnaryInterceptor {A} (verifier : Verifier) (fullMethod : string) (ctx : Ctx)
    (handler : Ctx -> M S A) : M S A :=
  if isPublicEndpoint fullMethod then handler ctx
  else
    match c_md ctx with
    | None => throw (EStatus Unauthenticated "missing metadata")
    | Some [] => throw (EStatus Unauthenticated "missing authorization header")
    | Some (authHeader :: _) =>
        let tokenStr := TrimPrefix authHeader "Bearer " in
        let* r := attempt (verifier tokenStr) in
        match r with
        | inl err => throw (EStatus Unauthenticated ("invalid token: " +:+ Error err))
        | inr ident => handler (WithIdentity ctx ident)
        end
    end.

(** HTTP: the response is the status the middleware writes, or the next handler's. *)
Definition AuthHTTP (verifier : Verifier) (authHeader : string) (ctx : Ctx)
    (next : Ctx -> M S Z) : M S Z :=
  if bool_decide (authHeader = "") then next ctx
  else
    let tokenStr := TrimPrefix authHeader "Bearer " in
    let* r := attempt (verifier tokenStr) in
    match r with
    | inl _ => ret 401
    | inr ident =>
        next (WithIdentity ctx (MkIdentity (UserID ident) (id_Role ident) authHeader))
    end.
End Tokens.

(** ** Theorems *)

Section Theorems.
Context `{U : UuidLib} `{J : JwtLib}.
Context {S : Type}.

Lemma NewNumericDate_gt t : t - second < NewNumericDate t.
Proof. unfold NewNumericDate, second. pose proof (Z.mod_pos_bound t (10 ^ 9)). pose proof (Z.div_mod t (10 ^ 9)). lia. Qed.

Lemma NewNumericDate_le t : NewNumericDate t <= t.
Proof. unfold NewNumericDate, second. pose proof (Z.mod_pos_bound t (10 ^ 9)). pose proof (Z.div_mod t (10 ^ 9)). lia. Qed.

Lemma GetUserID_WithIdentity ctx id : GetUserID (WithIdentity ctx id) = Some (UserID id).
Proof. done. Qed.

Lemma GetRole_WithIdentity ctx id : GetRole (WithIdentity ctx id) = (id_Role id, true).
Proof. done. Qed.

(** [RequireRole] lets a call through exactly when the context carries a role of
    the allowed list. *)
Theorem RequireRole_spec ctx allowed :
  RequireRole ctx allowed = None <-> (GetRole ctx).2 = true /\ (GetRole ctx).1 ∈ allowed.
Proof.
  unfold RequireRole. destruct (GetRole ctx) as [role []]; simpl; [|naive_solver].
  destruct (existsb _ allowed) eqn:He.
  - apply existsb_exists in He as (a & Hin & Ha%bool_decide_eq_true). subst.
    apply list_elem_of_In in Hin. naive_solver.
  - split; [done|]. intros [_ Hin]. apply not_true_iff_false in He. contradict He.
    apply existsb_exists. exists role. rewrite <- list_elem_of_In.
    split; [done|]. by apply bool_decide_eq_true.
Qed.

(** A verification only reads the clock. *)
Lemma Verify_reads (v : JWTVerifier) token (o : oracle) (w w' : world S) r :
  Verify v token o w = (r, w') -> w_st w' = w_st w.
Proof.
  unfold Verify, parseJWT, bind, now, throw, ret. intros Hrun. simpl in Hrun.
  repeat case_match; simplify_eq/=; done.
Qed.

(** A verified token: what a caller may rely on when [Verify] succeeds. *)
Theorem Verify_sound (v : JWTVerifier) token (o : oracle) (w w' : world S) id :
  Verify v token o w = (inr id, w') ->
  exists claims, jwt_ParseWithClaims (o_now o (w_tick w)) token (hmac_keyfunc (v_secret v)) = inr (claims, true) /\
    UserID id = Subject claims /\ Subject claims ≠ "" /\
    Issuer claims = v_issuer v /\ audienceContains (Audience claims) (v_audience v) = true /\
    cl_ID claims ≠ "" /\ id_Role id ≠ "" /\
    (cl_Role claims ≠ "" -> id_Role id = cl_Role claims) /\ w_st w' = w_st w.
Proof.
  unfold Verify, parseJWT, bind, now, throw, ret. intros Hrun. simpl in Hrun.
  destruct (jwt_ParseWithClaims _ _ _) as [err|[claims []]] eqn:Hparse; [done| |done].
  exists claims. split; [done|].
  repeat (case_bool_decide; simplify_eq/=);
    destruct (audienceContains _ _) eqn:Haud; simplify_eq/=;
    repeat (case_match; simplify_eq/=); repeat case_bool_decide; simplify_eq/=; naive_solver.
Qed.

(** An issued token verifies in every later world. *)
Lemma issued_token_verifies `{!UuidLaws} `{!JwtLaws} {S'} i (o : oracle) (w w1 : world S) (w2 : world S') token
    (Hsec : is_audience i = "api-gateway") :
  is_subject i ≠ "" ->
  Issue i o w = (inr token, w1) -> (w_tick w1 <= w_tick w2)%nat ->
  (forall n m, (n <= m)%nat -> o_now o m <= o_now o n + hour - second) ->
  exists w3, Verify (NewJWTVerifier (is_secret i) []) (TrimPrefix token "Bearer ") o w2
    = (inr (MkIdentity (is_subject i) RoleService ""), w3).
Proof.
  intros Hsub Hissue Htick Htime. unfold Issue in Hissue. go_run Hissue.
  unfold new_uuid in Hrun. unfold now in Hrun0. simplify_eq/=.
  destruct (jwt_SignedString _ _ _) as [?|signed] eqn:Hsign; [done|]. go_run Hissue. simpl in Htick.
  rewrite TrimPrefix_app. unfold Verify, parseJWT, bind, now; simpl.
  assert (Hlt : forall n, (w_tick w2 <= n)%nat -> o_now o n < NewNumericDate (o_now o (Datatypes.S (w_tick w)) + hour)).
  { intros n Hn. eapply Z.le_lt_trans; [|apply NewNumericDate_gt]. apply Htime. lia. }
  rewrite (jwt_sign_parse _ _ _ _ _ _ Hsign); [|done|].
  2:{ unfold time_valid; simpl. rewrite andb_true_r. apply Z.ltb_lt, Hlt. lia. }
  unfold service_claims; simpl.
  rewrite bool_decide_eq_false_2 by done. rewrite Hsec. simpl.
  rewrite bool_decide_eq_false_2 by apply uuid_String_nonempty. simpl.
  match goal with |- context [?a <? ?b] => replace (a <? b) with false by (symmetry; apply Z.ltb_ge, Z.lt_le_incl, Hlt; lia) end.
  simpl. eauto.
Qed.

(** An issue only reads the clock and draws an identifier. *)
Lemma Issue_reads i (o : oracle) (w w' : world S) r : Issue i o w = (r, w') -> w_st w' = w_st w.
Proof. unfold Issue, bind, new_uuid, now, throw, ret. simpl. case_match; by intros [= <- <-]. Qed.

(** A service token verifies, up to an hour less a second after its issue, as the service's
    name with the service role: the issuer and the verifier agree on issuer,
    audience and claims. *)
Theorem service_token_verifies `{!UuidLaws} `{!JwtLaws} i (o : oracle) (w w1 : world S) token
    (Hsec : is_audience i = "api-gateway") :
  is_subject i ≠ "" ->
  Issue i o w = (inr token, w1) ->
  (forall n m, (n <= m)%nat -> o_now o m <= o_now o n + hour - second) ->
  exists w2, Verify (NewJWTVerifier (is_secret i) []) (TrimPrefix token "Bearer ") o w1
    = (inr (MkIdentity (is_subject i) RoleService ""), w2) /\ w_st w2 = w_st w.
Proof.
  intros Hsub Hissue Htime.
  destruct (issued_token_verifies i o w w1 w1 token Hsec Hsub Hissue (le_n _) Htime) as [w3 Hv].
  exists w3. split; [done|]. by rewrite (Verify_reads _ _ _ _ _ _ Hv), (Issue_reads _ _ _ _ _ Hissue).
Qed.

(** No request reaches the handler of a protected method without a verified
    identity in its context; the alternative is the Unauthenticated status. *)
Theorem AuthUnaryInterceptor_protects {A} (verifier : Verifier) method ctx
    (handler : Ctx -> M S A) (o : oracle) w r w' :
  isPublicEndpoint method = false ->
  AuthUnaryInterceptor verifier method ctx handler o w = (r, w') ->
  (exists msg, r = inl (EStatus Unauthenticated msg)) \/
  (exists header rest id w1, c_md ctx = Some (header :: rest) /\
     verifier (TrimPrefix header "Bearer ") o w = (inr id, w1) /\
     handler (WithIdentity ctx id) o w1 = (r, w')).
Proof.
  intros Hpub. unfold AuthUnaryInterceptor. rewrite Hpub.
  destruct (c_md ctx) as [[|h l]|]; unfold throw, bind, attempt; [naive_solver| |naive_solver].
  destruct (verifier (TrimPrefix h "Bearer ") o w) as [[e|id] w1] eqn:Hv; simpl; [naive_solver|].
  intros H. right. eauto 10.
Qed.

(** The public endpoints are the six of the list, and nothing else. *)
Theorem isPublicEndpoint_spec method : isPublicEndpoint method = true <-> method ∈ public_endpoints.
Proof.
  unfold isPublicEndpoint. rewrite existsb_exists. setoid_rewrite <- list_elem_of_In.
  setoid_rewrite bool_decide_eq_true. naive_solver.
Qed.
End Theorems.

(** The fault-free environment of the witnesses: a fixed clock, sample identifiers. *)
Definition calm : @oracle uuid_text :=
  @Oracle uuid_text (fun _ => FNone) (fun _ => 0) uuid_sample (fun _ => None) (fun _ => true).

Lemma calm_no_faults : @no_faults uuid_text calm.
Proof. by split. Qed.

Definition sample_issuer : ServiceTokenIssuer :=
  NewServiceTokenIssuer "a-shared-secret" "order-service" "api-gateway".

Definition sample_claims : CustomClaims := @service_claims uuid_text sample_issuer (uuid_sample 0) 0.

Lemma service_token_verifies_witness :
  exists w2, @Verify uuid_text (jwt_single sample_claims "a-shared-secret") unit
      (NewJWTVerifier "a-shared-secret" []) (TrimPrefix "Bearer h.p.s" "Bearer ") calm (World 2 tt)
    = (inr (MkIdentity "order-service" RoleService ""), w2) /\ w_st w2 = tt.
Proof.
  apply (@service_token_verifies uuid_text (jwt_single sample_claims "a-shared-secret") unit
           uuid_text_laws (jwt_single_laws _ _) sample_issuer calm (World 0 tt) (World 2 tt) "Bearer h.p.s").
  - reflexivity.
  - discriminate.
  - vm_compute. reflexivity.
  - intros n m _. simpl. unfold hour, second. lia.
Defined.

Lemma Verify_sound_witness :
  exists claims, @jwt_ParseWithClaims (jwt_single sample_claims "a-shared-secret") 0 "h.p.s"
      (hmac_keyfunc "a-shared-secret") = inr (claims, true) /\ Subject claims = "order-service".
Proof.
  destruct (@Verify_sound uuid_text (jwt_single sample_claims "a-shared-secret") unit
    (NewJWTVerifier "a-shared-secret" []) "h.p.s" calm (World 2 tt) (World 5 tt)
    (MkIdentity "order-service" RoleService "")) as (c & Hp & Hs & _).
  - vm_compute. reflexivity.
  - exists c. split; [exact Hp|]. simpl in Hs. by rewrite <- Hs.
Defined.

Lemma AuthUnaryInterceptor_protects_witness :
  (exists msg, (inl (EStatus Unauthenticated "missing metadata") : error + unit) = inl (EStatus Unauthenticated msg)) \/
  (exists header rest id w1, c_md Background = Some (header :: rest) /\
     (fun _ => throw (EPlain "no") : M unit Identity) (TrimPrefix header "Bearer ") calm (World 0 tt) = (inr id, w1) /\
     (fun _ => ret tt : M unit unit) (WithIdentity Background id) calm w1
       = (inl (EStatus Unauthenticated "missing metadata"), World 0 tt)).
Proof.
  apply (@AuthUnaryInterceptor_protects uuid_text unit unit (fun _ => throw (EPlain "no"))
    "/order.v1.OrderService/CreateOrder" Background (fun _ => ret tt) calm (World 0 tt)); vm_compute; reflexivity.
Defined.
