(* ===== verification/Inventory.v ===== *)
(** * inventory-service: stock, reservations, ledger

    The Postgres tables [inventory], [reservations] and [inventory_ledger], the
    Redis cache, the repository methods (one definition per SQL statement), the
    use case with its transaction, and the gRPC handler.  A transaction runs
    atomically here; that the row locks its statements take ([UPDATE], [FOR
    UPDATE], the unique index of [reservations]) make every interleaving of
    transactions a sequence of atomic ones is proved in [InventoryRaces.v]. *)
From S2P Require Import Prelude Errors Effects Auth.

Section Inventory.
Context `{U : UuidLib}.

(** ** Domain and stores *)

Record Stock := MkStock { st_ProductID : UUID; Available : Z; Reserved : Z }.

Record ReservationRow := MkRow { r_Quantity : Z; r_Status : string }.

Record LedgerEntry := MkLedger {
  le_ID : UUID;
  le_ProductID : UUID;
  le_OrderID : option UUID;
  le_QuantityChange : Z;
  le_OperationType : string;
  le_CreatedAt : Z
}.

Record InvDB := MkInvDB {
  inventory : gmap UUID (Z * Z);
  reservations : gmap (UUID * UUID) ReservationRow;
  ledger : list LedgerEntry
}.

(** A Redis value: the JSON of a stock, or bytes that do not unmarshal. *)
Inductive cached := CStock (s : Stock) | CGarbage (raw : string).

Record InvSt := MkInvSt {
  i_db : InvDB;
  i_cache : gmap string cached;
  i_events : list (UUID * Z * Z)
}.

Definition set_i_db (d : InvDB) (s : InvSt) : InvSt := MkInvSt d (i_cache s) (i_events s).

Definition set_inventory (i : gmap UUID (Z * Z)) (d : InvDB) : InvDB :=
  MkInvDB i (reservations d) (ledger d).

Definition set_reservations (r : gmap (UUID * UUID) ReservationRow) (d : InvDB) : InvDB :=
  MkInvDB (inventory d) r (ledger d).

Definition set_ledger (l : list LedgerEntry) (d : InvDB) : InvDB :=
  MkInvDB (inventory d) (reservations d) l.

(** ** Repository: one definition per method of InventoryPostgres *)

Definition repo_GetStock (productID : UUID) : M InvSt Stock :=
  read_as "get stock" (fun s => match inventory (i_db s) !! productID with
                 | Some (a, r) => inr (MkStock productID a r)
                 | None => inl (wrapS ErrNotFound "stock")
                 end).

Definition InsertReservation (orderID productID : UUID) (quantity : Z) : M InvSt Z :=
  wrap_err (wrapf "insert reservation") (io (fun s =>
    let d := i_db s in
    if negb (in_int32 quantity) then (inl pg_out_of_range, s)
    else if quantity <=? 0 then (inl pg_check_violation, s)
    else match reservations d !! (orderID, productID) with
         | Some _ => (inr 0, s)
         | None => (inr 1, set_i_db (set_reservations
                     (<[(orderID, productID) := MkRow quantity "reserved"]> (reservations d)) d) s)
         end)).

(** SelectReservation; SelectReservationForUpdate is the same read, with a lock. *)
Definition SelectReservation (orderID productID : UUID) : M InvSt ReservationRow :=
  read_as "select reservation" (fun s => match reservations (i_db s) !! (orderID, productID) with
                 | Some row => inr row
                 | None => inl (wrapS ErrNotFound "reservation not found")
                 end).

Definition SelectReservationForUpdate (orderID productID : UUID) : M InvSt ReservationRow :=
  SelectReservation orderID productID.

Definition UpdateReservationStatus (orderID productID : UUID) (status : string) : M InvSt unit :=
  wrap_err (wrapf "update reservation status") (io (fun s =>
    let d := i_db s in
    match reservations d !! (orderID, productID) with
    | Some row => (inr tt, set_i_db (set_reservations
                    (<[(orderID, productID) := MkRow (r_Quantity row) status]> (reservations d)) d) s)
    | None => (inr tt, s)
    end)).

(** [SET available = available - q, reserved = reserved + q WHERE available >= q],
    under the CHECK constraints and the range of the INT columns. *)
Definition UpdateStockForReserve (productID : UUID) (quantity : Z) : M InvSt Z :=
  wrap_err (wrapf "update stock") (io (fun s =>
    let d := i_db s in
    match inventory d !! productID with
    | Some (a, r) =>
        if quantity <=? a then
          if negb (in_int32 (a - quantity) && in_int32 (r + quantity)) then (inl pg_out_of_range, s)
          else if (a - quantity <? 0) || (r + quantity <? 0) then (inl pg_check_violation, s)
          else (inr 1, set_i_db (set_inventory (<[productID := (a - quantity, r + quantity)]> (inventory d)) d) s)
        else (inr 0, s)
    | None => (inr 0, s)
    end)).

Definition UpdateStockForRelease (productID : UUID) (quantity : Z) : M InvSt Z :=
  wrap_err (wrapf "update stock") (io (fun s =>
    let d := i_db s in
    match inventory d !! productID with
    | Some (a, r) =>
        if quantity <=? r then
          if negb (in_int32 (a + quantity) && in_int32 (r - quantity)) then (inl pg_out_of_range, s)
          else if (a + quantity <? 0) || (r - quantity <? 0) then (inl pg_check_violation, s)
          else (inr 1, set_i_db (set_inventory (<[productID := (a + quantity, r - quantity)]> (inventory d)) d) s)
        else (inr 0, s)
    | None => (inr 0, s)
    end)).

(** The row's id and timestamp are column defaults of the database; a collision
    of the generated id is one of the failures that the oracle decides. *)
Definition InsertLedger (productID orderID : UUID) (quantityChange : Z) (operationType : string) : M InvSt unit :=
  wrap_err (wrapf "insert ledger") (
    let* id := new_uuid in
    let* t := now in
    io (fun s =>
      let d := i_db s in
      if negb (in_int32 quantityChange) then (inl pg_out_of_range, s)
      else (inr tt, set_i_db (set_ledger
             (ledger d ++ [MkLedger id productID (Some orderID) quantityChange operationType t]) d) s))).

Definition ledger_newer (e1 e2 : LedgerEntry) : Prop := le_CreatedAt e2 <= le_CreatedAt e1.

#[global] Instance ledger_newer_dec : RelDecision ledger_newer.
Proof. intros e1 e2. unfold ledger_newer. apply _. Defined.

(** [WHERE product_id = $1 ORDER BY created_at DESC]. *)
Definition repo_GetLedger (productID : UUID) : M InvSt (list LedgerEntry) :=
  wrap_err (wrapf "get ledger") (read (fun s =>
    inr (merge_sort ledger_newer (filter (fun e => le_ProductID e = productID) (ledger (i_db s)))))).

(** ** Use case *)

Definition ledgerOpReserve : string := "LEDGER_OPERATION_RESERVE".
Definition ledgerOpRelease : string := "LEDGER_OPERATION_RELEASE".

Definition cacheKey (productID : UUID) : string := "inventory:" +:+ uuid_String productID.

(** [reserve], the body of the transaction. *)
Definition reserve (productID : UUID) (quantity : Z) (orderID : UUID) : M InvSt unit :=
  let* rowsAffected := InsertReservation orderID productID quantity in
  if rowsAffected =? 0 then
    let* existing := SelectReservationForUpdate orderID productID in
    if negb (bool_decide (r_Status existing = "reserved")) then
      throw (wrapS ErrFailedPrecondition ("reservation already " +:+ r_Status existing))
    else if negb (r_Quantity existing =? quantity) then
      throw (wrapS ErrConflict ("reservation quantity mismatch (expected " +:+ pretty quantity
               +:+ ", found " +:+ pretty (r_Quantity existing) +:+ ")"))
    else ret tt
  else
    let* affected := UpdateStockForReserve productID quantity in
    if affected =? 0 then throw (ESentinel ErrInsufficientStock)
    else InsertLedger productID orderID (- quantity) ledgerOpReserve.

(** [release], the body of the transaction. *)
Definition release (productID : UUID) (quantity : Z) (orderID : UUID) : M InvSt unit :=
  let* reserved := SelectReservationForUpdate orderID productID in
  if bool_decide (r_Status reserved = "released") && (r_Quantity reserved =? quantity) then ret tt
  else if negb (bool_decide (r_Status reserved = "reserved")) then
    throw (wrapS ErrFailedPrecondition ("reservation already " +:+ r_Status reserved))
  else if negb (r_Quantity reserved =? quantity) then
    throw (wrapS ErrConflict ("release quantity mismatch (reserved " +:+ pretty (r_Quantity reserved)
             +:+ ", requested " +:+ pretty quantity +:+ ")"))
  else
    let* affected := UpdateStockForRelease productID quantity in
    if affected =? 0 then throw (ESentinel ErrInsufficientStock)
    else
      do* UpdateReservationStatus orderID productID "released" in
      InsertLedger productID orderID quantity ledgerOpRelease.

(** Redis [SET key value]; its error is discarded by every caller. *)
Definition redis_Set (key : string) (v : cached) : M InvSt unit :=
  io (fun s => (inr tt, MkInvSt (i_db s) (<[key := v]> (i_cache s)) (i_events s))).

Definition redis_Get (key : string) : M InvSt cached :=
  read (fun s => match i_cache s !! key with Some v => inr v | None => inl (EPlain "redis: nil") end).

Definition redis_Publish (ev : UUID * Z * Z) : M InvSt unit :=
  io (fun s => (inr tt, MkInvSt (i_db s) (i_cache s) (i_events s ++ [ev]))).

(** [redis] tells whether the client is configured. *)
Definition writeStockToCache (redis : bool) (productID : UUID) : M InvSt unit :=
  if negb redis then ret tt
  else
    let* r := attempt (repo_GetStock productID) in
    match r with
    | inl _ => ret tt
    | inr stock => do* attempt (redis_Set (cacheKey productID) (CStock stock)) in ret tt
    end.

Definition publishInventoryEvent (redis : bool) (productID : UUID) : M InvSt unit :=
  if negb redis then ret tt
  else
    let* r := attempt (repo_GetStock productID) in
    match r with
    | inl _ => ret tt
    | inr stock => do* attempt (redis_Publish (productID, Available stock, Reserved stock)) in ret tt
    end.

Definition GetStock (redis : bool) (productID : UUID) : M InvSt Stock :=
  let key := cacheKey productID in
  let fetch :=
    let* stock := wrap_err (wrapf "get stock") (repo_GetStock productID) in
    if redis then do* attempt (redis_Set key (CStock stock)) in ret stock else ret stock in
  if redis then
    let* v := attempt (redis_Get key) in
    match v with
    | inr (CStock stock) => ret stock
    | _ => fetch
    end
  else fetch.

Definition Reserve (redis : bool) (productID : UUID) (quantity : Z) (orderID : string) : M InvSt unit :=
  if quantity <=? 0 then
    throw (Wrap (ESentinel ErrInvalidArgument) "invalid_quantity" "quantity must be positive")
  else match uuid_Parse orderID with
  | None => throw (wrapf "invalid order_id" (EPlain (uuid_error orderID)))
  | Some orderUUID =>
      do* wrap_err (wrapf "reserve") (Run (reserve productID quantity orderUUID)) in
      do* writeStockToCache redis productID in
      publishInventoryEvent redis productID
  end.

Definition Release (redis : bool) (productID : UUID) (quantity : Z) (orderID : string) : M InvSt unit :=
  if quantity <=? 0 then
    throw (Wrap (ESentinel ErrInvalidArgument) "invalid_quantity" "quantity must be positive")
  else match uuid_Parse orderID with
  | None => throw (wrapf "invalid order_id" (EPlain (uuid_error orderID)))
  | Some orderUUID =>
      do* wrap_err (wrapf "release") (Run (release productID quantity orderUUID)) in
      do* writeStockToCache redis productID in
      publishInventoryEvent redis productID
  end.

Definition GetLedger (productID : UUID) : M InvSt (list LedgerEntry) := repo_GetLedger productID.

(** ** gRPC handler *)

Definition mapError (err : error) : error := ToStatus err.

Definition map_err {A} (m : M InvSt A) : M InvSt A := wrap_err mapError m.

(** The fields of ReserveRequest and ReleaseRequest. *)
Record StockRequest := MkStockRequest { rq_ProductId : string; rq_Quantity : Z; rq_OrderId : string }.

Definition handler_Reserve (redis : bool) (ctx : Ctx) (req : StockRequest) : M InvSt bool :=
  match RequireRole ctx [RoleService] with
  | Some err => throw err
  | None =>
      match uuid_Parse (rq_ProductId req) with
      | None => throw (EStatus InvalidArgument "invalid product_id")
      | Some productID =>
          match uuid_Parse (rq_OrderId req) with
          | None => throw (EStatus InvalidArgument "invalid order_id")
          | Some orderID =>
              do* map_err (Reserve redis productID (rq_Quantity req) (uuid_String orderID)) in ret true
          end
      end
  end.

Definition handler_Release (redis : bool) (ctx : Ctx) (req : StockRequest) : M InvSt bool :=
  match RequireRole ctx [RoleService] with
  | Some err => throw err
  | None =>
      match uuid_Parse (rq_ProductId req) with
      | None => throw (EStatus InvalidArgument "invalid product_id")
      | Some productID =>
          match uuid_Parse (rq_OrderId req) with
          | None => throw (EStatus InvalidArgument "invalid order_id")
          | Some orderID =>
              do* map_err (Release redis productID (rq_Quantity req) (uuid_String orderID)) in ret true
          end
      end
  end.

(** The response fields are 32-bit. *)
Definition handler_GetStock (redis : bool) (product_id : string) : M InvSt (Z * Z) :=
  match uuid_Parse product_id with
  | None => throw (EStatus InvalidArgument "invalid product_id")
  | Some productID =>
      let* stock := wrap_err (fun err => if Is err ErrNotFound then EStatus NotFound (Error err)
                                         else EStatus Internal ("get stock: " +:+ Error err))
                      (GetStock redis productID) in
      ret (int32 (Available stock), int32 (Reserved stock))
  end.

Record LedgerProto := MkLedgerProto {
  lp_Id : string; lp_ProductId : string; lp_OrderId : string;
  lp_QuantityChange : Z; lp_OperationType : Z; lp_CreatedAt : Z
}.

(** [LedgerOperation_value], the generated name table of the proto enum. *)
Definition LedgerOperation_value (s : string) : Z :=
  if bool_decide (s = "LEDGER_OPERATION_RESERVE") then 1
  else if bool_decide (s = "LEDGER_OPERATION_RELEASE") then 2
  else if bool_decide (s = "LEDGER_OPERATION_REFUND") then 3
  else if bool_decide (s = "LEDGER_OPERATION_ADJUST") then 4
  else 0.

(** Timestamps are kept as instants; their RFC 3339 text is not modelled. *)
Definition ledger_to_proto (e : LedgerEntry) : LedgerProto :=
  MkLedgerProto (uuid_String (le_ID e)) (uuid_String (le_ProductID e))
    (match le_OrderID e with Some o => uuid_String o | None => "" end)
    (int32 (le_QuantityChange e)) (LedgerOperation_value (le_OperationType e)) (le_CreatedAt e).

Definition handler_GetLedger (product_id : string) : M InvSt (list LedgerProto) :=
  match uuid_Parse product_id with
  | None => throw (EStatus InvalidArgument "invalid product_id")
  | Some productID =>
      let* entries := wrap_err (fun err => EStatus Internal ("get ledger: " +:+ Error err)) (GetLedger productID) in
      ret (ledger_to_proto <$> entries)
  end.
End Inventory.
