(* ===== verification/InventoryFacts.v ===== *)
(** * inventory-service: theorems

    What a successful transaction did ([reserve_ok], [release_ok]), the stock
    invariant and its preservation under every failure pattern, at-most-once
    deduction, the refinement of an abstract hold book, and the behaviour of the
    handler on every branch. *)
From S2P Require Import Prelude Errors Effects Auth Inventory.

Section Facts.
Context `{U : UuidLib}.
Implicit Types (p oid : UUID) (d : InvDB) (o : oracle) (s : InvSt).

(** ** Effects of the transaction bodies *)

Definition res_row d oid p : option ReservationRow := reservations d !! (oid, p).

(** The stores after a first reservation of [q] units. *)
Definition after_reserve p q oid id t s a r : InvSt :=
  let d := i_db s in
  set_i_db (MkInvDB (<[p := (a - q, r + q)]> (inventory d))
                    (<[(oid, p) := MkRow q "reserved"]> (reservations d))
                    (ledger d ++ [MkLedger id p (Some oid) (- q) ledgerOpReserve t])) s.

Definition after_release p q oid id t s a r : InvSt :=
  let d := i_db s in
  set_i_db (MkInvDB (<[p := (a + q, r - q)]> (inventory d))
                    (<[(oid, p) := MkRow q "released"]> (reservations d))
                    (ledger d ++ [MkLedger id p (Some oid) q ledgerOpRelease t])) s.

Lemma InsertLedger_ok p oid c op o w w' u :
  InsertLedger p oid c op o w = (inr u, w') ->
  exists id t, w_st w' =
    set_i_db (set_ledger (ledger (i_db (w_st w)) ++ [MkLedger id p (Some oid) c op t]) (i_db (w_st w))) (w_st w).
Proof.
  unfold InsertLedger. intros H. go_run H. unfold new_uuid, now in *. simplify_eq/=.
  apply io_ok in H. simpl in H. repeat case_match; simplify_eq. eauto.
Qed.

(** A successful [reserve] either found its own reservation and changed nothing,
    or made the first one against sufficient stock. *)
Lemma reserve_ok p q oid o w w' u :
  reserve p q oid o w = (inr u, w') ->
  0 < q /\
  ((res_row (i_db (w_st w)) oid p = Some (MkRow q "reserved") /\ w_st w' = w_st w) \/
   (res_row (i_db (w_st w)) oid p = None /\
    exists a r id t, inventory (i_db (w_st w)) !! p = Some (a, r) /\ q <= a /\ 0 <= r + q /\
      w_st w' = after_reserve p q oid id t (w_st w) a r)).
Proof.
  unfold reserve. intros H. apply bind_ok in H as (n & w1 & Hins & H).
  apply wrap_err_ok, io_ok in Hins. simpl in Hins.
  destruct (negb (in_int32 q)); [done|]. destruct (Z.leb_spec q 0) as [|Hq]; [done|].
  split; [lia|]. unfold res_row.
  destruct (reservations (i_db (w_st w)) !! (oid, p)) as [row|] eqn:Hrow; injection Hins as <- Hw1; simpl in H.
  - left. apply bind_ok in H as (ex & w2 & Hsel & H).
    apply read_inv in Hsel as [Hw2 Hres]. specialize (Hres _ eq_refl).
    rewrite <- Hw1, Hrow in Hres. simplify_eq.
    destruct ex as [q' st]; simpl in *. case_bool_decide; [|done]. simpl in *. subst.
    destruct (Z.eqb_spec q' q); [|done]. simpl in *. unfold ret in H. naive_solver congruence.
  - right. split; [done|]. apply bind_ok in H as (k & w2 & Hupd & H).
    apply wrap_err_ok, io_ok in Hupd. rewrite <- Hw1 in Hupd. simpl in Hupd.
    destruct (inventory (i_db (w_st w)) !! p) as [[a r]|] eqn:Hinv; [|by simplify_eq/=].
    destruct (Z.leb_spec q a) as [Hle|]; [|by simplify_eq/=].
    destruct (negb _); [done|]. destruct (_ || _) eqn:Hneg; [done|]. injection Hupd as <- Hw2.
    apply orb_false_elim in Hneg as [_ Hneg%Z.ltb_ge]. simpl in H.
    apply InsertLedger_ok in H as (id & t & Hw'). rewrite <- Hw2 in Hw'. simpl in Hw'.
    exists a, r, id, t. split_and!; [done|lia|lia|]. by rewrite Hw'.
Qed.

(** A successful [release] either found the reservation already released, or
    returned exactly the reserved quantity. *)
Lemma release_ok p q oid o w w' u :
  release p q oid o w = (inr u, w') ->
  (res_row (i_db (w_st w)) oid p = Some (MkRow q "released") /\ w_st w' = w_st w) \/
  (res_row (i_db (w_st w)) oid p = Some (MkRow q "reserved") /\
   exists a r id t, inventory (i_db (w_st w)) !! p = Some (a, r) /\ q <= r /\ 0 <= a + q /\
     w_st w' = after_release p q oid id t (w_st w) a r).
Proof.
  unfold release, res_row. intros H. apply bind_ok in H as (row & w1 & Hsel & H).
  apply read_inv in Hsel as [Hw1 Hres]. specialize (Hres _ eq_refl).
  destruct (reservations (i_db (w_st w)) !! (oid, p)) as [[q' st]|] eqn:Hrow; [|done].
  injection Hres as <-. simpl in H.
  destruct (bool_decide (st = "released") && (q' =? q)) eqn:Hdone.
  { apply andb_prop in Hdone as [Hst%bool_decide_eq_true Hq%Z.eqb_eq]. subst.
    left. unfold ret in H. naive_solver congruence. }
  right. case_bool_decide; [|done]. simpl in H. destruct (Z.eqb_spec q' q); [|done]. simpl in H. subst.
  split; [done|]. apply bind_ok in H as (k & w2 & Hupd & H).
  apply wrap_err_ok, io_ok in Hupd. rewrite Hw1 in Hupd. simpl in Hupd.
  destruct (inventory (i_db (w_st w)) !! p) as [[a r]|] eqn:Hinv; [|by simplify_eq/=].
  destruct (Z.leb_spec q r) as [Hle|]; [|by simplify_eq/=].
  destruct (negb _); [done|]. destruct (_ || _) eqn:Hneg; [done|]. injection Hupd as <- Hw2.
  apply orb_false_elim in Hneg as [Hneg%Z.ltb_ge _]. simpl in H.
  apply bind_ok in H as (k' & w3 & Hst & H). apply wrap_err_ok, io_ok in Hst.
  rewrite <- Hw2 in Hst. simpl in Hst. rewrite Hrow in Hst. injection Hst as _ Hw3.
  apply InsertLedger_ok in H as (id & t & Hw'). rewrite <- Hw3 in Hw'. simpl in Hw'.
  exists a, r, id, t. split_and!; [done|lia|lia|]. by rewrite Hw'.
Qed.

(** ** The stock invariant *)

(** Units of [p] that active reservations hold. *)
Definition held_by p (k : UUID * UUID) (row : ReservationRow) : Z :=
  if bool_decide (snd k = p) && bool_decide (r_Status row = "reserved") then r_Quantity row else 0.

Definition held p d : Z := map_sum (held_by p) (reservations d).

(** Net change of [p] that the ledger records for reservations and releases. *)
Definition ledger_change p (e : LedgerEntry) : Z :=
  if bool_decide (le_ProductID e = p) &&
     (bool_decide (le_OperationType e = ledgerOpReserve) || bool_decide (le_OperationType e = ledgerOpRelease))
  then le_QuantityChange e else 0.

Definition ledger_net p d : Z := list_sumZ (ledger_change p) (ledger d).

Record inv_db d : Prop := MkInvDb {
  inv_stock : forall p a r, inventory d !! p = Some (a, r) -> 0 <= a /\ r = held p d;
  inv_row : forall k row, reservations d !! k = Some row ->
    0 < r_Quantity row /\ (r_Status row = "reserved" \/ r_Status row = "released");
  inv_known : forall k row, reservations d !! k = Some row -> is_Some (inventory d !! snd k);
  inv_ledger : forall p, ledger_net p d + held p d = 0
}.

(** Units of each product that exist, free or reserved. *)
Definition totals d : gmap UUID Z := (fun ar : Z * Z => fst ar + snd ar) <$> inventory d.

Definition stock_ok (T : gmap UUID Z) (s : InvSt) : Prop := inv_db (i_db s) /\ totals (i_db s) = T.

Lemma held_insert_None p d k row inv l :
  reservations d !! k = None ->
  held p (MkInvDB inv (<[k := row]> (reservations d)) l) = held_by p k row + held p d.
Proof. intros Hk. unfold held. simpl. by rewrite map_sum_insert_None. Qed.

Lemma held_insert_Some p d k row old inv l :
  reservations d !! k = Some old ->
  held p (MkInvDB inv (<[k := row]> (reservations d)) l) = held p d - held_by p k old + held_by p k row.
Proof. intros Hk. unfold held. simpl. by rewrite (map_sum_insert_Some _ _ _ _ old). Qed.

Lemma ledger_net_snoc p inv res d e :
  ledger_net p (MkInvDB inv res (ledger d ++ [e])) = ledger_net p d + ledger_change p e.
Proof. unfold ledger_net. simpl. rewrite list_sumZ_app. simpl. lia. Qed.

Lemma totals_insert d p a r a' r' res l :
  inventory d !! p = Some (a, r) -> a + r = a' + r' ->
  totals (MkInvDB (<[p := (a', r')]> (inventory d)) res l) = totals d.
Proof.
  intros Hp Heq. unfold totals. simpl. rewrite fmap_insert. apply insert_id.
  rewrite lookup_fmap, Hp. simpl. f_equal. lia.
Qed.

Lemma known_insert d oid p row ar :
  is_Some (inventory d !! p) ->
  (forall k row, reservations d !! k = Some row -> is_Some (inventory d !! snd k)) ->
  forall k row', <[(oid, p) := row]> (reservations d) !! k = Some row' ->
    is_Some (<[p := ar]> (inventory d) !! snd k).
Proof.
  intros Hp Hkn k row' Hk. apply lookup_insert_is_Some'. apply lookup_insert_Some in Hk as [[<- _]|[_ Hk]]; [by left|].
  right. by eapply Hkn.
Qed.

Lemma after_reserve_ok T p q oid id t s a r :
  stock_ok T s -> res_row (i_db s) oid p = None -> inventory (i_db s) !! p = Some (a, r) ->
  0 < q -> q <= a -> stock_ok T (after_reserve p q oid id t s a r).
Proof.
  intros [[Hst Hrow Hkn Hled] <-] Hnone Hp Hq Hle. split; [|apply (totals_insert _ _ a r); [done|lia]].
  split; cbn [after_reserve after_release i_db set_i_db inventory reservations].
  - intros p' a' r'. rewrite (held_insert_None p' (i_db s)) by done. unfold held_by. simpl.
    destruct (decide (p' = p)) as [->|Hne].
    + rewrite lookup_insert_eq. intros [= <- <-]. rewrite bool_decide_true by done. simpl.
      destruct (Hst _ _ _ Hp) as [? ->]. lia.
    + rewrite lookup_insert_ne by done. intros Hp'. rewrite bool_decide_false by done. simpl.
      destruct (Hst _ _ _ Hp') as [? ->]. lia.
  - intros k row. destruct (decide (k = (oid, p))) as [->|Hne].
    + rewrite lookup_insert_eq. intros [= <-]. simpl. auto.
    + rewrite lookup_insert_ne by done. apply Hrow.
  - apply known_insert; [by exists (a, r)|done].
  - intros p'. rewrite (ledger_net_snoc p'), (held_insert_None p' (i_db s)) by done.
    specialize (Hled p'). unfold ledger_change, held_by. simpl.
    destruct (decide (p = p')); [rewrite bool_decide_true by done|rewrite bool_decide_false by done];
      simpl; lia.
Qed.

Lemma after_release_ok T p q oid id t s a r :
  stock_ok T s -> res_row (i_db s) oid p = Some (MkRow q "reserved") ->
  inventory (i_db s) !! p = Some (a, r) -> stock_ok T (after_release p q oid id t s a r).
Proof.
  intros [[Hst Hrow Hkn Hled] <-] Hsome Hp. split; [|apply (totals_insert _ _ a r); [done|lia]].
  assert (Hq : 0 < q) by (by destruct (Hrow _ _ Hsome)).
  split; cbn [after_reserve after_release i_db set_i_db inventory reservations].
  - intros p' a' r'. rewrite (held_insert_Some p' (i_db s) _ _ _ _ _ Hsome). unfold held_by. simpl.
    destruct (decide (p' = p)) as [->|Hne].
    + rewrite lookup_insert_eq. intros [= <- <-]. rewrite bool_decide_true by done. simpl.
      destruct (Hst _ _ _ Hp) as [? ->]. lia.
    + rewrite lookup_insert_ne by done. intros Hp'. rewrite bool_decide_false by done. simpl.
      destruct (Hst _ _ _ Hp') as [? ->]. lia.
  - intros k row. destruct (decide (k = (oid, p))) as [->|Hne].
    + rewrite lookup_insert_eq. intros [= <-]. simpl. auto.
    + rewrite lookup_insert_ne by done. apply Hrow.
  - apply known_insert; [by exists (a, r)|done].
  - intros p'. rewrite (ledger_net_snoc p'), (held_insert_Some p' (i_db s) _ _ _ _ _ Hsome).
    specialize (Hled p'). unfold ledger_change, held_by. simpl.
    destruct (decide (p = p')); [rewrite bool_decide_true by done|rewrite bool_decide_false by done];
      simpl; lia.
Qed.

Lemma reserve_keeps T p q oid : ok_pres (stock_ok T) (reserve p q oid).
Proof.
  intros o w [] w' HI H. apply reserve_ok in H as (Hq & [[_ ->]|(Hn & a & r & id & t & Hp & Hle & _ & ->)]);
    [done|]. by apply after_reserve_ok.
Qed.

Lemma release_keeps T p q oid : ok_pres (stock_ok T) (release p q oid).
Proof.
  intros o w [] w' HI H. apply release_ok in H as [[_ ->]|(Hs & a & r & id & t & Hp & _ & _ & ->)];
    [done|]. by apply after_release_ok.
Qed.

(** An operation that touches only the cache and the event channel. *)
Lemma db_pres T {A} (m : M InvSt A) :
  (forall d, pres (fun s => i_db s = d) m) -> pres (stock_ok T) m.
Proof. intros Hm o w HI. unfold stock_ok. by rewrite (Hm (i_db (w_st w)) o w eq_refl). Qed.

Lemma redis_Set_db k v d : pres (fun s => i_db s = d) (redis_Set k v).
Proof. by apply pres_io. Qed.

Lemma redis_Publish_db ev d : pres (fun s => i_db s = d) (redis_Publish ev).
Proof. by apply pres_io. Qed.

#[local] Hint Resolve redis_Set_db redis_Publish_db : go_pres.

Lemma writeStockToCache_db redis p d : pres (fun s => i_db s = d) (writeStockToCache redis p).
Proof. unfold writeStockToCache, repo_GetStock. auto 12 with go_pres. Qed.

Lemma publishInventoryEvent_db redis p d : pres (fun s => i_db s = d) (publishInventoryEvent redis p).
Proof. unfold publishInventoryEvent, repo_GetStock. auto 12 with go_pres. Qed.

Lemma GetStock_db redis p d : pres (fun s => i_db s = d) (GetStock redis p).
Proof. unfold GetStock, redis_Get, repo_GetStock. destruct redis; auto 12 with go_pres. Qed.

#[local] Hint Resolve writeStockToCache_db publishInventoryEvent_db GetStock_db : go_pres.

Lemma Reserve_keeps T redis p q (oid : string) : pres (stock_ok T) (Reserve redis p q oid).
Proof.
  unfold Reserve. destruct (q <=? 0); [auto with go_pres|]. destruct (uuid_Parse oid); [|auto with go_pres].
  apply pres_bind; [apply pres_wrap_err, pres_Run, reserve_keeps|intros _].
  apply db_pres. auto with go_pres.
Qed.

Lemma Release_keeps T redis p q (oid : string) : pres (stock_ok T) (Release redis p q oid).
Proof.
  unfold Release. destruct (q <=? 0); [auto with go_pres|]. destruct (uuid_Parse oid); [|auto with go_pres].
  apply pres_bind; [apply pres_wrap_err, pres_Run, release_keeps|intros _].
  apply db_pres. auto with go_pres.
Qed.

(** ** Histories of requests *)

Inductive inv_call :=
| CallReserve (redis : bool) (ctx : Ctx) (req : StockRequest)
| CallRelease (redis : bool) (ctx : Ctx) (req : StockRequest)
| CallGetStock (redis : bool) (product_id : string)
| CallGetLedger (product_id : string).

Definition serve (c : inv_call) : M InvSt unit :=
  match c with
  | CallReserve redis ctx req => do* attempt (handler_Reserve redis ctx req) in ret tt
  | CallRelease redis ctx req => do* attempt (handler_Release redis ctx req) in ret tt
  | CallGetStock redis id => do* attempt (handler_GetStock redis id) in ret tt
  | CallGetLedger id => do* attempt (handler_GetLedger id) in ret tt
  end.

Fixpoint serve_all (cs : list inv_call) : M InvSt unit :=
  match cs with
  | [] => ret tt
  | c :: cs' => do* serve c in serve_all cs'
  end.

#[local] Hint Resolve Reserve_keeps Release_keeps : go_pres.

Lemma GetStock_keeps T redis p : pres (stock_ok T) (GetStock redis p).
Proof. apply db_pres. auto with go_pres. Qed.

#[local] Hint Resolve GetStock_keeps : go_pres.

Lemma serve_keeps T c : pres (stock_ok T) (serve c).
Proof.
  destruct c; simpl; unfold handler_Reserve, handler_Release, handler_GetStock, handler_GetLedger,
    GetLedger, repo_GetLedger, map_err; auto 15 with go_pres.
Qed.

(** C7. Under every pattern of failures, lost replies and retries, any history of
    gRPC calls keeps the stock tables consistent: no negative availability, the
    reserved column of a product is the sum of its active reservations, the
    ledger accounts for exactly the units held, and the number of units of each
    product (free plus reserved) never changes. *)
Theorem stock_invariant (T : gmap UUID Z) (cs : list inv_call) o w :
  stock_ok T (w_st w) -> stock_ok T (w_st (snd (serve_all cs o w))).
Proof.
  revert w. induction cs as [|c cs IH]; intros w HI; [done|].
  simpl. unfold bind. pose proof (serve_keeps T c o w HI) as Hc.
  destruct (serve c o w) as [[e|[]] w1]; simpl in *; [done|]. by apply IH.
Qed.

(** ** Abstract specification: a hold book

    What the service promises: per (order, product) at most one hold, active or
    given back, against a fixed supply. *)

Record book := MkBook { supply : gmap UUID Z; holds : gmap (UUID * UUID) (Z * bool) }.

Definition hold_of p (k : UUID * UUID) (h : Z * bool) : Z :=
  if bool_decide (snd k = p) && snd h then fst h else 0.

Definition free_units (b : book) (p : UUID) : option Z :=
  (fun t => t - map_sum (hold_of p) (holds b)) <$> supply b !! p.

Definition book_reserve (p : UUID) (q : Z) (oid : UUID) (b : book) : sentinel + book :=
  match holds b !! (oid, p) with
  | Some (q', true) => if q' =? q then inr b else inl ErrConflict
  | Some (_, false) => inl ErrFailedPrecondition
  | None =>
      match free_units b p with
      | Some n => if q <=? n then inr (MkBook (supply b) (<[(oid, p) := (q, true)]> (holds b)))
                  else inl ErrInsufficientStock
      | None => inl ErrInsufficientStock
      end
  end.

Definition book_release (p : UUID) (q : Z) (oid : UUID) (b : book) : sentinel + book :=
  match holds b !! (oid, p) with
  | None => inl ErrNotFound
  | Some (q', true) =>
      if q' =? q then inr (MkBook (supply b) (<[(oid, p) := (q, false)]> (holds b))) else inl ErrConflict
  | Some (q', false) => if q' =? q then inr b else inl ErrFailedPrecondition
  end.

Definition row_abs (row : ReservationRow) : Z * bool :=
  (r_Quantity row, bool_decide (r_Status row = "reserved")).

Definition book_of d : book := MkBook (totals d) (row_abs <$> reservations d).

Lemma held_book p d : map_sum (hold_of p) (holds (book_of d)) = held p d.
Proof. unfold held, book_of, map_sum. simpl. rewrite map_fold_fmap. done. Qed.

(** The free units of the book are the available column. *)
Lemma free_available d p :
  inv_db d -> free_units (book_of d) p = fst <$> inventory d !! p.
Proof.
  intros Hinv. unfold free_units. rewrite held_book. unfold book_of, totals. simpl.
  rewrite lookup_fmap. destruct (inventory d !! p) as [[a r]|] eqn:Hp; simpl; [|done].
  destruct (inv_stock _ Hinv _ _ _ Hp) as [_ ->]. f_equal. lia.
Qed.

Lemma book_after_reserve p q oid id t s a r :
  inventory (i_db s) !! p = Some (a, r) ->
  book_of (i_db (after_reserve p q oid id t s a r)) =
  MkBook (totals (i_db s)) (<[(oid, p) := (q, true)]> (row_abs <$> reservations (i_db s))).
Proof.
  intros Hp. unfold book_of. f_equal; [by apply (totals_insert _ _ a r); [|lia]|].
  cbn. by rewrite fmap_insert.
Qed.

Lemma book_after_release p q oid id t s a r :
  inventory (i_db s) !! p = Some (a, r) ->
  book_of (i_db (after_release p q oid id t s a r)) =
  MkBook (totals (i_db s)) (<[(oid, p) := (q, false)]> (row_abs <$> reservations (i_db s))).
Proof.
  intros Hp. unfold book_of. f_equal; [by apply (totals_insert _ _ a r); [|lia]|].
  cbn. by rewrite fmap_insert.
Qed.

Lemma reserve_refines T p q oid o w w' u :
  stock_ok T (w_st w) -> reserve p q oid o w = (inr u, w') ->
  book_reserve p q oid (book_of (i_db (w_st w))) = inr (book_of (i_db (w_st w'))).
Proof.
  intros [Hinv _] H. apply reserve_ok in H as (Hq & [[Hr ->]|(Hn & a & r & id & t & Hp & Hle & _ & ->)]);
    unfold book_reserve, res_row in *.
  - simpl. rewrite lookup_fmap, Hr. simpl. by rewrite Z.eqb_refl.
  - rewrite book_after_reserve, free_available, Hp by done. simpl. rewrite lookup_fmap, Hn. simpl.
    by rewrite (proj2 (Z.leb_le _ _)) by done.
Qed.

Lemma release_refines p q oid o w w' u :
  release p q oid o w = (inr u, w') ->
  book_release p q oid (book_of (i_db (w_st w))) = inr (book_of (i_db (w_st w'))).
Proof.
  intros H. apply release_ok in H as [[Hr ->]|(Hn & a & r & id & t & Hp & Hle & _ & ->)];
    unfold book_release, res_row in *.
  - simpl. rewrite lookup_fmap, Hr. simpl. by rewrite Z.eqb_refl.
  - rewrite book_after_release by done. simpl. rewrite lookup_fmap, Hn. simpl. by rewrite Z.eqb_refl.
Qed.

(** What a caller of Reserve or Release may observe under failures. *)
Definition one_step_or_none (step : book -> sentinel + book) (r : error + unit) (b b' : book) : Prop :=
  match r with
  | inr _ => step b = inr b'
  | inl _ => b' = b \/ step b = inr b'
  end.

(** The shape shared by [Reserve] and [Release]: a transaction, then the cache. *)
Lemma tx_then_cache_refines (step : book -> sentinel + book) (fn : M InvSt unit) f redis p o w r w' :
  (forall w w' u, fn o w = (inr u, w') ->
     inv_db (i_db (w_st w)) -> step (book_of (i_db (w_st w))) = inr (book_of (i_db (w_st w')))) ->
  inv_db (i_db (w_st w)) ->
  (do* wrap_err f (Run fn) in do* writeStockToCache redis p in publishInventoryEvent redis p) o w = (r, w') ->
  one_step_or_none step r (book_of (i_db (w_st w))) (book_of (i_db (w_st w'))).
Proof.
  intros Hfn Hinv. unfold bind at 1, wrap_err.
  destruct (Run fn o w) as [[e|[]] w1] eqn:Hrun.
  - intros [= <- <-]. simpl. apply Run_atomic in Hrun as [->|(a & w2 & Ha & ->)]; [by left|right].
    by apply (Hfn (next w) w2 a).
  - apply Run_ok in Hrun as (w2 & Ha & Hw1). intros Hc.
    assert (Hdb : i_db (w_st w') = i_db (w_st w1)).
    { assert (Hk : pres (fun s => i_db s = i_db (w_st w1))
        (do* writeStockToCache redis p in publishInventoryEvent redis p)) by auto with go_pres.
      specialize (Hk o w1 eq_refl). by rewrite Hc in Hk. }
    rewrite Hdb, Hw1. assert (Hs := Hfn (next w) w2 tt Ha Hinv). destruct r; simpl; auto.
Qed.

Lemma Reserve_one_step T redis p q orderID oid o w r w' :
  stock_ok T (w_st w) -> uuid_Parse orderID = Some oid ->
  Reserve redis p q orderID o w = (r, w') ->
  one_step_or_none (book_reserve p q oid) r (book_of (i_db (w_st w))) (book_of (i_db (w_st w'))).
Proof.
  intros HI Hid. unfold Reserve. rewrite Hid.
  destruct (q <=? 0); [intros [= <- <-]; by left|].
  apply tx_then_cache_refines; [|apply HI].
  intros w1 w2 u Hr Hinv. by eapply (reserve_refines (totals (i_db (w_st w1)))).
Qed.

Lemma Release_one_step T redis p q orderID oid o w r w' :
  stock_ok T (w_st w) -> uuid_Parse orderID = Some oid ->
  Release redis p q orderID o w = (r, w') ->
  one_step_or_none (book_release p q oid) r (book_of (i_db (w_st w))) (book_of (i_db (w_st w'))).
Proof.
  intros HI Hid. unfold Release. rewrite Hid.
  destruct (q <=? 0); [intros [= <- <-]; by left|].
  apply tx_then_cache_refines; [|apply HI]. intros w1 w2 u Hr _. by eapply release_refines.
Qed.

(** A client that repeats a call [n] times, whatever each attempt returned. *)
Fixpoint repeat_call (n : nat) (m : M InvSt unit) : M InvSt unit :=
  match n with
  | O => ret tt
  | S n' => do* attempt m in repeat_call n' m
  end.

Lemma book_reserve_idem p q oid b b' :
  book_reserve p q oid b = inr b' -> book_reserve p q oid b' = inr b'.
Proof.
  unfold book_reserve. intros H.
  destruct (holds b !! (oid, p)) as [[q' []]|] eqn:Hh; simplify_eq.
  - destruct (q' =? q) eqn:Hq; simplify_eq. by rewrite Hh, Hq.
  - destruct (free_units b p) as [n|]; [|done]. destruct (q <=? n); simplify_eq/=.
    by rewrite lookup_insert_eq, Z.eqb_refl.
Qed.

Lemma book_release_idem p q oid b b' :
  book_release p q oid b = inr b' -> book_release p q oid b' = inr b'.
Proof.
  unfold book_release. intros H.
  destruct (holds b !! (oid, p)) as [[q' []]|] eqn:Hh; simplify_eq.
  - destruct (q' =? q) eqn:Hq; simplify_eq. simpl. by rewrite lookup_insert_eq, Z.eqb_refl.
  - destruct (q' =? q) eqn:Hq; simplify_eq. by rewrite Hh, Hq.
Qed.

(** A step that refines an idempotent book step takes place at most once. *)
Lemma repeat_at_most_once (step : book -> sentinel + book) (m : M InvSt unit) T n o w :
  (forall b b', step b = inr b' -> step b' = inr b') ->
  pres (stock_ok T) m ->
  (forall w r w', stock_ok T (w_st w) -> m o w = (r, w') ->
     one_step_or_none step r (book_of (i_db (w_st w))) (book_of (i_db (w_st w')))) ->
  stock_ok T (w_st w) ->
  let b := book_of (i_db (w_st w)) in
  let b' := book_of (i_db (w_st (snd (repeat_call n m o w)))) in
  b' = b \/ step b = inr b'.
Proof.
  intros Hidem Hpres Hone. revert w. induction n as [|n IH]; intros w HI; [by left|].
  cbn [repeat_call]. unfold bind, attempt. specialize (Hpres o w HI).
  destruct (m o w) as [r w1] eqn:Hm. cbn [snd] in *.
  assert (H1 : book_of (i_db (w_st w1)) = book_of (i_db (w_st w)) \/
               step (book_of (i_db (w_st w))) = inr (book_of (i_db (w_st w1)))).
  { specialize (Hone _ _ _ HI Hm). destruct r; simpl in Hone; tauto. }
  destruct (IH w1 Hpres) as [Hb|H2]; [by rewrite Hb|].
  destruct H1 as [Hb|H1]; [rewrite <- Hb; by right|]. rewrite (Hidem _ _ H1) in H2. right. congruence.
Qed.

(** C25. Reserve refines the hold book: whatever fails, the call either reports
    success and exactly one book step took place, or reports an error and the
    step took place entirely or not at all. *)
Theorem Reserve_refines_book T redis p q orderID oid o w r w' :
  stock_ok T (w_st w) -> uuid_Parse orderID = Some oid ->
  Reserve redis p q orderID o w = (r, w') ->
  one_step_or_none (book_reserve p q oid) r (book_of (i_db (w_st w))) (book_of (i_db (w_st w'))).
Proof. apply Reserve_one_step. Qed.

(** The same for Release. *)
Theorem Release_refines_book T redis p q orderID oid o w r w' :
  stock_ok T (w_st w) -> uuid_Parse orderID = Some oid ->
  Release redis p q orderID o w = (r, w') ->
  one_step_or_none (book_release p q oid) r (book_of (i_db (w_st w))) (book_of (i_db (w_st w'))).
Proof. apply Release_one_step. Qed.

(** A client that repeats the same Reserve any number of times, losing any
    replies, takes the units out of stock at most once. *)
Theorem Reserve_at_most_once T n redis p q orderID oid o w :
  stock_ok T (w_st w) -> uuid_Parse orderID = Some oid ->
  let b := book_of (i_db (w_st w)) in
  let b' := book_of (i_db (w_st (snd (repeat_call n (Reserve redis p q orderID) o w)))) in
  b' = b \/ book_reserve p q oid b = inr b'.
Proof.
  intros HI Hid. apply (repeat_at_most_once _ _ T); [apply book_reserve_idem|apply Reserve_keeps| |done].
  intros. by eapply Reserve_one_step.
Qed.

(** ** The outcome of a call when nothing fails *)

(** Unit counts fit the INT columns. *)
Definition totals_fit d : Prop := forall p t, totals d !! p = Some t -> t < 2 ^ 31.

Definition decided (step : sentinel + book) (r : error + unit) (s s' : InvSt) : Prop :=
  match step with
  | inr b' => r = inr tt /\ book_of (i_db s') = b'
  | inl snt => i_db s' = i_db s /\ exists e, r = inl e /\ Is e snt = true
  end.

Lemma InsertLedger_calm p oid c op o w :
  no_faults o -> in_int32 c = true -> exists w', InsertLedger p oid c op o w = (inr tt, w').
Proof.
  intros [Hf _] Hc. unfold InsertLedger, wrap_err, bind, new_uuid, now, io. simpl.
  rewrite Hf, Hc. simpl. eauto.
Qed.

Lemma in_int32_intro z : - 2 ^ 31 <= z < 2 ^ 31 -> in_int32 z = true.
Proof. unfold in_int32. intros. apply andb_true_intro. split; lia. Qed.

Lemma in_int32_neg z : 0 < z -> in_int32 z = true -> in_int32 (- z) = true.
Proof.
  intros Hz [_ Hlt%Z.ltb_lt]%andb_prop. apply in_int32_intro. lia.
Qed.

(** The transaction body decides as the book does. *)
Lemma reserve_decides T p q oid o w :
  no_faults o -> stock_ok T (w_st w) -> totals_fit (i_db (w_st w)) ->
  0 < q -> in_int32 q = true ->
  match book_reserve p q oid (book_of (i_db (w_st w))) with
  | inr _ => exists w', reserve p q oid o w = (inr tt, w')
  | inl snt => exists e w', reserve p q oid o w = (inl e, w') /\ Is e snt = true
  end.
Proof.
  intros Ho [Hinv HT] Hfit Hq Hq32. unfold reserve, bind, InsertReservation, wrap_err.
  rewrite (io_no_faults _ _ _ Ho), Hq32. simpl negb. rewrite (proj2 (Z.leb_gt _ _)) by done.
  unfold book_reserve. rewrite free_available by done. simpl holds. rewrite lookup_fmap.
  destruct (reservations (i_db (w_st w)) !! (oid, p)) as [[q' st]|] eqn:Hrow.
  - simpl. unfold SelectReservationForUpdate, SelectReservation.
    rewrite (read_no_faults _ _ _ Ho). simpl. rewrite Hrow. simpl.
    destruct (bool_decide (st = "reserved")); simpl; [|eauto].
    destruct (q' =? q); simpl; eauto.
  - simpl. unfold UpdateStockForReserve, wrap_err. rewrite (io_no_faults _ _ _ Ho). simpl.
    destruct (inventory (i_db (w_st w)) !! p) as [[a r]|] eqn:Hp; simpl; [|eauto].
    destruct (Z.leb_spec q a) as [Hle|Hgt]; simpl; [|eauto].
    destruct (inv_stock _ Hinv _ _ _ Hp) as [Ha Hr].
    assert (0 <= r).
    { rewrite Hr. apply map_sum_nonneg. intros k row Hk. destruct (inv_row _ Hinv _ _ Hk) as [? _].
      unfold held_by. case_match; lia. }
    assert (a + r < 2 ^ 31) by (apply (Hfit p); unfold totals; by rewrite lookup_fmap, Hp).
    rewrite !in_int32_intro by lia. simpl.
    rewrite (proj2 (Z.ltb_ge (a - q) 0)), (proj2 (Z.ltb_ge (r + q) 0)) by lia. simpl.
    apply InsertLedger_calm; [done|by apply in_int32_neg].
Qed.

Lemma release_decides T p q oid o w :
  no_faults o -> stock_ok T (w_st w) -> totals_fit (i_db (w_st w)) ->
  0 < q -> in_int32 q = true ->
  match book_release p q oid (book_of (i_db (w_st w))) with
  | inr _ => exists w', release p q oid o w = (inr tt, w')
  | inl snt => exists e w', release p q oid o w = (inl e, w') /\ Is e snt = true
  end.
Proof.
  intros Ho [Hinv HT] Hfit Hq Hq32.
  unfold release, bind, SelectReservationForUpdate, SelectReservation.
  rewrite (read_no_faults _ _ _ Ho). unfold book_release. simpl holds. rewrite lookup_fmap.
  destruct (reservations (i_db (w_st w)) !! (oid, p)) as [[q' st]|] eqn:Hrow; simpl; [|eauto].
  destruct (inv_row _ Hinv _ _ Hrow) as [_ [Hst|Hst]]; simpl in Hst; subst st; simpl;
    destruct (Z.eqb_spec q' q) as [->|]; simpl; eauto.
  destruct (inv_known _ Hinv _ _ Hrow) as [[a r] Hp]. simpl in Hp.
  unfold UpdateStockForRelease, wrap_err. rewrite (io_no_faults _ _ _ Ho). simpl. rewrite Hp.
  destruct (inv_stock _ Hinv _ _ _ Hp) as [Ha Hr].
  assert (q <= r).
  { rewrite Hr. unfold held. rewrite (map_sum_delete _ _ _ _ Hrow). unfold held_by at 1. simpl.
    rewrite bool_decide_true by done. simpl.
    assert (0 <= map_sum (held_by p) (delete (oid, p) (reservations (i_db (w_st w))))); [|lia].
    apply map_sum_nonneg. intros k row [_ Hk]%lookup_delete_Some.
    destruct (inv_row _ Hinv _ _ Hk) as [? _]. unfold held_by. case_match; lia. }
  assert (a + r < 2 ^ 31) by (apply (Hfit p); unfold totals; by rewrite lookup_fmap, Hp).
  rewrite (proj2 (Z.leb_le q r)) by done. rewrite !in_int32_intro by lia. simpl.
  rewrite (proj2 (Z.ltb_ge (a + q) 0)), (proj2 (Z.ltb_ge (r - q) 0)) by lia. simpl.
  unfold UpdateReservationStatus, wrap_err. rewrite (io_no_faults _ _ _ Ho). simpl. rewrite Hrow.
  apply InsertLedger_calm; [done|done].
Qed.

Lemma cache_then_publish_total redis p o w :
  exists w', (do* writeStockToCache redis p in publishInventoryEvent redis p) o w = (inr tt, w') /\
             i_db (w_st w') = i_db (w_st w).
Proof.
  assert (Hk : pres (fun s => i_db s = i_db (w_st w))
    (do* writeStockToCache redis p in publishInventoryEvent redis p)) by auto with go_pres.
  specialize (Hk o w eq_refl). revert Hk.
  assert (Hw : forall w, exists w', writeStockToCache redis p o w = (inr tt, w')).
  { intros w1. unfold writeStockToCache, bind, attempt, ret. repeat (case_match; simplify_eq/=); eauto. }
  assert (Hp : forall w, exists w', publishInventoryEvent redis p o w = (inr tt, w')).
  { intros w1. unfold publishInventoryEvent, bind, attempt, ret. repeat (case_match; simplify_eq/=); eauto. }
  unfold bind. destruct (Hw w) as [w1 ->]. destruct (Hp w1) as [w2 ->]. simpl. eauto.
Qed.

Lemma tx_then_cache_decides fn f redis p o w (b : sentinel + book) r w' :
  no_faults o -> (forall e snt, Is (f e) snt = Is e snt) ->
  match b with
  | inr _ => exists w1, fn o (next w) = (inr tt, w1)
  | inl snt => exists e w1, fn o (next w) = (inl e, w1) /\ Is e snt = true
  end ->
  (forall w1, fn o (next w) = (inr tt, w1) -> b = inr (book_of (i_db (w_st w1)))) ->
  (do* wrap_err f (Run fn) in do* writeStockToCache redis p in publishInventoryEvent redis p) o w = (r, w') ->
  decided b r (w_st w) (w_st w').
Proof.
  intros Ho Hf Hb Href. unfold bind at 1, wrap_err. rewrite (Run_no_faults _ _ _ Ho).
  destruct b as [snt|b'].
  - destruct Hb as (e & w1 & -> & He). intros [= <- <-]. simpl. split; [done|]. exists (f e). by rewrite Hf.
  - destruct Hb as (w1 & Hrun). specialize (Href _ Hrun). rewrite Hrun.
    destruct (cache_then_publish_total redis p o (next w1)) as (w2 & -> & Hdb). intros [= <- <-].
    split; [done|]. rewrite Hdb. injection Href as ->. done.
Qed.

(** When nothing fails, Reserve succeeds exactly when the book does and
    otherwise returns the book's error (insufficient stock, conflict, failed
    precondition) with the tables unchanged. *)
Theorem Reserve_decides T redis p q orderID oid o w r w' :
  no_faults o -> stock_ok T (w_st w) -> totals_fit (i_db (w_st w)) ->
  0 < q -> in_int32 q = true -> uuid_Parse orderID = Some oid ->
  Reserve redis p q orderID o w = (r, w') ->
  decided (book_reserve p q oid (book_of (i_db (w_st w)))) r (w_st w) (w_st w').
Proof.
  intros Ho HI Hfit Hq Hq32 Hid. unfold Reserve. rewrite Hid, (proj2 (Z.leb_gt _ _)) by done.
  apply tx_then_cache_decides; [done|done| |].
  - by apply (reserve_decides T p q oid o (next w)).
  - intros w1 Hrun. by apply (reserve_refines T p q oid o (next w) w1 tt).
Qed.

Lemma Release_outcome T redis p q orderID oid o w r w' :
  no_faults o -> stock_ok T (w_st w) -> totals_fit (i_db (w_st w)) ->
  0 < q -> in_int32 q = true -> uuid_Parse orderID = Some oid ->
  Release redis p q orderID o w = (r, w') ->
  decided (book_release p q oid (book_of (i_db (w_st w)))) r (w_st w) (w_st w').
Proof.
  intros Ho HI Hfit Hq Hq32 Hid. unfold Release. rewrite Hid, (proj2 (Z.leb_gt _ _)) by done.
  apply tx_then_cache_decides; [done|done| |].
  - by apply (release_decides T p q oid o (next w)).
  - intros w1 Hrun. by apply (release_refines p q oid o (next w) w1 tt).
Qed.

(** When nothing fails, Release gives the held units
    back, is a no-op on a reservation already given back, and otherwise returns
    the book's error (not found, conflict, failed precondition) with the tables
    unchanged. *)
Theorem Release_decides T redis p q orderID oid o w r w' :
  no_faults o -> stock_ok T (w_st w) -> totals_fit (i_db (w_st w)) ->
  0 < q -> in_int32 q = true -> uuid_Parse orderID = Some oid ->
  Release redis p q orderID o w = (r, w') ->
  decided (book_release p q oid (book_of (i_db (w_st w)))) r (w_st w) (w_st w').
Proof. apply Release_outcome. Qed.

(** A non-positive quantity is refused before any input or output, but the
    service reports it as Internal: the code ["invalid_quantity"] that wraps
    ErrInvalidArgument is not registered and hides it from ToStatus. *)
Theorem nonpositive_quantity_is_internal redis ctx req p oid o w :
  RequireRole ctx [RoleService] = None ->
  uuid_Parse (rq_ProductId req) = Some p -> uuid_Parse (rq_OrderId req) = Some oid ->
  rq_Quantity req <= 0 ->
  exists m, handler_Reserve redis ctx req o w = (inl (EStatus Internal m), w) /\
            handler_Release redis ctx req o w = (inl (EStatus Internal m), w).
Proof.
  intros Hrole Hp Hid Hq. unfold handler_Reserve, handler_Release. rewrite Hrole, Hp, Hid.
  unfold map_err, wrap_err, bind, Reserve, Release.
  rewrite (proj2 (Z.leb_le _ _)) by done. unfold throw. eexists. by split.
Qed.
End Facts.

(** ** Concrete runs: one product with five units, one order *)

#[local] Existing Instance uuid_text.

Definition p0 : UUID := uuid_sample 0.
Definition o0 : UUID := uuid_sample 1.
Definition o0_text : string := uuid_String o0.

Definition sample_db : InvDB := MkInvDB {[ p0 := (5, 0) ]} ∅ [].

Definition sample_inv : InvSt := MkInvSt sample_db ∅ [].

(** The same environment, with the reply to the operation of tick [n] lost. *)
Definition lost_reply (n : nat) : oracle :=
  Oracle (fun k => if Nat.eqb k n then FAfter (EPlain "connection reset") else FNone)
    (fun _ => 0) uuid_sample (fun _ => None) (fun _ => true).

Definition reserve_req (q : Z) : StockRequest := MkStockRequest (uuid_String p0) q o0_text.

Definition service_ctx : Ctx := WithIdentity Background (MkIdentity "order-service" RoleService "").

Lemma sample_db_ok : inv_db sample_db.
Proof.
  split.
  - intros p a r Hp. simpl in Hp. apply lookup_singleton_Some in Hp as [<- [= <- <-]].
    split; [lia|reflexivity].
  - intros k row Hk. simpl in Hk. by rewrite lookup_empty in Hk.
  - intros k row Hk. simpl in Hk. by rewrite lookup_empty in Hk.
  - intros p. reflexivity.
Qed.

Lemma sample_totals_fit : totals_fit sample_db.
Proof.
  intros p t Ht. unfold totals in Ht. rewrite lookup_fmap in Ht.
  destruct (inventory sample_db !! p) as [[a r]|] eqn:Hp; [|done].
  simpl in Hp. apply lookup_singleton_Some in Hp as [_ [= <- <-]]. simpl in Ht. simplify_eq. lia.
Qed.

Definition w0 : world InvSt := World 0 sample_inv.

Lemma o0_parse : uuid_Parse o0_text = Some o0.
Proof. apply (@uuid_Parse_String _ uuid_text_laws). Qed.

Lemma p0_parse : uuid_Parse (uuid_String p0) = Some p0.
Proof. apply (@uuid_Parse_String _ uuid_text_laws). Qed.

Lemma w0_ok : stock_ok (totals sample_db) (w_st w0).
Proof. split; [exact sample_db_ok|done]. Qed.

Lemma stock_invariant_witness :
  stock_ok (totals sample_db) (w_st (snd (serve_all
    [CallReserve true service_ctx (reserve_req 3); CallReserve true service_ctx (reserve_req 3);
     CallRelease true service_ctx (reserve_req 3)] (lost_reply 6) w0))).
Proof. apply stock_invariant. exact w0_ok. Defined.

Lemma Reserve_refines_book_witness :
  one_step_or_none (book_reserve p0 3 o0) (fst (Reserve false p0 3 o0_text (lost_reply 6) w0))
    (book_of (i_db (w_st w0))) (book_of (i_db (w_st (snd (Reserve false p0 3 o0_text (lost_reply 6) w0))))).
Proof.
  apply (Reserve_refines_book (totals sample_db) false p0 3 o0_text o0 (lost_reply 6) w0).
  - exact w0_ok.
  - exact o0_parse.
  - apply surjective_pairing.
Defined.

Lemma Release_refines_book_witness :
  one_step_or_none (book_release p0 3 o0) (fst (Release false p0 3 o0_text (lost_reply 6) w0))
    (book_of (i_db (w_st w0))) (book_of (i_db (w_st (snd (Release false p0 3 o0_text (lost_reply 6) w0))))).
Proof.
  apply (Release_refines_book (totals sample_db) false p0 3 o0_text o0 (lost_reply 6) w0).
  - exact w0_ok.
  - exact o0_parse.
  - apply surjective_pairing.
Defined.

Lemma Reserve_at_most_once_witness :
  let b := book_of (i_db (w_st w0)) in
  let b' := book_of (i_db (w_st (snd (repeat_call 3 (Reserve true p0 3 o0_text) (lost_reply 6) w0)))) in
  b' = b \/ book_reserve p0 3 o0 b = inr b'.
Proof.
  apply (Reserve_at_most_once (totals sample_db) 3 true p0 3 o0_text o0 (lost_reply 6) w0).
  - exact w0_ok.
  - exact o0_parse.
Defined.

Lemma Reserve_decides_witness :
  decided (book_reserve p0 6 o0 (book_of (i_db (w_st w0)))) (fst (Reserve true p0 6 o0_text calm w0))
    (w_st w0) (w_st (snd (Reserve true p0 6 o0_text calm w0))).
Proof.
  apply (Reserve_decides (totals sample_db) true p0 6 o0_text o0 calm w0).
  - exact calm_no_faults.
  - exact w0_ok.
  - exact sample_totals_fit.
  - lia.
  - reflexivity.
  - exact o0_parse.
  - apply surjective_pairing.
Defined.

Lemma Release_decides_witness :
  decided (book_release p0 2 o0 (book_of (i_db (w_st w0)))) (fst (Release true p0 2 o0_text calm w0))
    (w_st w0) (w_st (snd (Release true p0 2 o0_text calm w0))).
Proof.
  apply (Release_decides (totals sample_db) true p0 2 o0_text o0 calm w0).
  - exact calm_no_faults.
  - exact w0_ok.
  - exact sample_totals_fit.
  - lia.
  - reflexivity.
  - exact o0_parse.
  - apply surjective_pairing.
Defined.

(** Concrete outcomes, computed: six of five units are refused, three are taken. *)
Example reserve_six_of_five :
  match fst (Reserve true p0 6 o0_text calm w0) with inl e => Is e ErrInsufficientStock | inr _ => false end = true.
Proof. vm_compute. reflexivity. Qed.

Example reserve_three_of_five :
  match inventory (i_db (w_st (snd (Reserve true p0 3 o0_text calm w0)))) !! p0 with
  | Some (a, r) => (a =? 2) && (r =? 3)
  | None => false
  end = true.
Proof. vm_compute. reflexivity. Qed.

Lemma nonpositive_quantity_is_internal_witness :
  exists m, handler_Reserve true service_ctx (reserve_req 0) calm w0 = (inl (EStatus Internal m), w0).
Proof.
  destruct (nonpositive_quantity_is_internal true service_ctx (reserve_req 0) p0 o0 calm w0)
    as (m & Hm & _).
  - reflexivity.
  - exact p0_parse.
  - exact o0_parse.
  - simpl. lia.
  - by exists m.
Defined.
