(* ===== verification/InventoryRaces.v ===== *)
(** * Concurrent transactions of inventory-service

    [Inventory.v] runs the transactions of Reserve and Release one after the other.
    Here they run statement by statement, interleaved, as Postgres runs them at READ
    COMMITTED: a statement sees the committed tables and its own writes, an inserted
    key and a row under UPDATE or FOR UPDATE stay locked until the transaction
    ends, and a statement that needs a lock of another transaction waits.  The
    theorems show that every interleaving is a sequence of the atomic transactions
    and that no deadlock arises. *)
From S2P Require Import Prelude Errors Effects Inventory InventoryFacts.

Section Races.
Context `{U : UuidLib}.

(** ** Transactions *)

Inductive txkind := TReserve | TRelease.

Record tx := MkTx { t_kind : txkind; t_order : UUID; t_product : UUID; t_qty : Z }.

Definition tx_body (x : tx) : M InvSt unit :=
  match t_kind x with
  | TReserve => reserve (t_product x) (t_qty x) (t_order x)
  | TRelease => release (t_product x) (t_qty x) (t_order x)
  end.

(** The atomic transaction on the tables, with the ledger row's id and time. *)
Definition plain (id : UUID) (t : Z) : oracle := Oracle (fun _ => FNone) (fun _ => t) (fun _ => id) (fun _ => None) (fun _ => true).

Definition atomic (x : tx) (id : UUID) (t : Z) (d : InvDB) : (error + unit) * InvDB :=
  let '(r, w) := Run (tx_body x) (plain id t) (World 0 (MkInvSt d ∅ [])) in (r, i_db (w_st w)).

(** ** Statements *)

Definition row_of (d : InvDB) (x : tx) : option ReservationRow := reservations d !! (t_order x, t_product x).
Definition stock_of (d : InvDB) (x : tx) : option (Z * Z) := inventory d !! t_product x.

(** The WHERE clause and the SET list of the stock update. *)
Definition enough (x : tx) (ar : Z * Z) : bool :=
  match t_kind x with TReserve => t_qty x <=? fst ar | TRelease => t_qty x <=? snd ar end.

Definition moved_stock (x : tx) (ar : Z * Z) : Z * Z :=
  match t_kind x with
  | TReserve => (fst ar - t_qty x, snd ar + t_qty x)
  | TRelease => (fst ar + t_qty x, snd ar - t_qty x)
  end.

(** The constraints of the stock row. *)
Definition stock_error (ar : Z * Z) : option error :=
  if negb (in_int32 (fst ar) && in_int32 (snd ar)) then Some pg_out_of_range
  else if (fst ar <? 0) || (snd ar <? 0) then Some pg_check_violation
  else None.

Definition change (x : tx) : Z := match t_kind x with TReserve => - t_qty x | TRelease => t_qty x end.
Definition operation (x : tx) : string := match t_kind x with TReserve => ledgerOpReserve | TRelease => ledgerOpRelease end.
Definition new_row (x : tx) : ReservationRow := MkRow (t_qty x) (match t_kind x with TReserve => "reserved" | TRelease => "released" end).

(** The error of INSERT INTO reservations on its own values. *)
Definition insert_error (q : Z) : option error :=
  if negb (in_int32 q) then Some pg_out_of_range else if q <=? 0 then Some pg_check_violation else None.

(** What the code decides from the locked reservation row; [None]: go on. *)
Definition judged (x : tx) (row : ReservationRow) : option (error + unit) :=
  match t_kind x with
  | TReserve =>
      Some (if negb (bool_decide (r_Status row = "reserved")) then
              inl (wrapS ErrFailedPrecondition ("reservation already " +:+ r_Status row))
            else if negb (r_Quantity row =? t_qty x) then
              inl (wrapS ErrConflict ("reservation quantity mismatch (expected " +:+ pretty (t_qty x)
                     +:+ ", found " +:+ pretty (r_Quantity row) +:+ ")"))
            else inr tt)
  | TRelease =>
      if bool_decide (r_Status row = "released") && (r_Quantity row =? t_qty x) then Some (inr tt)
      else if negb (bool_decide (r_Status row = "reserved")) then
        Some (inl (wrapS ErrFailedPrecondition ("reservation already " +:+ r_Status row)))
      else if negb (r_Quantity row =? t_qty x) then
        Some (inl (wrapS ErrConflict ("release quantity mismatch (reserved " +:+ pretty (r_Quantity row)
                    +:+ ", requested " +:+ pretty (t_qty x) +:+ ")")))
      else None
  end.

(** The tables after the commit. *)
Definition applied (d : InvDB) (x : tx) (ar : Z * Z) (id : UUID) (t : Z) : InvDB :=
  MkInvDB (<[t_product x := ar]> (inventory d)) (<[(t_order x, t_product x) := new_row x]> (reservations d))
    (ledger d ++ [MkLedger id (t_product x) (Some (t_order x)) (change x) (operation x) t]).

(** ** The atomic transaction, case by case *)

Ltac run_atomic := unfold atomic, Run, tx_body; cbn [o_fault plain];
  unfold reserve, release, InsertReservation, SelectReservationForUpdate, SelectReservation, UpdateStockForReserve,
    UpdateStockForRelease, UpdateReservationStatus, InsertLedger, bind, wrap_err, read_with, io, throw, ret, new_uuid, now; simpl.

Lemma atomic_insert_error x id t d e :
  t_kind x = TReserve -> insert_error (t_qty x) = Some e -> atomic x id t d = (inl (wrapf "insert reservation" e), d).
Proof.
  intros Hk He. unfold insert_error in He. run_atomic. rewrite Hk. run_atomic.
  destruct (negb (in_int32 (t_qty x))); simplify_eq; [done|]. destruct (t_qty x <=? 0); by simplify_eq.
Qed.

Lemma insert_error_None q : insert_error q = None -> in_int32 q = true /\ 0 < q.
Proof.
  unfold insert_error. destruct (in_int32 q); simpl; [|done]. destruct (Z.leb_spec q 0); [done|]. done.
Qed.

(** What a transaction knows once its reservation row is its own: a reservation
    inserted the row, a release found it reserved for its quantity. *)
Definition key_ok (d : InvDB) (x : tx) : Prop :=
  match t_kind x with
  | TReserve => insert_error (t_qty x) = None /\ row_of d x = None
  | TRelease => row_of d x = Some (MkRow (t_qty x) "reserved")
  end.

Lemma atomic_judged x id t d row res :
  row_of d x = Some row -> judged x row = Some res -> (t_kind x = TReserve -> insert_error (t_qty x) = None) ->
  atomic x id t d = (res, d).
Proof.
  unfold row_of, judged. intros Hrow Hj Hins. run_atomic. destruct (t_kind x) eqn:Hk.
  - destruct (insert_error_None _ (Hins eq_refl)) as [Hr Hq]. run_atomic. rewrite Hr. simpl.
    destruct (Z.leb_spec (t_qty x) 0); [lia|]. rewrite Hrow. simpl. rewrite Hrow. simpl.
    case_bool_decide; simpl in *; [|by simplify_eq]. destruct (r_Quantity row =? t_qty x); simpl in *; by simplify_eq.
  - run_atomic. rewrite Hrow. simpl. destruct (_ && _); [by simplify_eq|].
    case_bool_decide; simpl in *; [|by simplify_eq]. destruct (r_Quantity row =? t_qty x); simpl in *; by simplify_eq.
Qed.

Lemma atomic_not_found x id t d :
  t_kind x = TRelease -> row_of d x = None -> atomic x id t d = (inl (wrapS ErrNotFound "reservation not found"), d).
Proof. unfold row_of. intros Hk Hrow. run_atomic. rewrite Hk. run_atomic. by rewrite Hrow. Qed.

(** From the point where the reservation row is the transaction's own. *)
Definition stock_result (x : tx) (id : UUID) (t : Z) (d : InvDB) : (error + unit) * InvDB :=
  match stock_of d x with
  | None => (inl (ESentinel ErrInsufficientStock), d)
  | Some ar =>
      if enough x ar then
        match stock_error (moved_stock x ar) with
        | Some e => (inl (wrapf "update stock" e), d)
        | None =>
            if in_int32 (change x) then (inr tt, applied d x (moved_stock x ar) id t)
            else (inl (wrapf "insert ledger" pg_out_of_range), d)
        end
      else (inl (ESentinel ErrInsufficientStock), d)
  end.

Lemma atomic_stock x id t d : key_ok d x -> atomic x id t d = stock_result x id t d.
Proof.
  unfold key_ok, row_of, stock_result, stock_of, enough, stock_error, moved_stock, change, applied, new_row, operation.
  intros Hkey. run_atomic. destruct x as [[] oid p q]; simpl in *.
  - destruct Hkey as [[Hr Hq]%insert_error_None Hrow]. run_atomic. rewrite Hr. simpl.
    destruct (Z.leb_spec q 0); [lia|]. rewrite Hrow. simpl.
    destruct (inventory d !! p) as [[a r]|] eqn:Hs; simpl; [|done].
    destruct (q <=? a); [|done]. destruct (negb (in_int32 (a - q) && in_int32 (r + q))); [done|].
    destruct ((a - q <? 0) || (r + q <? 0)); [done|]. simpl. by destruct (in_int32 (- q)).
  - run_atomic. rewrite Hkey. simpl. rewrite Z.eqb_refl. simpl.
    destruct (inventory d !! p) as [[a r]|] eqn:Hs; simpl; [|done].
    destruct (q <=? r); [|done]. destruct (negb (in_int32 (a + q) && in_int32 (r - q))); [done|].
    destruct ((a + q <? 0) || (r - q <? 0)); [done|]. simpl. rewrite Hkey. simpl. by destruct (in_int32 q).
Qed.

(** ** Threads *)

(** The next statement of a transaction; the pending stock row, ledger row and
    result ride along.  [PDecided] is a transaction that has its result and only
    has to end; [PDone None] one whose caller saw a failure of the connection. *)
Inductive tpc :=
| PInsert
| PSelect
| PUpdate
| PStatus (ar : Z * Z)
| PLedger (ar : Z * Z)
| PCommit (ar : Z * Z) (id : UUID) (t : Z)
| PDecided (key stock : bool) (res : error + unit)
| PDone (seen : option (error + unit)).

Definition start_pc (x : tx) : tpc := match t_kind x with TReserve => PInsert | TRelease => PSelect end.

Definition holds_key (p : tpc) : bool :=
  match p with PUpdate | PStatus _ | PLedger _ | PCommit _ _ _ => true | PDecided key _ _ => key | _ => false end.

Definition holds_stock (p : tpc) : bool :=
  match p with PStatus _ | PLedger _ | PCommit _ _ _ => true | PDecided _ stock _ => stock | _ => false end.

Definition settled (p : tpc) : bool := match p with PDecided _ _ _ | PDone _ => true | _ => false end.

Definition tx_event : Type := UUID * Z * (error + unit).

(** One statement of transaction [x] on the committed tables [d]; [kf] and [sf]:
    no other transaction holds its reservation row, its stock row.  [ok]: the
    connection lives.  The event is the point at which the transaction counts. *)
Inductive txstep (d : InvDB) (kf sf : Prop) (x : tx) : bool -> tpc -> tpc -> InvDB -> option tx_event -> Prop :=
| s_insert_error e id t :
    t_kind x = TReserve -> insert_error (t_qty x) = Some e ->
    txstep d kf sf x true PInsert (PDecided false false (inl (wrapf "insert reservation" e))) d
      (Some (id, t, inl (wrapf "insert reservation" e)))
| s_insert :
    t_kind x = TReserve -> insert_error (t_qty x) = None -> row_of d x = None -> kf ->
    txstep d kf sf x true PInsert PUpdate d None
| s_conflict row :
    t_kind x = TReserve -> insert_error (t_qty x) = None -> row_of d x = Some row ->
    txstep d kf sf x true PInsert PSelect d None
| s_missing id t :
    t_kind x = TRelease -> row_of d x = None ->
    txstep d kf sf x true PSelect (PDecided false false (inl (wrapS ErrNotFound "reservation not found"))) d
      (Some (id, t, inl (wrapS ErrNotFound "reservation not found")))
| s_judged row res id t :
    row_of d x = Some row -> kf -> judged x row = Some res ->
    txstep d kf sf x true PSelect (PDecided true false res) d (Some (id, t, res))
| s_found row :
    row_of d x = Some row -> kf -> judged x row = None -> txstep d kf sf x true PSelect PUpdate d None
| s_short id t :
    match stock_of d x with Some ar => enough x ar = false | None => True end ->
    txstep d kf sf x true PUpdate (PDecided true false (inl (ESentinel ErrInsufficientStock))) d
      (Some (id, t, inl (ESentinel ErrInsufficientStock)))
| s_refused ar e id t :
    stock_of d x = Some ar -> enough x ar = true -> sf -> stock_error (moved_stock x ar) = Some e ->
    txstep d kf sf x true PUpdate (PDecided true true (inl (wrapf "update stock" e))) d (Some (id, t, inl (wrapf "update stock" e)))
| s_update ar :
    stock_of d x = Some ar -> enough x ar = true -> sf -> stock_error (moved_stock x ar) = None ->
    txstep d kf sf x true PUpdate (match t_kind x with TReserve => PLedger (moved_stock x ar) | TRelease => PStatus (moved_stock x ar) end) d None
| s_status ar :
    txstep d kf sf x true (PStatus ar) (PLedger ar) d None
| s_ledger_error ar id t :
    in_int32 (change x) = false ->
    txstep d kf sf x true (PLedger ar) (PDecided true true (inl (wrapf "insert ledger" pg_out_of_range))) d
      (Some (id, t, inl (wrapf "insert ledger" pg_out_of_range)))
| s_ledger ar id t :
    in_int32 (change x) = true -> txstep d kf sf x true (PLedger ar) (PCommit ar id t) d None
| s_commit ar id t :
    txstep d kf sf x true (PCommit ar id t) (PDone (Some (inr tt))) (applied d x ar id t) (Some (id, t, inr tt))
| s_end key stock res :
    txstep d kf sf x true (PDecided key stock res) (PDone (Some res)) d None
| s_lost p :
    (forall seen, p <> PDone seen) -> txstep d kf sf x false p (PDone None) d None
| s_commit_lost ar id t :
    txstep d kf sf x false (PCommit ar id t) (PDone None) (applied d x ar id t) (Some (id, t, inr tt)).

(** The tables, the transactions, and the history (a ghost): which transaction
    counted with which result, in order. *)
Record racing := MkRacing {
  ra_db : InvDB;
  ra_ths : list (tx * tpc);
  ra_hist : list (nat * tx * tx_event)
}.

Definition key_of (x : tx) : UUID * UUID := (t_order x, t_product x).

Definition key_free (ths : list (tx * tpc)) (i : nat) (x : tx) : Prop :=
  forall j y p, j ≠ i -> ths !! j = Some (y, p) -> holds_key p = true -> key_of y ≠ key_of x.

Definition stock_free (ths : list (tx * tpc)) (i : nat) (x : tx) : Prop :=
  forall j y p, j ≠ i -> ths !! j = Some (y, p) -> holds_stock p = true -> t_product y ≠ t_product x.

Definition noted (i : nat) (x : tx) (ev : option tx_event) : list (nat * tx * tx_event) :=
  match ev with Some e => [(i, x, e)] | None => [] end.

Inductive rstep : racing -> racing -> Prop :=
| r_begin d ths h x : rstep (MkRacing d ths h) (MkRacing d (ths ++ [(x, start_pc x)]) h)
| r_run d ths h i x p p' d' ok ev :
    ths !! i = Some (x, p) -> txstep d (key_free ths i x) (stock_free ths i x) x ok p p' d' ev ->
    rstep (MkRacing d ths h) (MkRacing d' (<[i := (x, p')]> ths) (h ++ noted i x ev)).

(** The history as a run of atomic transactions. *)
Inductive serial (d0 : InvDB) : list (nat * tx * tx_event) -> InvDB -> Prop :=
| serial_nil : serial d0 [] d0
| serial_snoc h d i x id t res d' :
    serial d0 h d -> atomic x id t d = (res, d') -> serial d0 (h ++ [(i, x, (id, t, res))]) d'.

(** ** The invariant *)

(** The stock row a transaction has under its lock, and what it will write. *)
Definition stock_pending (d : InvDB) (x : tx) (ar : Z * Z) : Prop :=
  exists ar0, stock_of d x = Some ar0 /\ enough x ar0 = true /\ moved_stock x ar0 = ar /\ stock_error ar = None.

Definition pc_fact (d : InvDB) (x : tx) (p : tpc) : Prop :=
  match p with
  | PInsert => t_kind x = TReserve
  | PSelect => t_kind x = TReserve -> insert_error (t_qty x) = None /\ row_of d x <> None
  | PUpdate => key_ok d x
  | PStatus ar | PLedger ar => key_ok d x /\ stock_pending d x ar
  | PCommit ar _ _ => key_ok d x /\ stock_pending d x ar /\ in_int32 (change x) = true
  | PDecided _ _ _ | PDone _ => True
  end.

Definition indices (h : list (nat * tx * tx_event)) : list nat := (fun e => e.1.1) <$> h.

Definition outcome (p : tpc) : option (error + unit) :=
  match p with PDecided _ _ res => Some res | PDone seen => seen | _ => None end.

Record races_ok (d0 : InvDB) (s : racing) : Prop := MkRacesOk {
  ro_serial : serial d0 (ra_hist s) (ra_db s);
  ro_keys : forall i x p, ra_ths s !! i = Some (x, p) -> holds_key p = true -> key_free (ra_ths s) i x;
  ro_stocks : forall i x p, ra_ths s !! i = Some (x, p) -> holds_stock p = true -> stock_free (ra_ths s) i x;
  ro_pcs : forall i x p, ra_ths s !! i = Some (x, p) -> pc_fact (ra_db s) x p;
  ro_once : NoDup (indices (ra_hist s));
  ro_settled : forall i, i ∈ indices (ra_hist s) -> exists x p, ra_ths s !! i = Some (x, p) /\ settled p = true;
  ro_seen : forall i x p res, ra_ths s !! i = Some (x, p) -> outcome p = Some res -> exists id t, (i, x, (id, t, res)) ∈ ra_hist s
}.

Lemma atomic_commit d x ar id t :
  key_ok d x -> stock_pending d x ar -> in_int32 (change x) = true -> atomic x id t d = (inr tt, applied d x ar id t).
Proof.
  intros Hk (ar0 & Hs & He & Hm & Herr) Hc. rewrite atomic_stock by done. unfold stock_result. by rewrite Hs, He, Hm, Herr, Hc.
Qed.

(** The commit of one transaction leaves what the others know alone. *)
Lemma pc_fact_applied d x ar id t y p :
  pc_fact d y p -> (holds_key p = true -> key_of y ≠ key_of x) -> (holds_stock p = true -> t_product y ≠ t_product x) ->
  pc_fact (applied d x ar id t) y p.
Proof.
  intros Hf Hk Hs.
  assert (Hkey : holds_key p = true -> key_ok d y -> key_ok (applied d x ar id t) y).
  { intros Hp. unfold key_ok, row_of. simpl. rewrite lookup_insert_ne by (intros E; by apply (Hk Hp)). done. }
  assert (Hst : forall a, holds_stock p = true -> stock_pending d y a -> stock_pending (applied d x ar id t) y a).
  { intros a Hp (ar0 & H1 & H2). exists ar0. split; [|done]. unfold stock_of in *. simpl.
    rewrite lookup_insert_ne by (intros E; by apply (Hs Hp)). done. }
  destruct p; simpl in *; try done.
  - intros Hr. destruct (Hf Hr) as [H1 H2]. split; [done|]. unfold row_of in *. simpl.
    destruct (decide (key_of x = key_of y)) as [E|E]; unfold key_of in E; [rewrite E, lookup_insert_eq|rewrite lookup_insert_ne]; done.
  - by apply Hkey.
  - destruct Hf. split; [by apply Hkey|by apply Hst].
  - destruct Hf. split; [by apply Hkey|by apply Hst].
  - destruct Hf as (? & ? & ?). split_and!; [by apply Hkey|by apply Hst|done].
Qed.

(** A judgement of [None] is the state a release goes on from. *)
Lemma judged_None x row : judged x row = None -> t_kind x = TRelease /\ row = MkRow (t_qty x) "reserved".
Proof.
  unfold judged. destruct (t_kind x); [done|]. intros H. split; [done|]. destruct row as [q st]. simpl in *.
  destruct (_ && _); [done|]. case_bool_decide; simpl in *; [|done]. subst st.
  destruct (Z.eqb_spec q (t_qty x)); [by subst|done].
Qed.

Lemma stock_short x id t d :
  key_ok d x -> match stock_of d x with Some ar => enough x ar = false | None => True end ->
  atomic x id t d = (inl (ESentinel ErrInsufficientStock), d).
Proof. intros Hk Hs. rewrite atomic_stock by done. unfold stock_result. destruct (stock_of d x) as [ar|]; [by rewrite Hs|done]. Qed.

(** What the event of a step stands for. *)
Definition event_fact (d : InvDB) (x : tx) (ok : bool) (p p' : tpc) (d' : InvDB) (ev : option tx_event) : Prop :=
  match ev with
  | Some (id, t, res) => atomic x id t d = (res, d') /\ settled p = false /\ settled p' = true /\ (outcome p' = Some res \/ outcome p' = None)
  | None => d' = d /\ (outcome p' = outcome p \/ outcome p' = None) /\ (settled p = true -> settled p' = true)
  end.

Lemma txstep_event d kf sf x ok p p' d' ev : txstep d kf sf x ok p p' d' ev -> pc_fact d x p -> event_fact d x ok p p' d' ev.
Proof.
  intros Hstep Hf. destruct Hstep; simpl in *; try (split_and!; by auto).
  - split_and!; try by auto. by apply atomic_insert_error.
  - split_and!; try by auto. by apply atomic_not_found.
  - split_and!; try by auto. eapply atomic_judged; [done|done|]. intros Hk. by apply Hf.
  - split_and!; try by auto. by apply stock_short.
  - split_and!; try by auto. rewrite atomic_stock by done. unfold stock_result. by rewrite H, H0, H2.
  - destruct (t_kind x); split_and!; by auto.
  - split_and!; try by auto. destruct Hf as [Hk (ar0 & Hs & He & Hm & Herr)]. rewrite atomic_stock by done. unfold stock_result.
    by rewrite Hs, He, Hm, Herr, H.
  - destruct Hf as (Hk & Hs & Hc). split_and!; try by auto. by apply atomic_commit.
  - destruct Hf as (Hk & Hs & Hc). split_and!; try by auto. by apply atomic_commit.
Qed.

Lemma txstep_pc d kf sf x ok p p' d' ev :
  txstep d kf sf x ok p p' d' ev -> pc_fact d x p ->
  pc_fact d' x p' /\ (holds_key p' = true -> holds_key p = true \/ kf) /\ (holds_stock p' = true -> holds_stock p = true \/ sf) /\
  (d' = d \/ exists ar id t, d' = applied d x ar id t /\ holds_key p = true /\ holds_stock p = true).
Proof.
  intros Hstep Hf. destruct Hstep; simpl in *; try (split_and!; by eauto).
  - split_and!; [unfold key_ok; by rewrite H|by auto..].
  - split_and!; [|by auto..]. intros _. by rewrite H1.
  - apply judged_None in H1 as [Hk ->]. split_and!; [unfold key_ok; by rewrite Hk|by auto..].
  - assert (stock_pending d x (moved_stock x ar)) by (by exists ar). destruct (t_kind x); split_and!; by auto.
  - destruct Hf. split_and!; by auto.
  - destruct Hf. split_and!; by auto.
  - split_and!; [done|done|done|]. right. by eauto 10.
  - split_and!; [done|done|done|]. right. by eauto 10.
Qed.

(** ** Every step keeps the invariant *)

Lemma begin_ok d0 d ths h x : races_ok d0 (MkRacing d ths h) -> races_ok d0 (MkRacing d (ths ++ [(x, start_pc x)]) h).
Proof.
  intros [Hser Hk Hs Hp Hn Hset Hseen]. simpl in *.
  assert (Hstart : holds_key (start_pc x) = false /\ holds_stock (start_pc x) = false /\ outcome (start_pc x) = None)
    by (unfold start_pc; by destruct (t_kind x)).
  destruct Hstart as (Hs1 & Hs2 & Hs3). constructor; simpl; [done| | | |done| |].
  - intros i y p [Hi|[-> [= -> ->]]]%lookup_snoc_cases Hh; [|by rewrite Hs1 in Hh].
    intros j z q Hne [Hj|[-> [= -> ->]]]%lookup_snoc_cases Hq; [by eapply Hk|by rewrite Hs1 in Hq].
  - intros i y p [Hi|[-> [= -> ->]]]%lookup_snoc_cases Hh; [|by rewrite Hs2 in Hh].
    intros j z q Hne [Hj|[-> [= -> ->]]]%lookup_snoc_cases Hq; [by eapply Hs|by rewrite Hs2 in Hq].
  - intros i y p [Hi|[-> [= -> ->]]]%lookup_snoc_cases; [by eapply Hp|].
    unfold start_pc. destruct (t_kind x) eqn:E; simpl; [done|by rewrite E].
  - intros i (y & p & Hi & Hst)%Hset. exists y, p. split; [|done]. by rewrite lookup_app_l by (by eapply lookup_lt_Some).
  - intros i y p res [Hi|[-> [= -> ->]]]%lookup_snoc_cases Ho; [by eapply Hseen|by rewrite Hs3 in Ho].
Qed.

(** Two threads never hold the same lock, whoever moves. *)
Lemma free_insert (holds : tpc -> bool) (same : tx -> tx -> Prop) (ths : list (tx * tpc)) (i : nat) x p p' :
  (forall a b, same a b -> same b a) ->
  ths !! i = Some (x, p) -> (holds p' = true -> forall j y q, j ≠ i -> ths !! j = Some (y, q) -> holds q = true -> ~ same y x) ->
  (forall k y q, ths !! k = Some (y, q) -> holds q = true -> forall j z r, j ≠ k -> ths !! j = Some (z, r) -> holds r = true -> ~ same z y) ->
  forall k y q, <[i := (x, p')]> ths !! k = Some (y, q) -> holds q = true ->
    forall j z r, j ≠ k -> <[i := (x, p')]> ths !! j = Some (z, r) -> holds r = true -> ~ same z y.
Proof.
  intros Hsym Hi Hnew Hold k y q [[-> [= -> ->]]|[Hki Hk]]%lookup_insert_cases Hq j z r Hjk [[-> [= -> ->]]|[Hji Hj]]%lookup_insert_cases Hr.
  - done.
  - by eapply Hnew.
  - intros Hs%Hsym. by eapply (Hnew Hr k y q).
  - by eapply Hold.
Qed.

Lemma run_ok d0 d ths h i x p p' d' ok ev :
  races_ok d0 (MkRacing d ths h) -> ths !! i = Some (x, p) ->
  txstep d (key_free ths i x) (stock_free ths i x) x ok p p' d' ev ->
  races_ok d0 (MkRacing d' (<[i := (x, p')]> ths) (h ++ noted i x ev)).
Proof.
  intros [Hser Hk Hs Hp Hn Hset Hseen] Hi Hstep. simpl in *.
  pose proof (Hp _ _ _ Hi) as Hf. pose proof (txstep_event _ _ _ _ _ _ _ _ _ Hstep Hf) as Hev.
  destruct (txstep_pc _ _ _ _ _ _ _ _ _ Hstep Hf) as (Hf' & Hkey & Hstock & Hdb). clear Hstep.
  assert (Hlt : (i < length ths)%nat) by (by eapply lookup_lt_Some).
  assert (Hfresh : ev ≠ None -> i ∉ indices h).
  { intros Hne (y & q & Hq & Hst)%Hset. destruct ev as [[[id t] res]|]; [|done]. destruct Hev as (_ & Hp0 & _). congruence. }
  constructor; simpl.
  - destruct ev as [[[id t] res]|]; simpl in *; [|destruct Hev as (-> & _); by rewrite app_nil_r].
    destruct Hev as (Hat & _). by eapply serial_snoc.
  - refine (free_insert holds_key (fun a b => key_of a = key_of b) ths i x p p' _ Hi _ Hk); [done|].
    intros Hh. destruct (Hkey Hh) as [Hold|Hkf]; [exact (Hk _ _ _ Hi Hold)|exact Hkf].
  - refine (free_insert holds_stock (fun a b => t_product a = t_product b) ths i x p p' _ Hi _ Hs); [done|].
    intros Hh. destruct (Hstock Hh) as [Hold|Hsf]; [exact (Hs _ _ _ Hi Hold)|exact Hsf].
  - intros j y q [[-> [= -> ->]]|[Hji Hj]]%lookup_insert_cases; [done|].
    destruct Hdb as [->|(ar & id & t & -> & H1 & H2)]; [by eapply Hp|].
    apply pc_fact_applied; [by eapply Hp|intros Hq; by eapply (Hk i x p)|intros Hq; by eapply (Hs i x p)].
  - destruct ev as [e|]; simpl; [|by rewrite app_nil_r]. unfold indices. rewrite fmap_app. apply NoDup_app. split_and!; [done| |apply NoDup_singleton].
    intros k Hin Hk1%list_elem_of_singleton. simpl in Hk1. subst k. by apply Hfresh.
  - intros k Hin. destruct (decide (k = i)) as [->|Hki].
    + exists x, p'. rewrite list_lookup_insert_eq by done. split; [done|].
      destruct ev as [[[id t] res]|]; [by destruct Hev as (_ & _ & ? & _)|]. destruct Hev as (_ & _ & Hmono). apply Hmono.
      simpl in Hin. rewrite app_nil_r in Hin. apply Hset in Hin as (y & q & Hq & Hst). by simplify_eq.
    + destruct (Hset k) as (y & q & Hq & Hst); [|exists y, q; by rewrite list_lookup_insert_ne].
      destruct ev as [e|]; simpl in Hin; [|by rewrite app_nil_r in Hin]. unfold indices in Hin. rewrite fmap_app in Hin.
      apply elem_of_app in Hin as [Hin|Hin%list_elem_of_singleton]; done.
  - intros j y q res [[-> [= -> ->]]|[Hji Hj]]%lookup_insert_cases Ho.
    + destruct ev as [[[id t] r]|]; simpl in *.
      * destruct Hev as (_ & _ & _ & [Hr|Hr]); rewrite Ho in Hr; simplify_eq. exists id, t. apply elem_of_app. right. by left.
      * rewrite app_nil_r. destruct Hev as (_ & [Hr|Hr] & _); rewrite Ho in Hr; [|done]. by eapply Hseen.
    + destruct (Hseen _ _ _ _ Hj Ho) as (id & t & Hin). exists id, t. apply elem_of_app. by left.
Qed.

Definition race_start (d0 : InvDB) : racing := MkRacing d0 [] [].

Definition race_reachable (d0 : InvDB) (s : racing) : Prop := rtc rstep (race_start d0) s.

Lemma races_reachable_ok d0 s : race_reachable d0 s -> races_ok d0 s.
Proof.
  unfold race_reachable. revert s. apply rtc_ind_r.
  - constructor; simpl; try done; [constructor|by apply NoDup_nil|by intros i Hi%not_elem_of_nil].
  - intros s s' _ Hs Hok. destruct Hs as [d ths h x|]; [by apply begin_ok|by eapply run_ok].
Qed.

(** C8. Every interleaving of Reserve and Release transactions, with lost
    connections at any statement and lost replies of commits, is a sequence of the
    atomic transactions of the sequential model: the committed tables are those of
    the history run one transaction after the other, each transaction counts at most
    once, and a caller that got an answer got the one of its place in the history. *)
Theorem inventory_serialisable d0 s :
  race_reachable d0 s ->
  serial d0 (ra_hist s) (ra_db s) /\ NoDup (indices (ra_hist s)) /\
  forall i x res, ra_ths s !! i = Some (x, PDone (Some res)) -> exists id t, (i, x, (id, t, res)) ∈ ra_hist s.
Proof.
  intros [Hser _ _ _ Hn _ Hseen]%races_reachable_ok. split_and!; [done|done|]. intros i x res Hi. by eapply Hseen.
Qed.

Lemma atomic_keeps T x id t d res d' :
  atomic x id t d = (res, d') -> stock_ok T (MkInvSt d ∅ []) -> stock_ok T (MkInvSt d' ∅ []).
Proof.
  unfold atomic. intros Hat Hok.
  assert (Hpres : pres (stock_ok T) (Run (tx_body x))).
  { apply pres_Run. unfold tx_body. destruct (t_kind x); [apply reserve_keeps|apply release_keeps]. }
  specialize (Hpres (plain id t) (World 0 (MkInvSt d ∅ [])) Hok). destruct (Run _ _ _) as [r w]. simplify_eq/=. exact Hpres.
Qed.

(** C9. No overselling under concurrency: whatever the interleaving and whatever is
    lost, stock, reservations and ledger agree and no unit appears or disappears. *)
Theorem no_oversell d0 s :
  race_reachable d0 s -> inv_db d0 -> inv_db (ra_db s) /\ totals (ra_db s) = totals d0.
Proof.
  intros Hr Hinv. cut (stock_ok (totals d0) (MkInvSt (ra_db s) ∅ [])); [done|].
  destruct (races_reachable_ok _ _ Hr) as [Hser _ _ _ _ _ _].
  induction Hser as [|h d i x id t res d' _ IH Hat]; [done|]. by eapply atomic_keeps.
Qed.

(** ** Progress *)

(** A statement that no failure interrupts. *)
Definition rlive (s s' : racing) : Prop :=
  exists i x p p' d' ev, ra_ths s !! i = Some (x, p) /\
    txstep (ra_db s) (key_free (ra_ths s) i x) (stock_free (ra_ths s) i x) x true p p' d' ev /\
    s' = MkRacing d' (<[i := (x, p')]> (ra_ths s)) (ra_hist s ++ noted i x ev).

Definition unfinished (p : tpc) : Prop := forall seen, p ≠ PDone seen.

(** The statements a transaction has left, at most. *)
Definition remaining (p : tpc) : nat :=
  match p with
  | PInsert => 7 | PSelect => 6 | PUpdate => 5 | PStatus _ => 4 | PLedger _ => 3 | PCommit _ _ _ => 2
  | PDecided _ _ _ => 1 | PDone _ => 0
  end.

Definition work (s : racing) : nat := sum_list_with (fun th => remaining th.2) (ra_ths s).

Lemma rlive_work s s' : rlive s s' -> (work s' < work s)%nat.
Proof.
  intros (i & x & p & p' & d' & ev & Hi & Hstep & ->). unfold work. simpl.
  assert (Hlt : (remaining p' < remaining p)%nat) by (inversion Hstep; subst; simpl; try lia; destruct (t_kind x); simpl; lia).
  rewrite <- (take_drop_middle (ra_ths s) i (x, p) Hi) at 2.
  rewrite insert_take_drop by (by eapply lookup_lt_Some). rewrite !sum_list_with_app. simpl. lia.
Qed.

(** A thread that holds its stock row, or has its result, can always go on. *)
Lemma advance_locked s i x p :
  ra_ths s !! i = Some (x, p) -> holds_stock p = true \/ (unfinished p /\ settled p = true) -> exists s', rlive s s'.
Proof.
  intros Hi Hp. assert (Hex : exists p' d' ev, txstep (ra_db s) (key_free (ra_ths s) i x) (stock_free (ra_ths s) i x) x true p p' d' ev).
  { destruct p as [| | |ar|ar|ar id t|k st res|seen]; simpl in Hp; try (by destruct Hp as [?|[_ ?]]).
    - eexists _, _, _. apply s_status.
    - destruct (in_int32 (change x)) eqn:Hc; [eexists _, _, _; by apply (s_ledger _ _ _ _ _ uuid_Nil 0)|].
      eexists _, _, _. by apply (s_ledger_error _ _ _ _ _ uuid_Nil 0).
    - eexists _, _, _. apply s_commit.
    - eexists _, _, _. apply s_end.
    - destruct Hp as [?|[Hu _]]; [done|]. by destruct (Hu seen). }
  destruct Hex as (p' & d' & ev & Ht). eexists. exists i, x, p, p', d', ev. by split_and!.
Qed.

(** No stock row locked: a transaction at its stock update goes on. *)
Lemma advance_update s i x :
  ra_ths s !! i = Some (x, PUpdate) -> (forall j y q, ra_ths s !! j = Some (y, q) -> holds_stock q = false) -> exists s', rlive s s'.
Proof.
  intros Hi Hfree. assert (Hsf : stock_free (ra_ths s) i x) by (intros j y q _ Hj Hq; by rewrite (Hfree _ _ _ Hj) in Hq).
  assert (Hex : exists p' d' ev, txstep (ra_db s) (key_free (ra_ths s) i x) (stock_free (ra_ths s) i x) x true PUpdate p' d' ev).
  { destruct (stock_of (ra_db s) x) as [ar|] eqn:Hst; [|eexists _, _, _; apply (s_short _ _ _ _ uuid_Nil 0); by rewrite Hst].
    destruct (enough x ar) eqn:He; [|eexists _, _, _; apply (s_short _ _ _ _ uuid_Nil 0); by rewrite Hst].
    destruct (stock_error (moved_stock x ar)) as [e|] eqn:Herr; eexists _, _, _; [by apply (s_refused _ _ _ _ ar e uuid_Nil 0)|by apply (s_update _ _ _ _ ar)]. }
  destruct Hex as (p' & d' & ev & Ht). eexists. exists i, x, PUpdate, p', d', ev. by split_and!.
Qed.

(** No lock held at all: a transaction at its first statements goes on. *)
Lemma advance_first d0 s i x p :
  races_ok d0 s -> ra_ths s !! i = Some (x, p) -> p = PInsert \/ p = PSelect ->
  (forall j y q, ra_ths s !! j = Some (y, q) -> holds_key q = false) -> exists s', rlive s s'.
Proof.
  intros Hok Hi Hp Hfree. assert (Hkf : key_free (ra_ths s) i x) by (intros j y q _ Hj Hq; by rewrite (Hfree _ _ _ Hj) in Hq).
  pose proof (ro_pcs _ _ Hok _ _ _ Hi) as Hf.
  assert (Hex : exists p' d' ev, txstep (ra_db s) (key_free (ra_ths s) i x) (stock_free (ra_ths s) i x) x true p p' d' ev).
  { destruct Hp as [-> | ->]; simpl in Hf.
    - destruct (insert_error (t_qty x)) as [e|] eqn:He; [eexists _, _, _; by apply (s_insert_error _ _ _ _ e uuid_Nil 0)|].
      destruct (row_of (ra_db s) x) eqn:Hrow; eexists _, _, _; [by eapply s_conflict|by apply s_insert].
    - destruct (row_of (ra_db s) x) as [row|] eqn:Hrow.
      + destruct (judged x row) as [res|] eqn:Hj; eexists _, _, _; [by apply (s_judged _ _ _ _ row res uuid_Nil 0)|by eapply s_found].
      + destruct (t_kind x) eqn:Hk; [by destruct (Hf eq_refl)|]. eexists _, _, _. by apply (s_missing _ _ _ _ uuid_Nil 0). }
  destruct Hex as (p' & d' & ev & Ht). eexists. exists i, x, p, p', d', ev. by split_and!.
Qed.

Lemma thread_dec (f : tpc -> bool) (ths : list (tx * tpc)) :
  (exists i x p, ths !! i = Some (x, p) /\ f p = true) \/ (forall i x p, ths !! i = Some (x, p) -> f p = false).
Proof.
  destruct (existsb (fun th => f th.2) ths) eqn:E.
  - left. apply existsb_exists in E as ([x p] & Hin & Hf). apply list_elem_of_In, list_elem_of_lookup_1 in Hin as [i Hi]. by eauto.
  - right. intros i x p Hi. destruct (f p) eqn:Hf; [|done]. apply not_true_iff_false in E. destruct E.
    apply existsb_exists. exists (x, p). split; [|done]. apply list_elem_of_In. by eapply list_elem_of_lookup_2.
Qed.

Lemma races_advance d0 s i x p : races_ok d0 s -> ra_ths s !! i = Some (x, p) -> unfinished p -> exists s', rlive s s'.
Proof.
  intros Hok Hi Hu.
  destruct (thread_dec holds_stock (ra_ths s)) as [(j & y & q & Hj & Hq)|Hns]; [eapply advance_locked; eauto|].
  destruct (thread_dec (fun q => match q with PDecided _ _ _ => true | _ => false end) (ra_ths s)) as [(j & y & q & Hj & Hq)|Hnd].
  { eapply advance_locked; [exact Hj|]. right. by destruct q. }
  destruct (thread_dec (fun q => match q with PUpdate => true | _ => false end) (ra_ths s)) as [(j & y & q & Hj & Hq)|Hnu].
  { destruct q; try done. by eapply advance_update. }
  assert (Hnk : forall j y q, ra_ths s !! j = Some (y, q) -> holds_key q = false).
  { intros j y q Hj. pose proof (Hns _ _ _ Hj) as H1. pose proof (Hnd _ _ _ Hj) as H2. pose proof (Hnu _ _ _ Hj) as H3. by destruct q. }
  eapply advance_first; [done|exact Hi| |done].
  pose proof (Hns _ _ _ Hi) as H1. pose proof (Hnd _ _ _ Hi) as H2. pose proof (Hnu _ _ _ Hi) as H3.
  destruct p as [| | | | | | |seen]; try done; [by left|by right|]. by destruct (Hu seen).
Qed.

(** C10. No deadlock: while a transaction is unfinished some transaction can execute
    its next statement, and a schedule of such statements ends after at most seven
    per transaction. *)
Theorem inventory_no_deadlock d0 s :
  race_reachable d0 s ->
  (forall i x p, ra_ths s !! i = Some (x, p) -> unfinished p -> exists s', rlive s s') /\
  (forall n s', nsteps rlive n s s' -> (n <= 7 * length (ra_ths s))%nat).
Proof.
  intros Hr. split; [intros i x p; by apply races_advance with d0, races_reachable_ok|].
  intros n s' Hn. assert (Hw : (n + work s' <= work s)%nat).
  { clear Hr. induction Hn as [|n s1 s2 s3 Hs _ IH]; [lia|]. apply rlive_work in Hs. lia. }
  enough (work s <= 7 * length (ra_ths s))%nat by lia. unfold work. clear.
  induction (ra_ths s) as [|[x p] l IH]; simpl; [lia|]. destruct p; simpl in *; lia.
Qed.
End Races.

(** ** Two orders for the last units *)

Section Samples.
#[local] Existing Instance uuid_text.

Definition o1 : UUID := uuid_sample 2.

Definition first_tx : tx := MkTx TReserve o0 p0 3.
Definition second_tx : tx := MkTx TReserve o1 p0 3.

Definition short_result : error + unit := inl (ESentinel ErrInsufficientStock).

(** Five units: the first order gets three while the second waits, and the second
    is refused. *)
Definition raced : racing :=
  MkRacing (applied sample_db first_tx (2, 3) o1 7)
    [(first_tx, PDone (Some (inr tt))); (second_tx, PDone (Some short_result))]
    [(0%nat, first_tx, (o1, 7, inr tt)); (1%nat, second_tx, (p0, 0, short_result))].

Lemma keys_differ : key_of first_tx ≠ key_of second_tx.
Proof. by intros [=]. Qed.

Ltac rgo i := eapply rtc_l; [eapply (r_run _ _ _ i _ _ _ _ true); [reflexivity|]|]; [..|cbn [insert list_insert app noted]].

Ltac other_thread := let j := fresh in intros [|[|j]] y p Hne Hj Hh; simplify_eq/=; try done.

Lemma raced_reachable : race_reachable sample_db raced.
Proof.
  unfold race_reachable, race_start, raced.
  eapply rtc_l; [apply (r_begin _ _ _ first_tx)|]. eapply rtc_l; [apply (r_begin _ _ _ second_tx)|].
  cbn [app start_pc t_kind first_tx second_tx].
  rgo 0%nat. { apply s_insert; [done|done|reflexivity|]. other_thread. }
  rgo 0%nat. { apply (s_update _ _ _ _ (5, 0)); [reflexivity|done| |done]. other_thread. }
  rgo 1%nat. { apply s_insert; [done|done|reflexivity|]. other_thread. }
  rgo 0%nat. { by apply (s_ledger _ _ _ _ _ o1 7). }
  rgo 0%nat. { apply s_commit. }
  rgo 1%nat. { apply (s_short _ _ _ _ p0 0). unfold stock_of. simpl. by rewrite lookup_insert_eq. }
  rgo 1%nat. { apply s_end. }
  apply rtc_refl.
Qed.

Lemma inventory_serialisable_witness :
  serial sample_db (ra_hist raced) (ra_db raced) /\ NoDup (indices (ra_hist raced)) /\
  exists id t, (1%nat, second_tx, (id, t, short_result)) ∈ ra_hist raced.
Proof.
  destruct (inventory_serialisable sample_db raced raced_reachable) as (H1 & H2 & H3). split_and!; [exact H1|exact H2|].
  by apply (H3 1%nat).
Defined.

Lemma no_oversell_witness : inv_db (ra_db raced) /\ totals (ra_db raced) = totals sample_db.
Proof. apply (no_oversell sample_db raced raced_reachable sample_db_ok). Defined.

Definition opening : racing := MkRacing sample_db [(first_tx, PInsert); (second_tx, PInsert)] [].

Lemma opening_reachable : race_reachable sample_db opening.
Proof. eapply rtc_l; [apply (r_begin _ _ _ first_tx)|]. apply rtc_once. apply (r_begin _ [(first_tx, PInsert)] _ second_tx). Qed.

Lemma inventory_no_deadlock_witness : exists s', rlive opening s'.
Proof. by apply (proj1 (inventory_no_deadlock sample_db opening opening_reachable) 1%nat second_tx PInsert). Defined.
End Samples.
