(* ===== verification/OrderDomain.v ===== *)
(** * order-service: domain

    Orders and their status machine ([internal/domain]), the proto conversion
    tables of the handler, and the JSON form in which the saga row keeps the
    reserved items. *)
From S2P Require Import Prelude Errors Effects.

(** ** Status machine: domain/status.go *)

Inductive OrderStatus :=
| OrderStatusUnspecified
| OrderStatusPending
| OrderStatusAwaitingPayment
| OrderStatusPaid
| OrderStatusProcessing
| OrderStatusShipped
| OrderStatusDelivered
| OrderStatusCancelled
| OrderStatusRefunded.

#[global] Instance OrderStatus_eq_dec : EqDecision OrderStatus.
Proof. solve_decision. Defined.

Definition status_string (s : OrderStatus) : string :=
  match s with
  | OrderStatusUnspecified => "unspecified"
  | OrderStatusPending => "pending"
  | OrderStatusAwaitingPayment => "awaiting_payment"
  | OrderStatusPaid => "paid"
  | OrderStatusProcessing => "processing"
  | OrderStatusShipped => "shipped"
  | OrderStatusDelivered => "delivered"
  | OrderStatusCancelled => "cancelled"
  | OrderStatusRefunded => "refunded"
  end.

(** A missing key of the Go map is the nil slice. *)
Definition allowedTransitions (s : OrderStatus) : list OrderStatus :=
  match s with
  | OrderStatusPending => [OrderStatusAwaitingPayment; OrderStatusCancelled]
  | OrderStatusAwaitingPayment => [OrderStatusPaid; OrderStatusCancelled]
  | OrderStatusPaid => [OrderStatusProcessing; OrderStatusCancelled; OrderStatusRefunded]
  | OrderStatusProcessing => [OrderStatusShipped; OrderStatusCancelled; OrderStatusRefunded]
  | OrderStatusShipped => [OrderStatusDelivered; OrderStatusCancelled; OrderStatusRefunded]
  | OrderStatusDelivered => [OrderStatusRefunded]
  | OrderStatusUnspecified | OrderStatusCancelled | OrderStatusRefunded => []
  end.

Definition CanTransition (s target : OrderStatus) : bool :=
  if bool_decide (s = target) then true
  else existsb (fun next => bool_decide (next = target)) (allowedTransitions s).

Definition ValidateTransition (s target : OrderStatus) : option error :=
  if negb (CanTransition s target) then
    Some (EPlain ("invalid status transition from " +:+ status_string s +:+ " to " +:+ status_string target))
  else None.

Definition CancellableDirectly (s : OrderStatus) : bool :=
  bool_decide (s = OrderStatusPending) || bool_decide (s = OrderStatusAwaitingPayment).

Definition ParseOrderStatus (status : string) : error + OrderStatus :=
  let l := ToLower status in
  if bool_decide (l = "") || bool_decide (l = "unspecified") then inr OrderStatusUnspecified
  else if bool_decide (l = "pending") then inr OrderStatusPending
  else if bool_decide (l = "awaiting_payment") then inr OrderStatusAwaitingPayment
  else if bool_decide (l = "paid") then inr OrderStatusPaid
  else if bool_decide (l = "processing") then inr OrderStatusProcessing
  else if bool_decide (l = "shipped") then inr OrderStatusShipped
  else if bool_decide (l = "delivered") then inr OrderStatusDelivered
  else if bool_decide (l = "cancelled") then inr OrderStatusCancelled
  else if bool_decide (l = "refunded") then inr OrderStatusRefunded
  else inl (EPlain ("unknown order status: " +:+ status)).

(** ** Conversion tables: delivery/grpc/handler.go

    A proto enum value is its number. *)

Definition domainStatusToProto (s : OrderStatus) : Z :=
  match s with
  | OrderStatusPending => 1
  | OrderStatusAwaitingPayment => 2
  | OrderStatusPaid => 3
  | OrderStatusProcessing => 4
  | OrderStatusShipped => 5
  | OrderStatusDelivered => 6
  | OrderStatusCancelled => 7
  | OrderStatusRefunded => 8
  | OrderStatusUnspecified => 0
  end.

Definition protoStatusToDomain (s : Z) : OrderStatus :=
  match s with
  | 1 => OrderStatusPending
  | 2 => OrderStatusAwaitingPayment
  | 3 => OrderStatusPaid
  | 4 => OrderStatusProcessing
  | 5 => OrderStatusShipped
  | 6 => OrderStatusDelivered
  | 7 => OrderStatusCancelled
  | 8 => OrderStatusRefunded
  | _ => OrderStatusUnspecified
  end.

(** ** JSON values *)

(** A decoded JSON document; [JFrac m k] is the number [m / 10^k], written with
    a fraction or an exponent; [JTime] is a time stamp (RFC 3339 text), kept as
    the instant. *)
Inductive json :=
| JNull
| JBool (b : bool)
| JNum (z : Z)
| JFrac (m : Z) (k : nat)
| JStr (s : string)
| JTime (t : Z)
| JArr (l : list json)
| JObj (l : list (string * json)).

(** A field of an object; of duplicate keys the last one wins. *)
Definition json_field (k : string) (l : list (string * json)) : option json :=
  snd <$> last (filter (fun kv : string * json => fst kv = k) l).

(** ** Orders: domain/order.go *)

Section Domain.
Context `{U : UuidLib}.

Record OrderItem := MkItem {
  it_ID : UUID; it_OrderID : UUID; it_ProductID : UUID; it_Quantity : Z; it_Price : Z
}.

Record Order := MkOrder {
  o_ID : UUID; o_UserID : UUID; o_Items : list OrderItem; o_TotalAmount : Z;
  o_Status : OrderStatus; o_CreatedAt : Z; o_UpdatedAt : Z
}.

Record OutboxEvent := MkEvent {
  ev_ID : UUID; ev_AggregateType : string; ev_AggregateID : string; ev_EventType : string;
  ev_Payload : json; ev_CreatedAt : Z; ev_ProcessedAt : option Z; ev_RetryCount : Z;
  ev_LastError : option string; ev_NextRetryAt : Z
}.

Record OutboxDLQEvent := MkDLQ {
  dq_ID : UUID; dq_AggregateType : string; dq_AggregateID : string; dq_EventType : string;
  dq_Payload : json; dq_CreatedAt : Z; dq_FailedAt : Z; dq_LastError : option string; dq_RetryCount : Z
}.
End Domain.

(** ** Reserved items of a saga row: repository/postgres/saga_postgres.go *)

Record SagaReservedItem := MkReserved { ri_ProductID : string; ri_Quantity : Z }.

#[global] Instance SagaReservedItem_eq_dec : EqDecision SagaReservedItem.
Proof. solve_decision. Defined.

Definition marshal_item (i : SagaReservedItem) : json :=
  JObj [("product_id", JStr (ri_ProductID i)); ("quantity", JNum (ri_Quantity i))].

Definition marshalReservedItems (items : list SagaReservedItem) : json :=
  if bool_decide (length items = 0%nat) then JArr [] else JArr (marshal_item <$> items).

(** [json.Unmarshal] of one element: an absent or null field keeps the zero
    value; a value of another type, or a number outside int32, is an error for
    that field, which the caller discards. *)
Definition unmarshal_item (j : json) : SagaReservedItem :=
  match j with
  | JObj l =>
      MkReserved (match json_field "product_id" l with Some (JStr s) => s | _ => "" end)
                 (match json_field "quantity" l with Some (JNum z) => if in_int32 z then z else 0 | _ => 0 end)
  | _ => MkReserved "" 0
  end.

(** [None] is a NULL column (no bytes). *)
Definition unmarshalReservedItems (data : option json) : list SagaReservedItem :=
  match data with
  | Some (JArr l) => unmarshal_item <$> l
  | _ => []
  end.

(** ** Theorems *)

(** An abstract reading of the machine: how far an order has gone. *)
Definition rank (s : OrderStatus) : nat :=
  match s with
  | OrderStatusPending => 0 | OrderStatusAwaitingPayment => 1 | OrderStatusPaid => 2
  | OrderStatusProcessing => 3 | OrderStatusShipped => 4 | OrderStatusDelivered => 5
  | OrderStatusCancelled => 6 | OrderStatusRefunded => 7 | OrderStatusUnspecified => 8
  end.

Lemma CanTransition_rank s t : CanTransition s t = true -> s = t \/ (rank s < rank t)%nat.
Proof. destruct s, t; simpl; try (intros; discriminate); auto; intros _; right; lia. Qed.

Lemma ToLower_status s : ToLower (status_string s) = status_string s.
Proof. by destruct s. Qed.

(** A run of the machine. *)
Inductive status_run : OrderStatus -> list OrderStatus -> OrderStatus -> Prop :=
| run_nil s : status_run s [] s
| run_step s t l u : s ≠ t -> ValidateTransition s t = None -> status_run t l u -> status_run s (t :: l) u.

Lemma status_run_rank s l u : status_run s l u -> (rank s + length l <= rank u)%nat.
Proof.
  induction 1 as [|s t l u Hne Hv _ IH]; simpl; [lia|].
  unfold ValidateTransition in Hv. destruct (CanTransition s t) eqn:Hc; [|done].
  apply CanTransition_rank in Hc as [?|?]; [done|lia].
Qed.

Lemma status_run_unspecified s l u :
  status_run s l u -> s ≠ OrderStatusUnspecified -> u ≠ OrderStatusUnspecified.
Proof.
  induction 1 as [|s t l u Hne Hv _ IH]; [done|]. intros _. apply IH. intros ->.
  by destruct s.
Qed.

(** The order status machine terminates: from any state of an order, a run of
    validated changes never revisits a state, has at most seven changes, and
    nothing leaves cancelled or refunded; an order is paid only from
    awaiting_payment. *)
Theorem status_machine_acyclic s l u :
  status_run s l u ->
  s ≠ OrderStatusUnspecified ->
  (length l <= 7)%nat /\ (l ≠ [] -> u ≠ s) /\
  (s = OrderStatusCancelled \/ s = OrderStatusRefunded -> l = []) /\
  (u = OrderStatusPaid -> l ≠ [] ->
     (s = OrderStatusPending /\ l = [OrderStatusAwaitingPayment; OrderStatusPaid]) \/
     (s = OrderStatusAwaitingPayment /\ l = [OrderStatusPaid])).
Proof.
  intros Hrun Hs. pose proof (status_run_rank _ _ _ Hrun) as Hr.
  pose proof (status_run_unspecified _ _ _ Hrun Hs) as Hu. split_and!.
  - destruct u; simpl in Hr; try lia; done.
  - intros Hl ->. destruct l; [done|]. simpl in Hr. lia.
  - intros [->| ->]; inversion Hrun as [|? t ? ? Hne Hv]; subst; [done| |done|];
      destruct t; simpl in Hv; discriminate || done.
  - intros -> Hl.
    inversion Hrun as [|? t l1 ? Hne Hv Hrun1]; subst; [done|].
    destruct s; try done; simpl in Hr; try lia.
    + destruct t; try done; [|by apply status_run_rank in Hrun1; simpl in Hrun1; lia].
      left. split; [done|]. inversion Hrun1 as [|? t2 l2 ? Hne2 Hv2 Hrun2]; subst.
      destruct t2; try done; apply status_run_rank in Hrun2; simpl in Hrun2; destruct l2; simpl in *; done || lia.
    + destruct t; try done; apply status_run_rank in Hrun1; simpl in Hrun1; destruct l1; simpl in *; try lia.
      right. done.
Qed.

Lemma status_machine_acyclic_witness :
  (length [OrderStatusAwaitingPayment; OrderStatusPaid] <= 7)%nat.
Proof.
  apply (status_machine_acyclic OrderStatusPending [OrderStatusAwaitingPayment; OrderStatusPaid] OrderStatusPaid).
  - do 2 (apply run_step; [done|reflexivity|]). apply run_nil.
  - done.
Defined.

(** Statuses survive both external forms: the text form parses back, in any
    letter case of ASCII, and the proto number converts back. *)
Theorem status_roundtrips s text :
  ToLower text = status_string s ->
  ParseOrderStatus text = inr s /\ ParseOrderStatus (status_string s) = inr s /\
  protoStatusToDomain (domainStatusToProto s) = s.
Proof.
  intros Ht. unfold ParseOrderStatus. rewrite Ht, ToLower_status. by destruct s.
Qed.

Lemma status_roundtrips_witness : ParseOrderStatus "PaId" = inr OrderStatusPaid.
Proof. apply (status_roundtrips OrderStatusPaid "PaId"). reflexivity. Defined.

Lemma unmarshal_marshal_item i :
  in_int32 (ri_Quantity i) = true -> unmarshal_item (marshal_item i) = i.
Proof. intros Hq. destruct i as [p q]. simpl in *. by rewrite Hq. Qed.

Lemma reserved_items_roundtrip_list items :
  Forall (fun i => in_int32 (ri_Quantity i) = true) items ->
  unmarshalReservedItems (Some (marshalReservedItems items)) = items.
Proof.
  intros Hall. unfold marshalReservedItems. destruct items as [|i items]; [done|].
  rewrite bool_decide_false by done. simpl unmarshalReservedItems.
  change (unmarshal_item <$> (marshal_item <$> i :: items) = i :: items).
  rewrite <- list_fmap_compose. rewrite <- (list_fmap_id (i :: items)) at 2.
  apply list_fmap_ext. intros j x Hx. simpl. apply unmarshal_marshal_item.
  by apply (Forall_lookup_1 _ _ _ _ Hall Hx).
Qed.

(** The reserved items that the saga stores are read back unchanged, so a
    recovered saga compensates exactly what it reserved. *)
Theorem reserved_items_roundtrip items :
  Forall (fun i => in_int32 (ri_Quantity i) = true) items ->
  unmarshalReservedItems (Some (marshalReservedItems items)) = items.
Proof. apply reserved_items_roundtrip_list. Qed.

Lemma reserved_items_roundtrip_witness :
  unmarshalReservedItems (Some (marshalReservedItems [MkReserved "p" 3; MkReserved "q" 1]))
  = [MkReserved "p" 3; MkReserved "q" 1].
Proof. apply reserved_items_roundtrip. repeat constructor. Defined.
