(* ===== verification/OrderRepo.v ===== *)
(** * order-service: repositories

    The tables of the service's database and the methods of OrderPostgres,
    SagaPostgres and OutboxPostgres.Create.  [E] is the part of the world that
    belongs to other services: the saga's clients act on it.  A collision of a
    random primary key (of an item, a saga, an outbox event) is one of the
    failures that the oracle decides. *)
From S2P Require Import Prelude Errors Effects OrderDomain.

(** ** Saga rows: saga/domain.go *)

Inductive SagaStatus :=
| SagaStatusPending | SagaStatusReserving | SagaStatusReserved | SagaStatusPaying | SagaStatusPaid
| SagaStatusConfirming | SagaStatusConfirmed | SagaStatusCompensating | SagaStatusCancelled | SagaStatusFailed.

#[global] Instance SagaStatus_eq_dec : EqDecision SagaStatus.
Proof. solve_decision. Defined.

(** The zero [time.Time], year 1, in nanoseconds of the Unix epoch. *)
Definition time_zero : Z := -62135596800000000000.

Definition IsZero (t : Z) : bool := t =? time_zero.

Section Repo.
Context `{U : UuidLib} {E : Type}.

Record Saga := MkSaga {
  s_ID : UUID; s_OrderID : UUID; s_Status : SagaStatus; s_CurrentStep : string;
  s_ErrorMessage : string; s_PaymentID : string; s_ReservedItems : list SagaReservedItem;
  s_CreatedAt : Z; s_UpdatedAt : Z
}.

(** ** Tables *)

Record OrderRow := MkOrderRow {
  or_UserID : UUID; or_TotalAmount : Z; or_Status : OrderStatus; or_CreatedAt : Z; or_UpdatedAt : Z
}.

(** The [reserved_items] column is JSONB. *)
Record SagaRow := MkSagaRow {
  sr_ID : UUID; sr_Status : SagaStatus; sr_CurrentStep : string; sr_ErrorMessage : string;
  sr_PaymentID : string; sr_ReservedItems : option json; sr_CreatedAt : Z; sr_UpdatedAt : Z
}.

Record OutboxTables := MkOutbox {
  ob_rows : list OutboxEvent;
  ob_dlq : gmap UUID OutboxDLQEvent
}.

Record OrderSt := MkOrderSt {
  t_orders : gmap UUID OrderRow;
  t_items : list OrderItem;
  t_sagas : gmap UUID SagaRow;
  t_outbox : OutboxTables;
  t_events : list (string * string * string);
  t_ext : E
}.

Definition set_orders (x : gmap UUID OrderRow) (s : OrderSt) : OrderSt :=
  MkOrderSt x (t_items s) (t_sagas s) (t_outbox s) (t_events s) (t_ext s).
Definition set_items (x : list OrderItem) (s : OrderSt) : OrderSt :=
  MkOrderSt (t_orders s) x (t_sagas s) (t_outbox s) (t_events s) (t_ext s).
Definition set_sagas (x : gmap UUID SagaRow) (s : OrderSt) : OrderSt :=
  MkOrderSt (t_orders s) (t_items s) x (t_outbox s) (t_events s) (t_ext s).
Definition set_outbox (x : OutboxTables) (s : OrderSt) : OrderSt :=
  MkOrderSt (t_orders s) (t_items s) (t_sagas s) x (t_events s) (t_ext s).
Definition set_events (x : list (string * string * string)) (s : OrderSt) : OrderSt :=
  MkOrderSt (t_orders s) (t_items s) (t_sagas s) (t_outbox s) x (t_ext s).
Definition set_ext (x : E) (s : OrderSt) : OrderSt :=
  MkOrderSt (t_orders s) (t_items s) (t_sagas s) (t_outbox s) (t_events s) x.

Definition ext_lens : lens OrderSt E := Lens t_ext set_ext.

#[global] Instance ext_lens_laws : LensLaws ext_lens.
Proof. split; by intros; destruct s. Qed.

(** ** OrderPostgres *)

(** One row of [order_items] against its constraints: INT and non-negative
    quantity, non-negative price, existing order. *)
Definition item_error (s : OrderSt) (i : OrderItem) : option error :=
  if negb (in_int32 (it_Quantity i)) then Some pg_out_of_range
  else if it_Quantity i <? 0 then Some pg_check_violation
  else if it_Price i <? 0 then Some pg_check_violation
  else match t_orders s !! it_OrderID i with None => Some pg_foreign_key_violation | Some _ => None end.

(** The batch: the first failing statement is the batch's error. *)
Fixpoint insert_items (s : OrderSt) (acc : list OrderItem) (its : list OrderItem) : error + list OrderItem :=
  match its with
  | [] => inr acc
  | i :: its' => match item_error s i with
                | Some e => inl e
                | None => insert_items s (acc ++ [i]) its'
                end
  end.

Definition order_row (order : Order) : OrderRow :=
  MkOrderRow (o_UserID order) (o_TotalAmount order) (o_Status order) (o_CreatedAt order) (o_UpdatedAt order).

Definition valid_status (st : OrderStatus) : bool := negb (bool_decide (st = OrderStatusUnspecified)).

Definition OrderRepo_Create (order : Order) : M OrderSt unit :=
  do* wrap_err (wrapf "insert order") (io (fun s =>
        match t_orders s !! o_ID order with
        | Some _ => (inl pg_unique_violation, s)
        | None => if valid_status (o_Status order)
                  then (inr tt, set_orders (<[o_ID order := order_row order]> (t_orders s)) s)
                  else (inl pg_check_violation, s)
        end)) in
  wrap_err (wrapf "insert order item batch") (io (fun s =>
    match insert_items s (t_items s) (o_Items order) with
    | inl e => (inl e, s)
    | inr items => (inr tt, set_items items s)
    end)).

Definition item_le (i j : OrderItem) : Prop := uuid_le (it_ID i) (it_ID j).

#[global] Instance item_le_dec : RelDecision item_le.
Proof. intros i j. unfold item_le. apply _. Defined.

Definition items_of (id : UUID) (s : OrderSt) : list OrderItem :=
  filter (fun i => it_OrderID i = id) (t_items s).

(** [ORDER BY i.id]: the items come back in the order of their random ids. *)
Definition OrderRepo_GetByID (id : UUID) : M OrderSt Order :=
  read_as "get order by id" (fun s =>
    match t_orders s !! id with
    | Some row => inr (MkOrder id (or_UserID row) (merge_sort item_le (items_of id s)) (or_TotalAmount row)
                         (or_Status row) (or_CreatedAt row) (or_UpdatedAt row))
    | None => inl (wrapS ErrNotFound "order")
    end).

Definition OrderRepo_UpdateStatus (id : UUID) (status : OrderStatus) : M OrderSt unit :=
  let* t := now in
  let* n := wrap_err (wrapf "update order status") (io (fun s =>
    match t_orders s !! id with
    | Some row =>
        if valid_status status
        then (inr 1, set_orders (<[id := MkOrderRow (or_UserID row) (or_TotalAmount row) status
                                           (or_CreatedAt row) t]> (t_orders s)) s)
        else (inl pg_check_violation, s)
    | None => (inr 0, s)
    end)) in
  if n =? 0 then throw (wrapS ErrNotFound "order") else ret tt.

(** *** ListByUser *)

(** One row of the LEFT JOIN: an order without items and at most one item. *)
Definition JoinRow : Type := Order * option OrderItem.

Definition newer_first (o1 o2 : Order) : Prop :=
  o_CreatedAt o2 < o_CreatedAt o1 \/ (o_CreatedAt o1 = o_CreatedAt o2 /\ uuid_le (o_ID o1) (o_ID o2)).

#[global] Instance newer_first_dec : RelDecision newer_first.
Proof. intros o1 o2. unfold newer_first. apply _. Defined.

Definition header (id : UUID) (row : OrderRow) : Order :=
  MkOrder id (or_UserID row) [] (or_TotalAmount row) (or_Status row) (or_CreatedAt row) (or_UpdatedAt row).

Definition user_orders (userID : UUID) (s : OrderSt) : list Order :=
  merge_sort newer_first
    (filter (fun h => o_UserID h = userID) ((fun kv : UUID * OrderRow => header kv.1 kv.2) <$> map_to_list (t_orders s))).

Definition join_rows (s : OrderSt) (h : Order) : list JoinRow :=
  match items_of (o_ID h) s with
  | [] => [(h, None)]
  | its => (fun i => (h, Some i)) <$> its
  end.

(** The scan of the rows.  [orderMap] holds pointers into the backing array of
    [orders]; [append] beyond the capacity moves the slice to a new array, and a
    write through an older pointer then no longer reaches [orders].  A pointer
    is an array number and an index; [grow] is the runtime's growth policy. *)
Record scan_st := MkScan {
  sc_orders : list Order; sc_cap : nat; sc_array : nat; sc_map : gmap UUID (nat * nat)
}.

Definition append_item (i : OrderItem) (h : Order) : Order :=
  MkOrder (o_ID h) (o_UserID h) (o_Items h ++ [i]) (o_TotalAmount h) (o_Status h) (o_CreatedAt h) (o_UpdatedAt h).

Definition scan_append (grow : nat -> nat) (h : Order) (sc : scan_st) : scan_st :=
  let n := length (sc_orders sc) in
  let moved := Nat.eqb n (sc_cap sc) in
  MkScan (sc_orders sc ++ [h]) (if moved then grow (sc_cap sc) else sc_cap sc)
         (if moved then S (sc_array sc) else sc_array sc) (sc_map sc).

Definition scan_row (grow : nat -> nat) (sc : scan_st) (r : JoinRow) : scan_st :=
  let '(h, oi) := r in
  let '(sc1, ptr) :=
    match sc_map sc !! o_ID h with
    | Some ptr => (sc, ptr)
    | None =>
        let sc' := scan_append grow h sc in
        let ptr := (sc_array sc', length (sc_orders sc)) in
        (MkScan (sc_orders sc') (sc_cap sc') (sc_array sc') (<[o_ID h := ptr]> (sc_map sc')), ptr)
    end in
  match oi with
  | None => sc1
  | Some i =>
      if Nat.eqb (fst ptr) (sc_array sc1)
      then MkScan (alter (append_item i) (snd ptr) (sc_orders sc1)) (sc_cap sc1) (sc_array sc1) (sc_map sc1)
      else sc1
  end.

Definition scan_orders (grow : nat -> nat) (rows : list JoinRow) : list Order :=
  sc_orders (foldl (scan_row grow) (MkScan [] 0 0 ∅) rows).

Definition OrderRepo_ListByUser (grow : nat -> nat) (userID : UUID) (page pageSize : Z)
  : M OrderSt (list Order * Z) :=
  let offset := int64 (int64 (page - 1) * pageSize) in
  let offset := if offset <? 0 then 0 else offset in
  let* total := wrap_err (wrapf "count orders") (read (fun s =>
                  inr (Z.of_nat (length (user_orders userID s))))) in
  let* rows := wrap_err (wrapf "list orders") (read (fun s =>
                  if pageSize <? 0 then inl pg_negative_limit
                  else inr (take (Z.to_nat pageSize) (drop (Z.to_nat offset)
                              (concat (join_rows s <$> user_orders userID s)))))) in
  ret (scan_orders grow rows, total).

(** ** SagaPostgres *)

Definition saga_row (s : Saga) (created updated : Z) : SagaRow :=
  MkSagaRow (s_ID s) (s_Status s) (s_CurrentStep s) (s_ErrorMessage s) (s_PaymentID s)
    (Some (marshalReservedItems (s_ReservedItems s))) created updated.

Definition saga_of_row (orderID : UUID) (r : SagaRow) : Saga :=
  MkSaga (sr_ID r) orderID (sr_Status r) (sr_CurrentStep r) (sr_ErrorMessage r) (sr_PaymentID r)
    (unmarshalReservedItems (sr_ReservedItems r)) (sr_CreatedAt r) (sr_UpdatedAt r).

Definition SagaRepo_Create (sg : Saga) : M OrderSt unit :=
  wrap_err (wrapf "insert saga") (io (fun s =>
    match t_sagas s !! s_OrderID sg with
    | Some _ => (inl pg_unique_violation, s)
    | None =>
        match t_orders s !! s_OrderID sg with
        | None => (inl pg_foreign_key_violation, s)
        | Some _ => (inr tt, set_sagas (<[s_OrderID sg := saga_row sg (s_CreatedAt sg) (s_UpdatedAt sg)]>
                                          (t_sagas s)) s)
        end
    end)).

Definition SagaRepo_GetByOrderID (orderID : UUID) : M OrderSt Saga :=
  read_as "get saga by order id" (fun s => match t_sagas s !! orderID with
                 | Some r => inr (saga_of_row orderID r)
                 | None => inl (wrapS ErrNotFound "saga")
                 end).

Definition SagaRepo_UpdateStatus (orderID : UUID) (status : SagaStatus) (step errMsg : string) : M OrderSt unit :=
  let* t := now in
  let* n := wrap_err (wrapf "update saga status") (io (fun s =>
    match t_sagas s !! orderID with
    | Some r => (inr 1, set_sagas (<[orderID := MkSagaRow (sr_ID r) status step errMsg (sr_PaymentID r)
                                                  (sr_ReservedItems r) (sr_CreatedAt r) t]> (t_sagas s)) s)
    | None => (inr 0, s)
    end)) in
  if n =? 0 then throw (wrapS ErrNotFound "saga") else ret tt.

(** The columns that Save sets. *)
Definition save_row (sg : Saga) (t : Z) (r : SagaRow) : SagaRow :=
  MkSagaRow (sr_ID r) (s_Status sg) (s_CurrentStep sg) (s_ErrorMessage sg) (s_PaymentID sg)
    (Some (marshalReservedItems (s_ReservedItems sg))) (sr_CreatedAt r) t.

Definition SagaRepo_Save (sg : Saga) : M OrderSt unit :=
  let* t := now in
  let* n := wrap_err (wrapf "save saga") (io (fun s =>
    match t_sagas s !! s_OrderID sg with
    | Some r => (inr 1, set_sagas (<[s_OrderID sg := save_row sg t r]> (t_sagas s)) s)
    | None => (inr 0, s)
    end)) in
  if n =? 0 then throw (wrapS ErrNotFound "saga") else ret tt.

Definition incomplete (st : SagaStatus) : bool :=
  negb (bool_decide (st = SagaStatusConfirmed) || bool_decide (st = SagaStatusCancelled)
        || bool_decide (st = SagaStatusFailed)).

Definition older_saga (a b : Saga) : Prop := s_CreatedAt a <= s_CreatedAt b.

#[global] Instance older_saga_dec : RelDecision older_saga.
Proof. intros a b. unfold older_saga. apply _. Defined.

Definition incomplete_sagas (s : OrderSt) : list Saga :=
  merge_sort older_saga (filter (fun sg => incomplete (s_Status sg) = true)
    ((fun kv : UUID * SagaRow => saga_of_row kv.1 kv.2) <$> map_to_list (t_sagas s))).

Definition SagaRepo_ListIncomplete (limit : nat) : M OrderSt (list Saga) :=
  wrap_err (wrapf "list incomplete sagas") (read (fun s => inr (take limit (incomplete_sagas s)))).

(** ** OutboxPostgres.Create: the columns that the statement does not list are NULL *)

Definition new_outbox_row (e : OutboxEvent) : OutboxEvent :=
  MkEvent (ev_ID e) (ev_AggregateType e) (ev_AggregateID e) (ev_EventType e) (ev_Payload e) (ev_CreatedAt e)
    None (ev_RetryCount e) None (ev_NextRetryAt e).

Definition with_NextRetryAt (t : Z) (e : OutboxEvent) : OutboxEvent :=
  MkEvent (ev_ID e) (ev_AggregateType e) (ev_AggregateID e) (ev_EventType e) (ev_Payload e) (ev_CreatedAt e)
    (ev_ProcessedAt e) (ev_RetryCount e) (ev_LastError e) t.

Definition OutboxRepo_Create (event : OutboxEvent) : M OrderSt unit :=
  let* event := (if IsZero (ev_NextRetryAt event)
                 then let* t := now in ret (with_NextRetryAt t event) else ret event) in
  wrap_err (wrapf "insert outbox event") (io (fun s =>
    let ob := t_outbox s in
    if existsb (fun e => bool_decide (ev_ID e = ev_ID event)) (ob_rows ob) then (inl pg_unique_violation, s)
    else (inr tt, set_outbox (MkOutbox (ob_rows ob ++ [new_outbox_row event]) (ob_dlq ob)) s))).
End Repo.
Arguments OrderSt {U} E.
