(* ===== verification/Saga.v ===== *)
(** * order-service: the saga

    Steps and orchestrator of [internal/saga].  The clients of the inventory and
    payment services are the classes [InventoryClient] and [PaymentClient] over
    the external state [E]; the grpc clients implement them over the other
    services' models.  The saga object that Go mutates through a pointer is
    threaded: a step changes it only after its call has succeeded, so a failed
    [Execute] leaves it as it was.  Timeouts of the contexts are failures that
    the oracle decides. *)
From S2P Require Import Prelude Errors Effects OrderDomain OrderRepo.

(** ** Client interfaces: steps.go *)

Class InventoryClient `{U : UuidLib} (E : Type) := {
  cl_Reserve : string -> Z -> string -> string -> M E unit;
  cl_Release : string -> Z -> string -> string -> M E unit
}.

Class PaymentClient `{U : UuidLib} (E : Type) := {
  cl_ProcessPayment : string -> Z -> string -> M E string;
  cl_Refund : string -> string -> M E unit
}.

Inductive Step := startStep | reserveInventoryStep | processPaymentStep | confirmOrderStep.

#[global] Instance Step_eq_dec : EqDecision Step.
Proof. solve_decision. Defined.

Definition Name (st : Step) : string :=
  match st with
  | startStep => "start"
  | reserveInventoryStep => "inventory"
  | processPaymentStep => "payment"
  | confirmOrderStep => "confirm"
  end.

Definition reserveKey (base productID : string) : string := "reserve:" +:+ base +:+ ":" +:+ productID.
Definition releaseKey (orderID productID : string) : string := "release:" +:+ orderID +:+ ":" +:+ productID.
Definition paymentKey (base : string) : string := "payment:" +:+ base.
Definition refundKey (base paymentID : string) : string := "refund:" +:+ base +:+ ":" +:+ paymentID.
Definition recoveryIdempotencyKey (orderID : string) : string := "recovery:" +:+ orderID.

Section Saga.
Context `{U : UuidLib} {E : Type} {IC : InventoryClient E} {PC : PaymentClient E}.

Definition ext {A} (m : M E A) : M (OrderSt E) A := zoom ext_lens m.

Definition with_status (st : SagaStatus) (step : string) (s : Saga) : Saga :=
  MkSaga (s_ID s) (s_OrderID s) st step (s_ErrorMessage s) (s_PaymentID s) (s_ReservedItems s)
    (s_CreatedAt s) (s_UpdatedAt s).

Definition with_error (msg : string) (s : Saga) : Saga :=
  MkSaga (s_ID s) (s_OrderID s) (s_Status s) (s_CurrentStep s) msg (s_PaymentID s) (s_ReservedItems s)
    (s_CreatedAt s) (s_UpdatedAt s).

Definition with_payment (pid : string) (s : Saga) : Saga :=
  MkSaga (s_ID s) (s_OrderID s) (s_Status s) (s_CurrentStep s) (s_ErrorMessage s) pid (s_ReservedItems s)
    (s_CreatedAt s) (s_UpdatedAt s).

Definition with_items (l : list SagaReservedItem) (s : Saga) : Saga :=
  MkSaga (s_ID s) (s_OrderID s) (s_Status s) (s_CurrentStep s) (s_ErrorMessage s) (s_PaymentID s) l
    (s_CreatedAt s) (s_UpdatedAt s).

Definition with_updated (t : Z) (s : Saga) : Saga :=
  MkSaga (s_ID s) (s_OrderID s) (s_Status s) (s_CurrentStep s) (s_ErrorMessage s) (s_PaymentID s)
    (s_ReservedItems s) (s_CreatedAt s) t.

(** ** Steps: steps.go *)

Definition reserved_item (item : OrderItem) : SagaReservedItem :=
  MkReserved (uuid_String (it_ProductID item)) (int32 (it_Quantity item)).

Definition startStep_Execute (saga : Saga) (order : Order) : M (OrderSt E) Saga :=
  do* OrderRepo_UpdateStatus (o_ID order) OrderStatusAwaitingPayment in
  ret (with_status SagaStatusReserving "reserve" saga).

Definition reserveInventoryStep_Execute (saga : Saga) (order : Order) (idempotencyKey : string) : M (OrderSt E) Saga :=
  let idx := length (s_ReservedItems saga) in
  match o_Items order !! idx with
  | None => ret (with_status SagaStatusReserved "reserved" saga)
  | Some item =>
      let product := uuid_String (it_ProductID item) in
      do* ext (cl_Reserve product (int32 (it_Quantity item)) (uuid_String (o_ID order))
                 (reserveKey idempotencyKey product)) in
      ret (with_items (s_ReservedItems saga ++ [reserved_item item]) saga)
  end.

(** The loop of Compensate: every item is tried, the errors are joined. *)
Fixpoint release_all (orderID : string) (items : list SagaReservedItem) : M (OrderSt E) (list error) :=
  match items with
  | [] => ret []
  | i :: items' =>
      let* r := attempt (ext (cl_Release (ri_ProductID i) (ri_Quantity i) orderID
                                (releaseKey orderID (ri_ProductID i)))) in
      let* errs := release_all orderID items' in
      ret (match r with inl e => e :: errs | inr _ => errs end)
  end.

Definition reserveInventoryStep_Compensate (saga : Saga) (order : Order) : M (OrderSt E) unit :=
  let* errs := release_all (uuid_String (o_ID order)) (s_ReservedItems saga) in
  match errors_Join errs with Some e => throw e | None => ret tt end.

Definition processPaymentStep_Execute (saga : Saga) (order : Order) (idempotencyKey : string) : M (OrderSt E) Saga :=
  let* paymentID := ext (cl_ProcessPayment (uuid_String (o_ID order)) (o_TotalAmount order)
                           (paymentKey idempotencyKey)) in
  ret (with_status SagaStatusPaid "paid" (with_payment paymentID saga)).

Definition processPaymentStep_Compensate (saga : Saga) (idempotencyKey : string) : M (OrderSt E) unit :=
  if bool_decide (s_PaymentID saga = "") then ret tt
  else ext (cl_Refund (s_PaymentID saga) (refundKey idempotencyKey (s_PaymentID saga))).

Definition confirmOrderStep_Execute (saga : Saga) (order : Order) : M (OrderSt E) Saga :=
  do* OrderRepo_UpdateStatus (o_ID order) OrderStatusPaid in
  ret (with_status SagaStatusConfirmed "confirmed" saga).

Definition Execute (st : Step) (saga : Saga) (order : Order) (key : string) : M (OrderSt E) Saga :=
  match st with
  | startStep => startStep_Execute saga order
  | reserveInventoryStep => reserveInventoryStep_Execute saga order key
  | processPaymentStep => processPaymentStep_Execute saga order key
  | confirmOrderStep => confirmOrderStep_Execute saga order
  end.

Definition Compensate (st : Step) (saga : Saga) (order : Order) (key : string) : M (OrderSt E) unit :=
  match st with
  | startStep | confirmOrderStep => ret tt
  | reserveInventoryStep => reserveInventoryStep_Compensate saga order
  | processPaymentStep => processPaymentStep_Compensate saga key
  end.

(** Prepare of the Preparable steps: the new saga when it has to be persisted. *)
Definition Prepare (st : Step) (saga : Saga) : option Saga :=
  match st with
  | processPaymentStep =>
      if bool_decide (s_Status saga = SagaStatusPaying) then None
      else Some (with_status SagaStatusPaying "payment" saga)
  | confirmOrderStep =>
      if bool_decide (s_Status saga = SagaStatusConfirming) then None
      else Some (with_status SagaStatusConfirming "confirm" saga)
  | startStep | reserveInventoryStep => None
  end.

(** ** Orchestrator: orchestrator.go *)

Definition maxRetries : nat := 3.

(** The error of [Save] is a value: some callers only log it. *)
Definition persistSaga (saga : Saga) : M (OrderSt E) (Saga * (error + unit)) :=
  let* t := now in
  let saga := with_updated t saga in
  let* r := attempt (SagaRepo_Save saga) in
  ret (saga, r).

Definition saveSaga (saga : Saga) (status : SagaStatus) (step errMsg : string) : M (OrderSt E) (Saga * (error + unit)) :=
  persistSaga (with_error errMsg (with_status status step saga)).

Definition nextStep (saga : Saga) : option Step :=
  match s_Status saga with
  | SagaStatusPending => Some startStep
  | SagaStatusReserving => Some reserveInventoryStep
  | SagaStatusReserved | SagaStatusPaying => Some processPaymentStep
  | SagaStatusPaid | SagaStatusConfirming => Some confirmOrderStep
  | SagaStatusConfirmed | SagaStatusCancelled | SagaStatusFailed | SagaStatusCompensating => None
  end.

Definition isTerminal (saga : Saga) : bool :=
  match s_Status saga with
  | SagaStatusConfirmed | SagaStatusCancelled | SagaStatusFailed => true
  | _ => false
  end.

Definition compensationPlan (failed : Step) : list Step :=
  if bool_decide (Name failed = "confirm") then [processPaymentStep; reserveInventoryStep]
  else if bool_decide (Name failed = "inventory") || bool_decide (Name failed = "payment")
  then [reserveInventoryStep]
  else [reserveInventoryStep].

Definition joinStepNames (plan : list Step) : string := Join (Name <$> plan) "+".

(** The attempts after the first: before each, the context may be done. *)
Fixpoint retry_again {A} (n : nat) (lastErr : error) (fn : M (OrderSt E) A) : M (OrderSt E) A :=
  match n with
  | O => throw lastErr
  | S n' =>
      let* d := ctx_done in
      match d with
      | Some e => throw e
      | None =>
          let* r := attempt fn in
          match r with
          | inr a => ret a
          | inl e => retry_again n' e fn
          end
      end
  end.

Definition retry {A} (fn : M (OrderSt E) A) : M (OrderSt E) A :=
  let* r := attempt fn in
  match r with
  | inr a => ret a
  | inl e => retry_again (pred maxRetries) e fn
  end.

Definition executeWithRetry (st : Step) (saga : Saga) (order : Order) (key : string) : M (OrderSt E) Saga :=
  retry (Execute st saga order key).

Definition compensateWithRetry (st : Step) (saga : Saga) (order : Order) (key : string) : M (OrderSt E) unit :=
  retry (Compensate st saga order key).

Fixpoint compensate_plan (plan : list Step) (saga : Saga) (order : Order) (key : string) : M (OrderSt E) unit :=
  match plan with
  | [] => ret tt
  | st :: plan' =>
      do* attempt (compensateWithRetry st saga order key) in
      compensate_plan plan' saga order key
  end.

Definition handleStepFailure (saga : Saga) (order : Order) (step : Step) (key : string) (execErr : error)
  : M (OrderSt E) unit :=
  if bool_decide (s_Status saga = SagaStatusPending) then
    do* saveSaga saga SagaStatusFailed (Name step) (Error execErr) in
    throw (wrapf "start step failed" execErr)
  else
    let plan := compensationPlan step in
    let currentStep := "compensate_" +:+ joinStepNames plan in
    let* sr := saveSaga saga SagaStatusCompensating currentStep (Error execErr) in
    do* compensate_plan plan (fst sr) order key in
    do* attempt (OrderRepo_UpdateStatus (o_ID order) OrderStatusCancelled) in
    do* saveSaga (fst sr) SagaStatusCancelled "cancelled" "" in
    ret tt.

(** One iteration of the loop of ProcessOrder: the saga to go on with, or [None]
    when ProcessOrder returns nil after a handled failure. *)
Definition process_step (step : Step) (saga : Saga) (order : Order) (key : string) : M (OrderSt E) (option Saga) :=
  let* saga := (match Prepare step saga with
                | None => ret saga
                | Some saga' =>
                    let* sr := persistSaga saga' in
                    match snd sr with inl e => throw e | inr _ => ret (fst sr) end
                end) in
  let* r := attempt (executeWithRetry step saga order key) in
  match r with
  | inl err => do* handleStepFailure saga order step key err in ret None
  | inr saga' =>
      let* sr := persistSaga saga' in
      match snd sr with inl e => throw e | inr _ => ret (Some (fst sr)) end
  end.

(** The loop; [inl tt] of the result is running out of fuel. *)
Fixpoint process_loop (fuel : nat) (saga : Saga) (order : Order) (key : string) : M (OrderSt E) (unit + unit) :=
  match fuel with
  | O => ret (inl tt)
  | S fuel' =>
      match nextStep saga with
      | None => ret (inr tt)
      | Some step =>
          let* next := process_step step saga order key in
          match next with
          | None => ret (inr tt)
          | Some saga' => process_loop fuel' saga' order key
          end
      end
  end.

Definition saga_fuel (order : Order) : nat := length (o_Items order) + 6.

Definition get_or_create_saga (order : Order) : M (OrderSt E) Saga :=
  let* r := attempt (SagaRepo_GetByOrderID (o_ID order)) in
  match r with
  | inr saga => ret saga
  | inl err =>
      if negb (Is err ErrNotFound) then throw (wrapf "get saga" err)
      else
        let* id := new_uuid in
        let* t1 := now in
        let* t2 := now in
        let saga := MkSaga id (o_ID order) SagaStatusPending "" "" "" [] t1 t2 in
        do* wrap_err (wrapf "create saga") (SagaRepo_Create saga) in
        ret saga
  end.

Definition ProcessOrder (order : Order) (key : string) : M (OrderSt E) (unit + unit) :=
  let* saga := get_or_create_saga order in
  if isTerminal saga then ret (inr tt) else process_loop (saga_fuel order) saga order key.

Definition recover_saga (s : Saga) : M (OrderSt E) unit :=
  let* r := attempt (OrderRepo_GetByID (s_OrderID s)) in
  match r with
  | inl _ => ret tt
  | inr order => do* attempt (ProcessOrder order (recoveryIdempotencyKey (uuid_String (s_OrderID s)))) in ret tt
  end.

Fixpoint recover_all (sagas : list Saga) : M (OrderSt E) unit :=
  match sagas with
  | [] => ret tt
  | s :: sagas' => do* recover_saga s in recover_all sagas'
  end.

Definition Recover : M (OrderSt E) unit :=
  let* sagas := wrap_err (wrapf "list incomplete sagas") (SagaRepo_ListIncomplete 100) in
  recover_all sagas.

Definition CancelOrder (order : Order) : M (OrderSt E) unit :=
  let* s := wrap_err (fun err => EWrap "" (ESentinel ErrFailedPrecondition) (": saga not found for refund: " +:+ Error err))
              (SagaRepo_GetByOrderID (o_ID order)) in
  do* (if bool_decide (s_PaymentID s = "") then ret tt
       else wrap_err (wrapf ("refund payment " +:+ s_PaymentID s))
              (retry (ext (cl_Refund (s_PaymentID s) (refundKey (uuid_String (o_ID order)) (s_PaymentID s)))))) in
  do* wrap_err (wrapf "release inventory") (compensateWithRetry reserveInventoryStep s order "") in
  do* wrap_err (wrapf "cancel order") (OrderRepo_UpdateStatus (o_ID order) OrderStatusCancelled) in
  do* persistSaga (with_status SagaStatusCancelled "cancelled" s) in
  ret tt.
End Saga.

(** ** Advisory lock: FNV-1a, 64 bits *)

Definition fnv64a (data : list Z) : Z :=
  foldl (fun h b => uint64 (Z.lxor h b * 1099511628211)) 14695981039346656037 data.

Definition advisoryLockID (key : string) : Z := int64 (fnv64a (bytes_of key)).
