(* ===== verification/SagaFacts.v ===== *)
(** * order-service: theorems about the saga

    Termination of the orchestrator's loop, soundness of a confirmation under
    every failure pattern, the outcome when nothing fails, and the behaviour of
    recovery.  The other services are any implementation of the client classes
    that satisfies [SagaClientLaws]. *)
From S2P Require Import Prelude Errors Effects OrderDomain OrderRepo Saga.

(** ** What the saga relies on *)

(** [holds_at e oid p q]: the inventory holds [q] units of [p] for the order;
    [payment_at e oid pid]: payment [pid] is recorded for it, with whatever status and
    amount; the amount is the business of [PaymentAmounts] of SagaFrame.v. *)
Class SagaClientLaws `{U : UuidLib} (E : Type) `{IC : !InventoryClient E} `{PC : !PaymentClient E} := {
  holds_at : E -> UUID -> UUID -> Z -> Prop;
  payment_at : E -> UUID -> string -> Prop;
  Reserve_holds : forall (p : UUID) q (oid : UUID) k o w u w',
    cl_Reserve (uuid_String p) q (uuid_String oid) k o w = (inr u, w') -> holds_at (w_st w') oid p q;
  Reserve_keeps_holds : forall oid' p' q' p q oid k,
    pres (fun e => holds_at e oid' p' q') (cl_Reserve p q oid k);
  Pay_keeps_holds : forall oid' p' q' oid a k,
    pres (fun e => holds_at e oid' p' q') (cl_ProcessPayment oid a k);
  Pay_recorded : forall (oid : UUID) a k o w pid w',
    cl_ProcessPayment (uuid_String oid) a k o w = (inr pid, w') -> payment_at (w_st w') oid pid
}.

(** The same when nothing fails: what the order does not ask for is not held, and
    a release of held units frees them.  [calm_inv] is the services' own
    invariant. *)
Class SagaCalmLaws `{U : UuidLib} (E : Type) `{IC : !InventoryClient E} `{PC : !PaymentClient E}
    `{L : !SagaClientLaws E} := {
  calm_inv : E -> Prop;
  Reserve_calm : forall (p : UUID) q (oid : UUID) k o w r w', no_faults o -> calm_inv (w_st w) ->
    cl_Reserve (uuid_String p) q (uuid_String oid) k o w = (r, w') ->
    calm_inv (w_st w') /\
    forall oid' p' q', holds_at (w_st w') oid' p' q' ->
      holds_at (w_st w) oid' p' q' \/ (r = inr tt /\ oid' = oid /\ p' = p /\ q' = q);
  Release_calm : forall p q oid k o w r w', no_faults o -> calm_inv (w_st w) ->
    cl_Release p q oid k o w = (r, w') ->
    calm_inv (w_st w') /\
    (forall oid' p' q', holds_at (w_st w') oid' p' q' -> holds_at (w_st w) oid' p' q') /\
    (forall pu ou, p = uuid_String pu -> oid = uuid_String ou -> holds_at (w_st w) ou pu q ->
       forall q', ~ holds_at (w_st w') ou pu q');
  Pay_calm : forall oid a k o w r w', no_faults o -> calm_inv (w_st w) ->
    cl_ProcessPayment oid a k o w = (r, w') ->
    calm_inv (w_st w') /\ forall oid' p' q', holds_at (w_st w') oid' p' q' -> holds_at (w_st w) oid' p' q'
}.

Section Facts.
Context `{U : UuidLib} {E : Type} `{IC : !InventoryClient E} `{PC : !PaymentClient E}.
Implicit Types (o : oracle) (saga : Saga) (order : Order) (w : world (OrderSt E)).

(** ** Termination *)

(** Iterations that remain at most. *)
Definition gas saga order : nat :=
  match s_Status saga with
  | SagaStatusPending => length (o_Items order) + 5
  | SagaStatusReserving => (length (o_Items order) - length (s_ReservedItems saga)) + 4
  | SagaStatusReserved | SagaStatusPaying => 3
  | SagaStatusPaid | SagaStatusConfirming => 2
  | _ => 1
  end.

Lemma retry_again_ok {A} n e (fn : M (OrderSt E) A) o w a w' :
  retry_again n e fn o w = (inr a, w') -> exists w1, fn o w1 = (inr a, w').
Proof.
  revert e w. induction n as [|n IH]; intros e w; simpl; [done|]. intros H.
  apply bind_ok in H as (d & w1 & _ & H). destruct d; [done|].
  apply bind_ok in H as (r & w2 & Hr & H). unfold attempt in Hr.
  destruct (fn o w1) as [r' w3] eqn:Hfn. injection Hr as -> ->.
  destruct r; [by eapply IH|]. unfold ret in H. simplify_eq. eauto.
Qed.

Lemma retry_ok {A} (fn : M (OrderSt E) A) o w a w' :
  retry fn o w = (inr a, w') -> exists w1, fn o w1 = (inr a, w').
Proof.
  unfold retry. intros H. apply bind_ok in H as (r & w1 & Hr & H). unfold attempt in Hr.
  destruct (fn o w) as [r' w2] eqn:Hfn. injection Hr as -> ->.
  destruct r; [by eapply retry_again_ok|]. unfold ret in H. simplify_eq. eauto.
Qed.

Lemma persistSaga_status saga o w r w' :
  persistSaga saga o w = (inr r, w') ->
  s_Status (fst r) = s_Status saga /\ s_ReservedItems (fst r) = s_ReservedItems saga.
Proof.
  unfold persistSaga. intros H. apply bind_ok in H as (t & w1 & _ & H).
  apply bind_ok in H as (x & w2 & _ & H). unfold ret in H. by simplify_eq.
Qed.

Lemma Prepare_gas st saga saga' order :
  nextStep saga = Some st -> Prepare st saga = Some saga' ->
  gas saga' order = gas saga order /\ nextStep saga' = Some st.
Proof.
  unfold nextStep, Prepare, gas. intros Hn Hp.
  destruct (s_Status saga); simplify_eq; simpl in *; by simplify_eq.
Qed.

Lemma Execute_gas st saga saga' order key o w w' :
  nextStep saga = Some st -> Execute st saga order key o w = (inr saga', w') ->
  (gas saga' order < gas saga order)%nat.
Proof.
  intros Hn H. unfold nextStep in Hn. unfold gas at 2. destruct (s_Status saga) eqn:Hs; simplify_eq; simpl in H;
    try (apply bind_ok in H as (x & w1 & _ & H); unfold ret in H; simplify_eq; unfold gas; simpl; lia).
  unfold reserveInventoryStep_Execute in H.
  destruct (o_Items order !! length (s_ReservedItems saga)) as [item|] eqn:Hi.
  - apply bind_ok in H as (x & w1 & _ & H). unfold ret in H. simplify_eq. unfold gas. simpl. rewrite Hs.
    rewrite length_app. simpl. apply lookup_lt_Some in Hi. lia.
  - unfold ret in H. simplify_eq. unfold gas. simpl. lia.
Qed.

Lemma persist_then_ok saga (f : Saga -> option Saga) o w saga' w' :
  (let* sr := persistSaga saga in
   match snd sr with inl e => throw e | inr _ => ret (f (fst sr)) end) o w = (inr (Some saga'), w') ->
  exists saga1, f saga1 = Some saga' /\ s_Status saga1 = s_Status saga /\ s_ReservedItems saga1 = s_ReservedItems saga.
Proof.
  intros H. apply bind_ok in H as (sr & w1 & Hp & H). apply persistSaga_status in Hp.
  destruct (snd sr); [done|]. unfold ret in H. simplify_eq. eauto.
Qed.

Lemma gas_ext saga saga' order :
  s_Status saga = s_Status saga' -> s_ReservedItems saga = s_ReservedItems saga' -> gas saga order = gas saga' order.
Proof. unfold gas. by intros -> ->. Qed.

Lemma process_step_gas st saga saga' order key o w w' :
  nextStep saga = Some st -> process_step st saga order key o w = (inr (Some saga'), w') ->
  (gas saga' order < gas saga order)%nat.
Proof.
  intros Hn H. unfold process_step in H. apply bind_ok in H as (saga1 & w1 & Hprep & H).
  assert (Hg : gas saga1 order = gas saga order /\ nextStep saga1 = Some st).
  { destruct (Prepare st saga) as [sg|] eqn:Hp.
    - destruct (Prepare_gas _ _ _ order Hn Hp) as [<- <-].
      apply bind_ok in Hprep as (sr & w2 & Hps & Hprep). apply persistSaga_status in Hps as [Hs Hi].
      destruct (snd sr); [done|]. unfold ret in Hprep. simplify_eq. split; [by apply gas_ext|].
      unfold nextStep. by rewrite Hs.
    - unfold ret in Hprep. by simplify_eq. }
  destruct Hg as [<- Hn1]. apply bind_ok in H as (r & w2 & Hr & H). unfold attempt in Hr.
  destruct (executeWithRetry st saga1 order key o w1) as [r' w3] eqn:Hex. injection Hr as -> ->.
  destruct r as [err|saga2].
  - apply bind_ok in H as (x & w4 & _ & H). by unfold ret in H.
  - apply retry_ok in Hex as [w4 Hex]. apply (Execute_gas _ _ _ _ _ _ _ _ Hn1) in Hex.
    apply (persist_then_ok saga2 Some) in H as (saga3 & [= ->] & Hs & Hi).
    by rewrite (gas_ext saga' saga2).
Qed.

Lemma process_loop_total fuel saga order key o w r w' :
  (gas saga order <= fuel)%nat -> process_loop fuel saga order key o w = (inr r, w') -> r = inr tt.
Proof.
  revert saga w. induction fuel as [|fuel IH]; intros saga w Hg H; simpl in H.
  { unfold gas in Hg. destruct (s_Status saga); simpl in Hg; lia. }
  destruct (nextStep saga) as [st|] eqn:Hn; [|unfold ret in H; by simplify_eq].
  apply bind_ok in H as (next & w1 & Hstep & H). destruct next as [saga1|]; [|unfold ret in H; by simplify_eq].
  apply (process_step_gas _ _ _ _ _ _ _ _ Hn) in Hstep. apply (IH saga1 w1); [lia|done].
Qed.

Lemma ProcessOrder_fuel order key o w w' : ProcessOrder order key o w ≠ (inr (inl tt), w').
Proof.
  intros H. unfold ProcessOrder in H. apply bind_ok in H as (saga & w1 & _ & H).
  destruct (isTerminal saga); [done|]. apply process_loop_total in H; [done|].
  unfold saga_fuel, gas. destruct (s_Status saga); lia.
Qed.

(** C26. The orchestrator's loop terminates: whatever the environment does and
    from whatever saga row it resumes, ProcessOrder reaches a return statement
    within [len(items) + 6] iterations; it never runs out of fuel. *)
Theorem ProcessOrder_terminates order key o w w' :
  ProcessOrder order key o w ≠ (inr (inl tt), w').
Proof. apply ProcessOrder_fuel. Qed.

(** ** Soundness of a confirmation *)

Context {L : SagaClientLaws E}.

Definition oid_text order : string := uuid_String (o_ID order).

(** Every reserved item is an item of the order, in its order, and is held. *)
Definition reserved_prefix order (e : E) (k : nat) (l : list SagaReservedItem) : Prop :=
  l = reserved_item <$> take k (o_Items order) /\
  Forall (fun item => holds_at e (o_ID order) (it_ProductID item) (int32 (it_Quantity item))) (take k (o_Items order)).

Definition all_reserved order (e : E) (l : list SagaReservedItem) : Prop :=
  reserved_prefix order e (length (o_Items order)) l.

Definition paid_for order (e : E) saga : Prop :=
  payment_at e (o_ID order) (s_PaymentID saga).

(** What each status of a saga promises about the other services. *)
Definition saga_ok order (e : E) saga : Prop :=
  match s_Status saga with
  | SagaStatusPending => s_ReservedItems saga = []
  | SagaStatusReserving => reserved_prefix order e (length (s_ReservedItems saga)) (s_ReservedItems saga)
  | SagaStatusReserved | SagaStatusPaying => all_reserved order e (s_ReservedItems saga)
  | SagaStatusPaid | SagaStatusConfirming | SagaStatusConfirmed =>
      all_reserved order e (s_ReservedItems saga) /\ paid_for order e saga
  | SagaStatusCompensating | SagaStatusCancelled | SagaStatusFailed => True
  end.

(** The row of the order agrees with the saga in memory. *)
Definition synced order saga (s : OrderSt E) : Prop :=
  exists row, t_sagas s !! o_ID order = Some row /\ sr_Status row = s_Status saga /\
    sr_PaymentID row = s_PaymentID saga /\ unmarshalReservedItems (sr_ReservedItems row) = s_ReservedItems saga.

Definition in_range (l : list SagaReservedItem) : Prop := Forall (fun i => in_int32 (ri_Quantity i) = true) l.

Definition running order saga (s : OrderSt E) : Prop :=
  s_OrderID saga = o_ID order /\ in_range (s_ReservedItems saga) /\
  saga_ok order (t_ext s) saga /\ synced order saga s.

(** A confirmed row means: everything held, a payment recorded, and the order is paid. *)
Definition confirmed_means order (s : OrderSt E) : Prop :=
  forall row, t_sagas s !! o_ID order = Some row -> sr_Status row = SagaStatusConfirmed ->
    all_reserved order (t_ext s) (unmarshalReservedItems (sr_ReservedItems row)) /\
    payment_at (t_ext s) (o_ID order) (sr_PaymentID row) /\
    exists orow, t_orders s !! o_ID order = Some orow /\ or_Status orow = OrderStatusPaid.

(** The status in the saga row, if there is one, satisfies [ok]. *)
Definition row_status (ok : SagaStatus -> Prop) order (s : OrderSt E) : Prop :=
  forall row, t_sagas s !! o_ID order = Some row -> ok (sr_Status row).

Definition not_confirmed order : OrderSt E -> Prop := row_status (fun st => st ≠ SagaStatusConfirmed) order.

Definition order_paid order (s : OrderSt E) : Prop :=
  exists orow, t_orders s !! o_ID order = Some orow /\ or_Status orow = OrderStatusPaid.

Lemma not_confirmed_means order s : not_confirmed order s -> confirmed_means order s.
Proof. intros Hn row Hrow Hc. by apply Hn in Hrow. Qed.

Lemma running_not_confirmed order saga s :
  running order saga s -> s_Status saga ≠ SagaStatusConfirmed -> not_confirmed order s.
Proof. intros (_ & _ & _ & row & Hrow & Hst & _) Hne row' Hrow'. simplify_eq. by rewrite Hst. Qed.

(** *** Calls of the other services leave this service's tables alone *)

Lemma ext_tables {A B} (f : OrderSt E -> B) (m : M E A) b :
  (forall e s, f (set_ext e s) = f s) -> pres (fun s => f s = b) (ext m).
Proof. intros Hf. apply (pres_zoom_other ext_lens f). intros t s. apply Hf. Qed.

Lemma ext_row_status {A} ok order (m : M E A) : pres (row_status ok order) (ext m).
Proof.
  intros o w HI row Hrow. apply HI. revert Hrow.
  by rewrite (ext_tables t_sagas m (t_sagas (w_st w)) (fun _ _ => eq_refl) o w eq_refl).
Qed.

(** *** The local writes *)

Lemma UpdateStatus_row_status ok order id st : pres (row_status ok order) (OrderRepo_UpdateStatus (E:=E) id st).
Proof.
  unfold OrderRepo_UpdateStatus. apply pres_bind; [apply pres_now|intros t].
  apply pres_bind; [|intros n; destruct (n =? 0); auto with go_pres].
  apply pres_wrap_err, pres_io. intros s Hs. destruct (t_orders s !! id); [|done].
  by destruct (valid_status st).
Qed.

Lemma Save_row_status (ok : SagaStatus -> Prop) order saga :
  ok (s_Status saga) -> pres (row_status ok order) (SagaRepo_Save (E:=E) saga).
Proof.
  intros Hne. unfold SagaRepo_Save. apply pres_bind; [apply pres_now|intros t].
  apply pres_bind; [|intros n; destruct (n =? 0); auto with go_pres].
  apply pres_wrap_err, pres_io. intros s Hs. destruct (t_sagas s !! s_OrderID saga) as [r|]; [|done].
  intros row. simpl. destruct (decide (o_ID order = s_OrderID saga)) as [->|Hd].
  - rewrite lookup_insert_eq. intros [= <-]. done.
  - rewrite lookup_insert_ne by done. apply Hs.
Qed.

Lemma saveSaga_row_status (ok : SagaStatus -> Prop) order saga st step msg :
  ok st -> pres (row_status ok order) (saveSaga (E:=E) saga st step msg).
Proof.
  intros Hne. unfold saveSaga, persistSaga. apply pres_bind; [apply pres_now|intros t].
  apply pres_bind; [|intros r; apply pres_ret]. by apply pres_attempt, Save_row_status.
Qed.

Lemma pres_retry_again {A} (I : OrderSt E -> Prop) n e (fn : M (OrderSt E) A) :
  pres I fn -> pres I (retry_again n e fn).
Proof.
  intros Hfn. revert e. induction n as [|n IH]; intros e; simpl; [auto with go_pres|].
  apply pres_bind; [apply pres_ctx_done|intros [e'|]]; [auto with go_pres|].
  apply pres_bind; [by apply pres_attempt|intros [e'|a]]; auto with go_pres.
Qed.

Lemma pres_retry {A} (I : OrderSt E -> Prop) (fn : M (OrderSt E) A) : pres I fn -> pres I (retry fn).
Proof.
  intros Hfn. unfold retry. apply pres_bind; [by apply pres_attempt|intros [e'|a]]; [|auto with go_pres].
  by apply pres_retry_again.
Qed.

Lemma triple_retry_again {A} O (I : OrderSt E -> Prop) n e (fn : M (OrderSt E) A) Q :
  triple O I fn Q I -> triple O I (retry_again n e fn) Q I.
Proof.
  intros Hfn. revert e. induction n as [|n IH]; intros e; simpl; [apply triple_throw|].
  apply (triple_bind O _ _ _ (fun _ => I)); [apply triple_ctx_done|intros [e'|]]; [apply triple_throw|].
  eapply triple_bind; [apply triple_attempt, Hfn|intros [e'|a]]; [apply IH|apply triple_ret].
Qed.

Lemma triple_retry {A} O (I : OrderSt E -> Prop) (fn : M (OrderSt E) A) Q :
  triple O I fn Q I -> triple O I (retry fn) Q I.
Proof.
  intros Hfn. unfold retry. eapply triple_bind; [apply triple_attempt, Hfn|intros [e'|a]].
  - by apply triple_retry_again.
  - apply triple_ret.
Qed.

Lemma release_all_row_status ok order oid l : pres (row_status ok order) (release_all oid l).
Proof.
  induction l as [|i l IH]; simpl; [auto with go_pres|].
  apply pres_bind; [apply pres_attempt, ext_row_status|intros r].
  apply pres_bind; [done|intros errs; apply pres_ret].
Qed.

Lemma Compensate_row_status ok order st saga order' key :
  pres (row_status ok order) (Compensate st saga order' key).
Proof.
  destruct st; simpl; try apply pres_ret.
  - unfold reserveInventoryStep_Compensate. apply pres_bind; [apply release_all_row_status|intros errs].
    destruct (errors_Join errs); auto with go_pres.
  - unfold processPaymentStep_Compensate. case_bool_decide; [auto with go_pres|]. apply ext_row_status.
Qed.

Lemma compensate_plan_row_status ok order plan saga order' key :
  pres (row_status ok order) (compensate_plan plan saga order' key).
Proof.
  induction plan as [|st plan IH]; simpl; [auto with go_pres|].
  apply pres_bind; [|done]. apply pres_attempt, pres_retry, Compensate_row_status.
Qed.

Lemma handleStepFailure_row_status (ok : SagaStatus -> Prop) order saga st key err :
  ok SagaStatusCompensating -> ok SagaStatusCancelled -> ok SagaStatusFailed ->
  pres (row_status ok order) (handleStepFailure saga order st key err).
Proof.
  intros Hcomp Hcanc Hfail. unfold handleStepFailure. case_bool_decide.
  - apply pres_bind; [by apply saveSaga_row_status|intros _; apply pres_throw].
  - apply pres_bind; [by apply saveSaga_row_status|intros sr].
    apply pres_bind; [apply compensate_plan_row_status|intros _].
    apply pres_bind; [apply pres_attempt, UpdateStatus_row_status|intros _].
    apply pres_bind; [by apply saveSaga_row_status|intros _; apply pres_ret].
Qed.

(** *** One iteration *)

Definition pre_persist order saga (s : OrderSt E) : Prop :=
  s_OrderID saga = o_ID order /\ in_range (s_ReservedItems saga) /\ saga_ok order (t_ext s) saga /\
  is_Some (t_sagas s !! o_ID order) /\ not_confirmed order s /\
  (s_Status saga = SagaStatusConfirmed -> order_paid order s).

Definition running_paid order saga (s : OrderSt E) : Prop :=
  running order saga s /\ (s_Status saga = SagaStatusConfirmed -> order_paid order s).

Lemma running_paid_means order saga s : running_paid order saga s -> confirmed_means order s.
Proof.
  intros [(Hid & Hr & Hok & row & Hrow & Hst & Hpid & Hit) Hpaid] row' Hrow' Hc. simplify_eq.
  unfold saga_ok in Hok. rewrite <- Hst, Hc in Hok. destruct Hok as [Hall Hch].
  rewrite Hit, Hpid. split_and!; [done|done|]. apply Hpaid. by rewrite <- Hst.
Qed.

Lemma persistSaga_triple O order saga :
  triple O (pre_persist order saga) (persistSaga saga)
    (fun sr s => match snd sr with inr _ => running_paid order (fst sr) s | inl _ => confirmed_means order s end)
    (confirmed_means order).
Proof.
  intros o w _ (Hid & Hr & Hok & [row Hrow] & Hnc & Hpaid).
  unfold persistSaga, SagaRepo_Save, bind, now, attempt, wrap_err, io. simpl.
  rewrite Hid, Hrow. set (sg := with_updated _ saga). set (t := o_now o (S (w_tick w))).
  assert (Hsaved : running_paid order sg
            (set_sagas (<[o_ID order := save_row sg t row]> (t_sagas (w_st w))) (w_st w))).
  { split; [|exact Hpaid]. split_and!; [done|done|exact Hok|]. exists (save_row sg t row). simpl.
    rewrite lookup_insert_eq. split_and!; [done..|]. by apply reserved_items_roundtrip_list. }
  destruct (o_fault o _); simpl; [exact Hsaved|by apply not_confirmed_means|].
  by eapply running_paid_means.
Qed.

Lemma ext_run {A} (m : M E A) o w r w' :
  ext m o w = (r, w') ->
  exists w1 : world E, m o (World (w_tick w) (t_ext (w_st w))) = (r, w1) /\ w_st w' = set_ext (w_st w1) (w_st w).
Proof.
  unfold ext, zoom. simpl. destruct (m o _) as [r' w1] eqn:Hm. intros [= <- <-]. simpl. eauto.
Qed.

(** An external call that keeps the promises of [saga]. *)
Lemma ext_triple {A} O order saga (m : M E A) (Q : A -> OrderSt E -> Prop) :
  pres (fun e => saga_ok order e saga) m ->
  (forall o w a (w' : world E), running order saga (w_st w) -> m o (World (w_tick w) (t_ext (w_st w))) = (inr a, w') ->
     saga_ok order (w_st w') saga -> Q a (set_ext (w_st w') (w_st w))) ->
  triple O (running order saga) (ext m) Q (running order saga).
Proof.
  intros Hpres HQ o w _ Hrun. destruct (ext m o w) as [r w'] eqn:Hext.
  apply ext_run in Hext as (w1 & Hm & Hw').
  assert (Hok : saga_ok order (w_st w1) saga).
  { destruct Hrun as (_ & _ & Hok & _).
    specialize (Hpres o (World (w_tick w) (t_ext (w_st w))) Hok). by rewrite Hm in Hpres. }
  destruct r as [e|a]; rewrite Hw'.
  - destruct Hrun as (Hid & Hr & _ & Hs). by split_and!.
  - by apply (HQ o w a w1).
Qed.

(** The tables that [running] speaks about. *)
Lemma UpdateStatus_triple O order saga st :
  triple O (running order saga) (OrderRepo_UpdateStatus (o_ID order) st)
    (fun _ s => running order saga s /\
       exists orow, t_orders s !! o_ID order = Some orow /\ or_Status orow = st)
    (running order saga).
Proof.
  intros o w _ Hrun. unfold OrderRepo_UpdateStatus, bind, now, wrap_err, io. simpl.
  destruct (t_orders (w_st w) !! o_ID order) as [row|] eqn:Hrow; [destruct (valid_status st)|];
    destruct (o_fault o _); simpl; try exact Hrun.
  split; [exact Hrun|]. eexists. by rewrite lookup_insert_eq.
Qed.

Lemma pres_Forall {A} (P : E -> OrderItem -> Prop) (m : M E A) l :
  (forall i, pres (fun e => P e i) m) -> pres (fun e => Forall (P e) l) m.
Proof.
  intros Hi o w HI. induction HI as [|i l Hx _ IH]; constructor; [|done]. by apply Hi.
Qed.

Lemma Reserve_keeps_ok order saga p q oid k :
  s_Status saga = SagaStatusReserving -> pres (fun e => saga_ok order e saga) (cl_Reserve p q oid k).
Proof.
  intros Hs o w HI. unfold saga_ok in *. rewrite Hs in *. destruct HI as [Hl HF]. split; [done|].
  by apply (pres_Forall (fun e item => holds_at e (o_ID order) (it_ProductID item) (int32 (it_Quantity item)))
              _ _ (fun i => Reserve_keeps_holds _ _ _ _ _ _ _)).
Qed.

Lemma Pay_keeps_ok order saga oid a k :
  s_Status saga = SagaStatusPaying -> pres (fun e => saga_ok order e saga) (cl_ProcessPayment oid a k).
Proof.
  intros Hs o w HI. unfold saga_ok in *. rewrite Hs in *. destruct HI as [Hl HF]. split; [done|].
  by apply (pres_Forall (fun e item => holds_at e (o_ID order) (it_ProductID item) (int32 (it_Quantity item)))
              _ _ (fun i => Pay_keeps_holds _ _ _ _ _ _)).
Qed.

Lemma reserved_item_in_range item : in_int32 (ri_Quantity (reserved_item item)) = true.
Proof.
  simpl. pose proof (int32_range (it_Quantity item)). unfold in_int32. apply andb_true_intro. split; lia.
Qed.

Lemma running_synced_row order saga s : running order saga s -> is_Some (t_sagas s !! o_ID order).
Proof. intros (_ & _ & _ & row & Hrow & _). by exists row. Qed.

Lemma reserve_Execute_triple O order saga key :
  s_Status saga = SagaStatusReserving ->
  triple O (running order saga) (reserveInventoryStep_Execute saga order key)
    (pre_persist order) (running order saga).
Proof.
  intros Hs. unfold reserveInventoryStep_Execute.
  destruct (o_Items order !! length (s_ReservedItems saga)) as [item|] eqn:Hi.
  - apply (triple_bind_ret O _ _ (fun _ => _)), ext_triple; [by apply Reserve_keeps_ok|].
    intros o w u w1 Hrun Hres Hok. pose proof (running_synced_row _ _ _ Hrun) as Hrow.
    assert (Hnc : not_confirmed order (w_st w)) by (by eapply running_not_confirmed; [|rewrite Hs]).
    destruct Hrun as (Hid & Hr & _ & _). apply Reserve_holds in Hres.
    unfold saga_ok in Hok. rewrite Hs in Hok. destruct Hok as [Hl HF].
    split_and!; simpl; [done| |  |done|done|by rewrite Hs].
    + apply Forall_app. split; [done|]. repeat constructor. apply reserved_item_in_range.
    + unfold saga_ok. simpl. rewrite Hs. split.
      * rewrite length_app. simpl. rewrite Nat.add_1_r, (take_S_r _ _ _ Hi), fmap_app. by f_equal.
      * rewrite length_app. simpl. rewrite Nat.add_1_r, (take_S_r _ _ _ Hi).
        apply Forall_app. split; [done|]. repeat constructor. exact Hres.
  - intros o w _ Hrun. simpl. pose proof (running_synced_row _ _ _ Hrun) as Hrow.
    assert (Hnc : not_confirmed order (w_st w)) by (by eapply running_not_confirmed; [|rewrite Hs]).
    destruct Hrun as (Hid & Hr & Hok & _). unfold saga_ok in Hok. rewrite Hs in Hok. destruct Hok as [Hl HF].
    apply lookup_ge_None in Hi. split_and!; simpl; [done|done| |done|done|done].
    unfold saga_ok. simpl. rewrite (take_ge _ _ Hi) in Hl, HF. split; by rewrite take_ge.
Qed.

Lemma payment_Execute_triple O order saga key :
  s_Status saga = SagaStatusPaying ->
  triple O (running order saga) (processPaymentStep_Execute saga order key)
    (pre_persist order) (running order saga).
Proof.
  intros Hs. unfold processPaymentStep_Execute. apply triple_bind_ret, ext_triple; [by apply Pay_keeps_ok|].
  intros o w pid w1 Hrun Hpay Hok. pose proof (running_synced_row _ _ _ Hrun) as Hrow.
  assert (Hnc : not_confirmed order (w_st w)) by (by eapply running_not_confirmed; [|rewrite Hs]).
  destruct Hrun as (Hid & Hr & _ & _). apply Pay_recorded in Hpay.
  unfold saga_ok in Hok. rewrite Hs in Hok. by split_and!.
Qed.

(** The status in which a step executes. *)
Definition ready (st : Step) saga : Prop :=
  s_Status saga = match st with
                  | startStep => SagaStatusPending
                  | reserveInventoryStep => SagaStatusReserving
                  | processPaymentStep => SagaStatusPaying
                  | confirmOrderStep => SagaStatusConfirming
                  end.

Lemma ready_not_confirmed st saga : ready st saga -> s_Status saga ≠ SagaStatusConfirmed.
Proof. unfold ready. intros ->. by destruct st. Qed.

Lemma Execute_triple O st order saga key :
  ready st saga ->
  triple O (running order saga) (Execute st saga order key) (pre_persist order) (running order saga).
Proof.
  intros Hs. destruct st; simpl.
  2: by apply reserve_Execute_triple.
  2: by apply payment_Execute_triple.
  all: eapply triple_bind; [apply UpdateStatus_triple|intros u]; intros o w _ [Hrun Hord]; simpl.
  all: pose proof (running_synced_row _ _ _ Hrun) as Hrow.
  all: assert (Hnc : not_confirmed order (w_st w))
    by (eapply running_not_confirmed; [done|by eapply ready_not_confirmed]).
  all: destruct Hrun as (Hid & Hr & Hok & _); unfold saga_ok in Hok; rewrite Hs in Hok.
  all: split_and!; simpl; try done.
  unfold saga_ok. simpl. rewrite Hok. by repeat constructor.
Qed.

Lemma persist_or_throw_triple {B} O order saga (f : Saga -> B) (Q : B -> OrderSt E -> Prop) :
  (forall sg s, s_Status sg = s_Status saga -> running_paid order sg s -> Q (f sg) s) ->
  triple O (pre_persist order saga)
    (let* sr := persistSaga saga in match snd sr with inl e => throw e | inr _ => ret (f (fst sr)) end)
    Q (confirmed_means order).
Proof.
  intros HQ o w Ho HP. pose proof (persistSaga_triple O order saga o w Ho HP) as Hp. unfold bind.
  destruct (persistSaga saga o w) as [[e|[sg [e|[]]]] w'] eqn:Hrun; simpl in *; [done|done|].
  apply persistSaga_status in Hrun as [Hst _]. by apply HQ.
Qed.

Lemma Prepare_pre_persist st order saga saga' s :
  nextStep saga = Some st -> Prepare st saga = Some saga' -> running order saga s ->
  pre_persist order saga' s /\ ready st saga'.
Proof.
  intros Hn Hp Hrun. pose proof (running_synced_row _ _ _ Hrun) as Hrow.
  assert (Hne : s_Status saga ≠ SagaStatusConfirmed) by (unfold nextStep in Hn; by destruct (s_Status saga)).
  pose proof (running_not_confirmed _ _ _ Hrun Hne) as Hnc.
  destruct Hrun as (Hid & Hr & Hok & _). unfold nextStep in Hn. unfold Prepare in Hp. unfold saga_ok in Hok.
  destruct (s_Status saga) eqn:Hs; simplify_eq; simpl in *; simplify_eq; by split_and!.
Qed.

Lemma ready_of_next st saga : nextStep saga = Some st -> Prepare st saga = None -> ready st saga.
Proof.
  unfold nextStep, Prepare, ready. intros Hn Hp.
  destruct (s_Status saga) eqn:Hs; simplify_eq; simpl in *; by simplify_eq.
Qed.

Lemma process_step_triple O st order saga key :
  nextStep saga = Some st ->
  triple O (running_paid order saga) (process_step st saga order key)
    (fun next s => match next with Some saga' => running_paid order saga' s | None => confirmed_means order s end)
    (confirmed_means order).
Proof.
  intros Hn. unfold process_step.
  apply (triple_bind O _ _ _ (fun sg s => ready st sg /\ running order sg s)).
  - destruct (Prepare st saga) as [saga'|] eqn:Hp.
    + intros o w Ho [Hrun _]. destruct (Prepare_pre_persist _ _ _ _ _ Hn Hp Hrun) as [Hpre Hready].
      apply (persist_or_throw_triple O order saga' (fun sg => sg)
               (fun sg s => ready st sg /\ running order sg s)); [|done|done].
      intros sg s Hst [Hr _]. split; [|done]. unfold ready in *. by rewrite Hst.
    + intros o w _ [Hrun _]. simpl. split; [|done]. by apply ready_of_next.
  - intros sg. apply triple_pure. intros Hready.
    eapply triple_bind; [by apply triple_attempt, triple_retry, Execute_triple|intros [err|saga2]].
    + intros o w _ Hrun.
      assert (Hnc : not_confirmed order (w_st w))
        by (eapply running_not_confirmed; [done|by eapply ready_not_confirmed]).
      unfold bind. pose proof (handleStepFailure_row_status (fun st => st ≠ SagaStatusConfirmed) order sg st key err
        ltac:(done) ltac:(done) ltac:(done) o w Hnc) as Hh.
      destruct (handleStepFailure sg order st key err o w) as [[e|u] w']; by apply not_confirmed_means.
    + apply persist_or_throw_triple. auto.
Qed.

Lemma process_loop_triple O fuel order saga key :
  triple O (running_paid order saga) (process_loop fuel saga order key)
    (fun _ => confirmed_means order) (confirmed_means order).
Proof.
  revert saga. induction fuel as [|fuel IH]; intros saga; simpl.
  - intros o w _ Hrun. by eapply running_paid_means.
  - destruct (nextStep saga) as [st|] eqn:Hn; [|intros o w _ Hrun; by eapply running_paid_means].
    eapply triple_bind; [by apply process_step_triple|intros [saga'|]]; [apply IH|].
    by intros o w _.
Qed.

Lemma unmarshal_in_range data : in_range (unmarshalReservedItems data).
Proof.
  unfold unmarshalReservedItems. destruct data as [[]|]; try constructor.
  apply Forall_fmap. apply Forall_true. intros j. simpl. destruct j; simpl; try done.
  repeat case_match; done.
Qed.

(** The states from which ProcessOrder may start: no saga row yet, or a row whose
    status keeps its promises. *)
Definition resumable order (s : OrderSt E) : Prop :=
  confirmed_means order s /\
  forall row, t_sagas s !! o_ID order = Some row -> saga_ok order (t_ext s) (saga_of_row (o_ID order) row).

Lemma SagaCreate_triple O order id t1 t2 :
  let sg := MkSaga id (o_ID order) SagaStatusPending "" "" "" [] t1 t2 in
  triple O (confirmed_means order) (wrap_err (wrapf "create saga") (SagaRepo_Create sg))
    (fun _ s => confirmed_means order s /\ running order sg s) (confirmed_means order).
Proof.
  intros sg. apply triple_wrap_err. unfold SagaRepo_Create. apply triple_wrap_err, triple_io.
  intros s Hcm. simpl. destruct (t_sagas s !! o_ID order) as [row|] eqn:Hrow; [by split_and!|].
  destruct (t_orders s !! o_ID order); [|by split_and!]. simpl.
  set (s' := set_sagas _ s).
  assert (Hnew : running order sg s').
  { split_and!; [done|constructor|done|]. exists (saga_row sg t1 t2). simpl. by rewrite lookup_insert_eq. }
  assert (Hcm' : confirmed_means order s') by (by eapply not_confirmed_means, running_not_confirmed).
  by split_and!.
Qed.

Lemma get_or_create_triple O order :
  triple O (resumable order) (get_or_create_saga order)
    (fun saga s => confirmed_means order s /\ running order saga s) (confirmed_means order).
Proof.
  unfold get_or_create_saga. eapply triple_bind.
  - apply triple_attempt, (triple_read O _ _ (fun saga s => confirmed_means order s /\ running order saga s)
      (confirmed_means order)); [by intros s []|].
    intros s saga [Hcm Hres] Hget. destruct (t_sagas s !! o_ID order) as [row|] eqn:Hrow; [|done].
    injection Hget as <-. split; [done|].
    split_and!; [done|apply unmarshal_in_range|by apply Hres|]. by exists row.
  - intros [err|saga]; [|by intros o w _].
    destruct (Is err ErrNotFound); simpl; [|apply triple_throw].
    eapply triple_bind; [apply triple_new_uuid|intros id].
    eapply triple_bind; [apply triple_now|intros t1].
    eapply triple_bind; [apply triple_now|intros t2].
    eapply triple_bind; [apply SagaCreate_triple|intros u].
    by intros o w _.
Qed.

Lemma ProcessOrder_sound order key o w :
  resumable order (w_st w) -> confirmed_means order (w_st (snd (ProcessOrder order key o w))).
Proof.
  intros Hres. apply (triple_final (fun _ => True) (resumable order) _ (fun _ => confirmed_means order)); [|done..].
  unfold ProcessOrder. eapply triple_bind; [apply get_or_create_triple|]. intros saga.
  destruct (isTerminal saga) eqn:Ht; [by intros o' w' _ [Hcm _]|].
  eapply triple_conseq; [apply process_loop_triple| |done|done].
  intros s [_ Hrun]. split; [done|]. intros Hc. unfold isTerminal in Ht. by rewrite Hc in Ht.
Qed.

(** ** The outcome when nothing fails *)

Context {CL : SagaCalmLaws E}.

(** Every unit held for the order is in the list. *)
Definition tracked order (e : E) (l : list SagaReservedItem) : Prop :=
  forall p q, holds_at e (o_ID order) p q -> MkReserved (uuid_String p) q ∈ l.

Definition forward (st : SagaStatus) : bool :=
  match st with
  | SagaStatusCompensating | SagaStatusCancelled | SagaStatusFailed => false
  | _ => true
  end.

(** The rows of the order and of its saga, and the saga's status in its row. *)
Definition rows order (st : SagaStatus) (s : OrderSt E) : Prop :=
  is_Some (t_orders s !! o_ID order) /\
  exists row, t_sagas s !! o_ID order = Some row /\ sr_Status row = st.

Definition live order saga (s : OrderSt E) : Prop :=
  s_OrderID saga = o_ID order /\ forward (s_Status saga) = true /\ rows order (s_Status saga) s /\
  calm_inv (t_ext s) /\ tracked order (t_ext s) (s_ReservedItems saga) /\
  (s_Status saga = SagaStatusConfirmed -> order_paid order s).

Definition cancelled_clean order (s : OrderSt E) : Prop :=
  (exists row, t_sagas s !! o_ID order = Some row /\ sr_Status row = SagaStatusCancelled) /\
  (exists orow, t_orders s !! o_ID order = Some orow /\ or_Status orow = OrderStatusCancelled) /\
  forall p q, ~ holds_at (t_ext s) (o_ID order) p q.

Definition confirmed_paid order (s : OrderSt E) : Prop :=
  (exists row, t_sagas s !! o_ID order = Some row /\ sr_Status row = SagaStatusConfirmed) /\ order_paid order s.

(** *** Local writes do not fail *)

Lemma UpdateStatus_calm order st (P : OrderSt E -> Prop) :
  valid_status st = true ->
  (forall s os, P s -> P (set_orders os s)) ->
  triple no_faults (fun s => is_Some (t_orders s !! o_ID order) /\ P s) (OrderRepo_UpdateStatus (o_ID order) st)
    (fun _ s => (exists orow, t_orders s !! o_ID order = Some orow /\ or_Status orow = st) /\ P s)
    (fun _ => False).
Proof.
  intros Hv HP. unfold OrderRepo_UpdateStatus. eapply triple_bind; [apply triple_now|intros t].
  apply (triple_bind _ _ _ _ (fun n s => n = 1 /\
    (exists orow, t_orders s !! o_ID order = Some orow /\ or_Status orow = st) /\ P s)).
  - apply triple_wrap_err, triple_io_calm. intros s [[row Hrow] Hs]. rewrite Hrow, Hv.
    split_and!; [done| |by apply HP]. simpl. rewrite lookup_insert_eq. by eexists.
  - intros n. apply triple_pure. intros ->. by intros o w _.
Qed.

Lemma persistSaga_calm order saga st (P : OrderSt E -> Prop) :
  s_OrderID saga = o_ID order ->
  (forall s gs, P s -> P (set_sagas gs s)) ->
  triple no_faults (fun s => rows order st s /\ P s) (persistSaga saga)
    (fun sr s => snd sr = inr tt /\ s_OrderID (fst sr) = o_ID order /\ s_Status (fst sr) = s_Status saga /\
       s_ReservedItems (fst sr) = s_ReservedItems saga /\ rows order (s_Status saga) s /\ P s)
    (fun _ => False).
Proof.
  intros Hid HP o w [Hf _] [[Hord (row & Hrow & _)] Hs].
  unfold persistSaga, SagaRepo_Save, bind, now, attempt, wrap_err, io. simpl. rewrite !Hf, Hid, Hrow. simpl.
  split_and!; [done..| |by apply HP]. split; [done|]. simpl. rewrite lookup_insert_eq. by eexists.
Qed.

(** *** Compensation *)

Definition free_of order (e : E) (l : list SagaReservedItem) : Prop :=
  forall p q, MkReserved (uuid_String p) q ∈ l -> ~ holds_at e (o_ID order) p q.

(** [F] speaks about this service's tables only. *)
Definition local_to_tables (F : OrderSt E -> Prop) : Prop := forall s e, F s -> F (set_ext e s).

Definition comp order l0 done F (s : OrderSt E) : Prop :=
  calm_inv (t_ext s) /\ tracked order (t_ext s) l0 /\ free_of order (t_ext s) done /\ F s.

Lemma ext_release_calm order l0 done F i :
  local_to_tables F ->
  triple no_faults (comp order l0 done F)
    (ext (cl_Release (ri_ProductID i) (ri_Quantity i) (oid_text order) (releaseKey (oid_text order) (ri_ProductID i))))
    (fun _ => comp order l0 (i :: done) F) (comp order l0 (i :: done) F).
Proof.
  intros HF o w Ho (Hinv & Htr & Hfree & Hs). destruct (ext _ o w) as [r w'] eqn:Hext.
  apply ext_run in Hext as (w1 & Hrel & Hw'). apply Release_calm in Hrel as (Hinv' & Hsub & Hfreed); [|done..].
  assert (comp order l0 (i :: done) F (w_st w')) as Hcomp; [|by destruct r].
  rewrite Hw'. split_and!; simpl; [done| | |by apply HF].
  - intros p q Hh. by apply Htr, Hsub.
  - intros p q [<-|Hj]%elem_of_cons Hh; [|by apply (Hfree p q Hj), Hsub].
    by apply (Hfreed p (o_ID order) eq_refl eq_refl (Hsub _ _ _ Hh) _ Hh).
Qed.

Lemma release_all_calm order l0 l done F :
  local_to_tables F ->
  triple no_faults (comp order l0 done F) (release_all (oid_text order) l)
    (fun _ => comp order l0 (rev l ++ done) F) (fun _ => False).
Proof.
  intros HF. revert done. induction l as [|i l IH]; intros done; simpl; [by intros o w _|].
  eapply triple_bind; [apply triple_attempt, (ext_release_calm order l0 done F i HF)|intros r].
  apply triple_conseq with (P' := comp order l0 (i :: done) F) (Q' := fun _ => comp order l0 (rev l ++ i :: done) F)
    (R' := fun _ => False); [|by intros s; destruct r| |done].
  - eapply triple_bind; [apply IH|intros errs]. by intros o w _.
  - intros a s. by rewrite <- (assoc_L (++)).
Qed.

Lemma comp_weaken order l0 done done' F s :
  comp order l0 done F s -> (forall i, i ∈ done' -> i ∈ done) -> comp order l0 done' F s.
Proof. intros (? & ? & Hfree & ?) Hsub. split_and!; [done..| |done]. intros p q Hi. by apply Hfree, Hsub. Qed.

Lemma inventory_Compensate_calm order saga done F :
  local_to_tables F ->
  triple no_faults (comp order (s_ReservedItems saga) done F) (reserveInventoryStep_Compensate saga order)
    (fun _ => comp order (s_ReservedItems saga) (rev (s_ReservedItems saga) ++ done) F)
    (comp order (s_ReservedItems saga) (rev (s_ReservedItems saga) ++ done) F).
Proof.
  intros HF. unfold reserveInventoryStep_Compensate.
  eapply triple_bind; [eapply triple_conseq; [by apply (release_all_calm order (s_ReservedItems saga))|done|done|done]|].
  intros errs. destruct (errors_Join errs); by intros o w _.
Qed.

Lemma compensate_inventory_calm order saga key F :
  local_to_tables F ->
  triple no_faults (comp order (s_ReservedItems saga) [] F)
    (compensate_plan [reserveInventoryStep] saga order key)
    (fun _ s => (forall p q, ~ holds_at (t_ext s) (o_ID order) p q) /\ F s) (fun _ => False).
Proof.
  intros HF. set (l := s_ReservedItems saga). simpl.
  apply (triple_bind _ _ _ _ (fun _ => comp order l (rev l) F)).
  - apply triple_conseq with (P' := comp order l [] F)
      (Q' := fun (r : error + unit) s => match r with inr _ => comp order l (rev l) F s | inl _ => comp order l (rev l) F s end)
      (R' := fun _ : OrderSt E => False); [|done|by intros [] s|done].
    apply triple_attempt. unfold compensateWithRetry, retry. simpl Compensate.
    eapply triple_bind; [apply triple_attempt, inventory_Compensate_calm, HF|].
    assert (Hweak : forall s, comp order l (rev l ++ []) F s -> comp order l (rev l) F s)
      by (intros s; by rewrite app_nil_r).
    intros [err|u]; [|intros o w _; apply Hweak].
    eapply triple_conseq; [|exact Hweak|intros a s H; exact H|intros s H; exact H].
    apply triple_retry_again. eapply triple_conseq; [by apply inventory_Compensate_calm|done| |].
    + intros a s Hc. eapply comp_weaken; [exact Hc|]. intros i Hi. apply elem_of_app. by left.
    + intros s Hc. eapply comp_weaken; [exact Hc|]. intros i Hi. apply elem_of_app. by left.
  - intros _ o w _ (_ & Htr & Hfree & Hs). simpl. split; [|done].
    intros p q Hh. apply (Hfree p q); [|done].
    apply list_elem_of_In. rewrite <- in_rev. by apply list_elem_of_In, Htr.
Qed.

Definition no_holds order (s : OrderSt E) : Prop := forall p q, ~ holds_at (t_ext s) (o_ID order) p q.

Definition saga_in order (st : SagaStatus) (s : OrderSt E) : Prop :=
  exists row, t_sagas s !! o_ID order = Some row /\ sr_Status row = st.

Definition order_in order (st : OrderStatus) (s : OrderSt E) : Prop :=
  exists orow, t_orders s !! o_ID order = Some orow /\ or_Status orow = st.

Lemma handleStepFailure_calm order saga st key err :
  compensationPlan st = [reserveInventoryStep] -> s_Status saga ≠ SagaStatusPending ->
  triple no_faults (live order saga) (handleStepFailure saga order st key err)
    (fun _ => cancelled_clean order) (fun _ => False).
Proof.
  intros Hplan Hst. unfold handleStepFailure. rewrite bool_decide_false, Hplan by done.
  set (P1 := fun s => calm_inv (t_ext s) /\ tracked order (t_ext s) (s_ReservedItems saga)).
  intros o w Ho (Hid & _ & Hrows & Hinv & Htr & _). revert w Hrows Hinv Htr.
  enough (Hall : triple no_faults (fun s => rows order (s_Status saga) s /\ P1 s)
    (let* sr := saveSaga saga SagaStatusCompensating ("compensate_" +:+ joinStepNames [reserveInventoryStep]) (Error err) in
     do* compensate_plan [reserveInventoryStep] (fst sr) order key in
     do* attempt (OrderRepo_UpdateStatus (o_ID order) OrderStatusCancelled) in
     do* saveSaga (fst sr) SagaStatusCancelled "cancelled" "" in ret tt)
    (fun _ => cancelled_clean order) (fun _ => False)).
  { intros w Hrows Hinv Htr. by apply Hall. }
  eapply triple_bind; [unfold saveSaga; by apply (persistSaga_calm order _ (s_Status saga) P1)|].
  intros [sg r]. simpl fst. simpl snd. apply triple_pure. intros _. apply triple_pure. intros Hid'.
  apply triple_pure. intros _. apply triple_pure. intros Hitems. simpl in Hitems.
  apply (triple_bind _ _ _ _ (fun _ s => no_holds order s /\ rows order SagaStatusCompensating s)).
  { eapply triple_conseq; [apply (compensate_inventory_calm order sg key (rows order SagaStatusCompensating))| | |].
    - by intros s e.
    - intros s [Hr [Hc Ht]]. split_and!; [done|by rewrite Hitems| |done]. by intros p q Hi%not_elem_of_nil.
    - by intros a s [].
    - done. }
  intros u. apply (triple_bind _ _ _ _ (fun _ s => rows order SagaStatusCompensating s /\
    (order_in order OrderStatusCancelled s /\ no_holds order s))).
  { eapply triple_conseq; [eapply (triple_attempt no_faults) with (R' := fun _ => False);
      apply (UpdateStatus_calm order OrderStatusCancelled
        (fun s => saga_in order SagaStatusCompensating s /\ no_holds order s))| | |].
    - done.
    - by intros s os [].
    - intros s [Hn [Ho' Hs]]. by split_and!.
    - intros [e|[]] s; [done|]. intros ((orow & Horow & Hc) & Hs & Hn). split_and!; [|by exists orow|done].
      split; [by exists orow|done].
    - intros s []. }
  intros u2. eapply triple_bind.
  { unfold saveSaga. apply (persistSaga_calm order _ SagaStatusCompensating
      (fun s => order_in order OrderStatusCancelled s /\ no_holds order s)); [done|]. by intros s gs []. }
  intros [sg2 r2] o2 w2 _ (_ & _ & _ & _ & [_ Hrow] & Hord & Hn). simpl. by split_and!.
Qed.

Definition pre_live order saga (s : OrderSt E) : Prop :=
  s_OrderID saga = o_ID order /\ forward (s_Status saga) = true /\ (exists st, rows order st s) /\
  calm_inv (t_ext s) /\ tracked order (t_ext s) (s_ReservedItems saga) /\
  (s_Status saga = SagaStatusConfirmed -> order_paid order s).

Lemma persist_live {B} order saga (f : Saga -> B) (Q : B -> OrderSt E -> Prop) :
  (forall sg s, s_Status sg = s_Status saga -> live order sg s -> Q (f sg) s) ->
  triple no_faults (pre_live order saga)
    (let* sr := persistSaga saga in match snd sr with inl e => throw e | inr _ => ret (f (fst sr)) end)
    Q (fun _ => False).
Proof.
  intros HQ o w Ho (Hid & Hfw & [st Hrows] & Hinv & Htr & Hpaid).
  set (P := fun s => calm_inv (t_ext s) /\ tracked order (t_ext s) (s_ReservedItems saga) /\
                     (s_Status saga = SagaStatusConfirmed -> order_paid order s)).
  assert (HP : triple no_faults (fun s => rows order st s /\ P s) (persistSaga saga) _ (fun _ => False))
    by (by apply (persistSaga_calm order saga st P)).
  specialize (HP o w Ho). unfold bind. destruct (persistSaga saga o w) as [[e|[sg r]] w']; [by apply HP|].
  destruct HP as (Hr & Hid' & Hst & Hit & Hrows' & Hinv' & Htr' & Hpaid'); [by split_and!|].
  simpl in *. subst r. simpl. apply HQ; [done|]. split_and!; rewrite ?Hst, ?Hit; done.
Qed.

Lemma reserve_Execute_calm order saga key :
  s_Status saga = SagaStatusReserving ->
  triple no_faults (live order saga) (reserveInventoryStep_Execute saga order key) (pre_live order) (live order saga).
Proof.
  intros Hs. unfold reserveInventoryStep_Execute.
  destruct (o_Items order !! length (s_ReservedItems saga)) as [item|] eqn:Hi.
  - apply (triple_bind_ret no_faults _ _ (fun _ => _)).
    intros o w Ho (Hid & Hfw & Hrows & Hinv & Htr & Hpaid). destruct (ext _ o w) as [r w'] eqn:Hext.
    apply ext_run in Hext as (w1 & Hres & Hw').
    apply Reserve_calm in Hres as [Hinv' Hsub]; [|done..]. rewrite Hw'. destruct r as [err|[]].
    + split_and!; simpl; try done. intros p q Hh. destruct (Hsub _ _ _ Hh) as [|[]]; [by apply Htr|done].
    + split_and!; simpl; try done; [by eexists|].
      intros p q Hh. apply elem_of_app. destruct (Hsub _ _ _ Hh) as [|(_ & _ & -> & ->)]; [left; by apply Htr|right].
      unfold reserved_item. set_solver.
  - intros o w _ (Hid & Hfw & Hrows & Hinv & Htr & Hpaid). simpl. split_and!; simpl; try done. by eexists.
Qed.

Lemma payment_Execute_calm order saga key :
  s_Status saga = SagaStatusPaying ->
  triple no_faults (live order saga) (processPaymentStep_Execute saga order key) (pre_live order) (live order saga).
Proof.
  intros Hs. unfold processPaymentStep_Execute. apply triple_bind_ret.
  intros o w Ho (Hid & Hfw & Hrows & Hinv & Htr & Hpaid). destruct (ext _ o w) as [r w'] eqn:Hext.
  apply ext_run in Hext as (w1 & Hpay & Hw').
  apply Pay_calm in Hpay as [Hinv' Hsub]; [|done..]. rewrite Hw'.
  assert (tracked order (w_st w1) (s_ReservedItems saga)) by (intros p q Hh; by apply Htr, Hsub).
  destruct r as [err|pid]; split_and!; simpl; try done. by eexists.
Qed.

(** The first and the last step only write this service's tables. *)
Lemma local_Execute_calm order saga st status step :
  valid_status st = true -> forward status = true -> s_Status saga ≠ SagaStatusConfirmed ->
  (status = SagaStatusConfirmed -> st = OrderStatusPaid) ->
  triple no_faults (live order saga)
    (do* OrderRepo_UpdateStatus (o_ID order) st in ret (with_status status step saga))
    (pre_live order) (fun _ => False).
Proof.
  intros Hv Hfw Hne Hpaid. apply (triple_bind_ret no_faults _ _ (fun _ => _)).
  set (P := fun s => s_OrderID saga = o_ID order /\ saga_in order (s_Status saga) s /\
                     calm_inv (t_ext s) /\ tracked order (t_ext s) (s_ReservedItems saga)).
  eapply triple_conseq; [apply (UpdateStatus_calm order st P Hv)| | |done].
  - by intros s os (? & ? & ? & ?).
  - intros s (Hid & _ & [Hord Hs] & Hinv & Htr & _). by split_and!.
  - intros u s (Hord & Hid & Hs & Hinv & Htr). split_and!; simpl; try done.
    + exists (s_Status saga). split; [|done]. destruct Hord as (orow & Horow & _). by exists orow.
    + intros Hc. rewrite (Hpaid Hc) in Hord. done.
Qed.

(** Only the reservation and the payment can fail. *)
Definition may_fail (st : Step) : bool :=
  match st with reserveInventoryStep | processPaymentStep => true | _ => false end.

Lemma Execute_calm order saga st key :
  ready st saga ->
  triple no_faults (live order saga) (Execute st saga order key) (pre_live order)
    (fun s => may_fail st = true /\ live order saga s).
Proof.
  intros Hs. destruct st; simpl.
  - eapply triple_conseq; [apply local_Execute_calm|done|done|done]; try done. by rewrite Hs.
  - eapply triple_conseq; [by apply reserve_Execute_calm|done|done|done].
  - eapply triple_conseq; [by apply payment_Execute_calm|done|done|done].
  - eapply triple_conseq; [apply local_Execute_calm|done|done|done]; try done. by rewrite Hs.
Qed.

Lemma executeWithRetry_calm order saga st key :
  ready st saga ->
  triple no_faults (live order saga) (executeWithRetry st saga order key) (pre_live order)
    (fun s => may_fail st = true /\ live order saga s).
Proof.
  intros Hs o w Ho Hlive. unfold executeWithRetry.
  destruct (may_fail st) eqn:Hm.
  - assert (HT : triple no_faults (live order saga) (retry (Execute st saga order key)) (pre_live order)
                   (live order saga)).
    { apply triple_retry. eapply triple_conseq; [by apply Execute_calm|done|done|by intros s []]. }
    specialize (HT o w Ho Hlive). by destruct (retry _ o w) as [[e|a] w'].
  - pose proof (Execute_calm order saga st key Hs o w Ho Hlive) as HE. unfold retry, bind, attempt.
    destruct (Execute st saga order key o w) as [[e|a] w']; [|done]. rewrite Hm in HE. by destruct HE.
Qed.

Lemma process_step_calm order saga st key :
  nextStep saga = Some st ->
  triple no_faults (live order saga) (process_step st saga order key)
    (fun next s => match next with Some saga' => live order saga' s | None => cancelled_clean order s end)
    (fun _ => False).
Proof.
  intros Hn. unfold process_step.
  apply (triple_bind _ _ _ _ (fun sg s => ready st sg /\ live order sg s)).
  - destruct (Prepare st saga) as [saga'|] eqn:Hp.
    + intros o w Ho (Hid & Hfw & Hrows & Hinv & Htr & Hpaid).
      assert (Hready : ready st saga' /\ forward (s_Status saga') = true /\ s_Status saga' ≠ SagaStatusConfirmed /\
                s_OrderID saga' = s_OrderID saga /\ s_ReservedItems saga' = s_ReservedItems saga).
      { unfold nextStep in Hn. unfold Prepare in Hp.
        destruct (s_Status saga) eqn:Hs; simplify_eq; simpl in *; by simplify_eq. }
      destruct Hready as (Hready & Hfw' & Hne' & Hid' & Hit').
      apply (persist_live order saga' (fun sg => sg) (fun sg s => ready st sg /\ live order sg s)); [|done|].
      * intros sg s Hst Hl. split; [|done]. unfold ready in *. by rewrite Hst.
      * split_and!; [congruence|done|by eexists|done|by rewrite Hit'|done].
    + intros o w _ Hl. simpl. split; [|done]. by apply ready_of_next.
  - intros sg. apply triple_pure. intros Hready.
    eapply triple_bind; [by apply triple_attempt, executeWithRetry_calm|intros [err|saga2]].
    + apply triple_pure. intros Hm. eapply triple_bind; [apply handleStepFailure_calm|by intros u o w _].
      * by destruct st.
      * unfold ready in Hready. rewrite Hready. by destruct st.
    + by apply persist_live.
Qed.

Lemma process_loop_calm fuel order saga key :
  (gas saga order <= fuel)%nat ->
  triple no_faults (live order saga) (process_loop fuel saga order key)
    (fun r s => r = inr tt /\ (confirmed_paid order s \/ cancelled_clean order s)) (fun _ => False).
Proof.
  revert saga. induction fuel as [|fuel IH]; intros saga Hg; simpl.
  { unfold gas in Hg. destruct (s_Status saga); simpl in Hg; lia. }
  destruct (nextStep saga) as [st|] eqn:Hn.
  - intros o w Ho Hl. unfold bind. pose proof (process_step_calm order saga st key Hn o w Ho Hl) as Hstep.
    destruct (process_step st saga order key o w) as [[e|[saga'|]] w1] eqn:Hrun; [done| |by split; [|right]].
    apply (process_step_gas _ _ _ _ _ _ _ _ Hn) in Hrun. apply IH; [lia|done|done].
  - intros o w Ho (_ & Hfw & [_ Hrow] & _ & _ & Hpaid). simpl. split; [done|left].
    unfold nextStep in Hn. destruct (s_Status saga) eqn:Hs; try done. split; [done|by apply Hpaid].
Qed.

Lemma ProcessOrder_outcome order key o w :
  no_faults o -> calm_inv (t_ext (w_st w)) ->
  is_Some (t_orders (w_st w) !! o_ID order) -> t_sagas (w_st w) !! o_ID order = None ->
  no_holds order (w_st w) ->
  let '(r, w') := ProcessOrder order key o w in
  r = inr (inr tt) /\ (confirmed_paid order (w_st w') \/ cancelled_clean order (w_st w')).
Proof.
  intros Ho Hinv [orow Horow] Hnone Hno.
  unfold ProcessOrder, get_or_create_saga, bind, attempt, SagaRepo_GetByOrderID.
  rewrite (read_no_faults _ _ _ Ho), Hnone. simpl. unfold new_uuid, now, wrap_err, SagaRepo_Create, wrap_err.
  rewrite (io_no_faults _ _ _ Ho). simpl. rewrite Hnone, Horow. simpl.
  set (sg := MkSaga _ _ _ _ _ _ _ _ _). set (w1 := World _ _).
  assert (Hl : live order sg (w_st w1)).
  { split_and!; simpl; [done|done| |done| |done].
    - split; [by exists orow|]. simpl. rewrite lookup_insert_eq. by eexists.
    - intros p q Hh. by apply Hno in Hh. }
  pose proof (process_loop_calm (saga_fuel order) order sg key) as Hloop.
  assert (Hgas : (gas sg order <= saga_fuel order)%nat) by (unfold gas, saga_fuel; simpl; lia).
  specialize (Hloop Hgas o w1 Ho Hl). destruct (process_loop _ sg order key o w1) as [[e|r] w']; [done|].
  by destruct Hloop as [-> Hout].
Qed.

(** When nothing fails, processing a new order has one of two outcomes and no
    error: the saga is confirmed and the order paid, or the saga and the order
    are cancelled and the inventory holds nothing for the order, whichever items
    had been reserved before a reservation or the payment was refused. *)
Theorem ProcessOrder_all_or_nothing order key o w :
  no_faults o -> calm_inv (t_ext (w_st w)) ->
  is_Some (t_orders (w_st w) !! o_ID order) -> t_sagas (w_st w) !! o_ID order = None ->
  no_holds order (w_st w) ->
  let '(r, w') := ProcessOrder order key o w in
  r = inr (inr tt) /\ (confirmed_paid order (w_st w') \/ cancelled_clean order (w_st w')).
Proof. apply ProcessOrder_outcome. Qed.

(** ** Recovery of a compensating saga *)

Lemma compensating_unchanged order key o w row :
  t_sagas (w_st w) !! o_ID order = Some row -> sr_Status row = SagaStatusCompensating ->
  w_st (snd (ProcessOrder order key o w)) = w_st w.
Proof.
  intros Hrow Hst. unfold ProcessOrder, get_or_create_saga, bind, attempt, SagaRepo_GetByOrderID, read_with, io.
  assert (Hcreate : forall sg w1, s_OrderID sg = o_ID order -> w_st w1 = w_st w ->
    exists e w2, wrap_err (wrapf "create saga") (SagaRepo_Create sg) o w1 = (inl e, w2) /\ w_st w2 = w_st w).
  { intros sg w1 Hid Hw1. unfold SagaRepo_Create, wrap_err, io. rewrite Hid, Hw1, Hrow.
    destruct (o_fault o (w_tick w1)); simpl; rewrite ?Hw1; eauto. }
  rewrite Hrow. destruct (o_fault o (w_tick w)); simpl.
  - unfold isTerminal, saga_fuel. simpl. rewrite Hst, Nat.add_comm. simpl. unfold nextStep. simpl. by rewrite Hst.
  - destruct (Is e ErrNotFound); simpl; [|done]. unfold new_uuid, now. simpl.
    match goal with |- context [SagaRepo_Create ?sg] =>
      match goal with |- context [wrap_err _ (SagaRepo_Create sg) o ?w1] =>
        destruct (Hcreate sg w1 eq_refl eq_refl) as (e' & w2 & -> & Hw2) end end. done.
  - destruct (Is e ErrNotFound); simpl; [|done]. unfold new_uuid, now. simpl.
    match goal with |- context [SagaRepo_Create ?sg] =>
      match goal with |- context [wrap_err _ (SagaRepo_Create sg) o ?w1] =>
        destruct (Hcreate sg w1 eq_refl eq_refl) as (e' & w2 & -> & Hw2) end end. done.
Qed.

(** A saga left in status compensating is never finished: ListIncomplete
    returns it on every recovery pass, and ProcessOrder leaves all the stores
    exactly as they were, so its compensation is never resumed. *)
Theorem compensating_saga_is_stuck order key o w row :
  t_sagas (w_st w) !! o_ID order = Some row -> sr_Status row = SagaStatusCompensating ->
  saga_of_row (o_ID order) row ∈ incomplete_sagas (w_st w) /\
  w_st (snd (ProcessOrder order key o w)) = w_st w.
Proof.
  intros Hrow Hst. split; [|by eapply compensating_unchanged].
  unfold incomplete_sagas. rewrite merge_sort_Permutation. apply list_elem_of_filter. split.
  - simpl. by rewrite Hst.
  - apply list_elem_of_fmap. exists (o_ID order, row). split; [done|]. by apply elem_of_map_to_list.
Qed.

(** ** When payments are always refused *)

Definition unpaid (st : SagaStatus) : Prop :=
  st ≠ SagaStatusPaid /\ st ≠ SagaStatusConfirming /\ st ≠ SagaStatusConfirmed.

Context (pay_refused : forall oid a k o (w : world E), exists e (w' : world E), cl_ProcessPayment oid a k o w = (inl e, w')).

Lemma payment_Execute_fails saga order key o w r w' :
  processPaymentStep_Execute saga order key o w = (r, w') -> exists e, r = inl e.
Proof.
  unfold processPaymentStep_Execute, bind, ext, zoom. simpl.
  destruct (pay_refused (uuid_String (o_ID order)) (o_TotalAmount order) (paymentKey key) o
              (World (w_tick w) (t_ext (w_st w)))) as (e & w1 & ->). intros [= <- _]. eauto.
Qed.

Lemma persistSaga_row_status ok order saga :
  ok (s_Status saga) -> pres (row_status ok order) (persistSaga saga).
Proof.
  intros Hok. unfold persistSaga. apply pres_bind; [apply pres_now|intros t].
  apply pres_bind; [|intros r; apply pres_ret]. by apply pres_attempt, Save_row_status.
Qed.

Lemma Execute_row_status ok order st saga order' key : pres (row_status ok order) (Execute st saga order' key).
Proof.
  destruct st; simpl; unfold startStep_Execute, reserveInventoryStep_Execute, processPaymentStep_Execute,
    confirmOrderStep_Execute.
  2: destruct (o_Items order' !! length (s_ReservedItems saga)); [|apply pres_ret].
  all: apply pres_bind; [|intros; apply pres_ret]; apply UpdateStatus_row_status || apply ext_row_status.
Qed.

Lemma Execute_unpaid st saga order key o w saga' w' :
  nextStep saga = Some st -> unpaid (s_Status saga) -> Execute st saga order key o w = (inr saga', w') ->
  unpaid (s_Status saga').
Proof.
  intros Hn Hu H. unfold nextStep in Hn. destruct (s_Status saga) eqn:Hs; simplify_eq; simpl in H;
    try (apply payment_Execute_fails in H as [e He]; done); try (by destruct Hu as (? & ? & ?)).
  - apply bind_ok in H as (x & w1 & _ & H). unfold ret in H. by simplify_eq.
  - unfold reserveInventoryStep_Execute in H. destruct (o_Items order !! _); [|unfold ret in H; by simplify_eq].
    apply bind_ok in H as (x & w1 & _ & H). unfold ret in H. simplify_eq. simpl. by rewrite Hs.
Qed.

Lemma persist_or_throw_pres {B} ok order saga (f : Saga -> B) :
  ok (s_Status saga) ->
  pres (row_status ok order)
    (let* sr := persistSaga saga in match snd sr with inl e => throw e | inr _ => ret (f (fst sr)) end).
Proof.
  intros Hok. apply pres_bind; [by apply persistSaga_row_status|]. intros sr. destruct (snd sr); auto with go_pres.
Qed.

Lemma process_step_unpaid st order saga key :
  nextStep saga = Some st -> unpaid (s_Status saga) ->
  triple (fun _ => True) (row_status unpaid order) (process_step st saga order key)
    (fun next s => row_status unpaid order s /\ match next with Some saga' => unpaid (s_Status saga') | None => True end)
    (row_status unpaid order).
Proof.
  intros Hn Hu. unfold process_step.
  apply (triple_bind _ _ _ _ (fun sg s => (nextStep sg = Some st /\ unpaid (s_Status sg)) /\ row_status unpaid order s)).
  - destruct (Prepare st saga) as [saga'|] eqn:Hp; [|by intros o w _ Hs].
    destruct (Prepare_gas _ _ _ order Hn Hp) as [_ Hn'].
    assert (Hu' : unpaid (s_Status saga')).
    { unfold nextStep in Hn. unfold Prepare in Hp.
      destruct (s_Status saga) eqn:Hs; simplify_eq; simpl in *; simplify_eq; try done; by destruct Hu as (? & ? & ?). }
    intros o w _ Hs. pose proof (persist_or_throw_pres unpaid order saga' (fun sg => sg) Hu' o w Hs) as Hpr.
    unfold bind in *. destruct (persistSaga saga' o w) as [[e|[sg [e|u]]] w'] eqn:Hrun; simpl in *; [done|done|].
    apply persistSaga_status in Hrun as [Hst _]. simpl in Hst. split; [|done]. unfold nextStep in *. by rewrite Hst.
  - intros sg. apply triple_pure. intros [Hn1 Hu1].
    intros o w _ Hs. unfold bind, attempt.
    assert (Hex : row_status unpaid order (w_st (snd (executeWithRetry st sg order key o w))))
      by (apply (pres_retry (row_status unpaid order)); [apply Execute_row_status|exact Hs]).
    destruct (executeWithRetry st sg order key o w) as [[err|saga2] w1] eqn:Hrun; simpl in Hex.
    + pose proof (handleStepFailure_row_status unpaid order sg st key err ltac:(done) ltac:(done) ltac:(done) o w1 Hex) as Hh.
      destruct (handleStepFailure sg order st key err o w1) as [[e|u] w2]; simpl in *; done.
    + apply retry_ok in Hrun as [w2 Hrun]. apply Execute_unpaid in Hrun; [|done|done].
      pose proof (persist_or_throw_pres unpaid order saga2 Some Hrun o w1 Hex) as Hpr. unfold bind in Hpr.
      destruct (persistSaga saga2 o w1) as [[e|[sg2 [e|u]]] w3] eqn:Hp; simpl in *; [done|done|].
      apply persistSaga_status in Hp as [Hst _]. simpl in Hst. by rewrite Hst.
Qed.

Lemma process_loop_unpaid fuel order saga key :
  unpaid (s_Status saga) -> pres (row_status unpaid order) (process_loop fuel saga order key).
Proof.
  revert saga. induction fuel as [|fuel IH]; intros saga Hu; simpl; [apply pres_ret|].
  destruct (nextStep saga) as [st|] eqn:Hn; [|apply pres_ret].
  intros o w Hs. unfold bind. pose proof (process_step_unpaid st order saga key Hn Hu o w I Hs) as Hstep.
  destruct (process_step st saga order key o w) as [[e|[saga'|]] w']; [done| |by destruct Hstep].
  destruct Hstep as [Hs' Hu']. by apply IH.
Qed.

(** Without a successful payment no saga gets past paying. *)
Lemma ProcessOrder_unpaid order key : pres (row_status unpaid order) (ProcessOrder order key).
Proof.
  unfold ProcessOrder, get_or_create_saga. intros o w Hs.
  assert (HT : triple (fun _ => True) (row_status unpaid order) (get_or_create_saga order)
    (fun saga s => unpaid (s_Status saga) /\ row_status unpaid order s) (row_status unpaid order)).
  { unfold get_or_create_saga. eapply triple_bind.
    - apply triple_attempt, (triple_read _ _ _ (fun saga s => unpaid (s_Status saga) /\ row_status unpaid order s)
        (row_status unpaid order)); [done|].
      intros s saga Hr Hget. destruct (t_sagas s !! o_ID order) as [row|] eqn:Hrow; [|done].
      injection Hget as <-. split; [exact (Hr _ Hrow)|done].
    - intros [err|saga]; [|by intros o1 w1 _].
      destruct (Is err ErrNotFound); simpl; [|apply triple_throw].
      eapply triple_bind; [apply triple_new_uuid|intros id].
      eapply triple_bind; [apply triple_now|intros t1].
      eapply triple_bind; [apply triple_now|intros t2].
      apply (triple_bind _ _ _ _ (fun _ => row_status unpaid order)); [|intros u o1 w1 _ Hr; by split].
      apply triple_wrap_err, triple_wrap_err, triple_io. intros s Hr. simpl.
      destruct (t_sagas s !! o_ID order); [done|]. destruct (t_orders s !! o_ID order); [|done]. simpl.
      assert (Hnew : row_status unpaid order (set_sagas
        (<[o_ID order := saga_row (MkSaga id (o_ID order) SagaStatusPending "" "" "" [] t1 t2) t1 t2]> (t_sagas s)) s)).
      { intros row. simpl. rewrite lookup_insert_eq. by intros [= <-]. }
      by split_and!. }
  specialize (HT o w I Hs). unfold get_or_create_saga in HT. unfold bind at 1.
  match goal with |- context [match ?m with _ => _ end] => destruct m as [[e|saga] w1] end; [done|].
  destruct HT as [Hu Hs1]. destruct (isTerminal saga); [done|]. by apply process_loop_unpaid.
Qed.
End Facts.
