(* ===== verification/SagaFrame.v ===== *)
(** * order-service: what the orchestrator leaves alone

    A frame rule for the orchestrator: an assertion that survives the calls which the
    saga of an order makes, changes of the saga table, and changes of the status of an
    order survives ProcessOrder.  Its first use: the amounts of the payments of an
    order stay the order's total. *)
From S2P Require Import Prelude Errors Effects OrderDomain OrderRepo Saga SagaFacts.

Section Frame.
Context `{U : UuidLib} {E : Type} {IC : InventoryClient E} {PC : PaymentClient E}.
Implicit Types (I : OrderSt E -> Prop).

(** What is asked of an assertion; the calls are those of the saga of [order]. *)
Record framed (order : Order) I : Prop := MkFramed {
  fr_Reserve : forall p q k, pres I (ext (cl_Reserve p q (uuid_String (o_ID order)) k));
  fr_Release : forall p q k, pres I (ext (cl_Release p q (uuid_String (o_ID order)) k));
  fr_Pay : forall k, pres I (ext (cl_ProcessPayment (uuid_String (o_ID order)) (o_TotalAmount order) k));
  fr_Refund : forall pid k, pres I (ext (cl_Refund pid k));
  fr_sagas : forall s g, I s -> I (set_sagas g s);
  fr_status : forall s id row st t, I s -> t_orders s !! id = Some row ->
    I (set_orders (<[id := MkOrderRow (or_UserID row) (or_TotalAmount row) st (or_CreatedAt row) t]> (t_orders s)) s)
}.

(** An assertion about the tables of this service. *)
Lemma frame_ext {A} I (m : M E A) : (forall s e, I s -> I (set_ext e s)) -> pres I (ext m).
Proof. intros HI o w Hw. unfold ext, zoom. simpl. destruct (m o _) as [r w']. by apply HI. Qed.

Lemma framed_tables order I :
  (forall s e, I s -> I (set_ext e s)) -> (forall s g, I s -> I (set_sagas g s)) ->
  (forall s id row st t, I s -> t_orders s !! id = Some row ->
    I (set_orders (<[id := MkOrderRow (or_UserID row) (or_TotalAmount row) st (or_CreatedAt row) t]> (t_orders s)) s)) ->
  framed order I.
Proof. intros He Hg Hs. split; [by intros; apply frame_ext..|done|done]. Qed.

Lemma frame_UpdateStatus I id st :
  (forall s id row st t, I s -> t_orders s !! id = Some row ->
    I (set_orders (<[id := MkOrderRow (or_UserID row) (or_TotalAmount row) st (or_CreatedAt row) t]> (t_orders s)) s)) ->
  pres I (OrderRepo_UpdateStatus id st).
Proof.
  intros Hst. unfold OrderRepo_UpdateStatus. apply pres_bind; [apply pres_now|intros t].
  apply pres_bind; [|intros n; destruct (n =? 0); auto with go_pres].
  apply pres_wrap_err, pres_io. intros s Hs. destruct (t_orders s !! id) eqn:Hrow; [|done].
  destruct (valid_status st); [|done]. by apply Hst.
Qed.

Lemma frame_persist I saga : (forall s g, I s -> I (set_sagas g s)) -> pres I (persistSaga saga).
Proof.
  intros Hg. unfold persistSaga, SagaRepo_Save. apply pres_bind; [apply pres_now|intros t].
  apply pres_bind; [|intros r; apply pres_ret]. apply pres_attempt, pres_bind; [apply pres_now|intros t'].
  apply pres_bind; [|intros n; destruct (n =? 0); auto with go_pres].
  apply pres_wrap_err, pres_io. intros s Hs. destruct (t_sagas s !! _); [|done]. by apply Hg.
Qed.

Lemma frame_Create I saga : (forall s g, I s -> I (set_sagas g s)) -> pres I (SagaRepo_Create saga).
Proof. intros Hg. apply pres_wrap_err, pres_io. intros s Hs. repeat case_match; try done. by apply Hg. Qed.

Section Orchestrator.
Context (order : Order) (I : OrderSt E -> Prop) (HI : framed order I).

#[local] Hint Extern 1 (pres _ (ext _)) =>
  first [apply (fr_Reserve _ _ HI) | apply (fr_Release _ _ HI) | apply (fr_Pay _ _ HI) | apply (fr_Refund _ _ HI)] : go_pres.
#[local] Hint Extern 1 (pres _ (OrderRepo_UpdateStatus _ _)) => apply (frame_UpdateStatus _ _ _ (fr_status _ _ HI)) : go_pres.
#[local] Hint Extern 1 (pres _ (persistSaga _)) => apply (frame_persist _ _ (fr_sagas _ _ HI)) : go_pres.
#[local] Hint Extern 1 (pres _ (SagaRepo_Create _)) => apply (frame_Create _ _ (fr_sagas _ _ HI)) : go_pres.

Lemma frame_saveSaga saga st step msg : pres I (saveSaga saga st step msg).
Proof. unfold saveSaga. auto with go_pres. Qed.

Lemma frame_release_all l : pres I (release_all (uuid_String (o_ID order)) l).
Proof. induction l; simpl; auto 10 with go_pres. Qed.
#[local] Hint Resolve frame_saveSaga frame_release_all : go_pres.

Lemma frame_compensateWithRetry st saga key : pres I (compensateWithRetry st saga order key).
Proof.
  apply pres_retry. destruct st; simpl; unfold reserveInventoryStep_Compensate, processPaymentStep_Compensate; auto 10 with go_pres.
Qed.

Lemma frame_Execute st saga key : pres I (Execute st saga order key).
Proof.
  destruct st; simpl; unfold startStep_Execute, reserveInventoryStep_Execute, processPaymentStep_Execute,
    confirmOrderStep_Execute; auto 10 with go_pres.
Qed.

Lemma frame_executeWithRetry st saga key : pres I (executeWithRetry st saga order key).
Proof. apply pres_retry, frame_Execute. Qed.
#[local] Hint Resolve frame_compensateWithRetry frame_executeWithRetry : go_pres.

Lemma frame_compensate_plan plan saga key : pres I (compensate_plan plan saga order key).
Proof. induction plan; simpl; auto 10 with go_pres. Qed.
#[local] Hint Resolve frame_compensate_plan : go_pres.

Lemma frame_handleStepFailure saga st key err : pres I (handleStepFailure saga order st key err).
Proof. unfold handleStepFailure. auto 20 with go_pres. Qed.
#[local] Hint Resolve frame_handleStepFailure : go_pres.

Lemma frame_process_step st saga key : pres I (process_step st saga order key).
Proof. unfold process_step. auto 20 with go_pres. Qed.

Lemma frame_process_loop fuel saga key : pres I (process_loop fuel saga order key).
Proof.
  revert saga. induction fuel as [|n IH]; intros saga; simpl; [auto with go_pres|].
  destruct (nextStep saga); [|auto with go_pres].
  apply pres_bind; [apply frame_process_step|intros [saga'|]]; auto with go_pres.
Qed.

Lemma frame_ProcessOrder key : pres I (ProcessOrder order key).
Proof.
  unfold ProcessOrder, get_or_create_saga, SagaRepo_GetByOrderID. apply pres_bind; [auto 20 with go_pres|intros saga].
  destruct (isTerminal saga); [apply pres_ret|apply frame_process_loop].
Qed.
End Orchestrator.

(** ** The amounts of payments *)

(** [billed e oid a]: every payment recorded for the order is of amount [a]. *)
Class PaymentAmounts := {
  billed : E -> UUID -> Z -> Prop;
  Reserve_keeps_billed : forall oid a p q oid' k, pres (fun e => billed e oid a) (cl_Reserve p q oid' k);
  Release_keeps_billed : forall oid a p q oid' k, pres (fun e => billed e oid a) (cl_Release p q oid' k);
  Pay_keeps_billed : forall (oid : UUID) a k, pres (fun e => billed e oid a) (cl_ProcessPayment (uuid_String oid) a k);
  Refund_keeps_billed : forall oid a pid k, pres (fun e => billed e oid a) (cl_Refund pid k)
}.

Lemma framed_billed `{PA : PaymentAmounts} order :
  framed order (fun s => billed (t_ext s) (o_ID order) (o_TotalAmount order)).
Proof.
  assert (Hz : forall A (m : M E A), pres (fun e => billed e (o_ID order) (o_TotalAmount order)) m ->
    pres (fun s => billed (t_ext s) (o_ID order) (o_TotalAmount order)) (ext m)).
  { intros A m Hm. by apply (pres_zoom ext_lens (fun e => billed e (o_ID order) (o_TotalAmount order))). }
  split; [intros; apply Hz..|done|done]; [apply Reserve_keeps_billed|apply Release_keeps_billed|apply Pay_keeps_billed|apply Refund_keeps_billed].
Qed.
End Frame.
Arguments PaymentAmounts {U} E {IC PC}.
