(* ===== verification/OrderService.v ===== *)
(** * order-service: use case and gRPC handler

    [internal/usecase] and [internal/delivery/grpc] over the repositories and the
    orchestrator. *)
From S2P Require Import Prelude Errors Effects Auth OrderDomain OrderRepo Saga.

(** The part of a catalog product that the use case reads. *)
Record CatalogProduct := MkCatalogProduct { cp_PriceCents : Z }.

(** CatalogClient: a response without a product is [None]. *)
Class CatalogClient `{U : UuidLib} (E : Type) := {
  cl_GetProduct : string -> M E (option CatalogProduct)
}.

Section Usecase.
Context `{U : UuidLib} {E : Type}.
Context {IC : InventoryClient E} {PC : PaymentClient E} {CC : CatalogClient E}.
(** Whether a Redis client is configured. *)
Context (redis : bool).

(** ** helpers.go *)

(** [Publish] returns a command whose error is never looked at. *)
Definition publishOrderEvent (orderID status userID : string) : M (OrderSt E) unit :=
  if negb redis then ret tt
  else do* attempt (io (fun s => (inr tt, set_events (t_events s ++ [(orderID, status, userID)]) s))) in ret tt.

Definition json_item (i : OrderItem) : json :=
  JObj [("ID", JStr (uuid_String (it_ID i))); ("OrderID", JStr (uuid_String (it_OrderID i)));
        ("ProductID", JStr (uuid_String (it_ProductID i))); ("Quantity", JNum (it_Quantity i));
        ("Price", JNum (it_Price i))].

(** [json.Marshal(order)]: the exported field names, no tags. *)
Definition json_order (order : Order) : json :=
  JObj [("ID", JStr (uuid_String (o_ID order))); ("UserID", JStr (uuid_String (o_UserID order)));
        ("Items", JArr (json_item <$> o_Items order)); ("TotalAmount", JNum (o_TotalAmount order));
        ("Status", JStr (status_string (o_Status order))); ("CreatedAt", JTime (o_CreatedAt order));
        ("UpdatedAt", JTime (o_UpdatedAt order))].

Definition outboxEventFromOrder (order : Order) : M (OrderSt E) OutboxEvent :=
  let* id := new_uuid in
  ret (MkEvent id "order" (uuid_String (o_ID order)) "OrderCreated" (json_order order)
         (o_CreatedAt order) None 0 None time_zero).

(** ** usecase.go *)

(** [total += item.Price * int64(item.Quantity)], in 64-bit arithmetic. *)
Definition order_total (items : list OrderItem) : Z :=
  foldl (fun total item => int64 (total + int64 (it_Price item * int64 (it_Quantity item)))) 0 items.

Fixpoint check_prices (items : list OrderItem) : M (OrderSt E) unit :=
  match items with
  | [] => ret tt
  | item :: items' =>
      let pid := uuid_String (it_ProductID item) in
      let* resp := wrap_err (wrapf ("get product " +:+ pid)) (ext (cl_GetProduct pid)) in
      match resp with
      | Some product =>
          if negb (cp_PriceCents product =? it_Price item)
          then throw (wrapS ErrInvalidArgument ("price mismatch for product " +:+ pid))
          else check_prices items'
      | None => throw (wrapS ErrInvalidArgument ("price mismatch for product " +:+ pid))
      end
  end.

(** [order.Items[i].ID = uuid.New(); order.Items[i].OrderID = order.ID]. *)
Fixpoint assign_ids (orderID : UUID) (items : list OrderItem) : M (OrderSt E) (list OrderItem) :=
  match items with
  | [] => ret []
  | i :: items' =>
      let* id := new_uuid in
      let* rest := assign_ids orderID items' in
      ret (MkItem id orderID (it_ProductID i) (it_Quantity i) (it_Price i) :: rest)
  end.

Definition create_tx (order : Order) : M (OrderSt E) UUID :=
  do* wrap_err (wrapf "create order") (OrderRepo_Create order) in
  let* event := outboxEventFromOrder order in
  do* wrap_err (wrapf "create outbox event") (OutboxRepo_Create event) in
  ret (o_ID order).

(** The loop of ProcessOrder always returns ([ProcessOrder_terminates]). *)
Definition process_order (order : Order) (key : string) : M (OrderSt E) unit :=
  do* ProcessOrder order key in ret tt.

(** The order that CreateOrder builds before it opens the transaction. *)
Definition build_order (userID : UUID) (items : list OrderItem) : M (OrderSt E) Order :=
  let* id := new_uuid in
  let* t1 := now in
  let* t2 := now in
  let* items' := assign_ids id items in
  ret (MkOrder id userID items' (order_total items) OrderStatusPending t1 t2).

Definition CreateOrder (userID : UUID) (items : list OrderItem) (key : string) : M (OrderSt E) UUID :=
  do* check_prices items in
  let* order := build_order userID items in
  let* createdID := Run (create_tx order) in
  do* publishOrderEvent (uuid_String (o_ID order)) (status_string (o_Status order)) (uuid_String (o_UserID order)) in
  do* wrap_err (wrapf "saga process order") (process_order order key) in
  ret createdID.

Definition GetOrder (id : UUID) : M (OrderSt E) Order := OrderRepo_GetByID id.

Definition ListOrders (grow : nat -> nat) (userID : UUID) (page pageSize : Z) : M (OrderSt E) (list Order * Z) :=
  OrderRepo_ListByUser grow userID page pageSize.

Definition uc_CancelOrder (id : UUID) : M (OrderSt E) unit :=
  let* order := wrap_err (wrapf "get order") (OrderRepo_GetByID id) in
  if bool_decide (o_Status order = OrderStatusCancelled) then
    throw (wrapS ErrInvalidArgument "order already cancelled")
  else if CancellableDirectly (o_Status order) then
    do* wrap_err (wrapf "update order status") (OrderRepo_UpdateStatus id OrderStatusCancelled) in
    publishOrderEvent (uuid_String (o_ID order)) (status_string OrderStatusCancelled) (uuid_String (o_UserID order))
  else if bool_decide (o_Status order = OrderStatusPaid) || bool_decide (o_Status order = OrderStatusProcessing)
          || bool_decide (o_Status order = OrderStatusShipped) then
    do* wrap_err (wrapf "cancel order") (CancelOrder order) in
    publishOrderEvent (uuid_String (o_ID order)) (status_string OrderStatusCancelled) (uuid_String (o_UserID order))
  else
    throw (wrapS ErrFailedPrecondition ("order with status " +:+ status_string (o_Status order) +:+ " cannot be cancelled")).

Definition uc_UpdateOrderStatus (id : UUID) (status : OrderStatus) : M (OrderSt E) unit :=
  let* order := wrap_err (wrapf "get order") (OrderRepo_GetByID id) in
  match ValidateTransition (o_Status order) status with
  | Some err => throw (wrapS ErrInvalidArgument (Error err))
  | None =>
      do* wrap_err (wrapf "update order status") (OrderRepo_UpdateStatus id status) in
      publishOrderEvent (uuid_String (o_ID order)) (status_string status) (uuid_String (o_UserID order))
  end.

(** ** delivery/grpc/handler.go *)

Record ItemRequest := MkItemRequest { iq_ProductId : string; iq_Quantity : Z; iq_PriceCents : Z }.

Fixpoint parse_items (items : list ItemRequest) : error + list OrderItem :=
  match items with
  | [] => inr []
  | i :: items' =>
      match uuid_Parse (iq_ProductId i) with
      | None => inl (EStatus InvalidArgument "invalid product_id")
      | Some pid =>
          match parse_items items' with
          | inl e => inl e
          | inr l => inr (MkItem uuid_Nil uuid_Nil pid (iq_Quantity i) (iq_PriceCents i) :: l)
          end
      end
  end.

Definition lift {A} (r : error + A) : M (OrderSt E) A := match r with inl e => throw e | inr a => ret a end.

Definition create_err (err : error) : error :=
  if Is err ErrInvalidArgument then EStatus InvalidArgument (Error err) else ToStatus err.

(** The response: the id and ORDER_STATUS_PENDING. *)
Definition handler_CreateOrder (ctx : Ctx) (items : list ItemRequest) (key : string) : M (OrderSt E) (string * Z) :=
  match GetUserID ctx with
  | None => throw (EStatus Unauthenticated "missing user_id in context")
  | Some authUserID =>
      match uuid_Parse authUserID with
      | None => throw (EStatus Internal ("invalid user_id in token: " +:+ uuid_error authUserID))
      | Some userID =>
          let* items := lift (parse_items items) in
          let* orderID := wrap_err create_err (CreateOrder userID items key) in
          ret (uuid_String orderID, domainStatusToProto OrderStatusPending)
      end
  end.

Record ItemProto := MkItemProto { ip_ProductId : string; ip_Quantity : Z; ip_PriceCents : Z }.

Record OrderProto := MkOrderProto {
  op_OrderId : string; op_UserId : string; op_Items : list ItemProto; op_TotalAmountCents : Z;
  op_Status : Z; op_CreatedAt : Z; op_UpdatedAt : Z
}.

(** Timestamps are kept as instants; their RFC 3339 text is not modelled. *)
Definition mapOrderToProto (order : Order) : OrderProto :=
  MkOrderProto (uuid_String (o_ID order)) (uuid_String (o_UserID order))
    ((fun i => MkItemProto (uuid_String (it_ProductID i)) (int32 (it_Quantity i)) (it_Price i)) <$> o_Items order)
    (o_TotalAmount order) (domainStatusToProto (o_Status order)) (o_CreatedAt order) (o_UpdatedAt order).

Definition get_err (err : error) : error :=
  if Is err ErrNotFound then EStatus NotFound (Error err) else EStatus Internal ("get order: " +:+ Error err).

(** [role, _ := middleware.GetRole(ctx)]: the flag is dropped. *)
Definition role_is (ctx : Ctx) (r : Role) : bool := bool_decide (fst (GetRole ctx) = r).

(** The owner check of GetOrder and CancelOrder. *)
Definition owned (ctx : Ctx) (authUserID : string) (order : Order) : bool :=
  bool_decide (uuid_String (o_UserID order) = authUserID) || role_is ctx RoleAdmin.

Definition handler_GetOrder (ctx : Ctx) (order_id : string) : M (OrderSt E) OrderProto :=
  match GetUserID ctx with
  | None => throw (EStatus Unauthenticated "missing user_id in context")
  | Some authUserID =>
      match uuid_Parse order_id with
      | None => throw (EStatus InvalidArgument "invalid order_id")
      | Some orderID =>
          let* order := wrap_err get_err (GetOrder orderID) in
          if negb (owned ctx authUserID order) then throw (EStatus PermissionDenied "order does not belong to user")
          else ret (mapOrderToProto order)
      end
  end.

Definition handler_ListOrders (grow : nat -> nat) (ctx : Ctx) (page pageSize : Z) : M (OrderSt E) (list OrderProto * Z) :=
  match GetUserID ctx with
  | None => throw (EStatus Unauthenticated "missing user_id in context")
  | Some authUserID =>
      match uuid_Parse authUserID with
      | None => throw (EStatus Internal ("invalid user_id in token: " +:+ uuid_error authUserID))
      | Some userID =>
          let* r := wrap_err ToStatus (ListOrders grow userID page pageSize) in
          ret (mapOrderToProto <$> fst r, int32 (snd r))
      end
  end.

(** The error mapping of CancelOrder and UpdateOrderStatus. *)
Definition change_err (what : string) (err : error) : error :=
  if Is err ErrInvalidArgument then EStatus InvalidArgument (Error err)
  else if Is err ErrFailedPrecondition then EStatus FailedPrecondition (Error err)
  else EStatus Internal (what +:+ Error err).

Definition handler_CancelOrder (ctx : Ctx) (order_id : string) : M (OrderSt E) bool :=
  match GetUserID ctx with
  | None => throw (EStatus Unauthenticated "missing user_id in context")
  | Some authUserID =>
      match uuid_Parse order_id with
      | None => throw (EStatus InvalidArgument "invalid order_id")
      | Some orderID =>
          let* order := wrap_err get_err (GetOrder orderID) in
          if negb (owned ctx authUserID order) then throw (EStatus PermissionDenied "order does not belong to user")
          else do* wrap_err (change_err "cancel order: ") (uc_CancelOrder orderID) in ret true
      end
  end.

Definition handler_UpdateOrderStatus (ctx : Ctx) (order_id : string) (status : Z) : M (OrderSt E) (string * Z) :=
  match GetUserID ctx with
  | None => throw (EStatus Unauthenticated "missing user_id in context")
  | Some _ =>
      if negb (role_is ctx RoleAdmin) && negb (role_is ctx RoleService) then
        throw (EStatus PermissionDenied "only admin or service can update order status")
      else match uuid_Parse order_id with
      | None => throw (EStatus InvalidArgument "invalid order_id")
      | Some orderID =>
          do* wrap_err (change_err "update order status: ")
                (uc_UpdateOrderStatus orderID (protoStatusToDomain status)) in
          ret (order_id, status)
      end
  end.
End Usecase.
