(* ===== verification/SagaRuns.v ===== *)
(** * order-service: concrete saga runs

    An in-memory inventory and payment service that satisfy [SagaClientLaws] and
    [SagaCalmLaws], the witnesses of the saga theorems over it, and runs that
    exhibit what recovery does. *)
From S2P Require Import Prelude Errors Effects Auth OrderDomain OrderRepo Saga SagaFacts OrderService.

(** ** In-memory services *)

Record toy := MkToy { toy_holds : list (string * string * Z); toy_charges : list (string * string * Z) }.

Definition toy_Reserve (p : string) (q : Z) (oid : string) : toy -> (error + unit) * toy :=
  fun e => if bool_decide ((oid, p, q) ∈ toy_holds e) then (inr tt, e)
           else if 10 <? q then (inl (ESentinel ErrInsufficientStock), e)
           else (inr tt, MkToy ((oid, p, q) :: toy_holds e) (toy_charges e)).

Definition toy_Release (p oid : string) : toy -> (error + unit) * toy :=
  fun e => (inr tt, MkToy (filter (fun h => (h.1.1, h.1.2) ≠ (oid, p)) (toy_holds e)) (toy_charges e)).

Definition toy_Pay (oid : string) (a : Z) : toy -> (error + string) * toy :=
  fun e => (inr "pay-1", MkToy (toy_holds e) ((oid, "pay-1", a) :: toy_charges e)).

Definition toy_Refund (pid : string) : toy -> (error + unit) * toy :=
  fun e => (inr tt, MkToy (toy_holds e) (filter (fun c => c.1.2 ≠ pid) (toy_charges e))).

Section Toy.
Context `{U : UuidLib}.

#[global] Instance toy_inventory : InventoryClient toy := {|
  cl_Reserve p q oid _ := io (toy_Reserve p q oid);
  cl_Release p _ oid _ := io (toy_Release p oid)
|}.

#[global] Instance toy_payment : PaymentClient toy := {|
  cl_ProcessPayment oid a _ := io (toy_Pay oid a);
  cl_Refund pid _ := io (toy_Refund pid)
|}.

#[global] Instance toy_catalog : CatalogClient toy := {|
  cl_GetProduct _ := ret (Some (MkCatalogProduct 100))
|}.

#[global] Program Instance toy_laws : SagaClientLaws toy := {|
  holds_at e oid p q := (uuid_String oid, uuid_String p, q) ∈ toy_holds e;
  payment_at e oid pid := exists a, (uuid_String oid, pid, a) ∈ toy_charges e
|}.
Next Obligation.
  intros p q oid k o w u w' H. apply io_ok in H. unfold toy_Reserve in H.
  case_bool_decide; [by injection H as _ <-|]. destruct (10 <? q); simplify_eq.
  destruct (w_st w'); simplify_eq/=. set_solver.
Qed.
Next Obligation.
  intros oid' p' q' p q oid k. apply pres_io. intros s Hs. unfold toy_Reserve.
  case_bool_decide; [done|]. destruct (10 <? q); set_solver.
Qed.
Next Obligation. intros oid' p' q' oid a k. by apply pres_io. Qed.
Next Obligation.
  intros oid a k o w pid w' H. apply io_ok in H. unfold toy_Pay in H. simplify_eq.
  destruct (w_st w'); simplify_eq/=. exists a. set_solver.
Qed.

#[global] Program Instance toy_calm `{HL : !UuidLaws} : SagaCalmLaws toy := {| calm_inv _ := True |}.
Next Obligation.
  intros HL p q oid k o w r w' Ho _ H. split; [done|]. cbn in H. rewrite (io_no_faults _ _ _ Ho) in H.
  unfold toy_Reserve in H. intros oid' p' q'.
  case_bool_decide; [simplify_eq/=; intros Hh; by left|]. destruct (10 <? q); simplify_eq/=.
  - intros Hh. by left.
  - intros [Heq|?]%elem_of_cons; [|by left]. injection Heq as Ho' Hp' ->.
    apply uuid_String_inj in Ho', Hp'. by right.
Qed.
Next Obligation.
  intros HL p q oid k o w r w' Ho _ H. split; [done|]. cbn in H. rewrite (io_no_faults _ _ _ Ho) in H.
  simplify_eq/=. split.
  - intros oid' p' q' [_ Hh]%list_elem_of_filter. done.
  - intros pu ou -> -> _ q' [Hn _]%list_elem_of_filter. done.
Qed.
Next Obligation.
  intros HL oid a k o w r w' Ho _ H. split; [done|]. cbn in H. rewrite (io_no_faults _ _ _ Ho) in H.
  by simplify_eq/=.
Qed.
End Toy.

(** ** A two-item order

    The request lists product [pA] before [pB]; the random item ids sort the
    other way. *)

#[local] Existing Instance uuid_text.
#[local] Existing Instance uuid_text_laws.

Definition ord_id : UUID := uuid_sample 0.
Definition usr_id : UUID := uuid_sample 1.
Definition pA : UUID := uuid_sample 2.
Definition pB : UUID := uuid_sample 3.

Definition two_items : list OrderItem :=
  [MkItem (uuid_sample 5) ord_id pA 2 100; MkItem (uuid_sample 4) ord_id pB 1 100].

Definition ord : Order := MkOrder ord_id usr_id two_items 300 OrderStatusPending 0 0.

Definition ord_st : OrderSt toy :=
  MkOrderSt {[ ord_id := order_row ord ]} two_items ∅ (MkOutbox [] ∅) [] (MkToy [] []).

(** The environment in which the reply of tick [n] is lost. *)
Definition lost_at (n : nat) : oracle :=
  Oracle (fun k => if Nat.eqb k n then FAfter (EPlain "context deadline exceeded") else FNone)
    (fun _ => 0) uuid_sample (fun _ => None) (fun _ => true).

Definition saga_status (s : OrderSt toy) : option SagaStatus := sr_Status <$> t_sagas s !! ord_id.
Definition order_status (s : OrderSt toy) : option OrderStatus := or_Status <$> t_orders s !! ord_id.
Definition held_units (s : OrderSt toy) (p : UUID) : Z :=
  list_sumZ snd (filter (fun h => h.1.2 = uuid_String p) (toy_holds (t_ext s))).

(** A calm run confirms the order. *)
Example calm_run :
  let s := w_st (snd (ProcessOrder ord "key" calm (World 0 ord_st))) in
  (bool_decide (saga_status s = Some SagaStatusConfirmed) && bool_decide (order_status s = Some OrderStatusPaid)
   && (held_units s pA =? 2) && (held_units s pB =? 1)) = true.
Proof. vm_compute. reflexivity. Qed.

Lemma ProcessOrder_all_or_nothing_witness :
  let '(r, w') := ProcessOrder ord "key" calm (World 0 ord_st) in
  r = inr (inr tt) /\ (confirmed_paid ord (w_st w') \/ cancelled_clean ord (w_st w')).
Proof.
  apply (ProcessOrder_all_or_nothing ord "key" calm (World 0 ord_st)).
  - exact calm_no_faults.
  - exact I.
  - by exists (order_row ord).
  - reflexivity.
  - intros p q Hh. by apply not_elem_of_nil in Hh.
Defined.

(** ** What recovery does *)

(** The reply to the save after the first reservation is lost; then the recovery
    worker runs in a calm environment. *)
Definition crash_after_first : world (OrderSt toy) := snd (ProcessOrder ord "key" (lost_at 13) (World 0 ord_st)).

Definition recovered (w : world (OrderSt toy)) : OrderSt toy := w_st (snd (Recover calm w)).

(** Recovery can confirm and charge an order one of whose products was never
    reserved: ReservedItems is a prefix of the items in request order, but the
    recovered order lists its items in the order of their random ids, so the
    next index names an item that is already reserved and another is skipped. *)
Theorem recovery_skips_item :
  saga_status (w_st crash_after_first) = Some SagaStatusReserving /\
  saga_status (recovered crash_after_first) = Some SagaStatusConfirmed /\
  order_status (recovered crash_after_first) = Some OrderStatusPaid /\
  held_units (recovered crash_after_first) pA = 2 /\ held_units (recovered crash_after_first) pB = 0 /\
  toy_charges (t_ext (recovered crash_after_first)) = [(uuid_String ord_id, "pay-1", 300)].
Proof. vm_compute. done. Qed.

(** The same order, cancelled by its owner while the saga waits for recovery. *)
Definition cancelled_meanwhile : world (OrderSt toy) :=
  snd (uc_CancelOrder false ord_id calm crash_after_first).

(** Recovery revives an order that its owner has cancelled: CancelOrder on an
    awaiting_payment order only sets its status, the saga goes on, charges the
    order and sets it to paid, a change that the status machine forbids. *)
Theorem recovery_charges_cancelled_order :
  order_status (w_st cancelled_meanwhile) = Some OrderStatusCancelled /\
  order_status (recovered cancelled_meanwhile) = Some OrderStatusPaid /\
  toy_charges (t_ext (recovered cancelled_meanwhile)) = [(uuid_String ord_id, "pay-1", 300)] /\
  CanTransition OrderStatusCancelled OrderStatusPaid = false.
Proof. vm_compute. done. Qed.

Definition stuck_row : SagaRow :=
  MkSagaRow (uuid_sample 5) SagaStatusCompensating "compensate_inventory" "context deadline exceeded" ""
    (Some (marshalReservedItems [reserved_item (MkItem (uuid_sample 5) ord_id pA 2 100)])) 0 0.

Definition stuck_st : OrderSt toy :=
  MkOrderSt (t_orders ord_st) two_items {[ ord_id := stuck_row ]} (MkOutbox [] ∅) []
    (MkToy [(uuid_String ord_id, uuid_String pA, 2)] []).

Lemma compensating_saga_is_stuck_witness :
  saga_of_row (o_ID ord) stuck_row ∈ incomplete_sagas stuck_st /\
  w_st (snd (ProcessOrder ord "recovery" calm (World 0 stuck_st))) = stuck_st.
Proof. apply (compensating_saga_is_stuck ord "recovery" calm (World 0 stuck_st) stuck_row); reflexivity. Defined.
