(* ===== verification/SagaRaces.v ===== *)
(** * order-service: sagas of one order side by side

    A request runs ProcessOrder while the recovery workers of other instances list
    the same incomplete saga and run it too: ListIncomplete does not ask how old a
    saga is.  Here ProcessOrder is cut into the pieces between which another
    instance can act, one statement or call each; a whole compensation is one piece.
    The pieces run one after the other are ProcessOrder. *)
From S2P Require Import Prelude Errors Effects Auth OrderDomain OrderRepo Saga SagaFacts SagaFrame OrderService SagaRuns.

Section Races.
Context `{U : UuidLib} {E : Type} `{IC : !InventoryClient E} `{PC : !PaymentClient E}.
Implicit Types (o : oracle) (w : world (OrderSt E)).

(** ** The pieces of ProcessOrder *)

Inductive spc :=
| SBegin
| SCreate
| SLoop (saga : Saga)
| SExec (st : Step) (saga : Saga) (attempts : nat)
| SSave (saga : Saga)
| SFail (st : Step) (saga : Saga) (err : error)
| SComp (plan : list Step) (saga : Saga)
| SCancelOrder (saga : Saga)
| SCancelSaga (saga : Saga)
| SDone (res : error + unit).

Definition enter (saga : Saga) : spc := if isTerminal saga then SDone (inr tt) else SLoop saga.

(** What follows a save whose error ends ProcessOrder. *)
Definition saved (sr : Saga * (error + unit)) (k : Saga -> spc) : spc :=
  match snd sr with inl e => SDone (inl e) | inr _ => k (fst sr) end.

Definition piece (order : Order) (key : string) (p : spc) : M (OrderSt E) spc :=
  match p with
  | SBegin =>
      let* r := attempt (SagaRepo_GetByOrderID (o_ID order)) in
      match r with
      | inr saga => ret (enter saga)
      | inl err => ret (if negb (Is err ErrNotFound) then SDone (inl (wrapf "get saga" err)) else SCreate)
      end
  | SCreate =>
      let* id := new_uuid in
      let* t1 := now in
      let* t2 := now in
      let saga := MkSaga id (o_ID order) SagaStatusPending "" "" "" [] t1 t2 in
      let* r := attempt (wrap_err (wrapf "create saga") (SagaRepo_Create saga)) in
      ret (match r with inl e => SDone (inl e) | inr _ => enter saga end)
  | SLoop saga =>
      match nextStep saga with
      | None => ret (SDone (inr tt))
      | Some st =>
          match Prepare st saga with
          | None => ret (SExec st saga maxRetries)
          | Some saga' => let* sr := persistSaga saga' in ret (saved sr (fun sg => SExec st sg maxRetries))
          end
      end
  | SExec st saga n =>
      let* r := attempt (Execute st saga order key) in
      match r, n with
      | inr saga', _ => ret (SSave saga')
      | inl err, S (S n') =>
          let* d := ctx_done in
          ret (match d with Some e => SFail st saga e | None => SExec st saga (S n') end)
      | inl err, _ => ret (SFail st saga err)
      end
  | SSave saga => let* sr := persistSaga saga in ret (saved sr SLoop)
  | SFail st saga err =>
      if bool_decide (s_Status saga = SagaStatusPending) then
        do* saveSaga saga SagaStatusFailed (Name st) (Error err) in
        ret (SDone (inl (wrapf "start step failed" err)))
      else
        let plan := compensationPlan st in
        let* sr := saveSaga saga SagaStatusCompensating ("compensate_" +:+ joinStepNames plan) (Error err) in
        ret (SComp plan (fst sr))
  | SComp [] saga => ret (SCancelOrder saga)
  | SComp (st :: plan) saga =>
      do* attempt (compensateWithRetry st saga order key) in ret (SComp plan saga)
  | SCancelOrder saga =>
      do* attempt (OrderRepo_UpdateStatus (o_ID order) OrderStatusCancelled) in ret (SCancelSaga saga)
  | SCancelSaga saga =>
      do* saveSaga saga SagaStatusCancelled "cancelled" "" in ret (SDone (inr tt))
  | SDone res => ret (SDone res)
  end.

(** [pieces o p w q w']: one instance alone goes from [p] to [q]. *)
Inductive pieces (order : Order) (key : string) (o : oracle) : spc -> world (OrderSt E) -> spc -> world (OrderSt E) -> Prop :=
| pieces_refl p w : pieces order key o p w p w
| pieces_next p w p1 w1 q w' :
    piece order key p o w = (inr p1, w1) -> pieces order key o p1 w1 q w' -> pieces order key o p w q w'.

(** ** The pieces make up ProcessOrder *)

Section Alone.
Context (order : Order) (key : string) (o : oracle).

Lemma pieces_trans p w q w1 r w' : pieces order key o p w q w1 -> pieces order key o q w1 r w' -> pieces order key o p w r w'.
Proof. induction 1; [done|]. intros. eapply pieces_next; eauto. Qed.

Lemma pieces_one p w q w' : piece order key p o w = (inr q, w') -> pieces order key o p w q w'.
Proof. intros Hp. eapply pieces_next; [exact Hp|apply pieces_refl]. Qed.

(** What the caller sees of a result: the loop did not run out of fuel. *)
Definition shown_result (r : error + (unit + unit)) : error + unit := match r with inl e => inl e | inr _ => inr tt end.

Lemma retry_again_pieces n st saga lastErr w r w' :
  retry_again n lastErr (Execute st saga order key) o w = (r, w') ->
  (n = 0%nat /\ r = inl lastErr /\ w' = w) \/
  exists n' w1, n = S n' /\ ctx_done o w = (inr (o_done o (w_tick w)), w1) /\
  match o_done o (w_tick w) with
  | Some e => r = inl e /\ w' = w1
  | None => pieces order key o (SExec st saga n) w1 (match r with inr sg => SSave sg | inl e => SFail st saga e end) w'
  end.
Proof.
  revert lastErr w. induction n as [|n IH]; intros lastErr w; simpl; [intros [= <- <-]; by left|]. intros H. right.
  exists n, (next w). split; [done|]. split; [done|]. unfold bind, ctx_done in H.
  destruct (o_done o (w_tick w)) as [e|]; [by injection H as <- <-|]. unfold attempt in H.
  destruct (Execute st saga order key o (next w)) as [[e|sg] w1] eqn:Hx.
  - apply IH in H as [(-> & -> & ->)|(n' & w2 & -> & Hd & H)].
    + apply pieces_one. simpl. unfold bind, attempt, ret. by rewrite Hx.
    + eapply (pieces_next _ _ _ _ _ (match o_done o (w_tick w1) with Some e' => SFail st saga e' | None => SExec st saga (S n') end)).
      { simpl. unfold bind, attempt, ret. rewrite Hx, Hd. reflexivity. }
      destruct (o_done o (w_tick w1)); [|exact H]. destruct H as [-> ->]. apply pieces_refl.
  - injection H as <- <-. apply pieces_one. simpl. unfold bind, attempt, ret. by rewrite Hx.
Qed.

Lemma execute_pieces st saga w r w' :
  executeWithRetry st saga order key o w = (r, w') ->
  pieces order key o (SExec st saga maxRetries) w (match r with inr sg => SSave sg | inl e => SFail st saga e end) w'.
Proof.
  unfold executeWithRetry, retry, bind at 1, attempt. destruct (Execute st saga order key o w) as [[e|sg] w1] eqn:Hx.
  - intros [(? & _)|(n' & w2 & Hn & Hd & H)]%retry_again_pieces; [done|]. injection Hn as <-.
    eapply (pieces_next _ _ _ _ _ (match o_done o (w_tick w1) with Some e' => SFail st saga e' | None => SExec st saga 2 end)).
    { simpl. unfold bind, attempt, ret. rewrite Hx, Hd. reflexivity. }
    destruct (o_done o (w_tick w1)); [|exact H]. destruct H as [-> ->]. apply pieces_refl.
  - intros [= <- <-]. apply pieces_one. simpl. unfold bind, attempt, ret. by rewrite Hx.
Qed.

Lemma persistSaga_total saga w : exists sr w', persistSaga saga o w = (inr sr, w').
Proof.
  unfold persistSaga, bind, now, attempt, ret. destruct (SagaRepo_Save _ o (next w)) as [r w']. by eexists _, _.
Qed.

Lemma comp_pieces plan saga w :
  exists w', compensate_plan plan saga order key o w = (inr tt, w') /\ pieces order key o (SComp plan saga) w (SCancelOrder saga) w'.
Proof.
  revert w. induction plan as [|st plan IH]; intros w; simpl; [exists w; split; [done|by apply pieces_one]|].
  unfold bind, attempt. destruct (compensateWithRetry st saga order key o w) as [r w1] eqn:Hc.
  destruct (IH w1) as (w' & -> & Hrun). exists w'. split; [done|]. eapply pieces_next; [|exact Hrun].
  simpl. unfold bind, attempt, ret. by rewrite Hc.
Qed.

Lemma fail_pieces st saga err w r w' :
  handleStepFailure saga order st key err o w = (r, w') -> pieces order key o (SFail st saga err) w (SDone r) w'.
Proof.
  unfold handleStepFailure. destruct (bool_decide (s_Status saga = SagaStatusPending)) eqn:Hp.
  - unfold bind at 1. destruct (persistSaga_total (with_error (Error err) (with_status SagaStatusFailed (Name st) saga)) w) as (sr & w1 & Hs).
    unfold saveSaga. rewrite Hs. intros [= <- <-]. apply pieces_one. simpl. rewrite Hp. unfold bind, saveSaga, ret. by rewrite Hs.
  - unfold bind at 1. set (plan := compensationPlan st).
    destruct (persistSaga_total (with_error (Error err) (with_status SagaStatusCompensating ("compensate_" +:+ joinStepNames plan) saga)) w)
      as (sr & w1 & Hs).
    unfold saveSaga at 1. rewrite Hs. destruct (comp_pieces plan (fst sr) w1) as (w2 & Hc & Hrun).
    unfold bind at 1. rewrite Hc. unfold bind at 1, attempt. destruct (OrderRepo_UpdateStatus _ _ o w2) as [r3 w3] eqn:H3.
    unfold bind at 1. destruct (persistSaga_total (with_error "" (with_status SagaStatusCancelled "cancelled" (fst sr))) w3) as (sr4 & w4 & H4).
    unfold saveSaga. rewrite H4. intros [= <- <-]. eapply pieces_next.
    { simpl. rewrite Hp. unfold bind, saveSaga, ret. fold plan. rewrite Hs. reflexivity. }
    eapply pieces_trans; [exact Hrun|]. eapply pieces_next; [|apply pieces_one].
    + simpl. unfold bind, attempt, ret. by rewrite H3.
    + simpl. unfold bind, saveSaga, ret. by rewrite H4.
Qed.

Lemma step_pieces st saga w r w' :
  nextStep saga = Some st -> process_step st saga order key o w = (r, w') ->
  pieces order key o (SLoop saga) w
    (match r with inl e => SDone (inl e) | inr None => SDone (inr tt) | inr (Some sg) => SLoop sg end) w'.
Proof.
  intros Hn. unfold process_step.
  assert (Hexec : forall sg w1, (let* r := attempt (executeWithRetry st sg order key) in
      match r with
      | inl err => do* handleStepFailure sg order st key err in ret None
      | inr saga' => let* sr := persistSaga saga' in match snd sr with inl e => throw e | inr _ => ret (Some (fst sr)) end
      end) o w1 = (r, w') ->
    pieces order key o (SExec st sg maxRetries) w1
      (match r with inl e => SDone (inl e) | inr None => SDone (inr tt) | inr (Some sg') => SLoop sg' end) w').
  { intros sg w1. unfold bind at 1, attempt. destruct (executeWithRetry st sg order key o w1) as [r1 w2] eqn:H1.
    apply execute_pieces in H1. intros H. eapply pieces_trans; [exact H1|]. destruct r1 as [err|sg'].
    - unfold bind in H. destruct (handleStepFailure sg order st key err o w2) as [r3 w3] eqn:H3. apply fail_pieces in H3.
      destruct r3 as [e|[]]; unfold ret in H; by simplify_eq.
    - unfold bind in H. destruct (persistSaga_total sg' w2) as ([sg2 r2] & w3 & H3). rewrite H3 in H. apply pieces_one.
      simpl. unfold bind, ret. rewrite H3. unfold saved. simpl in *. destruct r2 as [e|u]; unfold throw, ret in H; by simplify_eq. }
  unfold bind at 1. destruct (Prepare st saga) as [saga'|] eqn:Hp.
  - unfold bind at 1. destruct (persistSaga_total saga' w) as ([sg1 r1] & w1 & H1). rewrite H1. intros H.
    eapply (pieces_next _ _ _ _ _ (saved (sg1, r1) (fun sg => SExec st sg maxRetries))).
    { simpl. rewrite Hn, Hp. unfold bind, ret. by rewrite H1. }
    unfold saved. simpl in *. destruct r1 as [e|u]; unfold throw, ret in H; [simplify_eq; apply pieces_refl|by apply Hexec].
  - unfold ret at 1. intros H. eapply pieces_next; [|by apply Hexec]. simpl. by rewrite Hn, Hp.
Qed.

Lemma loop_pieces fuel saga w r w' :
  process_loop fuel saga order key o w = (r, w') -> r ≠ inr (inl tt) ->
  pieces order key o (SLoop saga) w (SDone (shown_result r)) w'.
Proof.
  revert saga w. induction fuel as [|fuel IH]; intros saga w; simpl; [by intros [= <- _]|].
  destruct (nextStep saga) as [st|] eqn:Hn.
  - unfold bind. destruct (process_step st saga order key o w) as [[e|[sg|]] w1] eqn:H1; apply (step_pieces _ _ _ _ _ Hn) in H1; intros H Hr.
    + injection H as <- <-. exact H1.
    + eapply pieces_trans; [exact H1|by apply IH].
    + unfold ret in H. injection H as <- <-. exact H1.
  - intros [= <- <-] _. apply pieces_one. simpl. by rewrite Hn.
Qed.

Lemma ProcessOrder_pieces w r w' :
  ProcessOrder order key o w = (r, w') -> pieces order key o SBegin w (SDone (shown_result r)) w'.
Proof.
  intros H. assert (Hr : r ≠ inr (inl tt)) by (intros ->; by apply ProcessOrder_fuel in H).
  assert (Henter : forall saga w1, (if isTerminal saga then ret (inr tt) else process_loop (saga_fuel order) saga order key) o w1 = (r, w') ->
    pieces order key o (enter saga) w1 (SDone (shown_result r)) w').
  { intros saga w1. unfold enter. destruct (isTerminal saga); [intros [= <- <-]; apply pieces_refl|]. intros Hl. by eapply loop_pieces. }
  unfold ProcessOrder, get_or_create_saga in H. unfold bind at 1 2, attempt in H.
  destruct (SagaRepo_GetByOrderID (o_ID order) o w) as [[err|saga] w1] eqn:Hg.
  - destruct (Is err ErrNotFound) eqn:Hnf; simpl in H.
    + eapply pieces_next; [simpl; unfold bind, attempt, ret; rewrite Hg, Hnf; reflexivity|]. unfold bind at 1 2 3, new_uuid, now in H.
      unfold bind at 1 in H. destruct (wrap_err _ _ o _) as [[e|u] w2] eqn:Hc; simpl in H.
      * injection H as <- <-. apply pieces_one. simpl. unfold bind, new_uuid, now, attempt, ret. by rewrite Hc.
      * eapply pieces_next; [simpl; unfold bind, new_uuid, now, attempt, ret; rewrite Hc; reflexivity|]. by apply Henter.
    + injection H as <- <-. apply pieces_one. simpl. unfold bind, attempt, ret. by rewrite Hg, Hnf.
  - eapply pieces_next; [simpl; unfold bind, attempt, ret; rewrite Hg; reflexivity|]. by apply Henter.
Qed.
End Alone.

(** C27. The pieces, run by one instance alone, are ProcessOrder: they end with its
    result in its final state. *)
Theorem ProcessOrder_is_its_pieces order key o w :
  pieces order key o SBegin w (SDone (shown_result (fst (ProcessOrder order key o w)))) (snd (ProcessOrder order key o w)).
Proof. apply ProcessOrder_pieces. by destruct (ProcessOrder order key o w). Qed.

(** ** Several instances *)

(** The order as GetByID reads it: its items come in the order of their ids. *)
Definition stored_order (id : UUID) (s : OrderSt E) : option Order :=
  row ← t_orders s !! id;
  Some (MkOrder id (or_UserID row) (merge_sort item_le (items_of id s)) (or_TotalAmount row)
          (or_Status row) (or_CreatedAt row) (or_UpdatedAt row)).

(** Instances of order-service that process one order: their tables, and for each
    instance its key, the value of the order that it works with, and its piece. *)
Record crowd := MkCrowd { cr_st : OrderSt E; cr_ths : list (string * Order * spc) }.

Definition compensates (p : spc) : bool := match p with SComp (_ :: _) _ => true | _ => false end.

(** A request starts with the order it has built; a recovery pass reads the order from
    the database and starts with what it has read; an instance runs its next piece; or a
    request sets the status of the order.  The flag is false when the piece compensates.
    An instance that stops for good just takes no more steps. *)
Inductive race_step (order : Order) : bool -> crowd -> crowd -> Prop :=
| rc_request s ths key : race_step order true (MkCrowd s ths) (MkCrowd s (ths ++ [(key, order, SBegin)]))
| rc_recover s ths o n order' w' :
    OrderRepo_GetByID (o_ID order) o (World n s) = (inr order', w') ->
    race_step order true (MkCrowd s ths)
      (MkCrowd (w_st w') (ths ++ [(recoveryIdempotencyKey (uuid_String (o_ID order)), order', SBegin)]))
| rc_piece s ths i key mine p o n q w' :
    ths !! i = Some (key, mine, p) -> piece mine key p o (World n s) = (inr q, w') ->
    race_step order (negb (compensates p)) (MkCrowd s ths) (MkCrowd (w_st w') (<[i := (key, mine, q)]> ths))
| rc_status s ths st o n r w' :
    OrderRepo_UpdateStatus (o_ID order) st o (World n s) = (r, w') ->
    race_step order true (MkCrowd s ths) (MkCrowd (w_st w') ths).

Definition race_run (order : Order) (s s' : crowd) : Prop := rtc (fun a b => exists ok, race_step order ok a b) s s'.

(** ** When all instances see the same lines

    The id, the items in their order, and the total are all that ProcessOrder takes from
    an order.  When the repository returns the items in the order of the request, as it
    does for a single item, the requests and the recovery passes agree on them, and the
    machine behaves like one in which every instance has the same order. *)

Definition same_lines (order order' : Order) : Prop :=
  o_ID order' = o_ID order /\ o_Items order' = o_Items order /\ o_TotalAmount order' = o_TotalAmount order.

Definition reads_back (order : Order) (s : OrderSt E) : Prop :=
  exists order', stored_order (o_ID order) s = Some order' /\ same_lines order order'.

Record racing := MkRacing { ra_st : OrderSt E; ra_ths : list (string * spc) }.

Inductive same_step (order : Order) : bool -> racing -> racing -> Prop :=
| sm_join s ths key : same_step order true (MkRacing s ths) (MkRacing s (ths ++ [(key, SBegin)]))
| sm_piece s ths i key p o n q w' :
    ths !! i = Some (key, p) -> piece order key p o (World n s) = (inr q, w') ->
    same_step order (negb (compensates p)) (MkRacing s ths) (MkRacing (w_st w') (<[i := (key, q)]> ths))
| sm_status s ths st o n r w' :
    OrderRepo_UpdateStatus (o_ID order) st o (World n s) = (r, w') ->
    same_step order true (MkRacing s ths) (MkRacing (w_st w') ths).

Lemma piece_same order order' key p : same_lines order order' -> piece order' key p = piece order key p.
Proof.
  destruct order as [id u its tot st c t], order' as [id' u' its' tot' st' c' t']. unfold same_lines. simpl. intros (-> & -> & ->).
  destruct p as [| |saga|[] saga n|saga|st1 saga err|[|[] plan] saga|saga|saga|res]; reflexivity.
Qed.

Lemma frame_piece order I key p : framed order I -> pres I (piece order key p).
Proof.
  intros HI. pose proof (fun sg => frame_persist I sg (fr_sagas _ _ HI)) as Hsave.
  pose proof (fun id st => frame_UpdateStatus I id st (fr_status _ _ HI)) as Hup.
  pose proof (frame_Execute order I HI) as Hx. pose proof (frame_compensateWithRetry order I HI) as Hcomp.
  pose proof (fun sg => frame_Create I sg (fr_sagas _ _ HI)) as Hcreate.
  destruct p as [| |saga|st saga n|saga|st saga err|plan saga|saga|saga|res]; simpl; unfold SagaRepo_GetByOrderID, saveSaga;
    auto 20 with go_pres.
Qed.

(** The lines of the stored order are those of [s0]. *)
Definition lines_kept (id : UUID) (s0 s : OrderSt E) : Prop :=
  t_items s = t_items s0 /\ or_TotalAmount <$> t_orders s !! id = or_TotalAmount <$> t_orders s0 !! id.

Lemma lines_kept_status id s0 s id' row st t : lines_kept id s0 s -> t_orders s !! id' = Some row ->
  lines_kept id s0 (set_orders (<[id' := MkOrderRow (or_UserID row) (or_TotalAmount row) st (or_CreatedAt row) t]> (t_orders s)) s).
Proof.
  intros [Hi Ht] Hrow. split; [done|]. simpl. destruct (decide (id = id')) as [->|Hne]; [|by rewrite lookup_insert_ne].
  by rewrite lookup_insert_eq, <- Ht, Hrow.
Qed.

Lemma lines_kept_framed id s0 order : framed order (lines_kept id s0).
Proof. apply framed_tables; [done|done|]. intros s id' row st t. apply lines_kept_status. Qed.

Lemma stored_order_read id o n s order' w' :
  OrderRepo_GetByID (E:=E) id o (World n s) = (inr order', w') -> w_st w' = s /\ stored_order id s = Some order'.
Proof.
  intros [Hw Hr]%read_inv. split; [done|]. specialize (Hr _ eq_refl). simpl in Hr. unfold stored_order.
  destruct (t_orders s !! id); [|done]. by injection Hr as <-.
Qed.

Lemma kept_same_lines order s0 s order' :
  reads_back order s0 -> lines_kept (o_ID order) s0 s -> stored_order (o_ID order) s = Some order' -> same_lines order order'.
Proof.
  intros (ord0 & H0 & Hid & Hits & Htot) [Hi Ht] Hs. unfold stored_order, items_of in *. rewrite Hi in Hs.
  destruct (t_orders s0 !! o_ID order) as [row0|]; [|done]. destruct (t_orders s !! o_ID order) as [row|]; [|done].
  apply (inj Some) in Ht, Hs, H0. subst ord0 order'. simpl in *. split_and!; [done|done|]. by rewrite Ht.
Qed.

Definition forget (c : crowd) : racing := MkRacing (cr_st c) ((fun t => (t.1.1, t.2)) <$> cr_ths c).

(** The machine of the code is the machine with one order. *)
Lemma race_same order s0 c :
  reads_back order s0 -> rtc (race_step order true) (MkCrowd s0 []) c ->
  rtc (same_step order true) (MkRacing s0 []) (forget c) /\ lines_kept (o_ID order) s0 (cr_st c).
Proof.
  intros Hback Hrun.
  enough (rtc (same_step order true) (MkRacing s0 []) (forget c) /\ lines_kept (o_ID order) s0 (cr_st c) /\
    Forall (fun t => same_lines order t.1.2) (cr_ths c)) by naive_solver.
  revert c Hrun. apply rtc_ind_r; [split_and!; [apply rtc_refl|done|constructor]|].
  intros a b _ Hab (Hrun & Hkept & Hths). inversion Hab as [s ths key|s ths o n order' w' Hg|s ths i key mine p o n q w' Hi Hp Hc|s ths st o n r w' Hu]; subst; simpl in *.
  - split_and!; [|done|apply Forall_app; split; [done|by repeat constructor]].
    eapply rtc_r; [exact Hrun|]. unfold forget. simpl. rewrite fmap_app. apply sm_join.
  - apply stored_order_read in Hg as [Hw Hst]. rewrite Hw. split_and!; [|done|].
    + eapply rtc_r; [exact Hrun|]. unfold forget. simpl. rewrite fmap_app. apply sm_join.
    + apply Forall_app. split; [done|]. repeat constructor; by eapply (kept_same_lines order).
  - pose proof (proj1 (Forall_lookup _ _) Hths _ _ Hi) as Hsame. simpl in Hsame. rewrite (piece_same _ _ _ _ Hsame) in Hp.
    pose proof (frame_piece order _ key p (lines_kept_framed (o_ID order) s0 order) o (World n s) Hkept) as Hk. rewrite Hp in Hk.
    split_and!; [|done|by apply Forall_insert]. rewrite Hc. eapply rtc_r; [exact Hrun|]. unfold forget. simpl. rewrite list_fmap_insert. simpl. rewrite <- Hc.
    eapply sm_piece; [|exact Hp]. by rewrite list_lookup_fmap, Hi.
  - pose proof (frame_UpdateStatus (lines_kept (o_ID order) s0) (o_ID order) st ltac:(intros; by apply lines_kept_status) o (World n s) Hkept) as Hk.
    rewrite Hu in Hk. split_and!; [|done|done]. eapply rtc_r; [exact Hrun|]. by eapply sm_status.
Qed.

(** ** A confirmation is sound while nobody compensates *)

Context {L : SagaClientLaws E}.

(** What the saga relies on when several instances call: a payment stays recorded. *)
Class PaymentsStay : Prop := {
  Reserve_keeps_payment : forall oid' pid p q oid k, pres (fun e => payment_at e oid' pid) (cl_Reserve p q oid k);
  Pay_keeps_payment : forall oid' pid oid a k, pres (fun e => payment_at e oid' pid) (cl_ProcessPayment oid a k)
}.
Context {CS : PaymentsStay}.

Section Sound.
Context (order : Order).

(** What is promised of the order at [e] is still kept at [e']. *)
Definition keeps (e e' : E) : Prop :=
  (forall p q, holds_at e (o_ID order) p q -> holds_at e' (o_ID order) p q) /\
  (forall pid, payment_at e (o_ID order) pid -> payment_at e' (o_ID order) pid).

#[global] Instance keeps_refl : Reflexive keeps.
Proof. by intros e. Qed.

Lemma saga_ok_keeps e e' saga : keeps e e' -> saga_ok order e saga -> saga_ok order e' saga.
Proof.
  intros [Hh Hc]. assert (Hp : forall k l, reserved_prefix order e k l -> reserved_prefix order e' k l).
  { intros k l [Hl HF]. split; [done|]. eapply Forall_impl; [exact HF|]. intros item. apply Hh. }
  unfold saga_ok, all_reserved, paid_for. destruct (s_Status saga); try done; try apply Hp;
    intros [H1 H2]; (split; [by apply Hp|by apply Hc]).
Qed.

(** The saga an instance has in memory. *)
Definition fine (e : E) (saga : Saga) : Prop :=
  s_OrderID saga = o_ID order /\ in_range (s_ReservedItems saga) /\ saga_ok order e saga.

Definition ours (saga : Saga) : Prop := s_OrderID saga = o_ID order /\ in_range (s_ReservedItems saga).

Definition pc_fine (e : E) (p : spc) : Prop :=
  match p with
  | SBegin | SCreate | SDone _ => True
  | SLoop saga | SSave saga => fine e saga
  | SExec st saga _ => fine e saga /\ ready st saga
  | SFail _ saga _ | SComp _ saga | SCancelOrder saga | SCancelSaga saga => ours saga
  end.

Definition row_fine (s : OrderSt E) : Prop :=
  forall row, t_sagas s !! o_ID order = Some row -> saga_ok order (t_ext s) (saga_of_row (o_ID order) row).

Lemma pc_fine_keeps e e' p : keeps e e' -> pc_fine e p -> pc_fine e' p.
Proof.
  intros Hk. assert (Hf : forall saga, fine e saga -> fine e' saga).
  { intros saga (H1 & H2 & H3). split_and!; [done|done|by eapply saga_ok_keeps]. }
  destruct p; simpl; try done; try apply Hf. intros [H1 H2]. split; [by apply Hf|done].
Qed.

(** A save of a fine saga. *)
Lemma persistSaga_fine saga o w sr w' :
  fine (t_ext (w_st w)) saga -> row_fine (w_st w) -> persistSaga saga o w = (inr sr, w') ->
  row_fine (w_st w') /\ t_ext (w_st w') = t_ext (w_st w) /\ fine (t_ext (w_st w)) (fst sr) /\ s_Status (fst sr) = s_Status saga.
Proof.
  intros (Hid & Hr & Hok) Hrow. unfold persistSaga, SagaRepo_Save, bind, now, attempt, wrap_err, io, ret. simpl. rewrite Hid.
  set (sg := with_updated _ saga). destruct (t_sagas (w_st w) !! o_ID order) as [row|] eqn:Ht.
  2: { destruct (o_fault o _); simpl; intros [= <- <-]; by split_and!. }
  assert (Hnew : forall t, row_fine (set_sagas (<[o_ID order := save_row sg t row]> (t_sagas (w_st w))) (w_st w))).
  { intros t row'. simpl. rewrite lookup_insert_eq. intros [= <-]. unfold saga_of_row, save_row, saga_ok, paid_for. cbn [s_Status s_ReservedItems s_PaymentID sr_Status sr_ReservedItems sr_PaymentID].
    rewrite reserved_items_roundtrip_list by done. exact Hok. }
  destruct (o_fault o _); simpl; intros [= <- <-]; split_and!; try done; apply Hnew.
Qed.

Lemma ext_keeps {A} (m : M E A) o w r w' :
  (forall p q, pres (fun e => holds_at e (o_ID order) p q) m) -> (forall pid, pres (fun e => payment_at e (o_ID order) pid) m) ->
  ext m o w = (r, w') -> keeps (t_ext (w_st w)) (t_ext (w_st w')) /\ t_sagas (w_st w') = t_sagas (w_st w) /\
  exists w1 : world E, m o (World (w_tick w) (t_ext (w_st w))) = (r, w1) /\ t_ext (w_st w') = w_st w1.
Proof.
  intros Hh Hc (w1 & Hm & Hw')%ext_run. rewrite Hw'. simpl. split; [|split; [done|by exists w1]].
  split; [intros p q Hp; specialize (Hh p q o (World (w_tick w) (t_ext (w_st w))) Hp); by rewrite Hm in Hh|].
  intros pid Hp. specialize (Hc pid o (World (w_tick w) (t_ext (w_st w))) Hp). by rewrite Hm in Hc.
Qed.

Lemma UpdateStatus_ext id st o w r w' :
  OrderRepo_UpdateStatus (E:=E) id st o w = (r, w') -> t_ext (w_st w') = t_ext (w_st w) /\ t_sagas (w_st w') = t_sagas (w_st w).
Proof.
  unfold OrderRepo_UpdateStatus, bind, now, wrap_err, io. simpl.
  destruct (t_orders (w_st w) !! id) as [row|]; [destruct (valid_status st)|]; destruct (o_fault o _); simpl; by intros [= <- <-].
Qed.

Lemma Execute_fine st saga key o w r w' :
  fine (t_ext (w_st w)) saga -> ready st saga -> Execute st saga order key o w = (r, w') ->
  keeps (t_ext (w_st w)) (t_ext (w_st w')) /\ t_sagas (w_st w') = t_sagas (w_st w) /\
  (forall sg, r = inr sg -> fine (t_ext (w_st w')) sg).
Proof.
  intros (Hid & Hr & Hok) Hready H. unfold saga_ok in Hok. rewrite Hready in Hok. destruct st; simpl in H.
  - unfold startStep_Execute, bind in H. destruct (OrderRepo_UpdateStatus _ _ o w) as [r1 w1] eqn:Hu.
    apply UpdateStatus_ext in Hu as [He Hs]. assert (w' = w1) as -> by (destruct r1; unfold ret in H; by simplify_eq).
    rewrite He, Hs. split_and!; [done|done|]. intros sg ->. destruct r1; unfold ret in H; simplify_eq.
    split_and!; simpl; [done|done|]. unfold saga_ok. simpl. rewrite Hok. by repeat constructor.
  - unfold reserveInventoryStep_Execute in H. destruct (o_Items order !! length (s_ReservedItems saga)) as [item|] eqn:Hi.
    + unfold bind in H. destruct (ext _ o w) as [r1 w1] eqn:Hx. assert (w' = w1) as -> by (destruct r1; unfold ret in H; by simplify_eq).
      apply ext_keeps in Hx as (Hk & Hs & w2 & Hm & Hw2);
        [|intros; apply Reserve_keeps_holds|intros; apply Reserve_keeps_payment].
      split_and!; [done|done|]. intros sg ->. destruct r1 as [e|u]; unfold ret in H; simplify_eq.
      apply Reserve_holds in Hm. destruct Hok as [Hl HF]. split_and!; simpl; [done| |].
      * apply Forall_app. split; [done|]. repeat constructor. apply reserved_item_in_range.
      * assert (Hpre : reserved_prefix order (t_ext (w_st w1)) (length (s_ReservedItems saga)) (s_ReservedItems saga)).
        { split; [done|]. eapply Forall_impl; [exact HF|]. intros it. apply Hk. }
        destruct Hpre as [_ HF']. unfold saga_ok. simpl. rewrite Hready. rewrite length_app. simpl.
        rewrite Nat.add_1_r. split; rewrite (take_S_r _ _ _ Hi); [by rewrite fmap_app, <- Hl|].
        apply Forall_app. split; [done|]. repeat constructor. by rewrite Hw2.
    + unfold ret in H. simplify_eq. split_and!; [done|done|]. intros sg [= <-]. split_and!; simpl; [done|done|].
      apply lookup_ge_None in Hi. destruct Hok as [Hl HF]. unfold saga_ok. simpl. rewrite (take_ge _ _ Hi) in Hl, HF.
      split; by rewrite take_ge.
  - unfold processPaymentStep_Execute, bind in H. destruct (ext _ o w) as [r1 w1] eqn:Hx.
    assert (w' = w1) as -> by (destruct r1; unfold ret in H; by simplify_eq).
    apply ext_keeps in Hx as (Hk & Hs & w2 & Hm & Hw2); [|intros; apply Pay_keeps_holds|intros; apply Pay_keeps_payment].
    split_and!; [done|done|]. intros sg ->. destruct r1 as [e|pid]; unfold ret in H; simplify_eq.
    apply Pay_recorded in Hm. destruct Hok as [Hl HF]. split_and!; simpl; [done|done|]. unfold saga_ok. simpl. split.
    + split; [done|]. eapply Forall_impl; [exact HF|]. intros it. apply Hk.
    + unfold paid_for. simpl. by rewrite Hw2.
  - unfold confirmOrderStep_Execute, bind in H. destruct (OrderRepo_UpdateStatus _ _ o w) as [r1 w1] eqn:Hu.
    apply UpdateStatus_ext in Hu as [He Hs]. assert (w' = w1) as -> by (destruct r1; unfold ret in H; by simplify_eq).
    rewrite He, Hs. split_and!; [done|done|]. intros sg ->. destruct r1; unfold ret in H; simplify_eq. by split_and!.
Qed.

Lemma Prepare_fine e st saga saga' :
  nextStep saga = Some st -> Prepare st saga = Some saga' -> fine e saga -> fine e saga' /\ ready st saga'.
Proof.
  intros Hn Hp (Hid & Hr & Hok). unfold nextStep in Hn. unfold Prepare in Hp. unfold saga_ok in Hok.
  destruct (s_Status saga) eqn:Hs; simplify_eq; simpl in *; simplify_eq; by split_and!.
Qed.

Lemma ours_saved e saga st step msg :
  ours saga -> (st = SagaStatusFailed \/ st = SagaStatusCompensating \/ st = SagaStatusCancelled) ->
  fine e (with_error msg (with_status st step saga)).
Proof. intros [Hid Hr] Hst. split_and!; [done|done|]. by destruct Hst as [->|[->| ->]]. Qed.

Lemma row_fine_same s s' : t_sagas s' = t_sagas s -> keeps (t_ext s) (t_ext s') -> row_fine s -> row_fine s'.
Proof. intros Hs Hk Hrow row. rewrite Hs. intros Hr. by eapply saga_ok_keeps, Hrow. Qed.

(** What a piece keeps. *)
Definition good (w w' : world (OrderSt E)) (q : spc) : Prop :=
  keeps (t_ext (w_st w)) (t_ext (w_st w')) /\ row_fine (w_st w') /\ pc_fine (t_ext (w_st w')) q.

Lemma good_same w w' q : w_st w' = w_st w -> row_fine (w_st w) -> pc_fine (t_ext (w_st w)) q -> good w w' q.
Proof. intros Hw Hrow Hq. unfold good. rewrite Hw. by split_and!. Qed.

Lemma persist_good saga (k : Saga * (error + unit) -> spc) o w q w' :
  fine (t_ext (w_st w)) saga -> row_fine (w_st w) ->
  (forall sr, fine (t_ext (w_st w)) (fst sr) -> s_Status (fst sr) = s_Status saga -> pc_fine (t_ext (w_st w)) (k sr)) ->
  (let* sr := persistSaga saga in ret (k sr)) o w = (inr q, w') -> good w w' q.
Proof.
  intros Hf Hrow Hk. unfold bind. destruct (persistSaga saga o w) as [[e|sr] w1] eqn:Hp; [done|].
  destruct (persistSaga_fine _ _ _ _ _ Hf Hrow Hp) as (Hr1 & He1 & Hf1 & Hs1). intros [= <- <-].
  unfold good. rewrite He1. split_and!; [done|done|by apply Hk].
Qed.

Lemma enter_fine e saga : fine e saga -> pc_fine e (enter saga).
Proof. intros Hf. unfold enter. by destruct (isTerminal saga). Qed.

Lemma create_good key o w q w' : row_fine (w_st w) -> piece order key SCreate o w = (inr q, w') -> good w w' q.
Proof.
  intros Hrow. simpl. unfold bind, new_uuid, now, attempt, wrap_err, SagaRepo_Create, wrap_err, io, ret, next. simpl.
  set (sg := MkSaga _ _ _ _ _ _ _ _ _). assert (Hf : fine (t_ext (w_st w)) sg) by (by split_and!; [|constructor|]).
  assert (Hnew : forall t1 t2, row_fine (set_sagas (<[o_ID order := saga_row sg t1 t2]> (t_sagas (w_st w))) (w_st w))).
  { intros t1 t2 row. simpl. rewrite lookup_insert_eq. by intros [= <-]. }
  destruct (t_sagas (w_st w) !! o_ID order) as [row|]; [|destruct (t_orders (w_st w) !! o_ID order)];
    destruct (o_fault o _); simpl; intros [= <- <-]; try (by apply good_same); split_and!; simpl; try done.
Qed.

Lemma exec_good key st saga n o w q w' :
  fine (t_ext (w_st w)) saga -> ready st saga -> row_fine (w_st w) -> piece order key (SExec st saga n) o w = (inr q, w') -> good w w' q.
Proof.
  intros Hf Hready Hrow. simpl. unfold bind, attempt. destruct (Execute st saga order key o w) as [r w1] eqn:Hx.
  destruct (Execute_fine _ _ _ _ _ _ _ Hf Hready Hx) as (Hk & Hs & Hr). pose proof (row_fine_same _ _ Hs Hk Hrow) as Hrow1.
  assert (Hf1 : fine (t_ext (w_st w1)) saga) by (destruct Hf as (? & ? & ?); split_and!; [done|done|by eapply saga_ok_keeps]).
  assert (Hours : ours saga) by (by destruct Hf as (? & ? & _)).
  destruct r as [err|sg].
  - destruct n as [|[|n]]; [intros [= <- <-]; by split_and!..|]. unfold ctx_done. intros [= <- <-].
    split_and!; [done|done|]. by destruct (o_done o (w_tick w1)).
  - destruct n as [|[|n]]; intros [= <- <-]; (split_and!; [done|done|by apply Hr]).
Qed.

Lemma piece_good key p o w q w' :
  compensates p = false -> row_fine (w_st w) -> pc_fine (t_ext (w_st w)) p -> piece order key p o w = (inr q, w') -> good w w' q.
Proof.
  intros Hc Hrow Hp. destruct p as [| |saga|st saga n|saga|st saga err|plan saga|saga|saga|res].
  - simpl. unfold bind, attempt. destruct (SagaRepo_GetByOrderID (o_ID order) o w) as [r w1] eqn:Hg.
    apply read_inv in Hg as [Hw1 Hg]. destruct r as [err|saga]; intros [= <- <-]; (apply good_same; [done|done|]); [by destruct (negb _)|].
    apply enter_fine. specialize (Hg saga eq_refl). destruct (t_sagas (w_st w) !! o_ID order) as [row|] eqn:Ht; [|done].
    injection Hg as <-. split_and!; [done|apply unmarshal_in_range|by apply Hrow].
  - by apply create_good.
  - simpl. destruct (nextStep saga) as [st|] eqn:Hn; [|intros [= <- <-]; by apply good_same].
    destruct (Prepare st saga) as [saga'|] eqn:Hprep.
    + destruct (Prepare_fine _ _ _ _ Hn Hprep Hp) as [Hf' Hready]. intros H. eapply persist_good; [exact Hf'|done| |exact H].
      intros sr Hsr Hst. unfold saved. destruct (snd sr); [done|]. simpl. split; [done|]. unfold ready in *. by rewrite Hst.
    + intros [= <- <-]. apply good_same; [done|done|]. split; [done|]. by apply ready_of_next.
  - destruct Hp as [Hf Hready]. by apply exec_good.
  - intros H. eapply persist_good; [exact Hp|done| |exact H]. intros sr Hsr _. unfold saved. by destruct (snd sr).
  - simpl. case_bool_decide as Hpend.
    + intros H. apply (persist_good _ (fun _ => SDone (inl (wrapf "start step failed" err))) o w q w'
        (ours_saved _ _ SagaStatusFailed (Name st) (Error err) Hp ltac:(auto)) Hrow); [done|exact H].
    + intros H. apply (persist_good _ (fun sr => SComp (compensationPlan st) (fst sr)) o w q w'
        (ours_saved _ _ SagaStatusCompensating _ (Error err) Hp ltac:(auto)) Hrow) in H; [exact H|].
      by intros sr (? & ? & _) _.
  - destruct plan as [|st plan]; [|done]. simpl. intros [= <- <-]. by apply good_same.
  - simpl. unfold bind, attempt. destruct (OrderRepo_UpdateStatus _ _ o w) as [r w1] eqn:Hu. apply UpdateStatus_ext in Hu as [He Hs].
    intros [= <- <-]. unfold good. rewrite He. split_and!; [done| |done]. eapply row_fine_same; [exact Hs| |done]. by rewrite He.
  - intros H. apply (persist_good _ (fun _ => SDone (inr tt)) o w q w'
      (ours_saved _ _ SagaStatusCancelled "cancelled" "" Hp ltac:(auto)) Hrow) in H; [exact H|done].
  - simpl. intros [= <- <-]. by apply good_same.
Qed.

(** The invariant of the race. *)
Definition race_fine (s : racing) : Prop :=
  row_fine (ra_st s) /\ forall i key p, ra_ths s !! i = Some (key, p) -> pc_fine (t_ext (ra_st s)) p.

Lemma race_fine_step s s' : race_fine s -> same_step order true s s' -> race_fine s'.
Proof.
  intros [Hrow Hths] Hs. inversion Hs as [st ths key|st ths i key p o n q w' Hi Hp Hc|st ths new o n r w' Hu]; subst; simpl in *.
  - split; [done|]. simpl. intros i k p [Hi|[-> [= -> ->]]]%lookup_snoc_cases; [by eapply Hths|done].
  - apply negb_true_iff in Hc. destruct (piece_good _ _ _ (World n st) _ _ Hc Hrow (Hths _ _ _ Hi) Hp) as (Hk & Hr & Hq).
    split; [done|]. simpl. intros j k p' [[-> [= -> ->]]|[Hj Hp']]%lookup_insert_cases; [done|]. eapply pc_fine_keeps; [exact Hk|by eapply Hths].
  - apply UpdateStatus_ext in Hu as [He Hsg]. simpl in *. split; simpl.
    + eapply row_fine_same; [exact Hsg| |done]. by rewrite He.
    + rewrite He. apply Hths.
Qed.
End Sound.

(** What is promised of the order holds of the rows of the machine with one order. *)
Lemma same_run_fine order s0 s : row_fine order s0 -> rtc (same_step order true) (MkRacing s0 []) s -> race_fine order s.
Proof.
  intros H0. revert s. apply rtc_ind_r; [by split|]. intros a b _ Hab Ha. by eapply race_fine_step.
Qed.

Lemma racing_confirmed order s0 c row :
  row_fine order s0 -> reads_back order s0 -> rtc (race_step order true) (MkCrowd s0 []) c ->
  t_sagas (cr_st c) !! o_ID order = Some row -> sr_Status row = SagaStatusConfirmed ->
  all_reserved order (t_ext (cr_st c)) (unmarshalReservedItems (sr_ReservedItems row)) /\
  payment_at (t_ext (cr_st c)) (o_ID order) (sr_PaymentID row).
Proof.
  intros H0 Hback Hrun Hrow Hst. apply race_same in Hrun as [Hrun _]; [|done].
  destruct (same_run_fine _ _ _ H0 Hrun) as [Hr _]. specialize (Hr row Hrow). unfold saga_ok in Hr. simpl in Hr. rewrite Hst in Hr. exact Hr.
Qed.

(** The amounts of the payments of the order. *)
Lemma racing_billed `{PA : !PaymentAmounts E} order s0 c :
  reads_back order s0 -> rtc (race_step order true) (MkCrowd s0 []) c ->
  billed (t_ext s0) (o_ID order) (o_TotalAmount order) -> billed (t_ext (cr_st c)) (o_ID order) (o_TotalAmount order).
Proof.
  intros Hback [Hrun _]%race_same H0; [|done]. change (cr_st c) with (ra_st (forget c)). revert Hrun. generalize (forget c). clear c.
  apply rtc_ind_r; [done|]. intros a b _ Hab Ha. inversion Hab as [s ths key|s ths i key p o n q w' Hi Hp Hc|s ths st o n r w' Hu]; subst; simpl in *; [done| |].
  - pose proof (frame_piece order _ key p (framed_billed order) o (World n s) Ha) as Hk. by rewrite Hp in Hk.
  - apply UpdateStatus_ext in Hu as [He _]. by rewrite He.
Qed.

(** ** Schedules *)

(** Instance [i] runs its next piece, in environment [o]. *)
Definition turn (order : Order) (s : racing) (x : nat * oracle) : racing :=
  match ra_ths s !! fst x with
  | Some (key, p) =>
      match piece order key p (snd x) (World 0 (ra_st s)) with
      | (inr q, w') => MkRacing (w_st w') (<[fst x := (key, q)]> (ra_ths s))
      | (inl _, _) => s
      end
  | None => s
  end.

Definition turns (order : Order) (l : list (nat * oracle)) (s : racing) : racing := foldl (turn order) s l.

(** All instances work with the order. *)
Definition lift (order : Order) (s : racing) : crowd := MkCrowd (ra_st s) ((fun t => (t.1, order, t.2)) <$> ra_ths s).

Lemma turn_step order s x :
  turn order s x = s \/ exists key p, ra_ths s !! fst x = Some (key, p) /\ race_step order (negb (compensates p)) (lift order s) (lift order (turn order s x)).
Proof.
  unfold turn. destruct s as [st ths]. simpl. destruct (ths !! fst x) as [[key p]|] eqn:Hi; [|by left].
  destruct (piece order key p (snd x) (World 0 st)) as [[e|q] w'] eqn:Hp; [by left|]. right. exists key, p. split; [done|].
  unfold lift. simpl. rewrite list_fmap_insert. simpl. eapply rc_piece; [|exact Hp]. by rewrite list_lookup_fmap, Hi.
Qed.

Lemma turns_run order l s : race_run order (lift order s) (lift order (turns order l s)).
Proof.
  unfold turns, race_run. revert s. induction l as [|x l IH]; intros s; simpl; [apply rtc_refl|]. etrans; [|apply IH].
  destruct (turn_step order s x) as [->|(key & p & _ & Hs)]; [apply rtc_refl|]. apply rtc_once. by eexists.
Qed.

(** The schedule runs no compensation. *)
Definition turn_forward (s : racing) (x : nat * oracle) : bool :=
  match ra_ths s !! fst x with Some (_, p) => negb (compensates p) | None => true end.

Fixpoint forward_only (order : Order) (l : list (nat * oracle)) (s : racing) : bool :=
  match l with [] => true | x :: l' => turn_forward s x && forward_only order l' (turn order s x) end.

Lemma forward_turns_run order l s : forward_only order l s = true -> rtc (race_step order true) (lift order s) (lift order (turns order l s)).
Proof.
  unfold turns. revert s. induction l as [|x l IH]; intros s; simpl; [intros _; apply rtc_refl|]. intros [Hx Hl]%andb_prop.
  etrans; [|by apply IH]. destruct (turn_step order s x) as [->|(key & p & Hi & Hs)]; [apply rtc_refl|].
  unfold turn_forward in Hx. rewrite Hi in Hx. rewrite Hx in Hs. by apply rtc_once.
Qed.
End Races.

(** ** Concrete races over the in-memory services *)

#[global] Instance toy_payments_stay `{U : UuidLib} : PaymentsStay (E:=toy).
Proof.
  split.
  - intros oid' pid p q oid k. apply pres_io. intros e He. unfold toy_Reserve. case_bool_decide; [done|]. by destruct (10 <? q).
  - intros oid' pid oid a k. apply pres_io. intros e [a' He]. simpl. exists a'. by apply list_elem_of_further.
Qed.

Section Samples.
Local Existing Instance uuid_text.

(** One product, so that the request and the recovery see the same items. *)
Definition one_item : list OrderItem := [MkItem (uuid_sample 4) ord_id pA 2 100].
Definition small : Order := MkOrder ord_id usr_id one_item 200 OrderStatusPending 0 0.
Definition small_st : OrderSt toy := MkOrderSt {[ ord_id := order_row small ]} one_item ∅ (MkOutbox [] ∅) [] (MkToy [] []).

(** The request, and the recovery worker of another instance. *)
Definition two_instances : racing := MkRacing small_st [("key", SBegin); (recoveryIdempotencyKey (uuid_String ord_id), SBegin)].

Definition dead_network : oracle :=
  Oracle (fun _ => FBefore (EPlain "context deadline exceeded")) (fun _ => 0) uuid_sample (fun _ => None) (fun _ => true).

Definition takes (i n : nat) : list (nat * oracle) := replicate n (i, calm).

(** The request creates the saga; the recovery reads it; the request runs to its
    end; the recovery goes on with its stale copy for two pieces and stops. *)
Definition fall_back : racing := turns small (takes 0 2 ++ takes 1 1 ++ takes 0 40 ++ takes 1 2) two_instances.

(** A paid order falls back to awaiting_payment although no call fails: the saga row
    says confirmed, the goods are held and paid for, and since a confirmed saga is
    never listed again nothing repairs the order. *)
Theorem stale_recovery_unpays_order :
  race_run small (lift small two_instances) (lift small fall_back) /\
  (saga_status (ra_st fall_back), order_status (ra_st fall_back)) = (Some SagaStatusConfirmed, Some OrderStatusAwaitingPayment) /\
  held_units (ra_st fall_back) pA = 2 /\ length (toy_charges (t_ext (ra_st fall_back))) = 1%nat /\
  length (incomplete_sagas (ra_st fall_back)) = 0%nat.
Proof. split; [apply turns_run|]. split_and!; vm_compute; reflexivity. Qed.

(** The request is about to pay when the recovery reads the saga; the payment call of
    the request times out three times and it compensates; then the recovery goes on. *)
Definition crossed : racing :=
  turns small (takes 0 12 ++ takes 1 1 ++ replicate 3 (0%nat, dead_network) ++ takes 0 10 ++ takes 1 10) two_instances.

(** The compensation of one instance crosses the payment of another: the order is
    paid, confirmed and charged, and nothing is held for it. *)
Theorem crossed_compensation_confirms_unreserved :
  race_run small (lift small two_instances) (lift small crossed) /\
  (saga_status (ra_st crossed), order_status (ra_st crossed)) = (Some SagaStatusConfirmed, Some OrderStatusPaid) /\
  held_units (ra_st crossed) pA = 0 /\ length (toy_charges (t_ext (ra_st crossed))) = 1%nat.
Proof. split; [apply turns_run|]. split_and!; vm_compute; reflexivity. Qed.

Lemma small_row_fine : row_fine small small_st.
Proof. intros row Hrow. simpl in Hrow. by rewrite lookup_empty in Hrow. Qed.

Lemma small_reads_back : reads_back small small_st.
Proof. exists small. by split_and!. Qed.

(** The request and the recovery join, and then run as the schedule says. *)
Lemma fall_back_forward : rtc (race_step small true) (MkCrowd small_st []) (lift small fall_back).
Proof.
  eapply rtc_l; [apply (rc_request _ _ _ "key")|]. eapply rtc_l; [by apply (rc_recover small _ _ calm 0 small (World 1 small_st))|].
  apply (forward_turns_run small _ two_instances). vm_compute. reflexivity.
Qed.
End Samples.
