(* ===== verification/Payment.v ===== *)
(** * payment-service: payments and refunds

    The tables [payments] (one row per order) and [refunds], the repository, the
    use case with its transactions, the dead-letter producer and the gRPC
    handler. *)
From S2P Require Import Prelude Errors Effects Auth.

(** ** Domain *)

Inductive PStatus := StatusPending | StatusSuccess | StatusFailed | StatusRefunded.

#[global] Instance PStatus_eq_dec : EqDecision PStatus.
Proof. solve_decision. Defined.

Definition PStatus_string (s : PStatus) : string :=
  match s with
  | StatusPending => "pending"
  | StatusSuccess => "success"
  | StatusFailed => "failed"
  | StatusRefunded => "refunded"
  end.

Section Payment.
Context `{U : UuidLib}.

Record Payment := MkPayment {
  p_ID : UUID; p_OrderID : UUID; p_UserID : UUID; p_Amount : Z; p_Status : PStatus
}.

Record Refund := MkRefund {
  rf_ID : UUID; rf_PaymentID : UUID; rf_Amount : Z; rf_Reason : string; rf_Status : PStatus;
  rf_IdempotencyKey : string; rf_CreatedAt : Z
}.

(** [payments] is indexed by its unique column [order_id]. *)
Record PayDB := MkPayDB { payments : gmap UUID Payment; refunds : list Refund }.

(** dlq.Event, and the messages published: topic, key and event. *)
Record DLQEvent := MkDLQEvent { de_EventType : string; de_Payload : string; de_Reason : string; de_Timestamp : Z }.

Record PaySt := MkPaySt { y_db : PayDB; y_dlq : list (string * string * DLQEvent) }.

Definition set_db (d : PayDB) (s : PaySt) : PaySt := MkPaySt d (y_dlq s).

Definition with_PStatus (st : PStatus) (p : Payment) : Payment :=
  MkPayment (p_ID p) (p_OrderID p) (p_UserID p) (p_Amount p) st.

Definition all_payments (d : PayDB) : list Payment := (map_to_list (payments d)).*2.

Definition payment_by_id (id : UUID) (d : PayDB) : option Payment :=
  head (filter (fun p => p_ID p = id) (all_payments d)).

(** ** PaymentPostgres *)

(** The INSERT against its constraints: the primary key, the unique order (no
    row inserted when [on_conflict_nothing]), a non-negative amount. *)
Definition insert_payment (p : Payment) (d : PayDB) : error + option PayDB :=
  match payments d !! p_OrderID p with
  | Some _ => if p_Amount p <? 0 then inl pg_check_violation else inr None
  | None =>
      if p_Amount p <? 0 then inl pg_check_violation
      else match payment_by_id (p_ID p) d with
           | Some _ => inl pg_unique_violation
           | None => inr (Some (MkPayDB (<[p_OrderID p := p]> (payments d)) (refunds d)))
           end
  end.

Definition PayRepo_Create (p : Payment) : M PaySt unit :=
  wrap_err (wrapf "insert payment") (io (fun s =>
    match insert_payment p (y_db s) with
    | inl e => (inl e, s)
    | inr None => (inl pg_unique_violation, s)
    | inr (Some d) => (inr tt, set_db d s)
    end)).

Definition CreateOrGet (p : Payment) : M PaySt Payment :=
  let* created := wrap_err (wrapf "insert payment") (io (fun s =>
    match insert_payment p (y_db s) with
    | inl e => (inl e, s)
    | inr None => (inr None, s)
    | inr (Some d) => (inr (Some p), set_db d s)
    end)) in
  match created with
  | Some q => ret q
  | None => read_as "get payment by order id" (fun s => match payments (y_db s) !! p_OrderID p with
                           | Some q => inr q
                           | None => inl (wrapS ErrNotFound "payment")
                           end)
  end.

Definition PayRepo_GetByID (id : UUID) : M PaySt Payment :=
  read_as "get payment by id" (fun s => match payment_by_id id (y_db s) with
                 | Some p => inr p
                 | None => inl (wrapS ErrNotFound "payment")
                 end).

Definition PayRepo_UpdateStatus (id : UUID) (st : PStatus) : M PaySt unit :=
  wrap_err (wrapf "update payment status") (io (fun s =>
    (inr tt, set_db (MkPayDB ((fun p => if bool_decide (p_ID p = id) then with_PStatus st p else p) <$> payments (y_db s))
                             (refunds (y_db s))) s))).

Definition matches (id : UUID) (st : PStatus) (p : Payment) : bool :=
  bool_decide (p_ID p = id) && bool_decide (p_Status p = st).

Definition update_if (id : UUID) (new expected : PStatus) (d : PayDB) : PayDB :=
  MkPayDB ((fun p => if matches id expected p then with_PStatus new p else p) <$> payments d) (refunds d).

Definition UpdateStatusIf (id : UUID) (newStatus expectedStatus : PStatus) : M PaySt bool :=
  wrap_err (wrapf "update payment status") (io (fun s =>
    (inr (existsb (matches id expectedStatus) (all_payments (y_db s))),
     set_db (update_if id newStatus expectedStatus (y_db s)) s))).

(** The width of the key's column, the primary key, the unique index on non-empty keys
    and the foreign key. *)
Definition CreateRefund (r : Refund) : M PaySt unit :=
  wrap_err (wrapf "insert refund") (io (fun s =>
    let d := y_db s in
    if negb (fits_varchar 255 (rf_IdempotencyKey r)) then (inl pg_too_long, s)
    else if existsb (fun r' => bool_decide (rf_ID r' = rf_ID r)) (refunds d) then (inl pg_unique_violation, s)
    else if negb (bool_decide (rf_IdempotencyKey r = "")) &&
       existsb (fun r' => bool_decide (rf_IdempotencyKey r' = rf_IdempotencyKey r)) (refunds d)
    then (inl pg_unique_violation, s)
    else match payment_by_id (rf_PaymentID r) d with
         | None => (inl pg_foreign_key_violation, s)
         | Some _ => (inr tt, set_db (MkPayDB (payments d) (refunds d ++ [r])) s)
         end)).

Definition PayRepo_GetRefund (id : UUID) : M PaySt Refund :=
  read_as "get refund by id" (fun s => match filter (fun r => rf_ID r = id) (refunds (y_db s)) with
                 | r :: _ => inr r
                 | [] => inl (wrapS ErrNotFound "refund")
                 end).

Definition GetRefundByIdempotencyKey (key : string) : M PaySt Refund :=
  read_as "get refund by idempotency key" (fun s => match filter (fun r => rf_IdempotencyKey r = key) (refunds (y_db s)) with
                 | r :: _ => inr r
                 | [] => inl (wrapS ErrNotFound "refund")
                 end).

Definition newer_refund (a b : Refund) : Prop := rf_CreatedAt b <= rf_CreatedAt a.

#[global] Instance newer_refund_dec : RelDecision newer_refund.
Proof. intros a b. unfold newer_refund. apply _. Defined.

Definition PayRepo_ListRefunds (paymentID : UUID) : M PaySt (list Refund) :=
  wrap_err (wrapf "list refunds") (read (fun s =>
    inr (merge_sort newer_refund (filter (fun r => rf_PaymentID r = paymentID) (refunds (y_db s)))))).

(** ** Use case *)

(** The body of ProcessPayment's transaction. *)
Definition process_tx (payment : Payment) (finalStatus : PStatus) : M PaySt Payment :=
  let* existing := wrap_err (wrapf "create or get payment") (CreateOrGet payment) in
  if bool_decide (p_Status existing = StatusPending) then
    do* wrap_err (wrapf "update payment status") (UpdateStatusIf (p_ID existing) finalStatus StatusPending) in
    ret (with_PStatus finalStatus existing)
  else ret existing.

Definition ProcessPayment (orderID userID : UUID) (amountCents : Z) : M PaySt Payment :=
  let* ok := rand_below_09 in
  let finalStatus := if ok then StatusSuccess else StatusFailed in
  let* id := new_uuid in
  Run (process_tx (MkPayment id orderID userID amountCents StatusPending) finalStatus).

(** The refund proper, once the key is known to be new. *)
Definition refund_payment (paymentID : UUID) (amountCents : Z) (key : string) : M PaySt (Payment * Refund) :=
  let* payment := wrap_err (wrapf "get payment") (PayRepo_GetByID paymentID) in
  if negb (bool_decide (p_Status payment = StatusSuccess)) then
    throw (wrapS ErrFailedPrecondition ("payment status " +:+ PStatus_string (p_Status payment) +:+ " cannot be refunded"))
  else
    let refundAmount := if amountCents =? 0 then p_Amount payment else amountCents in
    if p_Amount payment <? refundAmount then
      throw (wrapS ErrInvalidArgument "refund amount exceeds payment amount")
    else
      let* id := new_uuid in
      let* t := now in
      let refund := MkRefund id (p_ID payment) refundAmount "" StatusRefunded key t in
      do* wrap_err (wrapf "create refund") (CreateRefund refund) in
      let* updated := wrap_err (wrapf "update payment status")
                        (UpdateStatusIf (p_ID payment) StatusRefunded StatusSuccess) in
      if negb updated then
        throw (wrapS ErrFailedPrecondition "payment already refunded or status changed")
      else ret (with_PStatus StatusRefunded payment, refund).

Definition refund_tx (paymentID : UUID) (amountCents : Z) (key : string) : M PaySt (Payment * Refund) :=
  if bool_decide (key = "") then refund_payment paymentID amountCents key
  else
    let* r := attempt (GetRefundByIdempotencyKey key) in
    match r with
    | inr existing =>
        let* payment := wrap_err (wrapf "get payment for existing refund") (PayRepo_GetByID (rf_PaymentID existing)) in
        ret (payment, existing)
    | inl err =>
        if negb (Is err ErrNotFound) then throw (wrapf "check refund idempotency" err)
        else refund_payment paymentID amountCents key
    end.

Definition uc_Refund (paymentID : UUID) (amountCents : Z) (key : string) : M PaySt (Payment * Refund) :=
  Run (refund_tx paymentID amountCents key).

Definition uc_GetByID (paymentID : UUID) : M PaySt Payment := PayRepo_GetByID paymentID.
Definition uc_GetRefund (refundID : UUID) : M PaySt Refund := PayRepo_GetRefund refundID.
Definition uc_ListRefunds (paymentID : UUID) : M PaySt (list Refund) := PayRepo_ListRefunds paymentID.

(** ** Dead letters: dlq.go *)

(** [dp_connected]: the Kafka producer could be created; otherwise sends are no-ops. *)
Record DLQProducer := MkDLQProducer { dp_connected : bool; dp_topic : string }.

Definition dlq_send (p : DLQProducer) (eventType payload reason : string) : M PaySt unit :=
  if dp_connected p then
    let* t := now in
    io (fun s => (inr tt,
      MkPaySt (y_db s) (y_dlq s ++ [(dp_topic p, eventType, MkDLQEvent eventType payload reason t)])))
  else ret tt.

(** The send happens in a goroutine; its error or time-out is only logged. *)
Definition SendToDLQ (p : option DLQProducer) (eventType payload reason : string) : M PaySt unit :=
  match p with
  | None => ret tt
  | Some p => do* attempt (dlq_send p eventType payload reason) in ret tt
  end.

(** ** gRPC handler *)

Definition statusToProto (s : PStatus) : Z :=
  match s with StatusPending => 1 | StatusSuccess => 2 | StatusFailed => 3 | StatusRefunded => 4 end.

Definition unauthenticated : error := EStatus Unauthenticated "missing user_id in context".

(** The response: payment id and status.  [text] is the printed request, [req.String()]. *)
Definition handler_ProcessPayment (dlq : option DLQProducer) (ctx : Ctx) (order_id : string) (amount : Z) (text : string)
  : M PaySt (string * Z) :=
  match GetUserID ctx with
  | None => throw unauthenticated
  | Some authUserID =>
      match uuid_Parse order_id with
      | None => throw (ToStatus (EPlain (uuid_error order_id)))
      | Some orderID =>
          match uuid_Parse authUserID with
          | None => throw (ToStatus (EPlain (uuid_error authUserID)))
          | Some userID =>
              let* r := attempt (ProcessPayment orderID userID amount) in
              match r with
              | inl err =>
                  do* SendToDLQ dlq "ProcessPaymentFailed" text (Error err) in
                  throw (ToStatus err)
              | inr payment => ret (uuid_String (p_ID payment), statusToProto (p_Status payment))
              end
          end
      end
  end.

Definition may_access (ctx : Ctx) (authUserID : string) (payment : Payment) : bool :=
  bool_decide (fst (GetRole ctx) = RoleAdmin) || bool_decide (uuid_String (p_UserID payment) = authUserID).

Definition handler_Refund (ctx : Ctx) (payment_id : string) (amount : Z) (key : string) : M PaySt Z :=
  match GetUserID ctx with
  | None => throw unauthenticated
  | Some authUserID =>
      match uuid_Parse payment_id with
      | None => throw (ToStatus (EPlain (uuid_error payment_id)))
      | Some paymentID =>
          let* payment := wrap_err ToStatus (uc_GetByID paymentID) in
          if negb (may_access ctx authUserID payment) then
            throw (EStatus PermissionDenied "payment does not belong to user")
          else
            let* pr := wrap_err ToStatus (uc_Refund paymentID amount key) in
            ret (statusToProto (p_Status (fst pr)))
      end
  end.

Record RefundProto := MkRefundProto {
  rp_Id : string; rp_PaymentId : string; rp_Amount : Z; rp_Reason : string; rp_Status : Z; rp_CreatedAt : Z
}.

(** The nil case of the Go function does not arise for a refund that was found. *)
Definition refundToProto (r : Refund) : RefundProto :=
  MkRefundProto (uuid_String (rf_ID r)) (uuid_String (rf_PaymentID r)) (rf_Amount r) (rf_Reason r)
    (statusToProto (rf_Status r)) (rf_CreatedAt r).

Definition handler_GetRefund (ctx : Ctx) (refund_id : string) : M PaySt RefundProto :=
  match GetUserID ctx with
  | None => throw unauthenticated
  | Some authUserID =>
      match uuid_Parse refund_id with
      | None => throw (EStatus InvalidArgument "invalid refund_id")
      | Some refundID =>
          let* refund := wrap_err ToStatus (uc_GetRefund refundID) in
          let* payment := wrap_err ToStatus (uc_GetByID (rf_PaymentID refund)) in
          if negb (may_access ctx authUserID payment) then
            throw (EStatus PermissionDenied "refund does not belong to user")
          else ret (refundToProto refund)
      end
  end.

Definition handler_ListRefunds (ctx : Ctx) (payment_id : string) : M PaySt (list RefundProto) :=
  match GetUserID ctx with
  | None => throw unauthenticated
  | Some authUserID =>
      match uuid_Parse payment_id with
      | None => throw (EStatus InvalidArgument "invalid payment_id")
      | Some paymentID =>
          let* payment := wrap_err ToStatus (uc_GetByID paymentID) in
          if negb (may_access ctx authUserID payment) then
            throw (EStatus PermissionDenied "payment does not belong to user")
          else
            let* l := wrap_err ToStatus (uc_ListRefunds paymentID) in
            ret (refundToProto <$> l)
      end
  end.
End Payment.
