(* ===== verification/PaymentFacts.v ===== *)
(** * payment-service: theorems

    At most one charge per order, at most one refund per payment and never more
    than was paid, for every history and failure pattern; the outcome of a calm
    call; who may see or refund a payment. *)
From S2P Require Import Prelude Errors Effects Auth Payment.

Section Facts.
Context `{U : UuidLib}.
Implicit Types (d : PayDB) (p : Payment) (oid id : UUID) (o : oracle) (w : world PaySt).

(** ** The invariant *)

Definition refunds_of id d : list Refund := filter (fun r => rf_PaymentID r = id) (refunds d).

(** Every row sits under its order, ids are unique. *)
Record keyed d : Prop := MkKeyed {
  key_order : forall oid p, payments d !! oid = Some p -> p_OrderID p = oid;
  key_id : forall k1 k2 p1 p2, payments d !! k1 = Some p1 -> payments d !! k2 = Some p2 ->
    p_ID p1 = p_ID p2 -> k1 = k2
}.

Definition settled d p : Prop :=
  match p_Status p with
  | StatusPending => False
  | StatusRefunded => exists r, refunds_of (p_ID p) d = [r] /\ rf_Amount r <= p_Amount p
  | StatusSuccess | StatusFailed => refunds_of (p_ID p) d = []
  end.

Record pay_db d : Prop := MkPayDb {
  pay_keyed : keyed d;
  pay_settled : forall oid p, payments d !! oid = Some p -> settled d p;
  pay_known : forall r, r ∈ refunds d -> exists oid p, payments d !! oid = Some p /\ p_ID p = rf_PaymentID r
}.

(** How a row may change: identity and amount never do. *)
Definition advances (p q : Payment) : Prop :=
  p_ID q = p_ID p /\ p_OrderID q = p_OrderID p /\ p_UserID q = p_UserID p /\ p_Amount q = p_Amount p /\
  (p_Status q = p_Status p \/ (p_Status p = StatusSuccess /\ p_Status q = StatusRefunded)).

(** ** Lookup by id *)

Lemma all_payments_elem d p : p ∈ all_payments d <-> exists oid, payments d !! oid = Some p.
Proof.
  unfold all_payments. rewrite list_elem_of_fmap. split.
  - intros ([k v] & -> & Hkv%elem_of_map_to_list). by exists k.
  - intros (k & Hk). exists (k, p). split; [done|]. by apply elem_of_map_to_list.
Qed.

Lemma payment_by_id_Some d id p :
  payment_by_id id d = Some p -> p_ID p = id /\ exists oid, payments d !! oid = Some p.
Proof.
  unfold payment_by_id. intros H. apply head_Some_elem_of in H.
  apply list_elem_of_filter in H as [Hid Hp]. by rewrite all_payments_elem in Hp.
Qed.

Lemma payment_by_id_None d id oid p :
  payment_by_id id d = None -> payments d !! oid = Some p -> p_ID p ≠ id.
Proof.
  unfold payment_by_id. intros H Hp Hid.
  assert (Hin : p ∈ filter (fun p => p_ID p = id) (all_payments d)).
  { apply list_elem_of_filter. split; [done|]. apply all_payments_elem. by exists oid. }
  destruct (filter _ _); [by apply not_elem_of_nil in Hin|done].
Qed.

Lemma update_if_one d oid p new st :
  keyed d -> payments d !! oid = Some p -> p_Status p = st ->
  update_if (p_ID p) new st d = MkPayDB (<[oid := with_PStatus new p]> (payments d)) (refunds d).
Proof.
  intros Hk Hp Hst. unfold update_if. f_equal. apply map_eq. intros k. rewrite lookup_fmap.
  destruct (decide (k = oid)) as [->|Hne].
  - rewrite lookup_insert_eq, Hp. simpl. unfold matches. by rewrite !bool_decide_true.
  - rewrite lookup_insert_ne by done. destruct (payments d !! k) as [q|] eqn:Hq; [|done]. simpl.
    unfold matches. rewrite bool_decide_false; [done|]. intros Hid. apply Hne. by eapply (key_id _ Hk).
Qed.

Lemma keyed_insert d oid p :
  keyed d -> p_OrderID p = oid ->
  (forall k q, k ≠ oid -> payments d !! k = Some q -> p_ID q ≠ p_ID p) ->
  keyed (MkPayDB (<[oid := p]> (payments d)) (refunds d)).
Proof.
  intros [H1 H2] Ho Hid. split; simpl.
  - intros k q. destruct (decide (k = oid)) as [->|Hne].
    + rewrite lookup_insert_eq. by intros [= <-].
    + rewrite lookup_insert_ne by done. apply H1.
  - intros k1 k2 q1 q2. destruct (decide (k1 = oid)) as [->|Hn1], (decide (k2 = oid)) as [->|Hn2];
      rewrite ?lookup_insert_eq, ?lookup_insert_ne by done; intros Hq1 Hq2 Heq; simplify_eq; [done| | |].
    + by destruct (Hid _ _ Hn2 Hq2).
    + by destruct (Hid _ _ Hn1 Hq1).
    + by eapply H2.
Qed.

(** ** Effects of the transaction bodies *)

Lemma CreateOrGet_ok p o w q w' :
  CreateOrGet p o w = (inr q, w') ->
  (payments (y_db (w_st w)) !! p_OrderID p = Some q /\ w_st w' = w_st w) \/
  (payments (y_db (w_st w)) !! p_OrderID p = None /\ payment_by_id (p_ID p) (y_db (w_st w)) = None /\ q = p /\
   w_st w' = set_db (MkPayDB (<[p_OrderID p := p]> (payments (y_db (w_st w)))) (refunds (y_db (w_st w)))) (w_st w)).
Proof.
  unfold CreateOrGet. intros H. apply bind_ok in H as (c & w1 & Hins & H).
  apply wrap_err_ok, io_ok in Hins. unfold insert_payment in Hins.
  destruct (payments (y_db (w_st w)) !! p_OrderID p) as [q0|] eqn:Hrow;
    destruct (p_Amount p <? 0); try done.
  - injection Hins as <- Hw1. left. apply read_inv in H as [Hw' Hq]. specialize (Hq _ eq_refl).
    rewrite <- Hw1, Hrow in Hq. split; congruence.
  - destruct (payment_by_id (p_ID p) (y_db (w_st w))) eqn:Hid; [done|]. injection Hins as <- Hw1.
    unfold ret in H. simplify_eq. right. by split_and!.
Qed.

Lemma process_tx_ok p fin o w q w' :
  pay_db (y_db (w_st w)) -> p_Status p = StatusPending -> process_tx p fin o w = (inr q, w') ->
  (payments (y_db (w_st w)) !! p_OrderID p = Some q /\ w_st w' = w_st w) \/
  (payments (y_db (w_st w)) !! p_OrderID p = None /\ payment_by_id (p_ID p) (y_db (w_st w)) = None /\
   q = with_PStatus fin p /\
   w_st w' = set_db (MkPayDB (<[p_OrderID p := q]> (payments (y_db (w_st w)))) (refunds (y_db (w_st w)))) (w_st w)).
Proof.
  intros Hok Hst. unfold process_tx. intros H. apply bind_ok in H as (ex & w1 & Hget & H).
  apply wrap_err_ok, CreateOrGet_ok in Hget as [[Hrow Hw1]|(Hnone & Hid & -> & Hw1)].
  - left. pose proof (pay_settled _ Hok _ _ Hrow) as Hset. unfold settled in Hset.
    case_bool_decide as Hp; [by rewrite Hp in Hset|]. unfold ret in H. by simplify_eq.
  - right. rewrite bool_decide_true in H by done. apply bind_ok in H as (b & w2 & Hupd & H).
    apply wrap_err_ok, wrap_err_ok, io_ok in Hupd. injection Hupd as _ Hw2. unfold ret in H. simplify_eq.
    split_and!; [done..|]. rewrite <- Hw2, Hw1. cbn [y_db set_db].
    rewrite (update_if_one _ (p_OrderID p) p) by
      (done || (simpl; apply lookup_insert_eq) ||
       (apply keyed_insert; [apply Hok|done|intros k q' _ Hq'; by eapply payment_by_id_None])).
    simpl. by rewrite insert_insert_eq.
Qed.

Lemma CreateRefund_ok r o w u w' :
  CreateRefund r o w = (inr u, w') ->
  w_st w' = set_db (MkPayDB (payments (y_db (w_st w))) (refunds (y_db (w_st w)) ++ [r])) (w_st w).
Proof.
  unfold CreateRefund. intros H. apply wrap_err_ok, io_ok in H.
  destruct (fits_varchar _ _); [|done]. simpl in H. destruct (existsb _ _); [done|].
  destruct (_ && _); [done|]. destruct (payment_by_id _ _); [|done]. by simplify_eq.
Qed.

(** The stores after a refund. *)
Definition after_refund oid p r (s : PaySt) : PaySt :=
  set_db (MkPayDB (<[oid := with_PStatus StatusRefunded p]> (payments (y_db s))) (refunds (y_db s) ++ [r])) s.

Lemma refund_payment_ok id amt key o w pr w' :
  pay_db (y_db (w_st w)) -> refund_payment id amt key o w = (inr pr, w') ->
  exists oid p r, payments (y_db (w_st w)) !! oid = Some p /\ p_ID p = id /\ p_Status p = StatusSuccess /\
    rf_PaymentID r = id /\ rf_Amount r <= p_Amount p /\ rf_IdempotencyKey r = key /\
    (amt = 0 -> rf_Amount r = p_Amount p) /\ (amt ≠ 0 -> rf_Amount r = amt) /\
    pr = (with_PStatus StatusRefunded p, r) /\ w_st w' = after_refund oid p r (w_st w).
Proof.
  intros Hok. unfold refund_payment. intros H. apply bind_ok in H as (p & w1 & Hget & H).
  apply wrap_err_ok, read_inv in Hget as [Hw1 Hp]. specialize (Hp _ eq_refl).
  destruct (payment_by_id id (y_db (w_st w))) as [p'|] eqn:Hby; [|done]. simplify_eq.
  apply payment_by_id_Some in Hby as [Hid [oid Hrow]].
  case_bool_decide as Hst; [|done]. simpl in H.
  destruct (Z.ltb_spec (p_Amount p) (if amt =? 0 then p_Amount p else amt)) as [|Hle]; [done|].
  apply bind_ok in H as (rid & w2 & Hrid & H). apply bind_ok in H as (t & w3 & Ht & H).
  unfold new_uuid, now in *. simplify_eq. simpl in H.
  apply bind_ok in H as (u & w4 & Hcr & H). apply wrap_err_ok, CreateRefund_ok in Hcr. simpl in Hcr. rewrite Hw1 in Hcr.
  apply bind_ok in H as (b & w5 & Hupd & H). apply wrap_err_ok, wrap_err_ok, io_ok in Hupd.
  injection Hupd as Hb Hw5. destruct b; [|done]. simpl in H. unfold ret in H. simplify_eq.
  eexists oid, p, _. split_and!; [done|done|done| | | | | |reflexivity|]; simpl; [done|lia|done| | |].
  - by intros ->.
  - intros Hne. by destruct (Z.eqb_spec amt 0).
  - rewrite <- Hw5, Hcr. cbn [y_db set_db]. rewrite (update_if_one _ oid p); [done| |done|done].
    destruct (pay_keyed _ Hok) as [K1 K2]. by split.
Qed.

Lemma refund_tx_ok id amt key o w pr w' :
  pay_db (y_db (w_st w)) -> refund_tx id amt key o w = (inr pr, w') ->
  (w_st w' = w_st w /\ key ≠ "" /\ rf_IdempotencyKey (snd pr) = key /\ snd pr ∈ refunds (y_db (w_st w)) /\
   p_ID (fst pr) = rf_PaymentID (snd pr)) \/
  exists oid p r, payments (y_db (w_st w)) !! oid = Some p /\ p_ID p = id /\ p_Status p = StatusSuccess /\
    rf_PaymentID r = id /\ rf_Amount r <= p_Amount p /\ rf_IdempotencyKey r = key /\
    (amt = 0 -> rf_Amount r = p_Amount p) /\ (amt ≠ 0 -> rf_Amount r = amt) /\
    pr = (with_PStatus StatusRefunded p, r) /\ w_st w' = after_refund oid p r (w_st w).
Proof.
  intros Hok. unfold refund_tx. case_bool_decide as Hkey; [intros H; right; by eapply refund_payment_ok|].
  intros H. apply bind_ok in H as (r & w1 & Hr & H). unfold attempt in Hr.
  destruct (GetRefundByIdempotencyKey key o w) as [r' w2] eqn:Hget. injection Hr as -> ->.
  apply read_inv in Hget as [Hw1 Hval]. destruct r as [err|ex].
  - destruct (Is err ErrNotFound); simpl in H; [|done]. right. rewrite <- Hw1 in *. by eapply refund_payment_ok.
  - left. specialize (Hval _ eq_refl). destruct (filter _ (refunds (y_db (w_st w)))) as [|x l] eqn:Hf; [done|].
    injection Hval as ->. assert (Hin : ex ∈ filter (fun r => rf_IdempotencyKey r = key) (refunds (y_db (w_st w))))
      by (rewrite Hf; left).
    apply list_elem_of_filter in Hin as [Hk Hin].
    apply bind_ok in H as (p & w3 & Hp & H). apply wrap_err_ok, read_inv in Hp as [Hw3 Hp].
    specialize (Hp _ eq_refl). destruct (payment_by_id _ _) as [q|] eqn:Hby; [|done]. simplify_eq.
    apply payment_by_id_Some in Hby as [Hid _]. unfold ret in H. simplify_eq. simpl. split_and!; congruence || done.
Qed.

(** ** Preservation *)

Lemma advances_refl p : advances p p.
Proof. unfold advances. tauto. Qed.

Lemma advances_trans p q r : advances p q -> advances q r -> advances p r.
Proof.
  unfold advances. intros (H1 & H2 & H3 & H4 & H5) (H1' & H2' & H3' & H4' & H5').
  rewrite H1', H2', H3', H4'. split_and!; [done..|].
  destruct H5 as [H5|[Hs Hr]], H5' as [H5'|[Hs' Hr']]; [left|right|right|right]; try split; congruence.
Qed.

(** The rows of [d0] are still there, unchanged but for a refund. *)
Definition kept (d0 d : PayDB) : Prop :=
  forall oid p, payments d0 !! oid = Some p -> exists q, payments d !! oid = Some q /\ advances p q.

Definition pay_ok (d0 : PayDB) (s : PaySt) : Prop := pay_db (y_db s) /\ kept d0 (y_db s).

Lemma kept_insert d0 d oid q rs :
  kept d0 d -> (forall p, payments d !! oid = Some p -> advances p q) ->
  kept d0 (MkPayDB (<[oid := q]> (payments d)) rs).
Proof.
  intros Hk Hadv k p Hp. destruct (Hk _ _ Hp) as (p1 & Hp1 & Ha). simpl.
  destruct (decide (k = oid)) as [->|Hne].
  - rewrite lookup_insert_eq. eexists. split; [done|]. eapply advances_trans; [done|]. by apply Hadv.
  - rewrite lookup_insert_ne by done. eauto.
Qed.

Lemma after_process_ok d0 s p fin :
  pay_ok d0 s -> payments (y_db s) !! p_OrderID p = None -> payment_by_id (p_ID p) (y_db s) = None ->
  fin = StatusSuccess \/ fin = StatusFailed ->
  pay_ok d0 (set_db (MkPayDB (<[p_OrderID p := with_PStatus fin p]> (payments (y_db s))) (refunds (y_db s))) s).
Proof.
  intros [[Hkey Hset Hkn] Hk] Hnone Hid Hfin.
  assert (Hnew : refunds_of (p_ID p) (y_db s) = []).
  { destruct (refunds_of (p_ID p) (y_db s)) as [|r l] eqn:Hr; [done|].
    assert (Hin : r ∈ refunds_of (p_ID p) (y_db s)) by (rewrite Hr; left).
    apply list_elem_of_filter in Hin as [Hpid Hin]. destruct (Hkn _ Hin) as (k & q & Hq & Hqid).
    exfalso. eapply payment_by_id_None; [exact Hid|exact Hq|congruence]. }
  split; [|apply kept_insert; [done|congruence]]. split; simpl.
  - apply keyed_insert; [done|done|]. intros k q _ Hq. simpl. by eapply payment_by_id_None.
  - intros k q. destruct (decide (k = p_OrderID p)) as [->|Hne].
    + rewrite lookup_insert_eq. intros [= <-]. unfold settled. simpl. by destruct Hfin as [->| ->].
    + rewrite lookup_insert_ne by done. intros Hq. apply (Hset _ _ Hq).
  - intros r Hr. destruct (Hkn _ Hr) as (k & q & Hq & Hqid). exists k, q. split; [|done].
    rewrite lookup_insert_ne; [done|]. congruence.
Qed.

Lemma after_refund_ok d0 s oid p r :
  pay_ok d0 s -> payments (y_db s) !! oid = Some p -> p_Status p = StatusSuccess ->
  rf_PaymentID r = p_ID p -> rf_Amount r <= p_Amount p -> pay_ok d0 (after_refund oid p r s).
Proof.
  intros [[Hkey Hset Hkn] Hk] Hp Hst Hrid Hamt.
  assert (Hsnoc : forall id, refunds_of id (MkPayDB (payments (y_db s)) (refunds (y_db s) ++ [r])) =
            refunds_of id (y_db s) ++ (if decide (rf_PaymentID r = id) then [r] else [])).
  { intros id. unfold refunds_of. simpl. rewrite filter_app, filter_cons. by destruct (decide _). }
  split.
  - split; cbn [after_refund y_db set_db].
    + destruct Hkey as [K1 K2]. apply (keyed_insert (MkPayDB (payments (y_db s)) (refunds (y_db s) ++ [r]))); [done|..].
      * simpl. by apply (K1 oid).
      * simpl. intros k q Hne Hq Heq. apply Hne. by eapply K2.
    + intros k q. simpl. destruct (decide (k = oid)) as [->|Hne].
      * rewrite lookup_insert_eq. intros [= <-]. unfold settled. simpl. exists r. split; [|done].
        change (refunds_of (p_ID p) (MkPayDB (payments (y_db s)) (refunds (y_db s) ++ [r])) = [r]).
        rewrite Hsnoc, decide_True by done. pose proof (Hset _ _ Hp) as Hs. unfold settled in Hs.
        rewrite Hst in Hs. by rewrite Hs.
      * rewrite lookup_insert_ne by done. intros Hq. pose proof (Hset _ _ Hq) as Hs. unfold settled in *.
        change (refunds_of (p_ID q) (MkPayDB _ (refunds (y_db s) ++ [r])))
          with (refunds_of (p_ID q) (MkPayDB (payments (y_db s)) (refunds (y_db s) ++ [r]))).
        rewrite Hsnoc, decide_False; [by rewrite app_nil_r|].
        intros Heq. apply Hne. eapply (key_id _ Hkey); [done..|congruence].
    + intros r' [Hr'|Hr']%elem_of_app.
      * destruct (Hkn _ Hr') as (k & q & Hq & Hqid). simpl. destruct (decide (k = oid)) as [->|Hne].
        -- exists oid, (with_PStatus StatusRefunded p). rewrite lookup_insert_eq. split; [done|]. simpl. congruence.
        -- exists k, q. by rewrite lookup_insert_ne.
      * apply list_elem_of_singleton in Hr' as ->. simpl. exists oid, (with_PStatus StatusRefunded p).
        by rewrite lookup_insert_eq.
  - cbn [after_refund y_db set_db]. apply kept_insert; [done|]. intros q Hq. simplify_eq.
    unfold advances. simpl. auto 10.
Qed.

Lemma process_tx_keeps d0 p fin :
  p_Status p = StatusPending -> fin = StatusSuccess \/ fin = StatusFailed ->
  ok_pres (pay_ok d0) (process_tx p fin).
Proof.
  intros Hst Hfin o w q w' HI H.
  apply process_tx_ok in H as [[_ ->]|(Hn & Hid & -> & ->)]; [done| |apply HI|done].
  by apply after_process_ok.
Qed.

Lemma refund_tx_keeps d0 id amt key : ok_pres (pay_ok d0) (refund_tx id amt key).
Proof.
  intros o w q w' HI H.
  apply refund_tx_ok in H as [[-> _]|(oid & p & r & Hp & Hid & Hst & Hr & Hamt & _ & _ & _ & _ & ->)]; [done| |apply HI].
  apply after_refund_ok; [done|done|done|congruence|done].
Qed.

Lemma SendToDLQ_keeps d0 c ev pl re : pres (pay_ok d0) (SendToDLQ c ev pl re).
Proof.
  unfold SendToDLQ, dlq_send. destruct c as [p|]; [|auto with go_pres].
  apply pres_bind; [|intros; apply pres_ret]. apply pres_attempt. destruct (dp_connected p); [|apply pres_ret].
  apply pres_bind; [apply pres_now|intros t]. by apply pres_io.
Qed.

Lemma ProcessPayment_keeps d0 oid uid amt : pres (pay_ok d0) (ProcessPayment oid uid amt).
Proof.
  unfold ProcessPayment. apply pres_bind; [apply pres_rand|intros ok].
  apply pres_bind; [apply pres_new_uuid|intros id]. apply pres_Run, process_tx_keeps; [done|]. destruct ok; auto.
Qed.

Lemma uc_Refund_keeps d0 id amt key : pres (pay_ok d0) (uc_Refund id amt key).
Proof. apply pres_Run, refund_tx_keeps. Qed.

#[local] Hint Resolve SendToDLQ_keeps ProcessPayment_keeps uc_Refund_keeps : go_pres.

(** ** Histories of requests *)

Inductive pay_call :=
| CallProcess (dlq : option DLQProducer) (ctx : Ctx) (order_id : string) (amount : Z) (text : string)
| CallRefund (ctx : Ctx) (payment_id : string) (amount : Z) (key : string)
| CallGetRefund (ctx : Ctx) (refund_id : string)
| CallListRefunds (ctx : Ctx) (payment_id : string).

Definition pay_serve (c : pay_call) : M PaySt unit :=
  match c with
  | CallProcess dlq ctx oid amt text => do* attempt (handler_ProcessPayment dlq ctx oid amt text) in ret tt
  | CallRefund ctx pid amt key => do* attempt (handler_Refund ctx pid amt key) in ret tt
  | CallGetRefund ctx rid => do* attempt (handler_GetRefund ctx rid) in ret tt
  | CallListRefunds ctx pid => do* attempt (handler_ListRefunds ctx pid) in ret tt
  end.

Fixpoint pay_serve_all (cs : list pay_call) : M PaySt unit :=
  match cs with
  | [] => ret tt
  | c :: cs' => do* pay_serve c in pay_serve_all cs'
  end.

Lemma pay_serve_keeps d0 c : pres (pay_ok d0) (pay_serve c).
Proof.
  destruct c; simpl; unfold handler_ProcessPayment, handler_Refund, handler_GetRefund, handler_ListRefunds,
    uc_GetByID, uc_GetRefund, uc_ListRefunds, PayRepo_GetByID, PayRepo_GetRefund, PayRepo_ListRefunds; auto 20 with go_pres.
Qed.

(** C11. Whatever fails and however calls are repeated, the payment tables stay
    consistent: one payment per order whose identity, payer and amount never
    change and whose status only moves from success to refunded, no payment left
    pending, and per payment at most one refund, never above the amount paid. *)
Theorem payment_invariant (cs : list pay_call) d0 o w :
  pay_ok d0 (w_st w) -> pay_ok d0 (w_st (snd (pay_serve_all cs o w))).
Proof.
  revert w. induction cs as [|c cs IH]; intros w HI; [done|].
  simpl. unfold bind. pose proof (pay_serve_keeps d0 c o w HI) as Hc.
  destruct (pay_serve c o w) as [[e|[]] w1]; simpl in *; [done|]. by apply IH.
Qed.

(** ** Single calls *)

(** When nothing fails, ProcessPayment returns the row that the table then
    holds for the order: the existing payment if there is one, whatever amount
    is asked now, and otherwise a new one for the asked amount, settled as
    success or failed by the simulated processor. *)
Theorem ProcessPayment_outcome oid uid amt o w :
  no_faults o -> pay_db (y_db (w_st w)) -> 0 <= amt ->
  payment_by_id (o_uuid o (S (w_tick w))) (y_db (w_st w)) = None ->
  exists q w', ProcessPayment oid uid amt o w = (inr q, w') /\ payments (y_db (w_st w')) !! oid = Some q /\
    q = match payments (y_db (w_st w)) !! oid with
        | Some p => p
        | None => MkPayment (o_uuid o (S (w_tick w))) oid uid amt
                    (if o_rand o (w_tick w) then StatusSuccess else StatusFailed)
        end.
Proof.
  intros Ho Hok Hamt Hfresh. unfold ProcessPayment, bind, rand_below_09, new_uuid. simpl.
  set (fin := if o_rand o (w_tick w) then StatusSuccess else StatusFailed).
  set (p := MkPayment _ _ _ _ _). set (w2 := next (next w)). rewrite (Run_no_faults _ _ _ Ho).
  assert (Hrun : exists q w', process_tx p fin o (next w2) = (inr q, w')).
  { unfold process_tx, CreateOrGet, bind, wrap_err. rewrite (io_no_faults _ _ _ Ho). simpl.
    unfold insert_payment. simpl. rewrite (proj2 (Z.ltb_ge amt 0)) by done.
    destruct (payments (y_db (w_st w)) !! oid) as [q|] eqn:Hrow.
    - rewrite (read_no_faults _ _ _ Ho). simpl. rewrite Hrow.
      pose proof (pay_settled _ Hok _ _ Hrow) as Hset. unfold settled in Hset.
      rewrite bool_decide_false; [unfold ret; eauto|]. intros Hp. by rewrite Hp in Hset.
    - rewrite Hfresh. simpl. unfold UpdateStatusIf, wrap_err. rewrite (io_no_faults _ _ _ Ho). unfold ret. eauto. }
  destruct Hrun as (q & w' & Hrun). rewrite Hrun. exists q, (next w'). split; [done|].
  apply process_tx_ok in Hrun as [[Hrow Hw']|(Hnone & _ & -> & Hw')]; simpl in *; [| |done|done].
  - rewrite Hw'. simpl. by rewrite Hrow.
  - rewrite Hw', Hnone. simpl. by rewrite lookup_insert_eq.
Qed.

(** Only the payer or an administrator can refund a payment or read its
    refunds: any other caller gets an error and the stores are untouched,
    whatever the environment does. *)
Theorem refund_needs_owner ctx user pid amt key o w :
  GetUserID ctx = Some user -> fst (GetRole ctx) ≠ RoleAdmin ->
  (forall id p, uuid_Parse pid = Some id -> payment_by_id id (y_db (w_st w)) = Some p -> uuid_String (p_UserID p) ≠ user) ->
  (exists e, fst (handler_Refund ctx pid amt key o w) = inl e) /\
  (exists e, fst (handler_ListRefunds ctx pid o w) = inl e) /\
  w_st (snd (handler_Refund ctx pid amt key o w)) = w_st w.
Proof.
  intros Hu Hrole Hown.
  assert (Hget : forall id, uuid_Parse pid = Some id -> (exists e w1, wrap_err ToStatus (uc_GetByID id) o w = (inl e, w1) /\ w_st w1 = w_st w) \/
    exists p w1, wrap_err ToStatus (uc_GetByID id) o w = (inr p, w1) /\ w_st w1 = w_st w /\ may_access ctx user p = false).
  { intros id Hid. unfold wrap_err. destruct (uc_GetByID id o w) as [[e|p] w1] eqn:Hg;
      apply read_inv in Hg as [Hw1 Hp]; [left; eauto|right]. specialize (Hp _ eq_refl).
    destruct (payment_by_id id (y_db (w_st w))) as [q|] eqn:Hby; [|done]. simplify_eq.
    exists p, w1. split_and!; [done|done|].
    unfold may_access. rewrite !bool_decide_false; [done| |done]. by eapply Hown. }
  unfold handler_Refund, handler_ListRefunds. rewrite Hu.
  destruct (uuid_Parse pid) as [id|] eqn:Hid; [|split_and!; eauto].
  unfold bind. destruct (Hget id eq_refl) as [(e & w1 & -> & Hw1)|(p & w1 & -> & Hw1 & Ha)]; [split_and!; eauto|].
  rewrite Ha. simpl. split_and!; eauto.
Qed.

Lemma payment_refused `{!UuidLaws} dlq ctx order_id amt text o w :
  GetUserID ctx = Some "order-service" ->
  exists m, handler_ProcessPayment dlq ctx order_id amt text o w = (inl (EStatus Internal m), w).
Proof.
  intros Hu. unfold handler_ProcessPayment. rewrite Hu.
  assert (Hno : uuid_Parse "order-service" = None).
  { destruct (uuid_Parse "order-service") eqn:Hp; [|done]. apply uuid_Parse_length in Hp. simpl in Hp. lia. }
  destruct (uuid_Parse order_id); [rewrite Hno|]; unfold throw, ToStatus; simpl; eauto.
Qed.

(** A caller whose token does not name a user by UUID can never pay: the call
    is refused as Internal before any input or output.  The service token that
    order-service attaches has the subject ["order-service"]. *)
Theorem service_subject_cannot_pay `{!UuidLaws} dlq ctx order_id amt text o w :
  GetUserID ctx = Some "order-service" ->
  exists m, handler_ProcessPayment dlq ctx order_id amt text o w = (inl (EStatus Internal m), w).
Proof. apply payment_refused. Qed.
End Facts.

(** ** Concrete runs *)

#[local] Existing Instance uuid_text.

Definition buyer : UUID := uuid_sample 0.
Definition pay1 : UUID := uuid_sample 1.
Definition order1 : UUID := uuid_sample 2.
Definition pay2 : UUID := uuid_sample 3.
Definition order2 : UUID := uuid_sample 4.
Definition first_payment : Payment := MkPayment pay1 order1 buyer 500 StatusSuccess.
Definition second_payment : Payment := MkPayment pay2 order2 buyer 700 StatusSuccess.

Definition two_payments : PaySt :=
  MkPaySt (MkPayDB {[ order1 := first_payment; order2 := second_payment ]} []) [].

Definition buyer_ctx : Ctx := WithIdentity Background (MkIdentity (uuid_String buyer) RoleUser "").
Definition other_ctx : Ctx := WithIdentity Background (MkIdentity "someone-else" RoleUser "").
Definition order_ctx : Ctx := WithIdentity Background (MkIdentity "order-service" RoleService "").

Lemma empty_pay_ok : pay_ok (MkPayDB ∅ []) (MkPaySt (MkPayDB ∅ []) []).
Proof.
  split; [split; [split|..]|]; simpl; intros *; rewrite ?lookup_empty; try done.
  by intros ?%not_elem_of_nil.
Qed.

Lemma payment_invariant_witness :
  pay_ok (MkPayDB ∅ []) (w_st (snd (pay_serve_all
    [CallProcess None buyer_ctx (uuid_String order1) 500 "request";
     CallRefund buyer_ctx (uuid_String pay1) 0 "k"] calm (World 0 (MkPaySt (MkPayDB ∅ []) []))))).
Proof. apply payment_invariant. exact empty_pay_ok. Defined.

Lemma ProcessPayment_outcome_witness :
  exists q w', ProcessPayment order1 buyer 500 calm (World 0 (MkPaySt (MkPayDB ∅ []) [])) = (inr q, w') /\
    payments (y_db (w_st w')) !! order1 = Some q.
Proof.
  destruct (ProcessPayment_outcome order1 buyer 500 calm (World 0 (MkPaySt (MkPayDB ∅ []) [])))
    as (q & w' & Hrun & Hrow & _).
  - exact calm_no_faults.
  - exact (proj1 empty_pay_ok).
  - lia.
  - reflexivity.
  - by exists q, w'.
Defined.

Lemma refund_needs_owner_witness :
  w_st (snd (handler_Refund other_ctx (uuid_String pay1) 0 "k" calm (World 0 two_payments))) = two_payments.
Proof.
  apply (refund_needs_owner other_ctx "someone-else" (uuid_String pay1) 0 "k" calm (World 0 two_payments)).
  - reflexivity.
  - discriminate.
  - intros id p _ Hp. apply payment_by_id_Some in Hp as [_ [oid Hoid]].
    change (({[ order1 := first_payment; order2 := second_payment ]} : gmap UUID Payment) !! oid = Some p) in Hoid.
    apply lookup_insert_Some in Hoid as [[_ <-]|[_ Hoid]]; [discriminate|].
    apply lookup_singleton_Some in Hoid as [_ <-]. discriminate.
Defined.

Lemma service_subject_cannot_pay_witness :
  exists m, handler_ProcessPayment None order_ctx (uuid_String order1) 500 "request" calm (World 0 two_payments)
    = (inl (EStatus Internal m), World 0 two_payments).
Proof.
  apply (@service_subject_cannot_pay uuid_text uuid_text_laws None order_ctx). reflexivity.
Defined.

(** The first payment is refunded with a key, then the second with the same key. *)
Definition after_first_refund : world PaySt :=
  snd (handler_Refund buyer_ctx (uuid_String pay1) 0 "k" calm (World 10 two_payments)).

Definition second_refund : (error + Z) * world PaySt :=
  handler_Refund buyer_ctx (uuid_String pay2) 0 "k" calm after_first_refund.

(** An idempotency key is not tied to a payment: a refund request for a second
    payment under a key already used answers "refunded" although that payment
    keeps its status and no second refund exists. *)
Theorem refund_key_is_not_per_payment :
  fst second_refund = inr (statusToProto StatusRefunded) /\
  p_Status <$> payments (y_db (w_st (snd second_refund))) !! order2 = Some StatusSuccess /\
  length (refunds (y_db (w_st (snd second_refund)))) = 1%nat.
Proof. vm_compute. done. Qed.
