(* ===== verification/PaymentRaces.v ===== *)
(** * Concurrent transactions of payment-service

    [Payment.v] runs the transactions of ProcessPayment and Refund one after the
    other.  Here they run statement by statement at READ COMMITTED: plain reads see
    the committed tables and take no lock, an inserted order, id or idempotency key
    and an updated payment row stay locked until the transaction ends, and a
    conditional update looks again at the committed row once it has the lock. *)
From S2P Require Import Prelude Errors Effects Auth Payment PaymentFacts.

Section Races.
Context `{U : UuidLib}.

Inductive pay_tx :=
| TxProcess (payment : Payment) (fin : PStatus)
| TxRefund (id : UUID) (amount : Z) (key : string).

(** What the use case begins: a pending payment with a drawn final status. *)
Definition begun (x : pay_tx) : Prop :=
  match x with
  | TxProcess p fin => p_Status p = StatusPending /\ (fin = StatusSuccess \/ fin = StatusFailed)
  | TxRefund _ _ _ => True
  end.

Definition answer : Type := error + Payment * option Refund.

(** The next statement, with the values read and the rows written so far. *)
Inductive ppc :=
| QInsert
| QSelect
| QCas (row : Payment)
| QCommit (row : Payment)
| RKey
| RFound (existing : Refund)
| RGet
| RInsert (payment : Payment) (amount : Z)
| RCas (payment : Payment) (r : Refund)
| RCommit (row : Payment) (r : Refund)
| QDecided (row : option UUID) (key : option string) (res : answer)
| QDone (seen : option answer).

Definition pay_start (x : pay_tx) : ppc :=
  match x with TxProcess _ _ => QInsert | TxRefund _ _ key => if bool_decide (key = "") then RGet else RKey end.

(** The locks: the payment row by its order, the id of an inserted payment, the
    idempotency key of an inserted refund. *)
Definition row_lock (p : ppc) : option UUID :=
  match p with
  | QCas row | QCommit row | RCommit row _ => Some (p_OrderID row)
  | QDecided row _ _ => row
  | _ => None
  end.

Definition id_lock (p : ppc) : option UUID := match p with QCas row | QCommit row => Some (p_ID row) | _ => None end.

Definition refund_key (r : Refund) : option string :=
  if bool_decide (rf_IdempotencyKey r = "") then None else Some (rf_IdempotencyKey r).

Definition key_lock (p : ppc) : option string :=
  match p with RCas _ r | RCommit _ r => refund_key r | QDecided _ key _ => key | _ => None end.

Definition has_key (key : string) (d : PayDB) : bool :=
  negb (bool_decide (key = "")) && existsb (fun r => bool_decide (rf_IdempotencyKey r = key)) (refunds d).

(** The tables after the commits. *)
Definition pay_row_put (d : PayDB) (row : Payment) : PayDB := MkPayDB (<[p_OrderID row := row]> (payments d)) (refunds d).
Definition refund_put (d : PayDB) (row : Payment) (r : Refund) : PayDB :=
  MkPayDB (<[p_OrderID row := with_PStatus StatusRefunded row]> (payments d)) (refunds d ++ [r]).

(** One statement; [rf], [idf] and [kf]: no other transaction holds the row, the
    id, the key. *)
Inductive paystep (d : PayDB) (rf idf : UUID -> Prop) (kf : string -> Prop) : pay_tx -> bool -> ppc -> ppc -> PayDB -> Prop :=
| q_amount p fin :
    p_Amount p < 0 ->
    paystep d rf idf kf (TxProcess p fin) true QInsert
      (QDecided None None (inl (wrapf "create or get payment" (wrapf "insert payment" pg_check_violation)))) d
| q_conflict p fin q :
    0 <= p_Amount p -> payments d !! p_OrderID p = Some q -> paystep d rf idf kf (TxProcess p fin) true QInsert QSelect d
| q_id_taken p fin q :
    0 <= p_Amount p -> payments d !! p_OrderID p = None -> payment_by_id (p_ID p) d = Some q ->
    paystep d rf idf kf (TxProcess p fin) true QInsert
      (QDecided None None (inl (wrapf "create or get payment" (wrapf "insert payment" pg_unique_violation)))) d
| q_insert p fin :
    0 <= p_Amount p -> payments d !! p_OrderID p = None -> payment_by_id (p_ID p) d = None -> rf (p_OrderID p) -> idf (p_ID p) ->
    paystep d rf idf kf (TxProcess p fin) true QInsert (QCas p) d
| q_select p fin q :
    payments d !! p_OrderID p = Some q -> rf (p_OrderID p) -> p_Status q ≠ StatusPending ->
    paystep d rf idf kf (TxProcess p fin) true QSelect (QDecided (Some (p_OrderID p)) None (inr (q, None))) d
| q_select_pending p fin q :
    payments d !! p_OrderID p = Some q -> rf (p_OrderID p) -> p_Status q = StatusPending ->
    paystep d rf idf kf (TxProcess p fin) true QSelect (QCas q) d
| q_cas p fin row :
    paystep d rf idf kf (TxProcess p fin) true (QCas row) (QCommit (with_PStatus fin row)) d
| q_commit p fin row :
    paystep d rf idf kf (TxProcess p fin) true (QCommit row) (QDone (Some (inr (row, None)))) (pay_row_put d row)
| q_commit_lost p fin row :
    paystep d rf idf kf (TxProcess p fin) false (QCommit row) (QDone None) (pay_row_put d row)
| r_key_found id amt key r :
    head (filter (fun r => rf_IdempotencyKey r = key) (refunds d)) = Some r ->
    paystep d rf idf kf (TxRefund id amt key) true RKey (RFound r) d
| r_key_new id amt key :
    head (filter (fun r => rf_IdempotencyKey r = key) (refunds d)) = None ->
    paystep d rf idf kf (TxRefund id amt key) true RKey RGet d
| r_found id amt key r p :
    payment_by_id (rf_PaymentID r) d = Some p ->
    paystep d rf idf kf (TxRefund id amt key) true (RFound r) (QDecided None None (inr (p, Some r))) d
| r_found_missing id amt key r :
    payment_by_id (rf_PaymentID r) d = None ->
    paystep d rf idf kf (TxRefund id amt key) true (RFound r)
      (QDecided None None (inl (wrapf "get payment for existing refund" (wrapS ErrNotFound "payment")))) d
| r_missing id amt key :
    payment_by_id id d = None ->
    paystep d rf idf kf (TxRefund id amt key) true RGet (QDecided None None (inl (wrapf "get payment" (wrapS ErrNotFound "payment")))) d
| r_status id amt key p :
    payment_by_id id d = Some p -> p_Status p ≠ StatusSuccess ->
    paystep d rf idf kf (TxRefund id amt key) true RGet
      (QDecided None None (inl (wrapS ErrFailedPrecondition ("payment status " +:+ PStatus_string (p_Status p) +:+ " cannot be refunded")))) d
| r_amount id amt key p :
    payment_by_id id d = Some p -> p_Status p = StatusSuccess -> p_Amount p < (if amt =? 0 then p_Amount p else amt) ->
    paystep d rf idf kf (TxRefund id amt key) true RGet
      (QDecided None None (inl (wrapS ErrInvalidArgument "refund amount exceeds payment amount"))) d
| r_get id amt key p :
    payment_by_id id d = Some p -> p_Status p = StatusSuccess -> (if amt =? 0 then p_Amount p else amt) <= p_Amount p ->
    paystep d rf idf kf (TxRefund id amt key) true RGet (RInsert p (if amt =? 0 then p_Amount p else amt)) d
| r_duplicate id amt key p a :
    has_key key d = true ->
    paystep d rf idf kf (TxRefund id amt key) true (RInsert p a)
      (QDecided None None (inl (wrapf "create refund" (wrapf "insert refund" pg_unique_violation)))) d
| r_foreign id amt key p a :
    has_key key d = false -> payment_by_id (p_ID p) d = None ->
    paystep d rf idf kf (TxRefund id amt key) true (RInsert p a)
      (QDecided None None (inl (wrapf "create refund" (wrapf "insert refund" pg_foreign_key_violation)))) d
| r_insert id amt key p a q rid t :
    has_key key d = false -> (key ≠ "" -> kf key) -> payment_by_id (p_ID p) d = Some q ->
    paystep d rf idf kf (TxRefund id amt key) true (RInsert p a) (RCas p (MkRefund rid (p_ID p) a "" StatusRefunded key t)) d
| r_beaten id amt key p r :
    (forall q, payment_by_id (p_ID p) d = Some q -> p_Status q ≠ StatusSuccess) ->
    paystep d rf idf kf (TxRefund id amt key) true (RCas p r)
      (QDecided None (refund_key r) (inl (wrapS ErrFailedPrecondition "payment already refunded or status changed"))) d
| r_cas id amt key p r q :
    payment_by_id (p_ID p) d = Some q -> p_Status q = StatusSuccess -> rf (p_OrderID q) ->
    paystep d rf idf kf (TxRefund id amt key) true (RCas p r) (RCommit q r) d
| r_commit id amt key row r :
    paystep d rf idf kf (TxRefund id amt key) true (RCommit row r)
      (QDone (Some (inr (with_PStatus StatusRefunded row, Some r)))) (refund_put d row r)
| r_commit_lost id amt key row r :
    paystep d rf idf kf (TxRefund id amt key) false (RCommit row r) (QDone None) (refund_put d row r)
| t_end x row key res :
    paystep d rf idf kf x true (QDecided row key res) (QDone (Some res)) d
| t_lost x p :
    (forall seen, p ≠ QDone seen) -> paystep d rf idf kf x false p (QDone None) d.

Record pay_race := MkPayRace { pa_db : PayDB; pa_ths : list (pay_tx * ppc) }.

Inductive pay_rstep : pay_race -> pay_race -> Prop :=
| pr_begin d ths x : begun x -> pay_rstep (MkPayRace d ths) (MkPayRace d (ths ++ [(x, pay_start x)]))
| pr_run d ths i x ok p p' d' :
    ths !! i = Some (x, p) ->
    paystep d (unlocked (fun th => row_lock th.2) ths i) (unlocked (fun th => id_lock th.2) ths i)
      (unlocked (fun th => key_lock th.2) ths i) x ok p p' d' ->
    pay_rstep (MkPayRace d ths) (MkPayRace d' (<[i := (x, p')]> ths)).

Definition pay_race_reachable (d0 : PayDB) (s : pay_race) : Prop := rtc pay_rstep (MkPayRace d0 []) s.

(** ** The invariant *)

(** No idempotency key is used twice. *)
Definition keys_once (d : PayDB) : Prop :=
  forall i j r1 r2, refunds d !! i = Some r1 -> refunds d !! j = Some r2 ->
    rf_IdempotencyKey r1 = rf_IdempotencyKey r2 -> rf_IdempotencyKey r1 ≠ "" -> i = j.

(** The payment a refund has read is still in the table, with its amount. *)
Definition still_there (d : PayDB) (p : Payment) : Prop :=
  exists oid q, payments d !! oid = Some q /\ p_ID q = p_ID p /\ p_Amount q = p_Amount p.

Definition refund_fits (p : Payment) (r : Refund) : Prop := rf_PaymentID r = p_ID p /\ rf_Amount r <= p_Amount p.

Definition new_in (d : PayDB) (row : Payment) : Prop := payments d !! p_OrderID row = None /\ payment_by_id (p_ID row) d = None.

Definition pay_fact (d : PayDB) (x : pay_tx) (p : ppc) : Prop :=
  match x, p with
  | TxProcess py fin, QCas row => row = py /\ new_in d row
  | TxProcess py fin, QCommit row => row = with_PStatus fin py /\ new_in d row
  | TxRefund _ _ _, RInsert py a => still_there d py /\ a <= p_Amount py
  | TxRefund _ _ _, RCas py r => still_there d py /\ refund_fits py r /\ has_key (rf_IdempotencyKey r) d = false
  | TxRefund _ _ _, RCommit row r =>
      payments d !! p_OrderID row = Some row /\ p_Status row = StatusSuccess /\ refund_fits row r /\ has_key (rf_IdempotencyKey r) d = false
  | _, (QCas _ | QCommit _ | RInsert _ _ | RCas _ _ | RCommit _ _) => False
  | _, _ => True
  end.

Record pay_races_ok (d0 : PayDB) (s : pay_race) : Prop := MkPayRacesOk {
  po_db : pay_ok d0 (MkPaySt (pa_db s) []);
  po_keys : keys_once (pa_db s);
  po_rows : exclusive (fun th => row_lock th.2) (pa_ths s);
  po_ids : exclusive (fun th => id_lock th.2) (pa_ths s);
  po_locks : exclusive (fun th => key_lock th.2) (pa_ths s);
  po_pcs : forall i x p, pa_ths s !! i = Some (x, p) -> begun x /\ pay_fact (pa_db s) x p
}.

(** ** What a commit leaves alone *)

Lemma payment_by_id_none d id : payment_by_id id d = None <-> forall oid p, payments d !! oid = Some p -> p_ID p ≠ id.
Proof.
  split; [intros Hn oid p Hp; by eapply payment_by_id_None|]. intros Hall.
  destruct (payment_by_id id d) as [p|] eqn:Hp; [|done]. apply payment_by_id_Some in Hp as [Hid [oid Hoid]].
  by destruct (Hall oid p Hoid).
Qed.

Lemma new_in_pay_row_put d row row' :
  new_in d row' -> p_OrderID row ≠ p_OrderID row' -> p_ID row ≠ p_ID row' -> new_in (pay_row_put d row) row'.
Proof.
  intros [Hn Hid] Ho Hi. split; simpl; [by rewrite lookup_insert_ne|]. rewrite payment_by_id_none in Hid |- *.
  simpl. intros oid p [[<- <-]|[_ Hp]]%lookup_insert_Some; [done|by eapply Hid].
Qed.

Lemma new_in_refund_put d row r row' :
  payments d !! p_OrderID row = Some row -> new_in d row' -> new_in (refund_put d row r) row'.
Proof.
  intros Hrow [Hn Hid]. rewrite payment_by_id_none in Hid. split; simpl.
  - rewrite lookup_insert_ne; [done|]. congruence.
  - rewrite payment_by_id_none. simpl. intros oid p [[<- <-]|[_ Hp]]%lookup_insert_Some; [by apply (Hid _ _ Hrow)|by eapply Hid].
Qed.

Lemma still_there_pay_row_put d row p : new_in d row -> still_there d p -> still_there (pay_row_put d row) p.
Proof.
  intros [Hn _] (oid & q & Hq & Hsame). exists oid, q. split; [|done]. simpl. rewrite lookup_insert_ne; [done|]. congruence.
Qed.

Lemma still_there_refund_put d row r p :
  payments d !! p_OrderID row = Some row -> still_there d p -> still_there (refund_put d row r) p.
Proof.
  intros Hrow (oid & q & Hq & Hid & Ham). destruct (decide (oid = p_OrderID row)) as [->|Hne].
  - simplify_eq. exists (p_OrderID row), (with_PStatus StatusRefunded row). simpl. by rewrite lookup_insert_eq.
  - exists oid, q. simpl. by rewrite lookup_insert_ne.
Qed.

Lemma has_key_refund_put d row r k :
  has_key k d = false -> (k ≠ "" -> rf_IdempotencyKey r ≠ k) -> has_key k (refund_put d row r) = false.
Proof.
  unfold has_key. simpl. rewrite existsb_app. simpl. case_bool_decide as Hk; [done|]. simpl. intros -> Hr. simpl.
  rewrite bool_decide_eq_false_2; [done|by apply Hr].
Qed.

(** The facts of the other transactions survive a commit. *)
Lemma pay_fact_pay_row_put d row y p :
  new_in d row -> pay_fact d y p -> (row_lock p = Some (p_OrderID row) -> False) -> (id_lock p = Some (p_ID row) -> False) ->
  pay_fact (pay_row_put d row) y p.
Proof.
  intros Hnew Hf Hrow Hid. destruct y as [py fin|id amt key], p; simpl in *; try done.
  - destruct Hf as [-> Hn]. split; [done|]. apply new_in_pay_row_put; [done|intros E; by rewrite E in Hrow; apply Hrow|intros E; by rewrite E in Hid; apply Hid].
  - destruct Hf as [-> Hn]. split; [done|]. apply new_in_pay_row_put; [done|intros E; by rewrite E in Hrow; apply Hrow|intros E; by rewrite E in Hid; apply Hid].
  - destruct Hf. split; [by apply still_there_pay_row_put|done].
  - destruct Hf as (? & ? & ?). split; [by apply still_there_pay_row_put|done].
  - destruct Hf as (H1 & H2). split; [|done]. rewrite lookup_insert_ne; [done|]. intros E. rewrite E in Hrow. by apply Hrow.
Qed.

Lemma pay_fact_refund_put d row r y p :
  payments d !! p_OrderID row = Some row -> pay_fact d y p -> (row_lock p = Some (p_OrderID row) -> False) ->
  (forall k, refund_key r = Some k -> key_lock p = Some k -> False) -> pay_fact (refund_put d row r) y p.
Proof.
  intros Hrow Hf Hl Hk. destruct y as [py fin|id amt key], p as [| |row'|row'| | | |py' a|py' r'|row' r'| |]; simpl in *; try done.
  - destruct Hf as [-> Hn]. split; [done|]. by apply new_in_refund_put.
  - destruct Hf as [-> Hn]. split; [done|]. by apply new_in_refund_put.
  - destruct Hf. split; [by apply still_there_refund_put|done].
  - destruct Hf as (H1 & H2 & H3). split_and!; [by apply still_there_refund_put|apply H2..|].
    apply has_key_refund_put; [done|]. intros Hne E. apply (Hk (rf_IdempotencyKey r')); unfold refund_key; rewrite ?E; by rewrite bool_decide_eq_false_2.
  - destruct Hf as (H1 & H2 & H3 & H4). split_and!; [|done|apply H3..|].
    + rewrite lookup_insert_ne; [done|]. intros E. rewrite E in Hl. by apply Hl.
    + apply has_key_refund_put; [done|]. intros Hne E. apply (Hk (rf_IdempotencyKey r')); unfold refund_key; rewrite ?E; by rewrite bool_decide_eq_false_2.
Qed.

(** ** Every step keeps the invariant *)

Lemma same_payment d p q : pay_db d -> payment_by_id (p_ID p) d = Some q -> still_there d p ->
  payments d !! p_OrderID q = Some q /\ p_ID q = p_ID p /\ p_Amount q = p_Amount p.
Proof.
  intros Hok [Hid [oid Hq]]%payment_by_id_Some (oid' & q' & Hq' & Hid' & Ham).
  rewrite (key_order _ (pay_keyed _ Hok) _ _ Hq). split; [done|]. split; [done|].
  assert (oid' = oid) as -> by (eapply (key_id _ (pay_keyed _ Hok)); [done|done|congruence]). by simplify_eq.
Qed.

Lemma paystep_pc d rf idf kf x ok p p' d' :
  paystep d rf idf kf x ok p p' d' -> pay_db d -> pay_fact d x p ->
  pay_fact d' x p' /\
  (forall k, row_lock p' = Some k -> row_lock p = Some k \/ rf k) /\
  (forall k, id_lock p' = Some k -> id_lock p = Some k \/ idf k) /\
  (forall k, key_lock p' = Some k -> key_lock p = Some k \/ kf k) /\
  (d' = d \/ (exists py fin row, x = TxProcess py fin /\ d' = pay_row_put d row /\ p = QCommit row) \/
   (exists row r, d' = refund_put d row r /\ p = RCommit row r)).
Proof.
  intros Hstep Hok Hf. destruct Hstep; simpl in *; try (split_and!; [by destruct x || done|by auto|by auto|by auto|by eauto 10]).
  - split_and!; [done|by split|..]; try by auto; intros k [= <-]; by auto.
  - split_and!; try by auto. intros k [= <-]. by auto.
  - pose proof (pay_settled _ Hok _ _ H) as Hset. unfold settled in Hset. by rewrite H1 in Hset.
  - destruct Hf as [-> Hn]. split_and!; try by auto.
  - split_and!; try by auto. apply payment_by_id_Some in H as [Hid [oid Hoid]]. by exists oid, p.
  - destruct Hf as [Hs Ha]. split_and!; try by auto.
    + unfold refund_key. simpl. intros k. case_bool_decide; [done|]. intros [= <-]. right. by auto.
  - destruct Hf as (Hs & [Hr1 Hr2] & Hk). destruct (same_payment _ _ _ Hok H Hs) as (Hq & Hid & Ham). split_and!; try by auto.
    + unfold refund_fits. split; [congruence|lia].
    + intros k [= <-]. by auto.
Qed.

Lemma keys_once_refund_put d row r : keys_once d -> has_key (rf_IdempotencyKey r) d = false -> keys_once (refund_put d row r).
Proof.
  intros Hk Hnew i j r1 r2. simpl.
  assert (Hold : forall k r', refunds d !! k = Some r' -> rf_IdempotencyKey r' = rf_IdempotencyKey r -> rf_IdempotencyKey r' = "").
  { intros k r' Hr' E. unfold has_key in Hnew. destruct (decide (rf_IdempotencyKey r' = "")) as [|Hne]; [done|]. exfalso.
    rewrite bool_decide_eq_false_2 in Hnew by congruence. simpl in Hnew. apply not_true_iff_false in Hnew. apply Hnew.
    apply existsb_exists. exists r'. split; [apply list_elem_of_In; by eapply list_elem_of_lookup_2|by apply bool_decide_eq_true]. }
  intros [H1|[-> ->]]%lookup_snoc_cases [H2|[-> ->]]%lookup_snoc_cases E Hne; [by eapply Hk| | |done].
  - by rewrite (Hold _ _ H1 E) in Hne.
  - rewrite E in Hne. by rewrite (Hold _ _ H2 (eq_sym E)) in Hne.
Qed.

Lemma pay_run_ok d0 d ths i x ok p p' d' :
  pay_races_ok d0 (MkPayRace d ths) -> ths !! i = Some (x, p) ->
  paystep d (unlocked (fun th => row_lock th.2) ths i) (unlocked (fun th => id_lock th.2) ths i)
    (unlocked (fun th => key_lock th.2) ths i) x ok p p' d' ->
  pay_races_ok d0 (MkPayRace d' (<[i := (x, p')]> ths)).
Proof.
  intros [Hdb Hkeys Hrows Hids Hlocks Hpcs] Hi Hstep. simpl in *. destruct (Hpcs _ _ _ Hi) as [Hbeg Hf].
  destruct (paystep_pc _ _ _ _ _ _ _ _ _ Hstep (proj1 Hdb) Hf) as (Hf' & Hr & Hid & Hk & Heff). clear Hstep.
  assert (Hlocked : exclusive (fun th : pay_tx * ppc => row_lock th.2) (<[i := (x, p')]> ths) /\
    exclusive (fun th : pay_tx * ppc => id_lock th.2) (<[i := (x, p')]> ths) /\
    exclusive (fun th : pay_tx * ppc => key_lock th.2) (<[i := (x, p')]> ths)).
  { split_and!; (eapply exclusive_insert; [done|exact Hi|simpl]); done. }
  destruct Hlocked as (HL1 & HL2 & HL3).
  assert (Hothers : (forall j y q, j ≠ i -> ths !! j = Some (y, q) -> pay_fact d y q -> pay_fact d' y q) ->
    forall j y q, <[i := (x, p')]> ths !! j = Some (y, q) -> begun y /\ pay_fact d' y q).
  { intros Hkeep j y q [[-> [= -> ->]]|[Hji Hj]]%lookup_insert_cases; [done|].
    destruct (Hpcs _ _ _ Hj) as [Hb Hq]. split; [done|by eapply Hkeep]. }
  destruct Heff as [->|[(py & fin & row & -> & -> & ->)|(row & r & -> & ->)]].
  - constructor; simpl; try done. apply Hothers. by intros.
  - simpl in Hf. destruct Hf as [-> Hnew], Hbeg as [Hst Hfin]. constructor; simpl; try done.
    + by apply (after_process_ok d0 (MkPaySt d []) py fin); [done|apply Hnew..|].
    + apply Hothers. intros j y q Hji Hj Hq. apply pay_fact_pay_row_put; [done|done| |].
      * intros E. by eapply (Hrows i _ (p_OrderID py) Hi eq_refl j (y, q)).
      * intros E. by eapply (Hids i _ (p_ID py) Hi eq_refl j (y, q)).
  - destruct x as [py fin|id amt key]; [done|]. simpl in Hf. destruct Hf as (Hrow & Hst & [Hfit1 Hfit2] & Hnew). constructor; simpl; try done.
    + by apply (after_refund_ok d0 (MkPaySt d []) (p_OrderID row) row r).
    + by apply keys_once_refund_put.
    + apply Hothers. intros j y q Hji Hj Hq. apply pay_fact_refund_put; [done|done| |].
      * intros E. by eapply (Hrows i _ (p_OrderID row) Hi eq_refl j (y, q)).
      * intros k Hkey E. by eapply (Hlocks i _ k Hi Hkey j (y, q)).
Qed.

Lemma pay_races_reachable_ok d0 s : pay_db d0 -> keys_once d0 -> pay_race_reachable d0 s -> pay_races_ok d0 s.
Proof.
  intros Hdb Hkeys. unfold pay_race_reachable. revert s. apply rtc_ind_r.
  - constructor; simpl; try apply exclusive_nil; try done. split; [done|]. intros oid p Hp. exists p. split; [done|apply advances_refl].
  - intros s s' _ Hs Hok. destruct Hs as [d ths x Hx|]; [|by eapply pay_run_ok].
    destruct Hok as [H1 H2 H3 H4 H5 H6]. simpl in *.
    assert (Hlocks : row_lock (pay_start x) = None /\ id_lock (pay_start x) = None /\ key_lock (pay_start x) = None)
      by (unfold pay_start; destruct x; [done|by case_bool_decide]).
    destruct Hlocks as (L1 & L2 & L3). constructor; simpl; try done; try (by apply exclusive_snoc).
    intros i y p [Hi|[-> [= -> ->]]]%lookup_snoc_cases; [by eapply H6|]. split; [done|].
    unfold pay_start. destruct x; [done|]. by case_bool_decide.
Qed.

(** C12. Concurrency costs no money: whatever the interleaving of payments and
    refunds at their statements, with connections lost anywhere, every order has at
    most one payment, every payment at most one refund and never above its amount,
    no idempotency key is used twice, and a payment only moves from success to
    refunded. *)
Theorem payment_races_safe d0 s :
  pay_race_reachable d0 s -> pay_db d0 -> keys_once d0 -> pay_db (pa_db s) /\ kept d0 (pa_db s) /\ keys_once (pa_db s).
Proof. intros Hr Hdb Hk. destruct (pay_races_reachable_ok d0 s Hdb Hk Hr) as [[H1 H2] H3 _ _ _ _]. done. Qed.
End Races.

(** ** Two refunds with one key *)

Section Samples.
#[local] Existing Instance uuid_text.

Definition paid_db : PayDB := MkPayDB {[ order1 := first_payment ]} [].

Lemma paid_db_lookup oid p : payments paid_db !! oid = Some p -> oid = order1 /\ p = first_payment.
Proof. unfold paid_db. simpl. intros [<- <-]%lookup_singleton_Some. done. Qed.

Lemma paid_db_ok : pay_db paid_db.
Proof.
  split; [split| |].
  - by intros oid p [-> ->]%paid_db_lookup.
  - by intros k1 k2 p1 p2 [-> ->]%paid_db_lookup [-> ->]%paid_db_lookup.
  - by intros oid p [-> ->]%paid_db_lookup.
  - by intros r Hr%not_elem_of_nil.
Qed.

Lemma paid_by_id : payment_by_id pay1 paid_db = Some first_payment.
Proof.
  destruct (payment_by_id pay1 paid_db) as [p|] eqn:E; [by apply payment_by_id_Some in E as [_ [oid [-> ->]%paid_db_lookup]]|].
  by destruct (payment_by_id_None _ _ order1 first_payment E).
Qed.

Definition retry_tx : pay_tx := TxRefund pay1 0 "k".
Definition the_refund : Refund := MkRefund pay2 pay1 500 "" StatusRefunded "k" 9.
Definition key_conflict : error := wrapf "create refund" (wrapf "insert refund" pg_unique_violation).

Definition raced_refunds : pay_race :=
  MkPayRace (refund_put paid_db first_payment the_refund)
    [(retry_tx, QDone (Some (inr (with_PStatus StatusRefunded first_payment, Some the_refund)))); (retry_tx, QDone (Some (inl key_conflict)))].

Ltac pgo i := eapply rtc_l; [eapply (pr_run _ _ i _ true); [reflexivity|]|]; [..|cbn [insert list_insert app]].

Lemma raced_refunds_reachable : pay_race_reachable paid_db raced_refunds.
Proof.
  unfold pay_race_reachable, raced_refunds.
  eapply rtc_l; [by apply (pr_begin _ _ retry_tx)|]. eapply rtc_l; [by apply (pr_begin _ _ retry_tx)|].
  cbn [app pay_start retry_tx]. rewrite bool_decide_eq_false_2 by done.
  pgo 0%nat. { by apply r_key_new. }
  pgo 1%nat. { by apply r_key_new. }
  pgo 0%nat. { by apply (r_get _ _ _ _ _ _ _ _ paid_by_id). }
  pgo 1%nat. { by apply (r_get _ _ _ _ _ _ _ _ paid_by_id). }
  pgo 0%nat. { apply (r_insert _ _ _ _ _ _ _ _ _ first_payment pay2 9); [reflexivity| |apply paid_by_id]. intros _ [|[|j]] u Hne Hj; by simplify_eq/=. }
  pgo 0%nat. { apply (r_cas _ _ _ _ _ _ _ _ _ first_payment); [apply paid_by_id|done|]. intros [|[|j]] u Hne Hj; by simplify_eq/=. }
  pgo 0%nat. { apply r_commit. }
  pgo 1%nat. { by apply r_duplicate. }
  pgo 1%nat. { apply t_end. }
  apply rtc_refl.
Qed.

Lemma payment_races_safe_witness :
  pay_db (pa_db raced_refunds) /\ kept paid_db (pa_db raced_refunds) /\ keys_once (pa_db raced_refunds).
Proof. apply (payment_races_safe paid_db raced_refunds raced_refunds_reachable paid_db_ok). by intros i j r1 r2 Hi. Defined.

Definition paid_world : world PaySt := World 0 (MkPaySt paid_db []).
Definition one_refund : (error + Payment * Refund) * world PaySt := uc_Refund pay1 0 "k" calm paid_world.

(** What an answer shows: the refund's id, its amount and the payment's status. *)
Definition shown (r : error + Payment * Refund) : option (string * Z * PStatus) :=
  match r with inr (p, r) => Some (uuid_String (rf_ID r), rf_Amount r, p_Status p) | inl _ => None end.

(** The idempotency key does not hold against a concurrent retry: a second Refund
    with the key of one that is in flight fails on the unique index, where the same
    two requests one after the other get the same refund. *)
Theorem racing_refund_fails :
  (exists s, pay_race_reachable paid_db s /\ pa_ths s !! 1%nat = Some (retry_tx, QDone (Some (inl key_conflict)))) /\
  shown (fst (uc_Refund pay1 0 "k" calm (snd one_refund))) = shown (fst one_refund) /\ shown (fst one_refund) ≠ None.
Proof.
  split; [exists raced_refunds; split; [exact raced_refunds_reachable|reflexivity]|].
  split; [vm_compute; reflexivity|vm_compute; discriminate].
Qed.
End Samples.
