(* ===== verification/System.v ===== *)
(** * The services together

    The gRPC clients of order-service implemented over the handlers of
    inventory-service and payment-service, the proof that they satisfy what the
    saga relies on, and what follows for the composed system. *)
From S2P Require Import Prelude Errors Effects Auth Inventory InventoryFacts Payment PaymentFacts OrderDomain OrderRepo Saga SagaFacts SagaFrame OrderService SagaRuns SagaRaces.

Section System.
Context `{U : UuidLib}.

(** The state of the two services. *)
Definition sys : Type := InvSt * PaySt.

Definition inv_lens : lens sys InvSt := Lens fst (fun t s => (t, snd s)).
Definition pay_lens : lens sys PaySt := Lens snd (fun t s => (fst s, t)).

#[global] Instance inv_lens_laws : LensLaws inv_lens.
Proof. split; by intros; destruct s. Qed.

#[global] Instance pay_lens_laws : LensLaws pay_lens.
Proof. split; by intros; destruct s. Qed.

(** The request contexts that the two servers see, and their configuration. *)
Context (redis : bool) (dlq : option DLQProducer) (inv_ctx pay_ctx : Ctx).

(** The printed form of a ProcessPaymentRequest. *)
Context (pb_text : string -> Z -> string -> string).

(** ** grpcclient/inventory.go and grpcclient/payment.go *)

Definition client_Reserve (p : string) (q : Z) (oid key : string) : M sys unit :=
  do* zoom inv_lens (rpc (handler_Reserve redis inv_ctx (MkStockRequest p q oid))) in ret tt.

Definition client_Release (p : string) (q : Z) (oid key : string) : M sys unit :=
  do* zoom inv_lens (rpc (handler_Release redis inv_ctx (MkStockRequest p q oid))) in ret tt.

(** Returns [resp.PaymentId]; the status of the response is not read. *)
Definition client_ProcessPayment (oid : string) (amount : Z) (key : string) : M sys string :=
  let* resp := zoom pay_lens (rpc (handler_ProcessPayment dlq pay_ctx oid amount (pb_text oid amount key))) in
  ret (fst resp).

Definition client_Refund (pid key : string) : M sys unit :=
  do* zoom pay_lens (rpc (handler_Refund pay_ctx pid 0 key)) in ret tt.

#[local] Instance grpc_inventory : InventoryClient sys :=
  {| cl_Reserve := client_Reserve; cl_Release := client_Release |}.

#[local] Instance grpc_payment : PaymentClient sys :=
  {| cl_ProcessPayment := client_ProcessPayment; cl_Refund := client_Refund |}.

(** ** What the saga relies on *)

Definition sys_holds (e : sys) (oid p : UUID) (q : Z) : Prop :=
  res_row (i_db (fst e)) oid p = Some (MkRow q "reserved").

Definition sys_payment_at (e : sys) (oid : UUID) (pid : string) : Prop :=
  exists row, payments (y_db (snd e)) !! oid = Some row /\ uuid_String (p_ID row) = pid.

Lemma zoom_run {S T A} (l : lens S T) (m : M T A) o w r w' :
  zoom l m o w = (r, w') ->
  exists w1, m o (World (w_tick w) (l_get l (w_st w))) = (r, w1) /\ w_st w' = l_put l (w_st w1) (w_st w).
Proof. unfold zoom. destruct (m o _) as [r' w1] eqn:Hm. intros [= <- <-]. simpl. eauto. Qed.

(** A row that is reserved stays so under every call but its own release. *)
Lemma reserve_keeps_row k row p q oid :
  ok_pres (fun s => reservations (i_db s) !! k = Some row) (reserve p q oid).
Proof.
  intros o w [] w' HI H. apply reserve_ok in H as (_ & [[_ ->]|(Hn & a & r & id & t & _ & _ & _ & ->)]); [done|].
  cbn. rewrite lookup_insert_ne; [done|]. intros Heq. unfold res_row in Hn. subst k. by rewrite HI in Hn.
Qed.

Lemma db_only {A} (I : InvDB -> Prop) (m : M InvSt A) :
  (forall d, pres (fun s => i_db s = d) m) -> pres (fun s => I (i_db s)) m.
Proof. intros Hm o w HI. by rewrite (Hm (i_db (w_st w)) o w eq_refl). Qed.

Lemma Reserve_keeps_row k row p q oid :
  pres (fun s => reservations (i_db s) !! k = Some row) (Reserve redis p q oid).
Proof.
  unfold Reserve. destruct (q <=? 0); [auto with go_pres|]. destruct (uuid_Parse oid); [|auto with go_pres].
  apply pres_bind; [apply pres_wrap_err, pres_Run, reserve_keeps_row|intros _].
  apply (db_only (fun d => reservations d !! k = Some row)). intros d.
  apply pres_bind; [apply writeStockToCache_db|intros; apply publishInventoryEvent_db].
Qed.

Lemma handler_Reserve_keeps_row k row req :
  pres (fun s => reservations (i_db s) !! k = Some row) (handler_Reserve redis inv_ctx req).
Proof.
  unfold handler_Reserve. destruct (RequireRole _ _); [auto with go_pres|].
  destruct (uuid_Parse (rq_ProductId req)); [|auto with go_pres].
  destruct (uuid_Parse (rq_OrderId req)); [|auto with go_pres].
  apply pres_bind; [apply pres_wrap_err, Reserve_keeps_row|intros; apply pres_ret].
Qed.

(** A successful call of the handler is a successful transaction. *)
Lemma handler_Reserve_ok `{HL : !UuidLaws} req o w b w' :
  handler_Reserve redis inv_ctx req o w = (inr b, w') ->
  exists ou pu, uuid_Parse (rq_OrderId req) = Some ou /\ uuid_Parse (rq_ProductId req) = Some pu /\
    res_row (i_db (w_st w')) ou pu = Some (MkRow (rq_Quantity req) "reserved").
Proof.
  unfold handler_Reserve. destruct (RequireRole _ _); [done|].
  destruct (uuid_Parse (rq_ProductId req)) as [pu|]; [|done].
  destruct (uuid_Parse (rq_OrderId req)) as [ou|]; [|done].
  intros H. apply bind_ok in H as (u & w1 & H & Hret). unfold ret in Hret. simplify_eq.
  apply wrap_err_ok in H. unfold Reserve in H. destruct (rq_Quantity req <=? 0); [done|].
  rewrite uuid_Parse_String in H. apply bind_ok in H as (u1 & w2 & Hrun & H).
  apply wrap_err_ok, Run_ok in Hrun as (w3 & Hrun & Hw2).
  assert (Hdb : i_db (w_st w') = i_db (w_st w2)).
  { destruct (cache_then_publish_total redis pu o w2) as (w4 & Hc & Hdb). rewrite Hc in H. by simplify_eq. }
  exists ou, pu. split_and!; [done|done|]. rewrite Hdb, Hw2. unfold res_row.
  apply reserve_ok in Hrun as (_ & [[Hrow ->]|(_ & a & r & id & t & _ & _ & _ & ->)]); [exact Hrow|].
  cbn. by rewrite lookup_insert_eq.
Qed.

Lemma process_tx_row p fin o w q w' :
  process_tx p fin o w = (inr q, w') ->
  exists row, payments (y_db (w_st w')) !! p_OrderID p = Some row /\ p_ID row = p_ID q.
Proof.
  unfold process_tx. intros H. apply bind_ok in H as (ex & w1 & Hget & H).
  assert (Hrow : payments (y_db (w_st w1)) !! p_OrderID p = Some ex).
  { apply wrap_err_ok, CreateOrGet_ok in Hget as [[Hrow ->]|(_ & _ & -> & ->)]; [done|]. cbn. apply lookup_insert_eq. }
  case_bool_decide; [|unfold ret in H; simplify_eq; eauto].
  apply bind_ok in H as (b & w2 & Hupd & H). apply wrap_err_ok, wrap_err_ok, io_ok in Hupd.
  injection Hupd as _ Hw2. unfold ret in H. simplify_eq. rewrite <- Hw2. cbn. rewrite lookup_fmap, Hrow. simpl.
  eexists. split; [done|]. by destruct (matches _ _ _).
Qed.

Lemma handler_ProcessPayment_ok oid amt text o w resp w' :
  handler_ProcessPayment dlq pay_ctx oid amt text o w = (inr resp, w') ->
  exists ou row, uuid_Parse oid = Some ou /\ payments (y_db (w_st w')) !! ou = Some row /\
    uuid_String (p_ID row) = fst resp.
Proof.
  unfold handler_ProcessPayment. destruct (GetUserID pay_ctx); [|done].
  destruct (uuid_Parse oid) as [ou|]; [|done]. destruct (uuid_Parse s); [|done].
  intros H. apply bind_ok in H as (r & w1 & Hr & H). unfold attempt in Hr.
  destruct (ProcessPayment ou u amt o w) as [r' w2] eqn:Hp. injection Hr as -> ->.
  destruct r as [e|q]. { apply bind_ok in H as (x & w3 & _ & H). done. }
  unfold ret in H. simplify_eq. unfold ProcessPayment in Hp.
  apply bind_ok in Hp as (ok & w3 & _ & Hp). apply bind_ok in Hp as (id & w4 & _ & Hp).
  apply Run_ok in Hp as (w5 & Hp & Hw'). apply process_tx_row in Hp as (row & Hrow & Hid). simpl in Hrow.
  exists ou, row. rewrite Hw'. split_and!; [done|done|]. simpl. congruence.
Qed.

#[local] Program Instance sys_laws `{HL : !UuidLaws} : SagaClientLaws sys := {|
  holds_at := sys_holds; payment_at := sys_payment_at
|}.
Next Obligation.
  intros HL p q oid k o w u w' H. cbn in H. apply bind_ok in H as (b & w1 & H & Hret). unfold ret in Hret. simplify_eq.
  apply zoom_run in H as (w2 & H & Hw'). apply rpc_ok, handler_Reserve_ok in H as (ou & pu & Ho & Hp & Hrow).
  simpl in *. rewrite uuid_Parse_String in Ho, Hp. simplify_eq. unfold sys_holds. by rewrite Hw'.
Qed.
Next Obligation.
  intros HL oid' p' q' p q oid k. cbn. apply pres_bind; [|intros; apply pres_ret].
  apply (pres_zoom inv_lens (fun s => reservations (i_db s) !! (oid', p') = Some (MkRow q' "reserved"))).
  apply pres_rpc, handler_Reserve_keeps_row.
Qed.
Next Obligation.
  intros HL oid' p' q' oid a k. cbn. apply pres_bind; [|intros; apply pres_ret].
  intros o w Hrow. unfold sys_holds in *.
  by rewrite (pres_zoom_other pay_lens (fun s : sys => fst s) _ (fst (w_st w)) (fun _ _ => eq_refl) o w eq_refl).
Qed.
Next Obligation.
  intros HL oid a k o w pid w' H. cbn in H. apply bind_ok in H as (resp & w1 & H & Hret). unfold ret in Hret. simplify_eq.
  apply zoom_run in H as (w2 & H & Hw'). apply rpc_ok, handler_ProcessPayment_ok in H as (ou & row & Ho & Hrow & Hid).
  rewrite uuid_Parse_String in Ho. simplify_eq. exists row. rewrite Hw'. by split.
Qed.

(** *** Several instances of order-service call at once *)

Lemma process_tx_keeps_payment p fin oid pid :
  ok_pres (fun s => exists row, payments (y_db s) !! oid = Some row /\ uuid_String (p_ID row) = pid) (process_tx p fin).
Proof.
  intros o w q w' (row & Hrow & Hid) H. unfold process_tx in H. apply bind_ok in H as (ex & w1 & Hget & H).
  assert (Hrow1 : payments (y_db (w_st w1)) !! oid = Some row).
  { apply wrap_err_ok, CreateOrGet_ok in Hget as [[_ ->]|(Hn & _ & -> & ->)]; [done|]. cbn. rewrite lookup_insert_ne; congruence. }
  case_bool_decide; [|unfold ret in H; simplify_eq; by exists row].
  apply bind_ok in H as (b & w2 & Hupd & H). apply wrap_err_ok, wrap_err_ok, io_ok in Hupd.
  injection Hupd as _ Hw2. unfold ret in H. simplify_eq. rewrite <- Hw2. cbn. rewrite lookup_fmap, Hrow1. simpl.
  eexists. split; [done|]. by destruct (matches _ _ _).
Qed.

Lemma handler_ProcessPayment_keeps_payment oid pid order_id amt text :
  pres (fun s => exists row, payments (y_db s) !! oid = Some row /\ uuid_String (p_ID row) = pid)
    (handler_ProcessPayment dlq pay_ctx order_id amt text).
Proof.
  unfold handler_ProcessPayment. destruct (GetUserID pay_ctx); [|apply pres_throw].
  destruct (uuid_Parse order_id); [|apply pres_throw]. destruct (uuid_Parse s); [|apply pres_throw].
  apply pres_bind.
  - apply pres_attempt. unfold ProcessPayment. apply pres_bind; [apply pres_rand|intros ok].
    apply pres_bind; [apply pres_new_uuid|intros id]. apply pres_Run, process_tx_keeps_payment.
  - intros [err|q]; [|apply pres_ret]. apply pres_bind; [|intros; apply pres_throw].
    unfold SendToDLQ, dlq_send. destruct dlq as [pr|]; [|auto with go_pres].
    apply pres_bind; [|intros; apply pres_ret]. apply pres_attempt. destruct (dp_connected pr); [|apply pres_ret].
    apply pres_bind; [apply pres_now|intros t]. by apply pres_io.
Qed.

#[local] Instance sys_payments_stay `{HL : !UuidLaws} : PaymentsStay (E:=sys).
Proof.
  split.
  - intros oid' pid p q oid k. cbn. apply pres_bind; [|intros; apply pres_ret].
    intros o w Hrow. unfold sys_payment_at in *.
    by rewrite (pres_zoom_other inv_lens (fun s : sys => snd s) _ (snd (w_st w)) (fun _ _ => eq_refl) o w eq_refl).
  - intros oid' pid oid a k. cbn. apply pres_bind; [|intros; apply pres_ret].
    apply (pres_zoom pay_lens (fun s => exists row, payments (y_db s) !! oid' = Some row /\ uuid_String (p_ID row) = pid)).
    apply pres_rpc, handler_ProcessPayment_keeps_payment.
Qed.

(** *** The amounts in the payment table *)

Section Amounts.
Context (oid : UUID) (a : Z).

(** The payment of the order, if there is one, is of amount [a]. *)
Definition amount_is (s : PaySt) : Prop := forall row, payments (y_db s) !! oid = Some row -> p_Amount row = a.

Lemma amount_CreateOrGet p : (p_OrderID p = oid -> p_Amount p = a) -> pres amount_is (CreateOrGet p).
Proof.
  intros Hp. unfold CreateOrGet. apply pres_bind; [|intros [q|]; auto with go_pres].
  apply pres_wrap_err, pres_io. intros s Hs. unfold insert_payment. simpl. destruct (payments (y_db s) !! p_OrderID p); [by destruct (p_Amount p <? 0)|].
  destruct (p_Amount p <? 0); [done|]. destruct (payment_by_id (p_ID p) (y_db s)); [done|]. intros row. simpl.
  intros [[<- <-]|[_ Hrow]]%lookup_insert_Some; [by apply Hp|by apply Hs].
Qed.

Lemma amount_UpdateStatusIf id new old : pres amount_is (UpdateStatusIf id new old).
Proof.
  apply pres_wrap_err, pres_io. intros s Hs row. simpl. rewrite lookup_fmap.
  destruct (payments (y_db s) !! oid) as [p|] eqn:Hp; [|done]. intros [= <-]. specialize (Hs p Hp). by destruct (matches id old p).
Qed.

Lemma amount_CreateRefund r : pres amount_is (CreateRefund r).
Proof.
  apply pres_wrap_err, pres_io. intros s Hs. destruct (fits_varchar _ _); simpl; [|done]. destruct (existsb _ _); [done|].
  destruct (_ && _); [done|]. by destruct (payment_by_id _ _).
Qed.

Lemma amount_dlq c ev pl re : pres amount_is (SendToDLQ c ev pl re).
Proof.
  unfold SendToDLQ, dlq_send. destruct c as [pr|]; [|auto with go_pres]. apply pres_bind; [|intros; apply pres_ret].
  apply pres_attempt. destruct (dp_connected pr); [|apply pres_ret]. apply pres_bind; [apply pres_now|intros t]. by apply pres_io.
Qed.

#[local] Hint Resolve amount_UpdateStatusIf amount_CreateRefund amount_dlq : go_pres.

Lemma amount_ProcessPayment c order_id amt text :
  (uuid_Parse order_id = Some oid -> amt = a) -> pres amount_is (handler_ProcessPayment c pay_ctx order_id amt text).
Proof.
  intros Hamt. unfold handler_ProcessPayment. destruct (GetUserID pay_ctx); [|apply pres_throw].
  destruct (uuid_Parse order_id) as [ou|]; [|apply pres_throw]. destruct (uuid_Parse s); [|apply pres_throw].
  assert (Htx : forall id fin, pres amount_is (process_tx (MkPayment id ou u amt StatusPending) fin)).
  { intros id fin. unfold process_tx. apply pres_bind; [|auto 20 with go_pres].
    apply pres_wrap_err, amount_CreateOrGet. simpl. intros ->. by apply Hamt. }
  apply pres_bind; [|auto 20 with go_pres]. apply pres_attempt. unfold ProcessPayment.
  apply pres_bind; [apply pres_rand|intros ok]. apply pres_bind; [apply pres_new_uuid|intros id]. by apply pres_Run, pres_ok_pres.
Qed.

Lemma amount_Refund pid amt key : pres amount_is (handler_Refund pay_ctx pid amt key).
Proof.
  unfold handler_Refund. destruct (GetUserID pay_ctx); [|apply pres_throw]. destruct (uuid_Parse pid); [|apply pres_throw].
  assert (Hrp : pres amount_is (refund_payment u amt key)) by (unfold refund_payment, PayRepo_GetByID; auto 30 with go_pres).
  assert (Htx : pres amount_is (refund_tx u amt key)).
  { unfold refund_tx, GetRefundByIdempotencyKey, PayRepo_GetByID. case_bool_decide; [done|]. auto 20 with go_pres. }
  assert (Huc : pres amount_is (uc_Refund u amt key)) by (by apply pres_Run, pres_ok_pres).
  unfold uc_GetByID, PayRepo_GetByID. auto 20 with go_pres.
Qed.
End Amounts.

#[local] Program Instance sys_amounts `{HL : !UuidLaws} : PaymentAmounts sys := {| billed e oid a := amount_is oid a (snd e) |}.
Next Obligation.
  intros HL oid a p q oid' k. cbn. apply pres_bind; [|intros; apply pres_ret]. intros o w Hw.
  by rewrite (pres_zoom_other inv_lens (fun s : sys => snd s) _ (snd (w_st w)) (fun _ _ => eq_refl) o w eq_refl).
Qed.
Next Obligation.
  intros HL oid a p q oid' k. cbn. apply pres_bind; [|intros; apply pres_ret]. intros o w Hw.
  by rewrite (pres_zoom_other inv_lens (fun s : sys => snd s) _ (snd (w_st w)) (fun _ _ => eq_refl) o w eq_refl).
Qed.
Next Obligation.
  intros HL oid a k. cbn. apply pres_bind; [|intros; apply pres_ret].
  apply (pres_zoom pay_lens (amount_is oid a)), pres_rpc, amount_ProcessPayment. done.
Qed.
Next Obligation.
  intros HL oid a pid k. cbn. apply pres_bind; [|intros; apply pres_ret].
  apply (pres_zoom pay_lens (amount_is oid a)), pres_rpc, amount_Refund.
Qed.

(** What the tables of inventory- and payment-service hold for an order: the units of
    every item, and a payment of the total with this id. *)
Definition held_and_billed (order : Order) (e : sys) (paymentID : string) : Prop :=
  Forall (fun item => reservations (i_db (fst e)) !! (o_ID order, it_ProductID item) =
                      Some (MkRow (int32 (it_Quantity item)) "reserved")) (o_Items order) /\
  exists p, payments (y_db (snd e)) !! o_ID order = Some p /\ uuid_String (p_ID p) = paymentID /\ p_Amount p = o_TotalAmount order.

Lemma held_and_billed_intro `{HL : !UuidLaws} order e l pid :
  all_reserved (L:=sys_laws) order e l -> payment_at (SagaClientLaws:=sys_laws) e (o_ID order) pid ->
  amount_is (o_ID order) (o_TotalAmount order) (snd e) -> held_and_billed order e pid.
Proof.
  intros [_ Hall] (p & Hp & Hid) Ha. rewrite take_ge in Hall by done. split; [exact Hall|]. exists p. split_and!; [done|done|by apply Ha].
Qed.

(** C1. The three services together, under every failure pattern.  ProcessOrder starts
    without a saga row, or with one whose recorded reservations are held for a prefix of
    the items as they are passed to it, and no payment of another amount is recorded for
    the order.  When it has returned, with or without an error, and the saga row says
    confirmed, the inventory tables hold every item for the order, the payment table has
    a payment of the total under the saga's payment id, and the order is paid.  The
    payment may be one that payment-service has declined. *)
Theorem ProcessOrder_confirms_soundly `{HL : !UuidLaws} order key o (w : world (OrderSt sys)) row :
  resumable order (w_st w) -> amount_is (o_ID order) (o_TotalAmount order) (snd (t_ext (w_st w))) ->
  let s' := w_st (snd (ProcessOrder order key o w)) in
  t_sagas s' !! o_ID order = Some row -> sr_Status row = SagaStatusConfirmed ->
  held_and_billed order (t_ext s') (sr_PaymentID row) /\
  exists orow, t_orders s' !! o_ID order = Some orow /\ or_Status orow = OrderStatusPaid.
Proof.
  intros Hres Ha s' Hrow Hst. destruct (ProcessOrder_sound order key o w Hres row Hrow Hst) as (Hall & Hpaid & Horow).
  split; [|done]. eapply held_and_billed_intro; [exact Hall|exact Hpaid|]. exact (frame_ProcessOrder order _ (framed_billed order) key o w Ha).
Qed.

(** C13. The same of any number of instances of order-service at once, requests and recovery
    passes, call by call, with any failures, crashes and status changes in between, as
    long as none of them compensates.  The items must come back from the repository, which
    sorts them by their ids, in the order of the request: recovery_skips_item of SagaRuns.v
    shows what happens otherwise. *)
Theorem racing_system_confirms_soundly `{HL : !UuidLaws} order (s0 : OrderSt sys) c row :
  t_sagas s0 !! o_ID order = None -> payments (y_db (snd (t_ext s0))) !! o_ID order = None -> reads_back order s0 ->
  rtc (race_step order true) (MkCrowd s0 []) c ->
  t_sagas (cr_st c) !! o_ID order = Some row -> sr_Status row = SagaStatusConfirmed ->
  held_and_billed order (t_ext (cr_st c)) (sr_PaymentID row).
Proof.
  intros Hnew Hnopay Hback Hrun Hrow Hst.
  destruct (racing_confirmed order s0 c row) as [Hall Hpaid]; [intros r Hr; by rewrite Hnew in Hr|done..|].
  eapply held_and_billed_intro; [exact Hall|exact Hpaid|].
  assert (H0 : billed (PaymentAmounts:=sys_amounts) (t_ext s0) (o_ID order) (o_TotalAmount order)) by (intros p Hp; by rewrite Hnopay in Hp).
  exact (racing_billed order s0 c Hback Hrun H0).
Qed.

(** ** The calm laws *)

Context `{HL : !UuidLaws} (T : gmap UUID Z) (Tfit : forall p t, T !! p = Some t -> t < 2 ^ 31).
Context (Hrole : RequireRole inv_ctx [RoleService] = None).

Lemma handler_Reserve_keeps req : pres (stock_ok T) (handler_Reserve redis inv_ctx req).
Proof.
  unfold handler_Reserve. destruct (RequireRole _ _); [auto with go_pres|].
  destruct (uuid_Parse _); [|auto with go_pres]. destruct (uuid_Parse _); [|auto with go_pres].
  apply pres_bind; [apply pres_wrap_err, Reserve_keeps|intros; apply pres_ret].
Qed.

Lemma handler_Release_keeps req : pres (stock_ok T) (handler_Release redis inv_ctx req).
Proof.
  unfold handler_Release. destruct (RequireRole _ _); [auto with go_pres|].
  destruct (uuid_Parse _); [|auto with go_pres]. destruct (uuid_Parse _); [|auto with go_pres].
  apply pres_bind; [apply pres_wrap_err, Release_keeps|intros; apply pres_ret].
Qed.

(** A transaction followed by the cache updates, when nothing fails: an error
    leaves the tables as they were. *)
Lemma tx_then_cache_calm (fn : M InvSt unit) f p o w r w' :
  no_faults o ->
  (do* wrap_err f (Run fn) in do* writeStockToCache redis p in publishInventoryEvent redis p) o w = (r, w') ->
  (exists e, r = inl e /\ i_db (w_st w') = i_db (w_st w)) \/
  (exists w1, r = inr tt /\ fn o (next w) = (inr tt, w1) /\ i_db (w_st w') = i_db (w_st w1)).
Proof.
  intros Ho. unfold bind at 1, wrap_err. rewrite (Run_no_faults _ _ _ Ho).
  destruct (fn o (next w)) as [[e|[]] w1].
  - intros [= <- <-]. left. eauto.
  - destruct (cache_then_publish_total redis p o (next w1)) as (w2 & -> & Hdb). intros [= <- <-]. right. eauto.
Qed.

Definition same_row (k : UUID * UUID) (d d' : InvDB) : Prop := reservations d' !! k = reservations d !! k.

Lemma Reserve_rows p q oid o w r w' k :
  no_faults o -> Reserve redis p q oid o w = (r, w') ->
  same_row k (i_db (w_st w)) (i_db (w_st w')) \/
  (exists ou, r = inr tt /\ uuid_Parse oid = Some ou /\ k = (ou, p) /\
     reservations (i_db (w_st w')) !! k = Some (MkRow q "reserved")).
Proof.
  intros Ho. unfold Reserve. destruct (q <=? 0); [intros [= <- <-]; by left|].
  destruct (uuid_Parse oid) as [ou|] eqn:Hid; [|intros [= <- <-]; by left]. intros H.
  apply tx_then_cache_calm in H as [(e & -> & Hdb)|(w1 & -> & Hrun & Hdb)]; [| |done].
  - left. unfold same_row. by rewrite Hdb.
  - unfold same_row. rewrite Hdb.
    apply reserve_ok in Hrun as (_ & [[_ ->]|(_ & a & x & id & t & _ & _ & _ & ->)]); [by left|]. cbn.
    destruct (decide (k = (ou, p))) as [->|Hne]; [right|left; by rewrite lookup_insert_ne].
    exists ou. by rewrite lookup_insert_eq.
Qed.

Lemma Release_rows p q oid o w r w' k :
  no_faults o -> Release redis p q oid o w = (r, w') ->
  same_row k (i_db (w_st w)) (i_db (w_st w')) \/
  reservations (i_db (w_st w')) !! k = Some (MkRow q "released").
Proof.
  intros Ho. unfold Release. destruct (q <=? 0); [intros [= <- <-]; by left|].
  destruct (uuid_Parse oid) as [ou|]; [|intros [= <- <-]; by left]. intros H.
  apply tx_then_cache_calm in H as [(e & -> & Hdb)|(w1 & -> & Hrun & Hdb)]; [| |done].
  - left. unfold same_row. by rewrite Hdb.
  - unfold same_row. rewrite Hdb.
    apply release_ok in Hrun as [[_ ->]|(_ & a & x & id & t & _ & _ & _ & ->)]; [by left|]. cbn.
    destruct (decide (k = (ou, p))) as [->|Hne]; [right; by rewrite lookup_insert_eq|left; by rewrite lookup_insert_ne].
Qed.

(** Releasing exactly what is held frees it. *)
(** The quantity of a reserved row is positive and fits the column. *)
Lemma held_fits (s : InvSt) ou p q :
  stock_ok T s -> res_row (i_db s) ou p = Some (MkRow q "reserved") -> 0 < q /\ in_int32 q = true /\ totals_fit (i_db s).
Proof.
  intros [Hinv HT] Hrow.
  destruct (inv_row _ Hinv _ _ Hrow) as [Hq _]. destruct (inv_known _ Hinv _ _ Hrow) as [[a x] Hp]. simpl in Hq, Hp.
  assert (Hfit : totals_fit (i_db s)) by (intros k t; rewrite HT; apply Tfit).
  assert (Hqx : q <= x).
  { destruct (inv_stock _ Hinv _ _ _ Hp) as [_ ->]. unfold held. rewrite (map_sum_delete _ _ _ _ Hrow).
    unfold held_by at 1. simpl. rewrite bool_decide_true by done. simpl.
    assert (0 <= map_sum (held_by p) (delete (ou, p) (reservations (i_db s)))); [|lia].
    apply map_sum_nonneg. intros k row [_ Hk]%lookup_delete_Some.
    destruct (inv_row _ Hinv _ _ Hk) as [? _]. unfold held_by. case_match; lia. }
  assert (Hax : a + x < 2 ^ 31) by (apply (Hfit p); unfold totals; by rewrite lookup_fmap, Hp).
  destruct (inv_stock _ Hinv _ _ _ Hp) as [Ha _]. split_and!; [done|apply in_int32_intro; lia|done].
Qed.

Lemma Release_frees p q oid ou o w r w' :
  no_faults o -> stock_ok T (w_st w) -> uuid_Parse oid = Some ou ->
  res_row (i_db (w_st w)) ou p = Some (MkRow q "reserved") ->
  Release redis p q oid o w = (r, w') -> res_row (i_db (w_st w')) ou p = Some (MkRow q "released").
Proof.
  intros Ho HI Hid Hrow H. destruct (held_fits _ _ _ _ HI Hrow) as (Hq & Hq32 & Hfit).
  pose proof (Release_outcome T redis p q oid ou o w r w' Ho HI Hfit Hq Hq32 Hid H) as Hout.
  assert (Hr : r = inr tt).
  { unfold book_release in Hout. simpl in Hout. rewrite lookup_fmap in Hout. unfold res_row in Hrow.
    rewrite Hrow in Hout. simpl in Hout. rewrite Z.eqb_refl in Hout. by destruct Hout. }
  unfold Release in H. rewrite Hid, (proj2 (Z.leb_gt _ _)) in H by done.
  apply tx_then_cache_calm in H as [(e & He & _)|(w1 & _ & Hrun & Hdb)]; [congruence| |done].
  rewrite Hdb. apply release_ok in Hrun as [[Hrel _]|(_ & b & y & id & t & _ & _ & _ & ->)].
  - simpl in Hrel. rewrite Hrow in Hrel. done.
  - unfold res_row. cbn. by rewrite lookup_insert_eq.
Qed.

Lemma handler_Reserve_rows req o w r w' k :
  no_faults o -> handler_Reserve redis inv_ctx req o w = (r, w') ->
  same_row k (i_db (w_st w)) (i_db (w_st w')) \/
  (exists ou pu, r = inr true /\ uuid_Parse (rq_OrderId req) = Some ou /\ uuid_Parse (rq_ProductId req) = Some pu /\
     k = (ou, pu) /\ reservations (i_db (w_st w')) !! k = Some (MkRow (rq_Quantity req) "reserved")).
Proof.
  intros Ho. unfold handler_Reserve. destruct (RequireRole _ _); [intros [= <- <-]; by left|].
  destruct (uuid_Parse (rq_ProductId req)) as [pu|]; [|intros [= <- <-]; by left].
  destruct (uuid_Parse (rq_OrderId req)) as [ou|]; [|intros [= <- <-]; by left].
  unfold bind, map_err, wrap_err. destruct (Reserve _ _ _ _ _ _) as [r' w1] eqn:Hres.
  apply (Reserve_rows _ _ _ _ _ _ _ k) in Hres as [Hsame|(ou' & -> & Hid & -> & Hrow)]; [| |done].
  - destruct r' as [e|u]; intros [= <- <-]; by left.
  - rewrite uuid_Parse_String in Hid. simplify_eq. intros [= <- <-]. right. exists ou', pu. by split_and!.
Qed.

Lemma handler_Release_rows req o w r w' k :
  no_faults o -> handler_Release redis inv_ctx req o w = (r, w') ->
  same_row k (i_db (w_st w)) (i_db (w_st w')) \/
  reservations (i_db (w_st w')) !! k = Some (MkRow (rq_Quantity req) "released").
Proof.
  intros Ho. unfold handler_Release. destruct (RequireRole _ _); [intros [= <- <-]; by left|].
  destruct (uuid_Parse (rq_ProductId req)) as [pu|]; [|intros [= <- <-]; by left].
  destruct (uuid_Parse (rq_OrderId req)) as [ou|]; [|intros [= <- <-]; by left].
  unfold bind, map_err, wrap_err. destruct (Release _ _ _ _ _ _) as [r' w1] eqn:Hres.
  apply (Release_rows _ _ _ _ _ _ _ k) in Hres; [|done]. destruct r' as [e|u]; intros [= <- <-]; done.
Qed.

Lemma handler_Release_frees p q oid o w r w' :
  no_faults o -> stock_ok T (w_st w) -> res_row (i_db (w_st w)) oid p = Some (MkRow q "reserved") ->
  handler_Release redis inv_ctx (MkStockRequest (uuid_String p) q (uuid_String oid)) o w = (r, w') ->
  res_row (i_db (w_st w')) oid p = Some (MkRow q "released").
Proof.
  intros Ho HI Hrow. unfold handler_Release. simpl. rewrite Hrole, !uuid_Parse_String.
  unfold bind, map_err, wrap_err. destruct (Release _ _ _ _ _ _) as [r' w1] eqn:Hres.
  eapply Release_frees in Hres; [|done|done|apply uuid_Parse_String|done].
  destruct r'; by intros [= <- <-].
Qed.

(** The handlers of inventory-service and payment-service, reached through the
    gRPC clients of order-service, provide everything the saga relies on. *)
#[local] Program Instance sys_calm : SagaCalmLaws sys := {| calm_inv e := stock_ok T (fst e) |}.
Next Obligation.
  intros p q oid k o w r w' Ho HI H. cbn in H. unfold client_Reserve, client_Release, client_ProcessPayment, bind in H.
  destruct (zoom inv_lens _ o w) as [r1 w1] eqn:Hz. apply zoom_run in Hz as (w2 & Hh & Hw1).
  rewrite (rpc_no_faults _ _ _ Ho) in Hh.
  pose proof (handler_Reserve_keeps (MkStockRequest (uuid_String p) q (uuid_String oid)) o
    (next (World (w_tick w) (l_get inv_lens (w_st w)))) HI) as Hk. rewrite Hh in Hk. simpl in Hk.
  assert (Hw' : w_st w' = w_st w1) by (destruct r1; unfold ret in H; by simplify_eq). rewrite Hw', Hw1. simpl.
  split; [done|]. intros oid' p' q' Hrow.
  apply (handler_Reserve_rows _ _ _ _ _ (oid', p')) in Hh as [Hsame|(ou & pu & -> & Ho' & Hp' & Heq & Hnew)]; [| |done].
  - left. unfold sys_holds, res_row in *. simpl in *. by rewrite <- Hsame.
  - right. simpl in *. rewrite uuid_Parse_String in Ho', Hp'. simplify_eq. unfold sys_holds, res_row in Hrow.
    simpl in Hrow. rewrite Hnew in Hrow. unfold ret in H. by simplify_eq.
Qed.
Next Obligation.
  intros p q oid k o w r w' Ho HI H. cbn in H. unfold client_Reserve, client_Release, client_ProcessPayment, bind in H.
  destruct (zoom inv_lens _ o w) as [r1 w1] eqn:Hz. apply zoom_run in Hz as (w2 & Hh & Hw1).
  rewrite (rpc_no_faults _ _ _ Ho) in Hh.
  pose proof (handler_Release_keeps (MkStockRequest p q oid) o
    (next (World (w_tick w) (l_get inv_lens (w_st w)))) HI) as Hk. rewrite Hh in Hk. simpl in Hk.
  assert (Hw' : w_st w' = w_st w1) by (destruct r1; unfold ret in H; by simplify_eq). rewrite Hw', Hw1. simpl.
  split_and!; [done| |].
  - intros oid' p' q' Hrow.
    apply (handler_Release_rows _ _ _ _ _ (oid', p')) in Hh as [Hsame|Hnew]; [| |done];
      unfold sys_holds, res_row in *; simpl in *; [by rewrite <- Hsame|]. by rewrite Hnew in Hrow.
  - intros pu ou -> -> Hrow q' Hrow'. eapply handler_Release_frees in Hh; [|done|done|exact Hrow].
    unfold sys_holds, res_row in *. simpl in *. by rewrite Hh in Hrow'.
Qed.
Next Obligation.
  intros oid a k o w r w' Ho HI H. cbn in H. unfold client_Reserve, client_Release, client_ProcessPayment, bind in H.
  destruct (zoom pay_lens _ o w) as [r1 w1] eqn:Hz. apply zoom_run in Hz as (w2 & Hh & Hw1).
  assert (Hw' : w_st w' = w_st w1) by (destruct r1; unfold ret in H; by simplify_eq). rewrite Hw', Hw1. done.
Qed.

(** ** The composed system *)

(** No unit is reserved for the order in the inventory tables. *)
Definition nothing_reserved (order : Order) (e : sys) : Prop :=
  forall p q, reservations (i_db (fst e)) !! (o_ID order, p) ≠ Some (MkRow q "reserved").

(** C3. The three services together, when nothing fails: an order for which nothing
    is reserved yet ends paid with a confirmed saga, or cancelled with nothing
    reserved for it in the inventory tables. *)
Theorem system_all_or_nothing order key o (w : world (OrderSt sys)) :
  no_faults o -> stock_ok T (fst (t_ext (w_st w))) ->
  is_Some (t_orders (w_st w) !! o_ID order) -> t_sagas (w_st w) !! o_ID order = None ->
  nothing_reserved order (t_ext (w_st w)) ->
  let '(r, w') := ProcessOrder order key o w in
  r = inr (inr tt) /\
  (confirmed_paid order (w_st w') \/
   (cancelled_clean order (w_st w') /\ nothing_reserved order (t_ext (w_st w')))).
Proof.
  intros Ho Hst Hord Hnone Hno.
  pose proof (ProcessOrder_outcome order key o w Ho Hst Hord Hnone) as H.
  destruct (ProcessOrder order key o w) as [r w'].
  destruct H as [-> [Hc|Hc]]; [intros p q; apply Hno| |]; (split; [done|]); [by left|right].
  split; [done|]. destruct Hc as (_ & _ & Hh). intros p q. apply Hh.
Qed.

(** C33. The services as deployed cannot complete an order: order-service
    authenticates to payment-service with a token whose subject is its own
    name, which payment-service refuses, so whatever the environment does no
    saga row reaches paid, confirming or confirmed; and when nothing fails every
    new order ends cancelled. *)
Theorem deployed_orders_are_never_paid order key o (w : world (OrderSt sys)) :
  GetUserID pay_ctx = Some "order-service" ->
  stock_ok T (fst (t_ext (w_st w))) ->
  is_Some (t_orders (w_st w) !! o_ID order) -> t_sagas (w_st w) !! o_ID order = None ->
  nothing_reserved order (t_ext (w_st w)) ->
  row_status unpaid order (w_st (snd (ProcessOrder order key o w))) /\
  (no_faults o -> cancelled_clean order (w_st (snd (ProcessOrder order key o w)))).
Proof.
  intros Hu Hst Hord Hnone Hno.
  assert (Hrefused : forall oid a k o (w : world sys), exists e (w' : world sys), cl_ProcessPayment oid a k o w = (inl e, w')).
  { intros oid a k o1 w1. cbn. unfold client_ProcessPayment, bind, zoom, rpc.
    destruct (o_fault o1 _); simpl; eauto.
    - destruct (payment_refused dlq pay_ctx oid a (pb_text oid a k) o1 (next (World (w_tick w1) (snd (w_st w1)))) Hu) as [m ->]. eauto.
    - destruct (payment_refused dlq pay_ctx oid a (pb_text oid a k) o1 (next (World (w_tick w1) (snd (w_st w1)))) Hu) as [m ->]. eauto. }
  assert (Hrow : row_status unpaid order (w_st (snd (ProcessOrder order key o w)))).
  { apply ProcessOrder_unpaid; [exact Hrefused|]. intros row Hrow. congruence. }
  split; [done|]. intros Ho.
  pose proof (ProcessOrder_outcome order key o w Ho Hst Hord Hnone) as H.
  destruct (ProcessOrder order key o w) as [r w'].
  destruct H as [_ [Hc|Hc]]; [intros p q; apply Hno| |done].
  destruct Hc as [(row & Hr & Hconf) _]. specialize (Hrow _ Hr). rewrite Hconf in Hrow. by destruct Hrow as (_ & _ & ?).
Qed.
End System.

(** ** Concrete runs *)

#[local] Existing Instance uuid_text.
#[local] Existing Instance uuid_text_laws.

Definition buyer_id : UUID := uuid_sample 1.
Definition the_order : UUID := uuid_sample 2.

Definition small_order : Order :=
  MkOrder the_order buyer_id [MkItem (uuid_sample 5) the_order p0 2 100] 200 OrderStatusPending 0 0.

Definition small_state : OrderSt sys :=
  MkOrderSt {[ the_order := order_row small_order ]} (o_Items small_order) ∅ (MkOutbox [] ∅) []
    (sample_inv, MkPaySt (MkPayDB ∅ []) []).

Definition small_world : world (OrderSt sys) := World 0 small_state.

Lemma sample_fit p t : totals sample_db !! p = Some t -> t < 2 ^ 31.
Proof. apply sample_totals_fit. Qed.

Lemma small_nothing : nothing_reserved small_order (t_ext small_state).
Proof. intros p q. simpl. by rewrite lookup_empty. Qed.

Definition request_text (oid : string) (amount : Z) (key : string) : string := oid.

(** The payer's own identity, as payment-service would need it. *)
Definition payer_ctx : Ctx := WithIdentity Background (MkIdentity (uuid_String buyer_id) RoleUser "").

Lemma system_all_or_nothing_witness :
  let '(r, w') := @ProcessOrder _ _ (grpc_inventory false service_ctx) (grpc_payment None payer_ctx request_text)
                    small_order "key" calm small_world in
  r = inr (inr tt) /\
  (confirmed_paid small_order (w_st w') \/
   (@cancelled_clean _ _ (grpc_inventory false service_ctx) (grpc_payment None payer_ctx request_text)
      (sys_laws false None service_ctx payer_ctx request_text) small_order (w_st w') /\
    nothing_reserved small_order (t_ext (w_st w')))).
Proof.
  apply (@system_all_or_nothing uuid_text false None service_ctx payer_ctx request_text uuid_text_laws (totals sample_db)
           sample_fit eq_refl small_order "key" calm small_world).
  - exact calm_no_faults.
  - exact w0_ok.
  - by exists (order_row small_order).
  - reflexivity.
  - exact small_nothing.
Defined.

Lemma deployed_orders_are_never_paid_witness :
  @cancelled_clean _ _ (grpc_inventory false service_ctx) (grpc_payment None order_ctx request_text)
    (sys_laws false None service_ctx order_ctx request_text) small_order
    (w_st (snd (@ProcessOrder _ _ (grpc_inventory false service_ctx) (grpc_payment None order_ctx request_text)
                  small_order "key" calm small_world))).
Proof.
  apply (@deployed_orders_are_never_paid uuid_text false None service_ctx order_ctx request_text uuid_text_laws (totals sample_db)
           sample_fit eq_refl small_order "key" calm small_world).
  - reflexivity.
  - exact w0_ok.
  - by exists (order_row small_order).
  - reflexivity.
  - exact small_nothing.
  - exact calm_no_faults.
Defined.

(** Two instances process the order side by side, piece by piece. *)
Section Racing.
Local Instance here_inventory : InventoryClient sys := grpc_inventory false service_ctx.
Local Instance here_payment : PaymentClient sys := grpc_payment None payer_ctx request_text.

Definition side_by_side : list (nat * oracle) := concat (replicate 20 [(0%nat, calm); (1%nat, calm)]).
Definition both_instances : racing (E:=sys) :=
  MkRacing small_state [("key", SBegin); (recoveryIdempotencyKey (uuid_String the_order), SBegin)].
Definition raced : racing (E:=sys) := turns small_order (takes 0 2 ++ side_by_side) both_instances.

Lemma raced_forward : rtc (race_step small_order true) (MkCrowd small_state []) (lift small_order raced).
Proof.
  eapply rtc_l; [apply (rc_request _ _ _ "key")|].
  eapply rtc_l; [exact (rc_recover small_order small_state [("key", small_order, SBegin)] calm 0 small_order (World 1 small_state) eq_refl)|].
  apply (forward_turns_run small_order _ both_instances). vm_compute. reflexivity.
Qed.

Lemma small_order_reads_back : reads_back small_order small_state.
Proof. exists small_order. exact (conj eq_refl (conj eq_refl (conj eq_refl eq_refl))). Qed.

Definition raced_crowd : crowd (E:=sys) := lift small_order raced.

Lemma raced_status : sr_Status <$> t_sagas (cr_st raced_crowd) !! o_ID small_order = Some SagaStatusConfirmed.
Proof. vm_compute. reflexivity. Qed.

Lemma raced_row : exists row, t_sagas (cr_st raced_crowd) !! o_ID small_order = Some row /\ sr_Status row = SagaStatusConfirmed.
Proof.
  pose proof raced_status as Hst. apply fmap_Some in Hst as (row & Hrow & Hst). exists row. split; [exact Hrow|symmetry; exact Hst].
Qed.

Lemma small_order_new : t_sagas small_state !! o_ID small_order = None.
Proof. reflexivity. Qed.

Lemma small_order_unbilled : payments (y_db (snd (t_ext small_state))) !! o_ID small_order = None.
Proof. reflexivity. Qed.

Lemma racing_system_confirms_soundly_witness : exists pid, held_and_billed small_order (t_ext (cr_st raced_crowd)) pid.
Proof.
  destruct raced_row as (row & Hrow & Hst). exists (sr_PaymentID row).
  exact (racing_system_confirms_soundly false None service_ctx payer_ctx request_text small_order small_state raced_crowd row
    small_order_new small_order_unbilled small_order_reads_back raced_forward Hrow Hst).
Defined.

Definition confirmed_run : OrderSt sys := w_st (snd (ProcessOrder small_order "key" calm small_world)).

Lemma confirmed_status : sr_Status <$> t_sagas confirmed_run !! o_ID small_order = Some SagaStatusConfirmed.
Proof. vm_compute. reflexivity. Qed.

Lemma ProcessOrder_confirms_soundly_witness : exists pid, held_and_billed small_order (t_ext confirmed_run) pid.
Proof.
  pose proof confirmed_status as Hst. destruct (t_sagas confirmed_run !! o_ID small_order) as [row|] eqn:Hrow; [|discriminate Hst].
  exists (sr_PaymentID row). injection Hst as Hst.
  apply (ProcessOrder_confirms_soundly false None service_ctx payer_ctx request_text small_order "key" calm small_world row).
  - split; intros r Hr; simpl in Hr; rewrite lookup_empty in Hr; discriminate Hr.
  - intros r Hr. simpl in Hr. rewrite lookup_empty in Hr. discriminate Hr.
  - exact Hrow.
  - exact Hst.
Defined.
End Racing.

(** The same order when payment-service sees the buyer's identity: a declined
    payment (status failed) still confirms the order, because the client does
    not read the status of the response. *)
Definition declined : oracle :=
  Oracle (fun _ => FNone) (fun _ => 0) uuid_sample (fun _ => None) (fun _ => false).

Definition declined_run : OrderSt sys :=
  w_st (snd (@ProcessOrder _ _ (grpc_inventory false service_ctx) (grpc_payment None payer_ctx request_text)
               small_order "key" declined small_world)).

(** A declined payment confirms the order: payment-service answers a declined
    payment with status failed and no error, the client drops the status, and
    the saga sets the order to paid. *)
Theorem declined_payment_confirms_order :
  (sr_Status <$> t_sagas declined_run !! the_order) = Some SagaStatusConfirmed /\
  (or_Status <$> t_orders declined_run !! the_order) = Some OrderStatusPaid /\
  (p_Status <$> payments (y_db (snd (t_ext declined_run))) !! the_order) = Some StatusFailed.
Proof. vm_compute. done. Qed.
