(* ===== verification/OrderFacts.v ===== *)
(** * order-service: theorems about the repositories, the use case and the handler

    The row scan of ListByUser, the order total, the transactional outbox, the
    guarded status change and the owner check. *)
From S2P Require Import Prelude Errors Effects Auth OrderDomain OrderRepo Saga SagaFacts SagaFrame OrderService SagaRuns.

(** ** The total *)

Section Total.
Context `{U : UuidLib}.

Definition exact_total (items : list OrderItem) : Z := list_sumZ (fun i => it_Price i * it_Quantity i) items.

Lemma int64_add_l a b : int64 (int64 a + b) = int64 (a + b).
Proof. apply wrap_add_l. lia. Qed.

Lemma int64_add_r a b : int64 (a + int64 b) = int64 (a + b).
Proof. apply wrap_add_r. lia. Qed.

Lemma int64_idem a : int64 (int64 a) = int64 a.
Proof. replace (int64 a) with (int64 a + 0) at 1 by lia. rewrite int64_add_l. f_equal. lia. Qed.

(** The quantity is an int of the request, an int32 on the wire. *)
Definition wire_item (i : OrderItem) : Prop := in_int32 (it_Quantity i) = true.

Lemma order_total_from items t :
  Forall wire_item items ->
  foldl (fun total item => int64 (total + int64 (it_Price item * int64 (it_Quantity item)))) t items
  = match items with [] => t | _ => int64 (t + exact_total items) end.
Proof.
  revert t. induction items as [|i items IH]; intros t Hall; [done|].
  apply Forall_cons in Hall as [Hi Hall]. simpl. rewrite IH by done. unfold exact_total. simpl.
  rewrite (int64_id (it_Quantity i)).
  2: { unfold wire_item, in_int32, in_int64 in *. apply andb_prop in Hi as [?%Z.leb_le ?%Z.ltb_lt].
       apply andb_true_intro. split; lia. }
  rewrite int64_add_r. destruct items as [|j items]; [simpl; f_equal; lia|].
  rewrite int64_add_l. f_equal. lia.
Qed.

(** The charged total is the sum of price times quantity: exactly when that sum
    fits 64 bits, however large the intermediate products are, and reduced
    modulo 2^64 otherwise. *)
Theorem order_total_sound items :
  Forall wire_item items ->
  order_total items = int64 (exact_total items) /\
  (in_int64 (exact_total items) = true -> order_total items = exact_total items).
Proof.
  intros Hall. assert (Heq : order_total items = int64 (exact_total items)).
  { unfold order_total. rewrite order_total_from by done. by destruct items. }
  split; [done|]. intros Hfit. rewrite Heq. by apply int64_id.
Qed.
End Total.

(** ** The row scan of ListByUser *)

Section Scan.
Context `{U : UuidLib}.
Implicit Types (rows : list JoinRow) (orders : list Order).

(** The intended result: append to the order with that id, wherever it is. *)
Definition ref_row orders (r : JoinRow) : list Order :=
  let '(h, oi) := r in
  let orders1 := if existsb (fun x => bool_decide (o_ID x = o_ID h)) orders then orders else orders ++ [h] in
  match oi with
  | None => orders1
  | Some i => (fun x => if bool_decide (o_ID x = o_ID h) then append_item i x else x) <$> orders1
  end.

Definition ref_scan rows : list Order := foldl ref_row [] rows.

(** The rows of one order are adjacent. *)
Definition adjacent (ids : list UUID) : Prop :=
  forall i j k x, (i <= j <= k)%nat -> ids !! i = Some x -> ids !! k = Some x -> ids !! j = Some x.

Definition row_ids rows : list UUID := (fun r : JoinRow => o_ID (fst r)) <$> rows.

(** State of the scan after the rows [l]: the visible orders have distinct ids,
    the map points to them, and the pointer to the last order is current. *)
Record scan_ok (last_id : option UUID) (sc : scan_st) : Prop := MkScanOk {
  sok_dup : NoDup (o_ID <$> sc_orders sc);
  sok_map : forall id, is_Some (sc_map sc !! id) <-> id ∈ o_ID <$> sc_orders sc;
  sok_last : last (o_ID <$> sc_orders sc) = last_id;
  sok_ptr : forall id, last_id = Some id -> sc_map sc !! id = Some (sc_array sc, pred (length (sc_orders sc)))
}.

Lemma existsb_id id orders :
  existsb (fun x => bool_decide (o_ID x = id)) orders = bool_decide (id ∈ o_ID <$> orders).
Proof.
  induction orders as [|x l IH]; simpl; [done|]. rewrite IH.
  repeat case_bool_decide; simpl; try done; set_solver.
Qed.

Lemma alter_last (f : Order -> Order) l x : alter f (length l) (l ++ [x]) = l ++ [f x].
Proof. induction l as [|y l IH]; [done|]. simpl. by f_equal. Qed.

Lemma fmap_only_last l x i :
  NoDup (o_ID <$> l ++ [x]) ->
  (fun y => if bool_decide (o_ID y = o_ID x) then append_item i y else y) <$> (l ++ [x]) = l ++ [append_item i x].
Proof.
  intros Hdup. rewrite fmap_app. simpl. rewrite bool_decide_true by done. f_equal.
  rewrite fmap_app in Hdup. apply NoDup_app in Hdup as (_ & Hnot & _).
  rewrite <- (list_fmap_id l) at 2. apply list_fmap_ext. intros k y Hy. simpl.
  rewrite bool_decide_false; [done|]. intros Heq. apply (Hnot (o_ID y)); [|rewrite Heq; set_solver].
  apply list_elem_of_fmap. exists y. split; [done|]. by eapply list_elem_of_lookup_2.
Qed.

Lemma append_item_id i x : o_ID (append_item i x) = o_ID x.
Proof. done. Qed.

Lemma ids_snoc l x : o_ID <$> (l ++ [x]) = (o_ID <$> l) ++ [o_ID x].
Proof. by rewrite fmap_app. Qed.

Lemma snoc_cases {A} (l : list A) : l = [] \/ exists l' x, l = l' ++ [x].
Proof. induction l using rev_ind; eauto. Qed.

(** Writing an item through a current pointer to the last order. *)
Lemma scan_write lid l x i cap arr m :
  scan_ok lid (MkScan (l ++ [x]) cap arr m) ->
  alter (append_item i) (length l) (l ++ [x]) =
    ((fun y => if bool_decide (o_ID y = o_ID x) then append_item i y else y) <$> (l ++ [x])) /\
  scan_ok lid (MkScan (l ++ [append_item i x]) cap arr m).
Proof.
  intros Hok. destruct Hok as [Hd Hm Hl Hp]; simpl in *. split; [by rewrite alter_last, fmap_only_last|].
  assert (Hids : o_ID <$> (l ++ [append_item i x]) = o_ID <$> (l ++ [x])) by (by rewrite !fmap_app).
  split; simpl; rewrite ?Hids; [done..|]. rewrite length_app in *. simpl in *. done.
Qed.

Lemma scan_row_hit grow sc h oi :
  scan_ok (Some (o_ID h)) sc ->
  sc_orders (scan_row grow sc (h, oi)) = ref_row (sc_orders sc) (h, oi) /\
  scan_ok (Some (o_ID h)) (scan_row grow sc (h, oi)).
Proof.
  intros Hok. pose proof (sok_ptr _ _ Hok _ eq_refl) as Hptr. pose proof (sok_last _ _ Hok) as Hlast.
  destruct (snoc_cases (sc_orders sc)) as [Hord|(l0 & x0 & Hord)]; rewrite Hord in Hlast; [done|].
  rewrite ids_snoc, last_snoc in Hlast. injection Hlast as Hx.
  unfold scan_row, ref_row. rewrite Hptr, Hord, existsb_id, bool_decide_true by (rewrite ids_snoc; set_solver).
  destruct oi as [i|]; [|done]. simpl. rewrite Nat.eqb_refl.
  rewrite length_app. simpl. rewrite Nat.add_1_r. simpl.
  destruct sc as [os cap arr m]. simpl in *. subst os. rewrite <- Hx.
  destruct (scan_write _ _ _ i _ _ _ Hok) as [Heq Hok']. rewrite Heq. split; [done|].
  rewrite <- Heq, alter_last. by rewrite Hx.
Qed.

Lemma scan_row_miss grow lid sc h oi :
  scan_ok lid sc -> o_ID h ∉ o_ID <$> sc_orders sc ->
  sc_orders (scan_row grow sc (h, oi)) = ref_row (sc_orders sc) (h, oi) /\
  scan_ok (Some (o_ID h)) (scan_row grow sc (h, oi)).
Proof.
  intros Hok Hnew. destruct Hok as [Hd Hm Hl Hp].
  assert (Hnone : sc_map sc !! o_ID h = None).
  { destruct (sc_map sc !! o_ID h) eqn:Hs; [|done]. destruct Hnew. apply Hm. by rewrite Hs. }
  set (sc1 := scan_append grow h sc).
  assert (Hok1 : scan_ok (Some (o_ID h)) (MkScan (sc_orders sc1) (sc_cap sc1) (sc_array sc1)
                   (<[o_ID h := (sc_array sc1, length (sc_orders sc))]> (sc_map sc1)))).
  { split; simpl.
    - rewrite ids_snoc. apply NoDup_app. split_and!; [done| |apply NoDup_singleton]. set_solver.
    - intros id. rewrite ids_snoc, elem_of_app, lookup_insert_is_Some', <- Hm. simpl. rewrite list_elem_of_singleton.
      naive_solver.
    - by rewrite ids_snoc, last_snoc.
    - intros id [= <-]. rewrite lookup_insert_eq, length_app. simpl. by rewrite Nat.add_1_r. }
  unfold scan_row, ref_row. rewrite Hnone, existsb_id, bool_decide_false by done. fold sc1.
  destruct oi as [i|]; [|done]. simpl. rewrite Nat.eqb_refl.
  destruct (scan_write _ _ _ i _ _ _ Hok1) as [Heq Hok2]. rewrite Heq. split; [done|].
  rewrite <- Heq, alter_last. exact Hok2.
Qed.

Lemma scan_rows_ref grow rows sc lid :
  scan_ok lid sc ->
  adjacent (match lid with Some id => id :: row_ids rows | None => row_ids rows end) ->
  (forall id, id ∈ o_ID <$> sc_orders sc -> lid ≠ Some id -> id ∉ row_ids rows) ->
  sc_orders (foldl (scan_row grow) sc rows) = foldl ref_row (sc_orders sc) rows.
Proof.
  revert sc lid. induction rows as [|[h oi] rows IH]; intros sc lid Hok Hadj Hpast; [done|]. cbn [foldl].
  assert (Hstep : sc_orders (scan_row grow sc (h, oi)) = ref_row (sc_orders sc) (h, oi) /\
                  scan_ok (Some (o_ID h)) (scan_row grow sc (h, oi))).
  { destruct (decide (lid = Some (o_ID h))) as [->|Hne]; [by apply scan_row_hit|].
    eapply scan_row_miss; [done|]. intros Hin. apply (Hpast _ Hin Hne). unfold row_ids. set_solver. }
  destruct Hstep as [<- Hok1]. apply (IH _ (Some (o_ID h))); [done| |].
  - intros i j k x Hijk Hi Hk. destruct lid as [id0|].
    + apply (Hadj (S i) (S j) (S k)); [lia|done|done].
    + by apply (Hadj i j k).
  - intros id Hin Hne Hrows.
    assert (Hids : id ∈ o_ID <$> sc_orders sc).
    { pose proof (sok_map _ _ Hok1 id) as [_ Hm1]. destruct (Hm1 Hin) as [ptr Hptr].
      apply (sok_map _ _ Hok). unfold scan_row in Hptr.
      destruct (sc_map sc !! o_ID h) eqn:Hh; destruct oi; simpl in Hptr; repeat case_match; simpl in *;
        rewrite ?lookup_insert_ne in Hptr by congruence; eauto. }
    destruct (decide (lid = Some id)) as [->|Hn].
    + apply list_elem_of_lookup in Hrows as [k Hk].
      specialize (Hadj 0%nat 1%nat (S (S k)) id). simpl in Hadj.
      assert (Hx : Some (o_ID h) = Some id) by (apply Hadj; [lia|done|done]). congruence.
    + apply (Hpast _ Hids Hn). unfold row_ids in *. set_solver.
Qed.

Lemma scan_orders_ref grow rows : adjacent (row_ids rows) -> scan_orders grow rows = ref_scan rows.
Proof.
  intros Hadj. apply (scan_rows_ref grow rows (MkScan [] 0 0 ∅) None); [|done|set_solver].
  split; simpl; [constructor| |done|done]. intros id. rewrite lookup_empty. split; [by intros []|set_solver].
Qed.

(** *** The rows of a page are adjacent *)

Lemma adjacent_take n ids : adjacent ids -> adjacent (take n ids).
Proof.
  intros H i j k x Hijk Hi Hk. apply lookup_take_Some in Hi as [Hi _], Hk as [Hk Hn].
  apply lookup_take_Some. split; [by apply (H i j k)|lia].
Qed.

Lemma adjacent_drop n ids : adjacent ids -> adjacent (drop n ids).
Proof.
  intros H i j k x Hijk. rewrite !lookup_drop. intros Hi Hk. apply (H (n + i)%nat _ (n + k)%nat); [lia|done|done].
Qed.

Lemma adjacent_block n x ids : x ∉ ids -> adjacent ids -> adjacent (replicate n x ++ ids).
Proof.
  intros Hx H i j k y Hijk Hi Hk.
  apply lookup_app_Some in Hi as [Hi|[Hin Hi]], Hk as [Hk|[Hkn Hk]]; rewrite ?length_replicate in *.
  - apply lookup_replicate in Hi as [-> _], Hk as [_ Hk]. apply lookup_app_Some. left. apply lookup_replicate. split; [done|lia].
  - apply lookup_replicate in Hi as [-> _]. destruct Hx. by eapply list_elem_of_lookup_2.
  - apply lookup_replicate in Hk as [-> Hk]. lia.
  - apply lookup_app_Some. right. rewrite length_replicate. split; [lia|].
    eapply (H (i - n)%nat _ (k - n)%nat); [lia|done|done].
Qed.

Lemma join_rows_ids {E} (s : OrderSt E) h :
  exists n, row_ids (join_rows s h) = replicate n (o_ID h).
Proof.
  unfold join_rows. destruct (items_of (o_ID h) s) as [|i l]; [by exists 1%nat|].
  exists (length (i :: l)). unfold row_ids. rewrite <- list_fmap_compose.
  generalize (i :: l). intros l'. induction l' as [|j l' IH]; [done|]. simpl. by f_equal.
Qed.

Lemma joined_adjacent {E} (s : OrderSt E) hs :
  NoDup (o_ID <$> hs) -> adjacent (row_ids (concat (join_rows s <$> hs))).
Proof.
  induction hs as [|h hs IH]; intros Hd; [by intros i j k x _ Hi|].
  rewrite fmap_cons in Hd. apply NoDup_cons in Hd as [Hn Hd]. simpl. unfold row_ids. rewrite fmap_app. fold (row_ids (join_rows s h)).
  destruct (join_rows_ids s h) as [n ->]. apply adjacent_block; [|by apply IH].
  clear IH Hd. intros Hin. apply Hn. clear Hn. induction hs as [|h' hs IH]; [by apply not_elem_of_nil in Hin|].
  simpl in Hin. rewrite fmap_app in Hin. apply elem_of_app in Hin as [Hin|Hin].
  - fold (row_ids (join_rows s h')) in Hin. destruct (join_rows_ids s h') as [m Hm]. rewrite Hm in Hin.
    apply elem_of_replicate in Hin as [-> _]. rewrite fmap_cons. left.
  - rewrite fmap_cons. right. by apply IH.
Qed.

Lemma user_orders_NoDup {E} u (s : OrderSt E) : NoDup (o_ID <$> user_orders u s).
Proof.
  unfold user_orders. rewrite merge_sort_Permutation.
  assert (Hall : NoDup (o_ID <$> ((fun kv : UUID * OrderRow => header kv.1 kv.2) <$> map_to_list (t_orders s)))).
  { rewrite <- list_fmap_compose. apply NoDup_fst_map_to_list. }
  revert Hall. generalize ((fun kv : UUID * OrderRow => header kv.1 kv.2) <$> map_to_list (t_orders s)).
  intros l Hl. eapply sublist_NoDup; [exact Hl|]. apply fmap_sublist, sublist_filter.
Qed.

(** The rows that the paged query returns. *)
Definition page_rows {E} (s : OrderSt E) (u : UUID) (page pageSize : Z) : list JoinRow :=
  let offset := int64 (int64 (page - 1) * pageSize) in
  take (Z.to_nat pageSize) (drop (Z.to_nat (if offset <? 0 then 0 else offset))
    (concat (join_rows s <$> user_orders u s))).

(** C32. The scan of ListByUser, with its map of pointers into a growing slice,
    loses no item for any growth policy of append: it returns the rows of the
    page grouped by order, and the total counts the user's orders. *)
Theorem ListByUser_groups_rows {E} grow u page pageSize o (w : world (OrderSt E)) orders total w' :
  OrderRepo_ListByUser grow u page pageSize o w = (inr (orders, total), w') ->
  orders = ref_scan (page_rows (w_st w) u page pageSize) /\
  total = Z.of_nat (length (user_orders u (w_st w))) /\ w_st w' = w_st w.
Proof.
  unfold OrderRepo_ListByUser. intros H. apply bind_ok in H as (t & w1 & Ht & H).
  apply wrap_err_ok, read_inv in Ht as [Hw1 Ht]. specialize (Ht _ eq_refl). injection Ht as <-.
  apply bind_ok in H as (rows & w2 & Hr & H). apply wrap_err_ok, read_inv in Hr as [Hw2 Hr].
  specialize (Hr _ eq_refl). destruct (pageSize <? 0); [done|]. injection Hr as <-. rewrite Hw1 in *.
  unfold ret in H. simplify_eq. split_and!; [|done|done].
  rewrite scan_orders_ref; [done|]. unfold page_rows, row_ids.
  rewrite fmap_take, fmap_drop. apply adjacent_take, adjacent_drop, joined_adjacent, user_orders_NoDup.
Qed.
End Scan.

(** ** Use case and handler *)

Section Usecase.
Context `{U : UuidLib} {E : Type}.
Context {IC : InventoryClient E} {PC : PaymentClient E} {CC : CatalogClient E}.
Implicit Types (o : oracle) (w : world (OrderSt E)) (s : OrderSt E).

(** *** The transactional outbox *)

Definition announces (id : UUID) (e : OutboxEvent) : Prop :=
  ev_AggregateID e = uuid_String id /\ ev_EventType e = "OrderCreated".

(** Every order of the table has its event in the outbox. *)
Definition announced s : Prop :=
  forall id, is_Some (t_orders s !! id) -> exists e, e ∈ ob_rows (t_outbox s) /\ announces id e.

Lemma announced_status s id row st t :
  announced s -> t_orders s !! id = Some row ->
  announced (set_orders (<[id := MkOrderRow (or_UserID row) (or_TotalAmount row) st (or_CreatedAt row) t]> (t_orders s)) s).
Proof.
  intros Hs Hrow id'. simpl. rewrite lookup_insert_is_Some'. intros [<-|H]; apply Hs; [by rewrite Hrow|done].
Qed.

Lemma insert_items_acc s acc l r : insert_items s acc l = inr r -> r = acc ++ l.
Proof.
  revert acc. induction l as [|i l IH]; intros acc; simpl; [intros [= <-]; by rewrite app_nil_r|].
  destruct (item_error s i); [done|]. intros H. apply IH in H as ->. by rewrite <- (assoc_L (++)).
Qed.

Lemma create_tx_announced order : ok_pres announced (create_tx order).
Proof.
  intros o w id w' HI H. unfold create_tx in H. apply bind_ok in H as (u & w1 & Hc & H).
  apply wrap_err_ok in Hc. unfold OrderRepo_Create in Hc. apply bind_ok in Hc as (u1 & w2 & Ho & Hi).
  apply wrap_err_ok, io_ok in Ho. destruct (t_orders (w_st w) !! o_ID order) eqn:Hnone; [done|].
  destruct (valid_status (o_Status order)); [|done]. injection Ho as _ Hw2.
  apply wrap_err_ok, io_ok in Hi. destruct (insert_items _ _ _) as [e|items]; [done|]. injection Hi as _ Hw1.
  apply bind_ok in H as (ev & w3 & Hev & H). unfold outboxEventFromOrder in Hev.
  apply bind_ok in Hev as (eid & w4 & He & Hev). unfold new_uuid in He. unfold ret in Hev. simplify_eq.
  apply bind_ok in H as (u2 & w5 & Hout & H). unfold ret in H. simplify_eq.
  apply wrap_err_ok in Hout. unfold OutboxRepo_Create in Hout. apply bind_ok in Hout as (ev2 & w6 & Hnow & Hout).
  simpl in Hnow. apply bind_ok in Hnow as (t & w7 & Ht & Hnow). unfold now in Ht. unfold ret in Hnow. simplify_eq.
  apply wrap_err_ok, io_ok in Hout. destruct (existsb _ (ob_rows _)) in Hout; [done|]. injection Hout as _ Hw'. simpl in Hw'. rewrite <- Hw', <- Hw1, <- Hw2.
  intros id. simpl. rewrite lookup_insert_is_Some'. intros [<-|Hid].
  - eexists. split; [apply elem_of_app; right; by apply list_elem_of_singleton|]. done.
  - destruct (HI _ Hid) as (e & He & Ha). exists e. split; [apply elem_of_app; by left|done].
Qed.

Lemma publishOrderEvent_pres (I : OrderSt E -> Prop) redis a b c :
  (forall s ev, I s -> I (set_events ev s)) -> pres I (publishOrderEvent redis a b c).
Proof.
  intros HI. unfold publishOrderEvent. destruct redis; simpl; [|auto with go_pres].
  apply pres_bind; [apply pres_attempt, pres_io|intros; apply pres_ret]. intros s Hs. by apply HI.
Qed.

Lemma check_prices_pres (I : OrderSt E -> Prop) l :
  (forall s e, I s -> I (set_ext e s)) -> pres I (check_prices l).
Proof.
  intros HI. induction l as [|i l IH]; simpl; [auto with go_pres|].
  apply pres_bind; [by apply pres_wrap_err, frame_ext|intros [p|]]; [|auto with go_pres].
  destruct (negb _); auto with go_pres.
Qed.

Lemma assign_ids_pres (I : OrderSt E -> Prop) id l : pres I (assign_ids id l).
Proof. induction l; simpl; auto 10 with go_pres. Qed.

Lemma build_order_pres (I : OrderSt E -> Prop) u l : pres I (build_order u l).
Proof. pose proof (assign_ids_pres I). unfold build_order. auto 10 with go_pres. Qed.

Lemma CreateOrder_announced redis userID items key o w :
  announced (w_st w) -> announced (w_st (snd (CreateOrder redis userID items key o w))).
Proof.
  apply (pres_bind announced); [by apply check_prices_pres|intros _].
  apply pres_bind; [apply build_order_pres|intros order].
  apply pres_bind; [apply pres_Run, create_tx_announced|intros id].
  apply pres_bind; [by apply publishOrderEvent_pres|intros _].
  apply pres_bind; [|intros _; apply pres_ret].
  apply pres_wrap_err, pres_bind; [|intros _; apply pres_ret].
  apply frame_ProcessOrder, framed_tables; [done|done|]. intros. by apply announced_status.
Qed.

(** Every order has its OrderCreated event: CreateOrder commits the order and
    the event together or neither, so under every failure pattern, and whatever
    the saga does afterwards, each order of the table has its event in the
    outbox. *)
Theorem CreateOrder_keeps_outbox redis userID items key o w :
  announced (w_st w) -> announced (w_st (snd (CreateOrder redis userID items key o w))).
Proof. apply CreateOrder_announced. Qed.

(** *** Guarded status changes *)

Definition status_at s (id : UUID) : option OrderStatus := or_Status <$> t_orders s !! id.

(** Only [id] may have changed, and only along the status machine. *)
Definition moved (s0 : OrderSt E) (id : UUID) (new : OrderStatus) s : Prop :=
  forall id', status_at s id' = status_at s0 id' \/
    (id' = id /\ exists old, status_at s0 id = Some old /\ CanTransition old new = true /\ status_at s id = Some new).

Lemma UpdateStatus_moved s0 id new old :
  status_at s0 id = Some old -> CanTransition old new = true ->
  pres (moved s0 id new) (OrderRepo_UpdateStatus id new).
Proof.
  intros Hold Hcan. unfold OrderRepo_UpdateStatus. apply pres_bind; [apply pres_now|intros t].
  apply pres_bind; [|intros n; destruct (n =? 0); auto with go_pres].
  apply pres_wrap_err, pres_io. intros s Hs. destruct (t_orders s !! id) as [row|] eqn:Hrow; [|done].
  destruct (valid_status new); [|done]. intros id'. unfold status_at in *. simpl.
  destruct (decide (id' = id)) as [->|Hne].
  - right. rewrite lookup_insert_eq. simpl. split; [done|]. exists old. done.
  - rewrite lookup_insert_ne by done. destruct (Hs id') as [|[]]; [by left|done].
Qed.

(** UpdateOrderStatus obeys the status machine: whatever the environment does,
    a call by anyone but an administrator or a service changes nothing, and any
    other call changes at most the named order, and only along an allowed
    transition. *)
Theorem UpdateOrderStatus_guarded redis ctx order_id status o w :
  let s' := w_st (snd (handler_UpdateOrderStatus redis ctx order_id status o w)) in
  (fst (GetRole ctx) ≠ RoleAdmin -> fst (GetRole ctx) ≠ RoleService -> s' = w_st w) /\
  (s' = w_st w \/ exists id, uuid_Parse order_id = Some id /\ moved (w_st w) id (protoStatusToDomain status) s').
Proof.
  unfold handler_UpdateOrderStatus. destruct (GetUserID ctx); [|by split; [|left]].
  destruct (negb (role_is ctx RoleAdmin) && negb (role_is ctx RoleService)) eqn:Hrole; [by split; [|left]|].
  split.
  { intros H1 H2. unfold role_is in Hrole. rewrite !bool_decide_false in Hrole by done. done. }
  destruct (uuid_Parse order_id) as [id|]; [|by left]. right. exists id. split; [done|].
  set (new := protoStatusToDomain status).
  enough (Huc : moved (w_st w) id new (w_st (snd (uc_UpdateOrderStatus redis id new o w)))).
  { unfold bind, wrap_err. by destruct (uc_UpdateOrderStatus redis id new o w) as [[e|u] w']. }
  unfold uc_UpdateOrderStatus, bind, wrap_err.
  destruct (OrderRepo_GetByID id o w) as [[e|order] w1] eqn:Hget; apply read_inv in Hget as [Hw1 Hval].
  { cbn [snd]. rewrite Hw1. intros id'. by left. }
  specialize (Hval _ eq_refl). destruct (t_orders (w_st w) !! id) as [row|] eqn:Hrow; [|done]. injection Hval as <-.
  unfold ValidateTransition. simpl. destruct (CanTransition (or_Status row) new) eqn:Hcan; simpl;
    [|rewrite Hw1; intros id'; by left].
  assert (Hp : pres (moved (w_st w) id new) (OrderRepo_UpdateStatus id new)).
  { eapply UpdateStatus_moved; [|exact Hcan]. unfold status_at. by rewrite Hrow. }
  assert (H0 : moved (w_st w) id new (w_st w1)) by (rewrite Hw1; intros id'; by left).
  specialize (Hp o w1 H0). destruct (OrderRepo_UpdateStatus id new o w1) as [[e|u] w2]; [done|].
  apply publishOrderEvent_pres; [|done]. intros s1 ev Hs id'. apply (Hs id').
Qed.

(** Orders are private: a caller that is neither the owner of the order nor an
    administrator can neither read nor cancel it; the call fails and changes nothing,
    whatever the environment does. *)
Theorem order_needs_owner redis ctx user order_id o w :
  GetUserID ctx = Some user -> fst (GetRole ctx) ≠ RoleAdmin ->
  (forall id row, uuid_Parse order_id = Some id -> t_orders (w_st w) !! id = Some row -> uuid_String (or_UserID row) ≠ user) ->
  (exists e, fst (handler_GetOrder ctx order_id o w) = inl e) /\
  (exists e, fst (handler_CancelOrder redis ctx order_id o w) = inl e) /\
  w_st (snd (handler_CancelOrder redis ctx order_id o w)) = w_st w.
Proof.
  intros Hu Hrole Hown. unfold handler_GetOrder, handler_CancelOrder. rewrite Hu.
  destruct (uuid_Parse order_id) as [id|] eqn:Hid; [|split_and!; eauto]. unfold bind, wrap_err, GetOrder.
  destruct (OrderRepo_GetByID id o w) as [[e|order] w1] eqn:Hget; apply read_inv in Hget as [Hw1 Hval];
    [split_and!; eauto|].
  specialize (Hval _ eq_refl). destruct (t_orders (w_st w) !! id) as [row|] eqn:Hrow; [|done]. injection Hval as <-.
  unfold owned, role_is. simpl. rewrite !bool_decide_false; [|done|by eapply Hown]. simpl. split_and!; eauto.
Qed.
End Usecase.

(** ** Concrete runs *)

#[local] Existing Instance uuid_text.
#[local] Existing Instance uuid_text_laws.

Lemma order_total_sound_witness : order_total two_items = 300.
Proof. apply (order_total_sound two_items); [repeat constructor|reflexivity]. Defined.

(** Go doubles the capacity of a small slice. *)
Definition double (n : nat) : nat := match n with O => 1 | _ => 2 * n end.

Definition list_run : (error + (list Order * Z)) * world (OrderSt toy) :=
  OrderRepo_ListByUser double usr_id 1 10 calm (World 0 ord_st).

Definition listed : list Order * Z := match fst list_run with inr r => r | inl _ => ([], 0) end.

Lemma ListByUser_groups_rows_witness :
  fst listed = ref_scan (page_rows ord_st usr_id 1 10) /\ snd listed = 1.
Proof.
  destruct (ListByUser_groups_rows double usr_id 1 10 calm (World 0 ord_st) (fst listed) (snd listed) (snd list_run))
    as (H1 & H2 & _).
  - unfold listed, list_run. reflexivity.
  - split; [exact H1|]. rewrite H2. reflexivity.
Defined.

(** LIMIT counts joined rows, not orders: with a page size of one, the page of
    a user whose only order has two items holds that order with one item, while
    the total still says one. *)
Theorem ListByUser_truncates_items :
  let r := match fst (OrderRepo_ListByUser double usr_id 1 1 calm (World 0 ord_st)) with inr r => r | inl _ => ([], 0) end in
  map (fun h => length (o_Items h)) (fst r) = [1%nat] /\ snd r = 1 /\ length (items_of ord_id ord_st) = 2%nat.
Proof. vm_compute. done. Qed.

Definition no_orders : OrderSt toy := MkOrderSt ∅ [] ∅ (MkOutbox [] ∅) [] (MkToy [] []).

Lemma no_orders_announced : announced no_orders.
Proof. intros id [x Hx]. simpl in Hx. by rewrite lookup_empty in Hx. Qed.

Definition basket : list OrderItem := [MkItem uuid_Nil uuid_Nil pA 2 100].

Lemma CreateOrder_keeps_outbox_witness :
  announced (w_st (snd (CreateOrder true usr_id basket "key" (lost_at 8) (World 0 no_orders)))).
Proof. apply CreateOrder_keeps_outbox. exact no_orders_announced. Defined.

(** The client repeats CreateOrder with the same idempotency key. *)
Definition created_twice : OrderSt toy :=
  w_st (snd ((do* CreateOrder true usr_id basket "key" in CreateOrder true usr_id basket "key")
    calm (World 0 no_orders))).

Definition stranger : Ctx := WithIdentity Background (MkIdentity "stranger" RoleUser "").

Lemma order_needs_owner_witness :
  w_st (snd (handler_CancelOrder true stranger (uuid_String ord_id) calm (World 0 ord_st))) = ord_st.
Proof.
  apply (order_needs_owner true stranger "stranger" (uuid_String ord_id) calm (World 0 ord_st)).
  - reflexivity.
  - discriminate.
  - intros id row _ Hrow. change (({[ ord_id := order_row ord ]} : gmap UUID OrderRow) !! id = Some row) in Hrow.
    apply lookup_singleton_Some in Hrow as [_ <-]. discriminate.
Defined.

(** The idempotency key of CreateOrder does not make it idempotent: a client
    that repeats the call with the same key gets a second order, a second
    reservation and a second charge. *)
Theorem CreateOrder_is_not_idempotent :
  size (t_orders created_twice) = 2%nat /\ list_sumZ snd (toy_holds (t_ext created_twice)) = 4 /\
  length (toy_charges (t_ext created_twice)) = 2%nat.
Proof. vm_compute. done. Qed.
