(* ===== verification/Outbox.v ===== *)
(** * order-service: the outbox relay

    OutboxPostgres with its transaction handle, and the polling loop of
    [internal/outbox/relay.go] that publishes outbox events to Kafka.  A statement
    that fails inside a Postgres transaction aborts it: later statements fail
    and the commit rolls back, also when the code only logs the error. *)
From S2P Require Import Prelude Errors Effects OrderDomain OrderRepo.

(** ** Configuration of the relay *)

Definition relay_maxRetries : Z := 5.
Definition baseBackoff : Z := 500 * 10 ^ 6.
Definition maxBackoff : Z := 30 * 10 ^ 9.

(** The delay of calculateNextRetry, in 64-bit arithmetic. *)
Definition backoff (retryCount : Z) : Z :=
  let factor := int64 (Z.shiftl 1 (Z.min retryCount 10)) in
  let b := int64 (baseBackoff * factor) in
  if maxBackoff <? b then maxBackoff else b.

Section Outbox.
Context `{U : UuidLib}.

(** [os_tx]: the tables when the transaction began, and whether it is aborted. *)
Record OutSt := MkOutSt {
  os_tab : OutboxTables;
  os_tx : option (OutboxTables * bool);
  os_kafka : list (string * string * json)
}.

Definition set_tab (t : OutboxTables) (s : OutSt) : OutSt := MkOutSt t (os_tx s) (os_kafka s).

Definition pg_in_failed_tx : error := EPg "25P02" "current transaction is aborted, commands ignored until end of transaction block".

Definition abort_tx (s : OutSt) : OutSt :=
  MkOutSt (os_tab s) (match os_tx s with Some (old, _) => Some (old, true) | None => None end) (os_kafka s).

Definition is_aborted (s : OutSt) : bool := match os_tx s with Some (_, b) => b | None => false end.

(** One statement on the transaction or, without one, on the pool. *)
Definition stmt {A} (f : OutboxTables -> (error + A) * OutboxTables) : M OutSt A :=
  fun o w =>
    match o_fault o (w_tick w) with
    | FNone =>
        if is_aborted (w_st w) then (inl pg_in_failed_tx, next w)
        else match f (os_tab (w_st w)) with
             | (inr a, t) => (inr a, World (S (w_tick w)) (set_tab t (w_st w)))
             | (inl e, _) => (inl e, World (S (w_tick w)) (abort_tx (w_st w)))
             end
    | FBefore e => (inl e, World (S (w_tick w)) (abort_tx (w_st w)))
    | FAfter e =>
        match os_tx (w_st w), f (os_tab (w_st w)) with
        | None, (inr _, t) => (inl e, World (S (w_tick w)) (set_tab t (w_st w)))
        | _, _ => (inl e, World (S (w_tick w)) (abort_tx (w_st w)))
        end
    end.

(** ** OutboxPostgres *)

Definition outbox_Begin : M OutSt unit :=
  fun o w =>
    match os_tx (w_st w) with
    | Some _ => (inr tt, w)
    | None =>
        match o_fault o (w_tick w) with
        | FNone => (inr tt, World (S (w_tick w)) (MkOutSt (os_tab (w_st w)) (Some (os_tab (w_st w), false)) (os_kafka (w_st w))))
        | FBefore e | FAfter e => (inl (wrapf "begin outbox tx" e), next w)
        end
    end.

(** The commit of an aborted transaction rolls back and returns an error. *)
Definition outbox_Commit : M OutSt unit :=
  fun o w =>
    match os_tx (w_st w) with
    | None => (inl (EPlain "no active outbox transaction"), w)
    | Some (old, aborted) =>
        let committed := MkOutSt (os_tab (w_st w)) None (os_kafka (w_st w)) in
        let rolled_back := MkOutSt old None (os_kafka (w_st w)) in
        let t := S (w_tick w) in
        if aborted then (inl (EPlain "commit unexpectedly resulted in rollback"), World t rolled_back)
        else match o_fault o (w_tick w) with
             | FNone => (inr tt, World t committed)
             | FBefore e => (inl e, World t rolled_back)
             | FAfter e => (inl e, World t committed)
             end
    end.

(** The handle is dropped also when the reply to ROLLBACK is lost. *)
Definition outbox_Rollback : M OutSt unit :=
  fun o w =>
    match os_tx (w_st w) with
    | None => (inr tt, w)
    | Some (old, _) =>
        let w' := World (S (w_tick w)) (MkOutSt old None (os_kafka (w_st w))) in
        match o_fault o (w_tick w) with
        | FNone => (inr tt, w')
        | FBefore e | FAfter e => (inl e, w')
        end
    end.

Definition older_event (a b : OutboxEvent) : Prop := ev_CreatedAt a <= ev_CreatedAt b.

#[global] Instance older_event_dec : RelDecision older_event.
Proof. intros a b. unfold older_event. apply _. Defined.

Definition due (t : Z) (e : OutboxEvent) : Prop := ev_ProcessedAt e = None /\ ev_NextRetryAt e <= t.

#[global] Instance due_dec t e : Decision (due t e).
Proof. unfold due. apply _. Defined.

Definition GetUnprocessed (limit : nat) : M OutSt (list OutboxEvent) :=
  let* t := now in
  wrap_err (wrapf "get unprocessed outbox") (stmt (fun tab =>
    (inr (take limit (merge_sort older_event (filter (due t) (ob_rows tab)))), tab))).

Definition mark (t : Z) (e : OutboxEvent) : OutboxEvent :=
  MkEvent (ev_ID e) (ev_AggregateType e) (ev_AggregateID e) (ev_EventType e) (ev_Payload e) (ev_CreatedAt e)
    (Some t) (ev_RetryCount e) (ev_LastError e) (ev_NextRetryAt e).

Definition update_rows (sel : OutboxEvent -> bool) (f : OutboxEvent -> OutboxEvent) (tab : OutboxTables) : OutboxTables :=
  MkOutbox ((fun e => if sel e then f e else e) <$> ob_rows tab) (ob_dlq tab).

Definition MarkProcessed (id : UUID) : M OutSt unit :=
  let* t := now in
  wrap_err (wrapf "mark outbox processed") (stmt (fun tab =>
    (inr tt, update_rows (fun e => bool_decide (ev_ID e = id)) (mark t) tab))).

Definition BatchMarkProcessed (ids : list UUID) : M OutSt unit :=
  let* t := now in
  wrap_err (wrapf "batch mark outbox processed") (stmt (fun tab =>
    (inr tt, update_rows (fun e => bool_decide (ev_ID e ∈ ids)) (mark t) tab))).

Definition retried (lastError : string) (nextRetryAt : Z) (e : OutboxEvent) : OutboxEvent :=
  MkEvent (ev_ID e) (ev_AggregateType e) (ev_AggregateID e) (ev_EventType e) (ev_Payload e) (ev_CreatedAt e)
    (ev_ProcessedAt e) (ev_RetryCount e + 1) (Some lastError) nextRetryAt.

Definition IncrementRetryAndSetError (id : UUID) (lastError : string) (nextRetryAt : Z) : M OutSt unit :=
  wrap_err (wrapf "increment outbox retry") (stmt (fun tab =>
    (inr tt, update_rows (fun e => bool_decide (ev_ID e = id)) (retried lastError nextRetryAt) tab))).

Definition dlq_row (event : OutboxEvent) (failedAt : Z) (lastError : string) : OutboxDLQEvent :=
  MkDLQ (ev_ID event) (ev_AggregateType event) (ev_AggregateID event) (ev_EventType event) (ev_Payload event)
    (ev_CreatedAt event) failedAt (Some lastError) (ev_RetryCount event + 1).

Definition MoveToDLQ (event : OutboxEvent) (failedAt : Z) (lastError : string) : M OutSt unit :=
  do* wrap_err (wrapf "insert outbox dlq") (stmt (fun tab =>
        (inr tt, match ob_dlq tab !! ev_ID event with
                 | Some _ => tab
                 | None => MkOutbox (ob_rows tab) (<[ev_ID event := dlq_row event failedAt lastError]> (ob_dlq tab))
                 end))) in
  wrap_err (wrapf "delete outbox event") (stmt (fun tab =>
    (inr tt, MkOutbox (filter (fun e => ev_ID e ≠ ev_ID event) (ob_rows tab)) (ob_dlq tab)))).

(** ** Relay *)

(** [producer.SendMessage(topic, key, payload)]. *)
Definition SendMessage (topic key : string) (payload : json) : M OutSt unit :=
  io (fun s => (inr tt, MkOutSt (os_tab s) (os_tx s) (os_kafka s ++ [(topic, key, payload)]))).

Definition calculateNextRetry (retryCount : Z) : M OutSt Z :=
  let* t := now in ret (t + backoff retryCount).

(** The body of the loop for one event: its id when it was published. *)
Definition relay_event (topic : string) (failedAt : Z) (event : OutboxEvent) : M OutSt (option UUID) :=
  let* r := attempt (SendMessage topic (ev_AggregateID event) (ev_Payload event)) in
  match r with
  | inr _ => ret (Some (ev_ID event))
  | inl err =>
      let* nextRetry := calculateNextRetry (ev_RetryCount event) in
      if relay_maxRetries <=? ev_RetryCount event + 1 then
        do* attempt (MoveToDLQ event failedAt (Error err)) in ret None
      else
        do* attempt (IncrementRetryAndSetError (ev_ID event) (Error err) nextRetry) in ret None
  end.

Fixpoint relay_events (topic : string) (failedAt : Z) (events : list OutboxEvent) : M OutSt (list UUID) :=
  match events with
  | [] => ret []
  | e :: events' =>
      let* sent := relay_event topic failedAt e in
      let* rest := relay_events topic failedAt events' in
      ret (match sent with Some id => id :: rest | None => rest end)
  end.

Definition commit_or_rollback : M OutSt unit :=
  let* c := attempt outbox_Commit in
  match c with
  | inr _ => ret tt
  | inl _ => do* attempt outbox_Rollback in ret tt
  end.

(** poll: every error is logged. *)
Definition poll (topic : string) : M OutSt unit :=
  let* b := attempt outbox_Begin in
  match b with
  | inl _ => ret tt
  | inr _ =>
      let* r := attempt (GetUnprocessed 100) in
      match r with
      | inl _ => do* attempt outbox_Rollback in ret tt
      | inr events =>
          let* t := now in
          let* processed := relay_events topic t events in
          if bool_decide (length processed = 0%nat) then commit_or_rollback
          else
            let* m := attempt (BatchMarkProcessed processed) in
            match m with
            | inl _ => do* attempt outbox_Rollback in ret tt
            | inr _ => commit_or_rollback
            end
      end
  end.
End Outbox.
