(* ===== verification/OutboxFacts.v ===== *)
(** * order-service: theorems about the outbox relay

    Delivery is at least once under every failure pattern: an event is marked
    processed only after it was published, and no event disappears.  A calm poll
    publishes what is due, oldest first.  The retry delay is bounded. *)
From S2P Require Import Prelude Errors Effects Auth OrderDomain OrderRepo Outbox.

(** ** The retry delay *)

(** The delay before the next attempt is 500 ms doubled per failed attempt,
    capped at 30 s; the 64-bit product never overflows, and the delay never
    decreases. *)
Theorem backoff_spec (c : Z) :
  0 <= c ->
  backoff c = Z.min maxBackoff (baseBackoff * 2 ^ Z.min c 10) /\
  baseBackoff <= backoff c <= maxBackoff /\ backoff c <= backoff (c + 1).
Proof.
  intros Hc.
  assert (Hval : forall c, 0 <= c -> backoff c = Z.min maxBackoff (baseBackoff * 2 ^ Z.min c 10)).
  { clear. intros c Hc. unfold backoff. rewrite Z.shiftl_1_l.
    assert (Hp : 1 <= 2 ^ Z.min c 10 <= 2 ^ 10).
    { split; [apply (Z.pow_le_mono_r 2 0); lia|apply Z.pow_le_mono_r; lia]. }
    change (2 ^ 10) with 1024 in Hp.
    rewrite (int64_id (2 ^ Z.min c 10)) by (unfold in_int64; apply andb_true_intro; split; lia).
    unfold baseBackoff, maxBackoff. change (500 * 10 ^ 6) with 500000000. change (30 * 10 ^ 9) with 30000000000.
    rewrite int64_id by (unfold in_int64; apply andb_true_intro; split; lia).
    destruct (Z.ltb_spec 30000000000 (500000000 * 2 ^ Z.min c 10)); lia. }
  rewrite !Hval by lia.
  assert (H1 : 1 <= 2 ^ Z.min c 10) by (apply (Z.pow_le_mono_r 2 0); lia).
  assert (H2 : 2 ^ Z.min c 10 <= 2 ^ Z.min (c + 1) 10) by (apply Z.pow_le_mono_r; lia).
  unfold baseBackoff, maxBackoff in *. change (500 * 10 ^ 6) with 500000000. change (30 * 10 ^ 9) with 30000000000.
  lia.
Qed.

Lemma backoff_spec_witness : backoff 3 = 4 * 10 ^ 9.
Proof. destruct (backoff_spec 3) as [H _]; [lia|]. rewrite H. reflexivity. Defined.

Section Facts.
Context `{U : UuidLib}.
Implicit Types (o : oracle) (w : world OutSt) (s : OutSt) (tab : OutboxTables).

(** ** At-least-once delivery *)

(** [C] gives the key and payload of each event id; [ids] are the events that
    must not be lost. *)
Context (topic : string) (C : UUID -> string * json) (ids : list UUID).

Definition sent (k : list (string * string * json)) (id : UUID) : Prop := (topic, fst (C id), snd (C id)) ∈ k.

Record tab_ok (k : list (string * string * json)) tab : Prop := MkTabOk {
  tab_content : forall e, e ∈ ob_rows tab -> C (ev_ID e) = (ev_AggregateID e, ev_Payload e);
  tab_processed : forall e, e ∈ ob_rows tab -> ev_ProcessedAt e ≠ None -> sent k (ev_ID e);
  tab_dlq : forall id d, ob_dlq tab !! id = Some d -> C id = (dq_AggregateID d, dq_Payload d);
  tab_covers : forall id, id ∈ ids -> (exists e, e ∈ ob_rows tab /\ ev_ID e = id) \/ is_Some (ob_dlq tab !! id)
}.

Definition out_ok s : Prop :=
  tab_ok (os_kafka s) (os_tab s) /\ forall old b, os_tx s = Some (old, b) -> tab_ok (os_kafka s) old.

Lemma tab_ok_mono k k' tab : tab_ok k tab -> (forall x, x ∈ k -> x ∈ k') -> tab_ok k' tab.
Proof. intros [H1 H2 H3 H4] Hsub. split; [done| |done|done]. intros e He Hp. by apply Hsub, H2. Qed.

Lemma out_ok_abort s : out_ok s -> out_ok (abort_tx s).
Proof.
  intros [H1 H2]. split; [done|]. intros old b. simpl. destruct (os_tx s) as [[old' b']|]; [|done].
  intros [= <- _]. by apply (H2 _ b').
Qed.

Lemma pres_stmt {A} (P : list (string * string * json) -> Prop) (f : OutboxTables -> (error + A) * OutboxTables) :
  (forall k tab, P k -> tab_ok k tab -> tab_ok k (snd (f tab))) ->
  pres (fun s => out_ok s /\ P (os_kafka s)) (stmt f).
Proof.
  intros Hf o w [HI HP]. pose proof (out_ok_abort _ HI) as Ha.
  assert (Hstep : out_ok (set_tab (snd (f (os_tab (w_st w)))) (w_st w))) by (split; [by apply Hf, HI|apply HI]).
  unfold stmt. destruct (o_fault o (w_tick w)).
  - destruct (is_aborted (w_st w)); [done|].
    destruct (f (os_tab (w_st w))) as [[e|a] t]; simpl in *; by split.
  - by split.
  - destruct (os_tx (w_st w)); [by split|]. destruct (f (os_tab (w_st w))) as [[e'|a] t]; simpl in *; by split.
Qed.

Lemma pres_stmt_ok {A} (f : OutboxTables -> (error + A) * OutboxTables) :
  (forall k tab, tab_ok k tab -> tab_ok k (snd (f tab))) -> pres out_ok (stmt f).
Proof.
  intros Hf o w HI. destruct (pres_stmt (fun _ => True) f) with (o := o) (w := w); [|done|done].
  intros k tab _. apply Hf.
Qed.

Lemma update_rows_ok k tab sel f :
  (forall e, ev_ID (f e) = ev_ID e /\ ev_AggregateID (f e) = ev_AggregateID e /\ ev_Payload (f e) = ev_Payload e) ->
  (forall e, e ∈ ob_rows tab -> sel e = true -> ev_ProcessedAt (f e) ≠ None -> sent k (ev_ID e)) ->
  tab_ok k tab -> tab_ok k (update_rows sel f tab).
Proof.
  intros Hf Hsent [H1 H2 H3 H4]. split; simpl.
  - intros e' (e & -> & He)%list_elem_of_fmap. destruct (sel e); [|by apply H1].
    destruct (Hf e) as (-> & -> & ->). by apply H1.
  - intros e' (e & -> & He)%list_elem_of_fmap. destruct (sel e) eqn:Hsel; [|by apply H2].
    destruct (Hf e) as (-> & _ & _). by apply Hsent.
  - done.
  - intros id Hid. destruct (H4 id Hid) as [(e & He & Heq)|Hd]; [left|by right].
    exists (if sel e then f e else e). split; [by apply (list_elem_of_fmap_2 (fun e => if sel e then f e else e))|].
    destruct (sel e); [|done]. by destruct (Hf e) as (-> & _).
Qed.

Lemma IncrementRetry_ok id msg t : pres out_ok (IncrementRetryAndSetError id msg t).
Proof.
  apply pres_wrap_err, pres_stmt_ok. intros k tab HI. simpl. apply update_rows_ok; [by intros e| |done].
  intros e He _ Hp. by apply (tab_processed _ _ HI).
Qed.

Lemma stmt_inv {A} (f : OutboxTables -> (error + A) * OutboxTables) o w r w' :
  stmt f o w = (r, w') ->
  match r with
  | inl _ => w_st w' = w_st w \/ w_st w' = abort_tx (w_st w) \/ w_st w' = set_tab (snd (f (os_tab (w_st w)))) (w_st w)
  | inr a => f (os_tab (w_st w)) = (inr a, os_tab (w_st w')) /\ w_st w' = set_tab (os_tab (w_st w')) (w_st w)
  end.
Proof.
  unfold stmt. intros H. destruct (o_fault o (w_tick w)).
  - destruct (is_aborted (w_st w)); [simplify_eq; by left|].
    destruct (f (os_tab (w_st w))) as [[e|a] t]; simplify_eq/=; auto.
  - simplify_eq. auto.
  - destruct (os_tx (w_st w)); [simplify_eq; auto|].
    destruct (f (os_tab (w_st w))) as [[e'|a] t]; simplify_eq/=; auto.
Qed.

(** A statement that keeps the tables in order in the current state. *)
Lemma stmt_ok {A} (f : OutboxTables -> (error + A) * OutboxTables) o w :
  out_ok (w_st w) -> tab_ok (os_kafka (w_st w)) (snd (f (os_tab (w_st w)))) -> out_ok (w_st (snd (stmt f o w))).
Proof.
  intros HI Hf. destruct (stmt f o w) as [r w'] eqn:Hrun. apply stmt_inv in Hrun. simpl.
  assert (Hset : out_ok (set_tab (snd (f (os_tab (w_st w)))) (w_st w))) by (split; [exact Hf|apply HI]).
  destruct r as [e|a].
  - destruct Hrun as [->|[->| ->]]; [done|by apply out_ok_abort|done].
  - destruct Hrun as [Ha ->]. by rewrite Ha in Hset.
Qed.

Lemma dlq_insert_ok k tab e t msg :
  C (ev_ID e) = (ev_AggregateID e, ev_Payload e) -> tab_ok k tab ->
  tab_ok k (match ob_dlq tab !! ev_ID e with
            | Some _ => tab
            | None => MkOutbox (ob_rows tab) (<[ev_ID e := dlq_row e t msg]> (ob_dlq tab))
            end).
Proof.
  intros Hc HI. destruct (ob_dlq tab !! ev_ID e) eqn:Hd; [done|].
  destruct HI as [H1 H2 H3 H4]. split; simpl; [done|done| |].
  - intros id d Hid. apply lookup_insert_Some in Hid as [[<- <-]|[_ Hid]]; [done|by apply H3].
  - intros id Hid. destruct (H4 id Hid) as [|Hs]; [by left|right]. rewrite lookup_insert_is_Some'. by right.
Qed.

Lemma rows_delete_ok k tab id :
  is_Some (ob_dlq tab !! id) -> tab_ok k tab ->
  tab_ok k (MkOutbox (filter (fun e => ev_ID e ≠ id) (ob_rows tab)) (ob_dlq tab)).
Proof.
  intros Hd [H1 H2 H3 H4]. split; simpl.
  - intros e [_ He]%list_elem_of_filter. by apply H1.
  - intros e [_ He]%list_elem_of_filter. by apply H2.
  - done.
  - intros id' Hid. destruct (decide (id' = id)) as [->|Hne]; [by right|].
    destruct (H4 id' Hid) as [(e & He & <-)|Hs]; [left|by right]. exists e. split; [|done].
    by apply list_elem_of_filter.
Qed.

Lemma MoveToDLQ_ok e t msg :
  C (ev_ID e) = (ev_AggregateID e, ev_Payload e) -> pres out_ok (MoveToDLQ e t msg).
Proof.
  intros Hc o w HI. unfold MoveToDLQ, bind, wrap_err.
  set (f := fun tab => _). assert (Hins : out_ok (w_st (snd (stmt f o w)))) by (apply stmt_ok; [done|]; unfold f; simpl; apply dlq_insert_ok; [done|apply HI]).
  destruct (stmt f o w) as [[err|u] w1] eqn:Hrun; [done|]. apply stmt_inv in Hrun as [Ha _]. simpl in Hins.
  assert (Hd : is_Some (ob_dlq (os_tab (w_st w1)) !! ev_ID e)).
  { unfold f in Ha. injection Ha as _ <-. destruct (ob_dlq (os_tab (w_st w)) !! ev_ID e) eqn:Hd; [by rewrite Hd|].
    simpl. by rewrite lookup_insert_eq. }
  set (g := fun tab => _). assert (Hdel : out_ok (w_st (snd (stmt g o w1)))).
  { apply stmt_ok; [done|]. apply rows_delete_ok; [done|apply Hins]. }
  by destruct (stmt g o w1) as [[err|v] w2].
Qed.

(** The relay's transaction operations. *)
Lemma Begin_ok : pres out_ok outbox_Begin.
Proof.
  intros o w HI. unfold outbox_Begin. destruct (os_tx (w_st w)); [done|].
  destruct (o_fault o (w_tick w)); [|done|done]. simpl. split; [apply HI|]. intros old b [= <- _]. apply HI.
Qed.

Lemma Commit_ok : pres out_ok outbox_Commit.
Proof.
  intros o w HI. unfold outbox_Commit. destruct (os_tx (w_st w)) as [[old b]|] eqn:Htx; [|done].
  assert (Hold : tab_ok (os_kafka (w_st w)) old) by (by apply (proj2 HI old b)).
  destruct b; [by split|]. destruct (o_fault o (w_tick w)); simpl; split; simpl; done || apply HI.
Qed.

Lemma Rollback_ok : pres out_ok outbox_Rollback.
Proof.
  intros o w HI. unfold outbox_Rollback. destruct (os_tx (w_st w)) as [[old b]|] eqn:Htx; [|done].
  assert (Hold : tab_ok (os_kafka (w_st w)) old) by (by apply (proj2 HI old b)).
  destruct (o_fault o (w_tick w)); simpl; by split.
Qed.

(** Everything in [l] has been published. *)
Definition all_sent (l : list UUID) s : Prop := forall id, id ∈ l -> sent (os_kafka s) id.

Lemma SendMessage_triple O e :
  C (ev_ID e) = (ev_AggregateID e, ev_Payload e) ->
  triple O out_ok (SendMessage topic (ev_AggregateID e) (ev_Payload e))
    (fun _ s => out_ok s /\ sent (os_kafka s) (ev_ID e)) out_ok.
Proof.
  intros Hc. apply triple_io. intros s HI. simpl.
  assert (Hnew : out_ok (MkOutSt (os_tab s) (os_tx s) (os_kafka s ++ [(topic, ev_AggregateID e, ev_Payload e)]))).
  { destruct HI as [H1 H2]. split; simpl.
    - eapply tab_ok_mono; [exact H1|]. intros x Hx. apply elem_of_app. by left.
    - intros old b Htx. eapply tab_ok_mono; [by eapply H2|]. intros x Hx. apply elem_of_app. by left. }
  split_and!; [done|done|done|]. unfold sent. rewrite Hc. simpl. apply elem_of_app. right. by apply list_elem_of_singleton.
Qed.

(** The broker's log only grows. *)
Lemma stmt_kafka {A} (f : OutboxTables -> (error + A) * OutboxTables) l : pres (all_sent l) (stmt f).
Proof.
  intros o w HI. destruct (stmt f o w) as [r w'] eqn:Hrun. apply stmt_inv in Hrun. simpl.
  destruct r as [e|a].
  - by destruct Hrun as [->|[->| ->]].
  - destruct Hrun as [_ ->]. done.
Qed.

Lemma SendMessage_kafka k p l : pres (all_sent l) (SendMessage topic k p).
Proof. apply pres_io. intros s Hl id Hid. apply elem_of_app. left. by apply Hl. Qed.

Hint Resolve stmt_kafka SendMessage_kafka : go_pres.

Lemma relay_event_kafka t e l : pres (all_sent l) (relay_event topic t e).
Proof. unfold relay_event, calculateNextRetry, MoveToDLQ, IncrementRetryAndSetError. auto 12 with go_pres. Qed.

Lemma relay_events_kafka t es l : pres (all_sent l) (relay_events topic t es).
Proof. induction es; simpl; auto using relay_event_kafka with go_pres. Qed.

(** One event: its id is returned only when it was published. *)
Lemma relay_event_triple O t e :
  C (ev_ID e) = (ev_AggregateID e, ev_Payload e) ->
  triple O out_ok (relay_event topic t e) (fun r s => out_ok s /\ all_sent (option_list r) s) out_ok.
Proof.
  intros Hc. unfold relay_event. eapply triple_bind; [eapply triple_attempt, (SendMessage_triple O e Hc)|].
  intros [err|u].
  - eapply triple_bind; [apply triple_pres; unfold calculateNextRetry; auto with go_pres|]. intros next.
    assert (Hdone : triple O out_ok (ret None : M OutSt (option UUID))
                      (fun r s => out_ok s /\ all_sent (option_list r) s) out_ok).
    { intros o w _ Hs. split; [done|]. by intros id ?%elem_of_nil. }
    destruct (relay_maxRetries <=? ev_RetryCount e + 1).
    + eapply triple_bind; [apply triple_pres, pres_attempt, MoveToDLQ_ok, Hc|]. intros ?. exact Hdone.
    + eapply triple_bind; [apply triple_pres, pres_attempt, IncrementRetry_ok|]. intros ?. exact Hdone.
  - intros o w _ [Hs Hsent]. split; [done|]. by intros id ->%list_elem_of_singleton.
Qed.

Lemma relay_events_triple O t es :
  (forall e, e ∈ es -> C (ev_ID e) = (ev_AggregateID e, ev_Payload e)) ->
  triple O out_ok (relay_events topic t es) (fun l s => out_ok s /\ all_sent l s) out_ok.
Proof.
  induction es as [|e es IH]; intros Hc; simpl.
  - intros o w _ Hs. split; [done|]. by intros id ?%elem_of_nil.
  - eapply triple_bind; [apply relay_event_triple, Hc, list_elem_of_here|]. intros r.
    apply triple_bind_ret. eapply triple_conseq.
    + eapply triple_frame; [apply (relay_events_kafka t es (option_list r))|apply IH]. intros e' He'. by apply Hc, list_elem_of_further.
    + done.
    + intros l s [[Hs Hl] Hr]. split; [done|]. destruct r as [id|]; [|done].
      intros id' [->|Hid]%elem_of_cons; [apply Hr, list_elem_of_here|by apply Hl].
    + intros s [Hs _]. done.
Qed.

Lemma BatchMark_ok O l : triple O (fun s => out_ok s /\ all_sent l s) (BatchMarkProcessed l) (fun _ => out_ok) out_ok.
Proof.
  unfold BatchMarkProcessed. eapply triple_bind; [apply triple_now|]. intros t.
  apply triple_wrap_err. intros o w _ [HI Hl].
  assert (Hok : out_ok (w_st (snd (stmt (fun tab => (inr tt : error + unit,
    update_rows (fun e => bool_decide (ev_ID e ∈ l)) (mark t) tab)) o w)))).
  { apply stmt_ok; [done|]. simpl. apply update_rows_ok; [done| |apply HI].
    intros e _ Hsel _. apply bool_decide_eq_true in Hsel. by apply Hl. }
  by destruct (stmt _ o w) as [[e|u] w'].
Qed.

Lemma GetUnprocessed_triple O n :
  triple O out_ok (GetUnprocessed n)
    (fun es s => (forall e, e ∈ es -> C (ev_ID e) = (ev_AggregateID e, ev_Payload e)) /\ out_ok s) out_ok.
Proof.
  unfold GetUnprocessed. eapply triple_bind; [apply triple_now|]. intros t. apply triple_wrap_err.
  intros o w _ HI. destruct (stmt _ o w) as [r w'] eqn:Hrun.
  assert (Hok : out_ok (w_st w')).
  { change w' with (snd (r, w')). rewrite <- Hrun. apply stmt_ok; [done|apply HI]. }
  apply stmt_inv in Hrun. destruct r as [e|es]; [done|]. split; [|done].
  destruct Hrun as [[= <- _] _]. intros e He. apply (tab_content _ _ (proj1 HI)).
  apply elem_of_take in He as (i & Hi & _). apply list_elem_of_lookup_2 in Hi.
  rewrite merge_sort_Permutation in Hi. by apply list_elem_of_filter in Hi as [_ Hi].
Qed.

Lemma commit_or_rollback_ok : pres out_ok commit_or_rollback.
Proof. unfold commit_or_rollback. auto using Commit_ok, Rollback_ok with go_pres. Qed.

Lemma poll_triple O : triple O out_ok (poll topic) (fun _ => out_ok) out_ok.
Proof.
  assert (Hroll : pres out_ok (do* attempt outbox_Rollback in ret tt)) by auto using Rollback_ok with go_pres.
  unfold poll. eapply triple_bind; [apply triple_pres, pres_attempt, Begin_ok|].
  intros [e|_]; [apply triple_pres; auto with go_pres|].
  eapply triple_bind; [eapply triple_attempt, GetUnprocessed_triple|]. intros [e|es]; [by apply triple_pres|].
  apply triple_pure. intros Hes. eapply triple_bind; [apply triple_now|]. intros t.
  eapply triple_bind; [by apply relay_events_triple|]. intros l.
  destruct (bool_decide (length l = 0%nat)).
  - eapply triple_conseq; [apply triple_pres, commit_or_rollback_ok|by intros s []|done|done].
  - eapply triple_bind; [eapply triple_attempt, BatchMark_ok|]. intros [e|u]; [by apply triple_pres|].
    apply triple_pres, commit_or_rollback_ok.
Qed.

Lemma poll_keeps : pres out_ok (poll topic).
Proof.
  intros o w HI. apply (triple_final (fun _ => True) _ _ _ _ o w (poll_triple _)); done.
Qed.

(** The relay is only ever started again. *)
Fixpoint polls (n : nat) : M OutSt unit :=
  match n with
  | 0%nat => ret tt
  | S n' => do* poll topic in polls n'
  end.

Lemma polls_keep n : pres out_ok (polls n).
Proof. induction n; simpl; auto using poll_keeps with go_pres. Qed.

(** An event that has not been lost: waiting in the outbox, kept in the DLQ with
    its payload, or published. *)
Definition accounted s (id : UUID) : Prop :=
  (exists e, e ∈ ob_rows (os_tab s) /\ ev_ID e = id /\ ev_ProcessedAt e = None) \/
  (exists d, ob_dlq (os_tab s) !! id = Some d /\ C id = (dq_AggregateID d, dq_Payload d)) \/
  sent (os_kafka s) id.

(** C17. At-least-once delivery: whatever statements, commits, rollbacks and
    publications fail, after any number of polls every event is still waiting
    in the outbox, was published with its key and payload, or sits in the DLQ
    with them; a row is marked processed only after its publication. *)
Theorem relay_at_least_once n o w :
  out_ok (w_st w) ->
  let s := w_st (snd (polls n o w)) in
  out_ok s /\ (forall id, id ∈ ids -> accounted s id).
Proof.
  intros HI s. assert (Hs : out_ok s) by (by apply polls_keep). split; [done|].
  intros id Hid. destruct (proj1 Hs) as [H1 H2 H3 H4]. destruct (H4 id Hid) as [(e & He & <-)|[d Hd]].
  - destruct (ev_ProcessedAt e) eqn:Hp; [|left; eauto]. right; right. apply H2; [done|]. by rewrite Hp.
  - right; left. eauto.
Qed.

(** ** A calm poll *)

Lemma stmt_no_faults {A} (f : OutboxTables -> (error + A) * OutboxTables) o w :
  no_faults o -> is_aborted (w_st w) = false ->
  stmt f o w = match f (os_tab (w_st w)) with
               | (inr a, t) => (inr a, World (S (w_tick w)) (set_tab t (w_st w)))
               | (inl e, _) => (inl e, World (S (w_tick w)) (abort_tx (w_st w)))
               end.
Proof. intros [Hf _] Ha. unfold stmt. by rewrite Hf, Ha. Qed.

Definition message (e : OutboxEvent) : string * string * json := (topic, ev_AggregateID e, ev_Payload e).

Lemma relay_events_calm o t es w :
  no_faults o ->
  relay_events topic t es o w =
  (inr (ev_ID <$> es),
   World (length es + w_tick w) (MkOutSt (os_tab (w_st w)) (os_tx (w_st w)) (os_kafka (w_st w) ++ (message <$> es)))).
Proof.
  intros Ho. revert w. induction es as [|e es IH]; intros w; simpl.
  - unfold ret. rewrite app_nil_r. by destruct w as [n []].
  - unfold relay_event, bind, attempt, SendMessage. go_step Ho. simpl. unfold ret. rewrite IH. simpl.
    rewrite <- app_assoc. do 3 f_equal. lia.
Qed.

(** The events a poll at time [t] takes: those due, oldest first. *)
Definition batch (t : Z) (rows : list OutboxEvent) : list OutboxEvent :=
  take 100 (merge_sort older_event (filter (due t) rows)).

Lemma batch_sorted t rows : Sorted older_event (batch t rows).
Proof.
  unfold batch. assert (Hs : Sorted older_event (merge_sort older_event (filter (due t) rows))).
  { apply Sorted_merge_sort. intros a b. unfold older_event. lia. }
  revert Hs. generalize (merge_sort older_event (filter (due t) rows)), 100%nat. clear.
  induction l as [|a l IH]; intros [|n] Hs; simpl; [constructor..|].
  apply Sorted_inv in Hs as [Hs Ha]. constructor; [by apply IH|].
  destruct l as [|b l], n; simpl; constructor. by apply HdRel_inv in Ha.
Qed.

Lemma poll_calm o w :
  no_faults o -> os_tx (w_st w) = None ->
  let evs := batch (o_now o (S (w_tick w))) (ob_rows (os_tab (w_st w))) in
  exists t' n, poll topic o w =
    (inr tt, World n (MkOutSt (update_rows (fun e => bool_decide (ev_ID e ∈ (ev_ID <$> evs))) (mark t') (os_tab (w_st w)))
                       None (os_kafka (w_st w) ++ (message <$> evs)))).
Proof.
  intros Ho Htx evs. pose proof Ho as [Hf _].
  unfold poll, bind, attempt, outbox_Begin. rewrite Htx, Hf. simpl.
  unfold GetUnprocessed, bind, now, wrap_err, next. simpl. rewrite (stmt_no_faults _ _ _ Ho) by done. simpl.
  rewrite (relay_events_calm _ _ _ _ Ho). simpl. fold (batch (o_now o (S (w_tick w))) (ob_rows (os_tab (w_st w)))). fold evs.
  destruct evs as [|e evs]; simpl.
  - unfold commit_or_rollback, bind, attempt, outbox_Commit. simpl. rewrite Hf. simpl. exists 0. eexists.
    unfold ret, update_rows. do 4 f_equal. simpl. destruct (os_tab (w_st w)) as [rows dlq]. simpl. f_equal.
    symmetry. rewrite <- (list_fmap_id rows) at 2. apply list_fmap_ext. intros i e _. done.
  - unfold BatchMarkProcessed, bind, now, wrap_err, next. simpl. rewrite (stmt_no_faults _ _ _ Ho) by done. simpl.
    unfold commit_or_rollback, bind, attempt, outbox_Commit. simpl. rewrite Hf. simpl. eexists _, _. reflexivity.
Qed.

(** Without failures, a poll publishes exactly the events that are due, the
    hundred oldest at most and oldest first, marks exactly those processed, and
    leaves no transaction open. *)
Theorem poll_publishes_batch o w :
  no_faults o -> os_tx (w_st w) = None ->
  let evs := batch (o_now o (S (w_tick w))) (ob_rows (os_tab (w_st w))) in
  let '(r, w') := poll topic o w in
  r = inr tt /\ Sorted older_event evs /\
  os_kafka (w_st w') = os_kafka (w_st w) ++ (message <$> evs) /\ os_tx (w_st w') = None /\
  ob_dlq (os_tab (w_st w')) = ob_dlq (os_tab (w_st w)) /\
  exists t', ob_rows (os_tab (w_st w')) =
    (fun e => if bool_decide (ev_ID e ∈ (ev_ID <$> evs)) then mark t' e else e) <$> ob_rows (os_tab (w_st w)).
Proof.
  intros Ho Htx evs. destruct (poll_calm o w Ho Htx) as (t' & n & ->).
  split_and!; [done|apply batch_sorted|done..|]. by exists t'.
Qed.
End Facts.

(** ** A concrete outbox *)

Section Samples.
Local Existing Instance uuid_text.

Definition ev1 : UUID := uuid_sample 1.
Definition ev2 : UUID := uuid_sample 2.
Definition agg : string := "aggregate".
Definition event (id : UUID) (t : Z) : OutboxEvent := MkEvent id "order" agg "order.created" (JStr "x") t None 0 None 0.
Definition sample_out : OutSt := MkOutSt (MkOutbox [event ev2 20; event ev1 10] ∅) None [].
Definition out_world : world OutSt := World 0 sample_out.
Definition quiet : oracle := Oracle (fun _ => FNone) (fun _ => 100) (fun _ => ev1) (fun _ => None) (fun _ => true).
Definition content (id : UUID) : string * json := (agg, JStr "x").

(** Publishing fails: the broker loses the reply of the first send. *)
Definition broker_down : oracle :=
  Oracle (fun n => if Nat.eqb n 4 then FAfter (EPlain "kafka: no leader") else FNone)
    (fun _ => 100) (fun _ => ev1) (fun _ => None) (fun _ => true).

Lemma sample_out_ok : out_ok "orders" content [ev1; ev2] sample_out.
Proof.
  split; [|done]. split; simpl.
  - intros e [->|[->|[]%elem_of_nil]%elem_of_cons]%elem_of_cons; done.
  - intros e [->|[->|[]%elem_of_nil]%elem_of_cons]%elem_of_cons; done.
  - intros id d Hd. by rewrite lookup_empty in Hd.
  - intros id Hid. left. apply elem_of_cons in Hid as [->|[->|[]%elem_of_nil]%elem_of_cons].
    + exists (event ev1 10). split; [|reflexivity]. apply list_elem_of_further, list_elem_of_here.
    + exists (event ev2 20). split; [|reflexivity]. apply list_elem_of_here.
Qed.

Lemma relay_at_least_once_witness :
  accounted "orders" content (w_st (snd (polls "orders" 2 broker_down out_world))) ev1.
Proof.
  apply (relay_at_least_once "orders" content [ev1; ev2] 2 broker_down out_world sample_out_ok).
  apply list_elem_of_here.
Defined.

Lemma poll_publishes_batch_witness : exists w',
  poll "orders" quiet out_world = (inr tt, w') /\ os_kafka (w_st w') = [("orders", agg, JStr "x"); ("orders", agg, JStr "x")].
Proof.
  pose proof (poll_publishes_batch "orders" quiet out_world (conj (fun _ => eq_refl) (fun _ => eq_refl)) eq_refl) as H.
  destruct (poll "orders" quiet out_world) as [r w']. destruct H as (-> & _ & Hk & _).
  exists w'. split; [reflexivity|]. rewrite Hk. vm_compute. reflexivity.
Defined.
End Samples.
