(* ===== verification/OutboxRaces.v ===== *)
(** * Several outbox relays of order-service

    [Outbox.v] runs the polls of one relay.  Every instance of the service has its
    own, over one outbox table: here their transactions run statement by statement.
    The SELECT ... FOR UPDATE SKIP LOCKED locks the rows it returns until the
    transaction ends and leaves out those that another transaction has locked;
    updates become visible at the commit. *)
From S2P Require Import Prelude Errors Effects OrderDomain OrderRepo Outbox OutboxFacts.

Section Races.
Context `{U : UuidLib}.

(** [C]: the key and payload with which an event id is created. *)
Context (topic : string) (C : UUID -> string * json).

(** ** The writes of a poll *)

Inductive relay_write :=
| WMark (ids : list UUID) (t : Z)
| WRetry (id : UUID) (msg : string) (t : Z)
| WDlq (e : OutboxEvent) (failedAt : Z) (msg : string).

Definition write (tab : OutboxTables) (x : relay_write) : OutboxTables :=
  match x with
  | WMark l t => update_rows (fun e => bool_decide (ev_ID e ∈ l)) (mark t) tab
  | WRetry id msg t => update_rows (fun e => bool_decide (ev_ID e = id)) (retried msg t) tab
  | WDlq e t msg =>
      MkOutbox (filter (fun e' => ev_ID e' ≠ ev_ID e) (ob_rows tab))
        (match ob_dlq tab !! ev_ID e with Some _ => ob_dlq tab | None => <[ev_ID e := dlq_row e t msg]> (ob_dlq tab) end)
  end.

Definition writes (l : list relay_write) (tab : OutboxTables) : OutboxTables := foldl write tab l.

(** What poll records of an event whose publication failed at time [t]. *)
Definition refused (failedAt : Z) (e : OutboxEvent) (msg : string) (t : Z) : relay_write :=
  if relay_maxRetries <=? ev_RetryCount e + 1 then WDlq e failedAt msg
  else WRetry (ev_ID e) msg (t + backoff (ev_RetryCount e)).

(** ** The transaction of a poll *)

Record relay_tx := MkTx { tx_locked : list UUID; tx_sent : list UUID; tx_writes : list relay_write; tx_aborted : bool }.

Definition tx_send (id : UUID) (x : relay_tx) : relay_tx := MkTx (tx_locked x) (tx_sent x ++ [id]) (tx_writes x) (tx_aborted x).
Definition tx_write (wr : relay_write) (x : relay_tx) : relay_tx := MkTx (tx_locked x) (tx_sent x) (tx_writes x ++ [wr]) (tx_aborted x).
Definition tx_abort (x : relay_tx) : relay_tx := MkTx (tx_locked x) (tx_sent x) (tx_writes x) true.

Inductive relay_pc :=
| RIdle
| RBegun
| RLoop (failedAt : Z) (todo : list OutboxEvent) (x : relay_tx)
| RCommit (x : relay_tx).

Definition held (p : relay_pc) : list UUID := match p with RLoop _ _ x | RCommit x => tx_locked x | _ => [] end.
Definition in_flight (p : relay_pc) : list UUID := match p with RLoop _ _ x | RCommit x => tx_sent x | _ => [] end.

(** The rows a SELECT ... FOR UPDATE SKIP LOCKED returns, when others hold [L]. *)
Definition select_rows (t : Z) (L : list UUID) (rows : list OutboxEvent) : list OutboxEvent :=
  take 100 (merge_sort older_event (filter (fun e => due t e /\ ev_ID e ∉ L) rows)).

(** One statement or publication of a relay, when the other relays hold [L]: the
    events the broker gets, and the ids whose publication is forgotten. *)
Inductive relay_step (tab : OutboxTables) (L : list UUID) : relay_pc -> list OutboxEvent -> list UUID -> relay_pc -> OutboxTables -> Prop :=
| rs_begin : relay_step tab L RIdle [] [] RBegun tab
| rs_select t failedAt evs :
    evs = select_rows t L (ob_rows tab) ->
    relay_step tab L RBegun [] [] (RLoop failedAt evs (MkTx (ev_ID <$> evs) [] [] false)) tab
| rs_sent n e es x : relay_step tab L (RLoop n (e :: es) x) [e] [] (RLoop n es (tx_send (ev_ID e) x)) tab
| rs_refused n e es x msg t :
    tx_aborted x = false -> relay_step tab L (RLoop n (e :: es) x) [] [] (RLoop n es (tx_write (refused n e msg t) x)) tab
| rs_refused_abort n e es x : relay_step tab L (RLoop n (e :: es) x) [] [] (RLoop n es (tx_abort x)) tab
| rs_unheard n e es x msg t :
    tx_aborted x = false ->
    relay_step tab L (RLoop n (e :: es) x) [e] [ev_ID e] (RLoop n es (tx_write (refused n e msg t) x)) tab
| rs_unheard_abort n e es x : relay_step tab L (RLoop n (e :: es) x) [e] [ev_ID e] (RLoop n es (tx_abort x)) tab
| rs_marked n x t :
    tx_sent x ≠ [] -> tx_aborted x = false ->
    relay_step tab L (RLoop n [] x) [] [] (RCommit (tx_write (WMark (tx_sent x) t) x)) tab
| rs_unmarked n x : tx_sent x = [] -> relay_step tab L (RLoop n [] x) [] [] (RCommit x) tab
| rs_commit x : tx_aborted x = false -> relay_step tab L (RCommit x) [] [] RIdle (writes (tx_writes x) tab)
| rs_rollback p : p ≠ RIdle -> relay_step tab L p [] (in_flight p) RIdle tab.

(** [rl_log]: what the broker got, with the id of its event; [rl_lost]: the ids
    whose publication a failure has made the outbox forget. *)
Record relays := MkRelays {
  rl_tab : OutboxTables;
  rl_log : list (UUID * (string * string * json));
  rl_lost : list UUID;
  rl_ths : list relay_pc
}.

Definition log_of (e : OutboxEvent) : UUID * (string * string * json) := (ev_ID e, message topic e).
Definition others (ths : list relay_pc) (i : nat) : list UUID := concat (held <$> delete i ths).

(** A new instance, the commit of CreateOrder, a step of a relay. *)
Inductive relays_step : relays -> relays -> Prop :=
| rl_join tab log lost ths : relays_step (MkRelays tab log lost ths) (MkRelays tab log lost (ths ++ [RIdle]))
| rl_create tab log lost ths e :
    ev_ID e ∉ (ev_ID <$> ob_rows tab) -> C (ev_ID e) = (ev_AggregateID e, ev_Payload e) ->
    ev_ProcessedAt e = None -> ev_RetryCount e = 0 ->
    relays_step (MkRelays tab log lost ths) (MkRelays (MkOutbox (ob_rows tab ++ [e]) (ob_dlq tab)) log lost ths)
| rl_run tab log lost ths i p evs ids p' tab' :
    ths !! i = Some p -> relay_step tab (others ths i) p evs ids p' tab' ->
    relays_step (MkRelays tab log lost ths) (MkRelays tab' (log ++ (log_of <$> evs)) (lost ++ ids) (<[i := p']> ths)).

Definition relays_reachable (s : relays) : Prop := rtc relays_step (MkRelays (MkOutbox [] ∅) [] [] []) s.

(** ** Locks *)

Lemma elem_of_others ths i id :
  id ∈ others ths i <-> exists j p, j ≠ i /\ ths !! j = Some p /\ id ∈ held p.
Proof.
  unfold others. rewrite elem_of_concat_fmap. split.
  - intros (p & (j & Hj)%list_elem_of_lookup & Hid). destruct (decide (j < i)%nat) as [Hlt|Hge].
    + rewrite list_lookup_delete_lt in Hj by done. exists j, p. split_and!; [lia|done|done].
    + rewrite list_lookup_delete_ge in Hj by lia. exists (S j), p. split_and!; [lia|done|done].
  - intros (j & p & Hne & Hj & Hid). exists p. split; [|done]. apply list_elem_of_lookup.
    destruct (decide (j < i)%nat) as [Hlt|Hge].
    + exists j. by rewrite list_lookup_delete_lt.
    + exists (pred j). rewrite list_lookup_delete_ge by lia. by replace (S (pred j)) with j by lia.
Qed.

Lemma elem_of_select t L rows e : e ∈ select_rows t L rows -> e ∈ rows /\ due t e /\ ev_ID e ∉ L.
Proof.
  intros He. unfold select_rows in He. apply elem_of_take in He as (k & Hk & _). apply list_elem_of_lookup_2 in Hk.
  rewrite merge_sort_Permutation in Hk. apply list_elem_of_filter in Hk as [[Hd HL] Hr]. done.
Qed.

Lemma NoDup_fmap_take {A B} (f : A -> B) n l : NoDup (f <$> l) -> NoDup (f <$> take n l).
Proof. intros Hl. rewrite <- (take_drop n l), fmap_app in Hl. by apply NoDup_app in Hl as [Hl _]. Qed.

Lemma NoDup_fmap_filter {A B} (f : A -> B) (P : A -> Prop) `{!forall x, Decision (P x)} l : NoDup (f <$> l) -> NoDup (f <$> filter P l).
Proof.
  induction l as [|a l IH]; simpl; [done|]. intros [Ha Hl]%NoDup_cons. rewrite filter_cons.
  case_decide; [|by apply IH]. simpl. apply NoDup_cons. split; [|by apply IH].
  intros (b & Hb & [_ Hbl]%list_elem_of_filter)%list_elem_of_fmap. apply Ha. rewrite Hb. by apply list_elem_of_fmap_2.
Qed.

Lemma NoDup_select t L rows : NoDup (ev_ID <$> rows) -> NoDup (ev_ID <$> select_rows t L rows).
Proof.
  intros Hr. unfold select_rows. apply NoDup_fmap_take. rewrite merge_sort_Permutation. by apply NoDup_fmap_filter.
Qed.

(** ** What the writes of a poll do to a row *)

Definition write_ids (x : relay_write) : list UUID :=
  match x with WMark l _ => l | WRetry id _ _ => [id] | WDlq e _ _ => [ev_ID e] end.

Definition booked (l : list relay_write) : list UUID := concat (write_ids <$> l).

Definition write_row (x : relay_write) (e : OutboxEvent) : option OutboxEvent :=
  match x with
  | WMark l t => Some (if bool_decide (ev_ID e ∈ l) then mark t e else e)
  | WRetry id msg t => Some (if bool_decide (ev_ID e = id) then retried msg t e else e)
  | WDlq e0 _ _ => if bool_decide (ev_ID e = ev_ID e0) then None else Some e
  end.

Definition writes_row (l : list relay_write) (e : OutboxEvent) : option OutboxEvent :=
  foldl (fun oe x => oe ≫= write_row x) (Some e) l.

Lemma write_rows tab x : ob_rows (write tab x) = omap (write_row x) (ob_rows tab).
Proof.
  destruct x as [l t|id msg t|e0 t msg]; simpl; induction (ob_rows tab) as [|e rows IH]; simpl; try done; [by f_equal..|].
  rewrite filter_cons. case_bool_decide as He; case_decide as Hn; simpl; [done|done|by f_equal|done].
Qed.

Lemma writes_row_None l : foldl (fun oe x => oe ≫= write_row x) None l = None.
Proof. by induction l. Qed.

Lemma writes_row_cons x l e : writes_row (x :: l) e = write_row x e ≫= writes_row l.
Proof. unfold writes_row. simpl. destruct (write_row x e); [done|apply writes_row_None]. Qed.

Lemma omap_omap {A B D} (f : A -> option B) (g : B -> option D) (l : list A) : omap g (omap f l) = omap (fun a => f a ≫= g) l.
Proof. induction l as [|a l IH]; csimpl; [done|]. destruct (f a) as [b|]; csimpl; by rewrite IH. Qed.

Lemma writes_rows l tab : ob_rows (writes l tab) = omap (writes_row l) (ob_rows tab).
Proof.
  unfold writes. revert tab. induction l as [|x l IH]; intros tab; simpl.
  - induction (ob_rows tab) as [|e rows IHr]; simpl; [done|by f_equal].
  - rewrite IH, write_rows, omap_omap. apply list_omap_ext, Forall2_same_length_lookup_2; [done|].
    intros i a b Ha Hb. simplify_eq. by rewrite writes_row_cons.
Qed.

Lemma write_row_other x e : ev_ID e ∉ write_ids x -> write_row x e = Some e.
Proof.
  destruct x as [l t|id msg t|e0 t msg]; simpl; intros Hn; case_bool_decide as He; try done; destruct Hn; rewrite He;
    apply list_elem_of_here.
Qed.

Lemma write_row_id x e e' :
  write_row x e = Some e' -> ev_ID e' = ev_ID e /\ ev_AggregateID e' = ev_AggregateID e /\ ev_Payload e' = ev_Payload e.
Proof. destruct x; simpl; case_bool_decide; by intros [= <-]. Qed.

Lemma elem_of_booked l id : id ∈ booked l <-> exists x, x ∈ l /\ id ∈ write_ids x.
Proof. apply elem_of_concat_fmap. Qed.

Lemma writes_row_other l e : ev_ID e ∉ booked l -> writes_row l e = Some e.
Proof.
  induction l as [|x l IH]; [done|]. change (booked (x :: l)) with (write_ids x ++ booked l).
  intros [Hx Hl]%not_elem_of_app. rewrite writes_row_cons, (write_row_other _ _ Hx). by apply IH.
Qed.

(** A poll books an event once: the write that names a row decides it. *)
Lemma writes_row_by l x e : NoDup (booked l) -> x ∈ l -> ev_ID e ∈ write_ids x -> writes_row l e = write_row x e.
Proof.
  induction l as [|y l IH]; [by intros _ ?%elem_of_nil|]. change (booked (y :: l)) with (write_ids y ++ booked l).
  intros (_ & Hd & Hl)%NoDup_app [->|Hx]%elem_of_cons Hid; rewrite writes_row_cons.
  - destruct (write_row y e) as [e'|] eqn:Hw; [|done]. simpl. apply writes_row_other.
    destruct (write_row_id _ _ _ Hw) as [-> _]. by apply Hd.
  - rewrite write_row_other; [by apply IH|]. intros Hy. apply (Hd _ Hy), elem_of_booked. by exists x.
Qed.

Lemma writes_row_spec l e :
  NoDup (booked l) ->
  ((ev_ID e ∉ booked l) /\ writes_row l e = Some e) \/
  (exists x, x ∈ l /\ ev_ID e ∈ write_ids x /\ writes_row l e = write_row x e).
Proof.
  intros Hl. destruct (decide (ev_ID e ∈ booked l)) as [(x & Hx & Hid)%elem_of_booked|Hn].
  - right. exists x. split_and!; [done|done|by apply writes_row_by].
  - left. split; [done|by apply writes_row_other].
Qed.

Lemma writes_row_id l e e' :
  NoDup (booked l) -> writes_row l e = Some e' -> ev_ID e' = ev_ID e /\ ev_AggregateID e' = ev_AggregateID e /\ ev_Payload e' = ev_Payload e.
Proof.
  intros Hl He. destruct (writes_row_spec l e Hl) as [[_ Hs]|(x & _ & _ & Hs)]; [by simplify_eq|].
  rewrite Hs in He. by eapply write_row_id.
Qed.

Lemma writes_dlq l tab id d :
  ob_dlq (writes l tab) !! id = Some d ->
  ob_dlq tab !! id = Some d \/ exists e t msg, WDlq e t msg ∈ l /\ id = ev_ID e /\ d = dlq_row e t msg.
Proof.
  unfold writes. revert tab. induction l as [|x l IH]; intros tab; simpl; [by left|]. intros Hd.
  destruct (IH _ Hd) as [Ht|(e & t & msg & Hin & Hrest)]; [|right; exists e, t, msg; split; [by apply list_elem_of_further|done]].
  destruct x as [l0 t|id0 msg t|e t msg]; simpl in Ht; [by left|by left|].
  destruct (ob_dlq tab !! ev_ID e) eqn:Hold; [by left|].
  apply lookup_insert_Some in Ht as [[<- <-]|[_ Ht]]; [|by left]. right. exists e, t, msg. split; [apply list_elem_of_here|done].
Qed.

Lemma writes_dlq_mono l tab id : is_Some (ob_dlq tab !! id) -> is_Some (ob_dlq (writes l tab) !! id).
Proof.
  unfold writes. revert tab. induction l as [|x l IH]; intros tab Hid; simpl; [done|]. apply IH.
  destruct x as [l0 t|id0 msg t|e t msg]; simpl; [done|done|]. destruct (ob_dlq tab !! ev_ID e) eqn:He; [done|].
  apply lookup_insert_is_Some. destruct (decide (ev_ID e = id)); [by left|by right].
Qed.

Lemma writes_dlq_moved l tab e t msg : WDlq e t msg ∈ l -> is_Some (ob_dlq (writes l tab) !! ev_ID e).
Proof.
  unfold writes. revert tab. induction l as [|x l IH]; intros tab; [by intros ?%elem_of_nil|].
  intros [<-|Hin]%elem_of_cons; simpl; [|by apply IH]. apply writes_dlq_mono. simpl.
  destruct (ob_dlq tab !! ev_ID e) eqn:He; [by rewrite He|by rewrite lookup_insert_eq].
Qed.

(** ** The invariant *)

Definition marked (l : list relay_write) : list UUID := concat ((fun x => match x with WMark ids _ => ids | _ => [] end) <$> l).

Definition waiting (tab : OutboxTables) (id : UUID) : Prop := exists e, e ∈ ob_rows tab /\ ev_ID e = id /\ ev_ProcessedAt e = None.
Definition processed (tab : OutboxTables) (id : UUID) : Prop := exists e, e ∈ ob_rows tab /\ ev_ID e = id /\ ev_ProcessedAt e ≠ None.

Definition write_ok (tab : OutboxTables) (sent_ids : list UUID) (x : relay_write) : Prop :=
  match x with
  | WMark l _ => forall id, id ∈ l -> id ∈ sent_ids
  | WRetry id _ _ => exists e, e ∈ ob_rows tab /\ ev_ID e = id /\ ev_RetryCount e + 1 < relay_maxRetries
  | WDlq e _ _ => e ∈ ob_rows tab /\ relay_maxRetries <= ev_RetryCount e + 1
  end.

Record tx_ok (tab : OutboxTables) (log : list UUID) (x : relay_tx) : Prop := MkTxOk {
  to_sent : forall id, id ∈ tx_sent x -> id ∈ tx_locked x /\ id ∈ log;
  to_booked : forall id, id ∈ booked (tx_writes x) -> id ∈ tx_locked x;
  to_locked : forall id, id ∈ tx_locked x -> waiting tab id;
  to_writes : forall wr, wr ∈ tx_writes x -> write_ok tab (tx_sent x) wr
}.

Definition pc_ok (tab : OutboxTables) (log : list UUID) (p : relay_pc) : Prop :=
  match p with
  | RIdle | RBegun => True
  | RLoop _ todo x =>
      tx_ok tab log x /\ NoDup (booked (tx_writes x) ++ tx_sent x ++ (ev_ID <$> todo)) /\
      forall e, e ∈ todo -> e ∈ ob_rows tab /\ ev_ID e ∈ tx_locked x
  | RCommit x => tx_ok tab log x /\ NoDup (booked (tx_writes x)) /\ forall id, id ∈ tx_sent x -> id ∈ marked (tx_writes x)
  end.

Definition times (id : UUID) (l : list UUID) : nat := length (filter (fun x => x = id) l).

Definition held_apart (ths : list relay_pc) : Prop :=
  forall i j p q id, ths !! i = Some p -> ths !! j = Some q -> id ∈ held p -> id ∈ held q -> i = j.

Record tables_ok (tab : OutboxTables) : Prop := MkTablesOk {
  tk_ids : NoDup (ev_ID <$> ob_rows tab);
  tk_rows : forall e, e ∈ ob_rows tab -> C (ev_ID e) = (ev_AggregateID e, ev_Payload e) /\ 0 <= ev_RetryCount e < relay_maxRetries;
  tk_dlq : forall id d, ob_dlq tab !! id = Some d -> C id = (dq_AggregateID d, dq_Payload d) /\ dq_RetryCount d = relay_maxRetries
}.

Record relays_ok (s : relays) : Prop := MkRelaysOk {
  ro_tab : tables_ok (rl_tab s);
  ro_apart : held_apart (rl_ths s);
  ro_pcs : forall i p, rl_ths s !! i = Some p -> pc_ok (rl_tab s) (rl_log s).*1 p;
  ro_log : forall id m, (id, m) ∈ rl_log s -> m = (topic, fst (C id), snd (C id));
  ro_processed : forall id, processed (rl_tab s) id -> id ∈ (rl_log s).*1;
  ro_once : forall id, (times id (rl_log s).*1 <= S (times id (rl_lost s)))%nat;
  ro_owner : forall id, (times id (rl_lost s) < times id (rl_log s).*1)%nat ->
    processed (rl_tab s) id \/ exists i p, rl_ths s !! i = Some p /\ id ∈ in_flight p
}.

(** ** Preservation *)

Lemma times_app id l l' : times id (l ++ l') = (times id l + times id l')%nat.
Proof. unfold times. by rewrite filter_app, length_app. Qed.

Lemma times_once id : times id [id] = 1%nat.
Proof. unfold times. rewrite filter_cons. by rewrite decide_True. Qed.

Lemma times_other id l : id ∉ l -> times id l = 0%nat.
Proof. intros Hl. unfold times. rewrite list_filter_nil; [done|]. by intros x Hx ->. Qed.

Lemma times_elem id l : id ∈ l -> (1 <= times id l)%nat.
Proof. intros (l1 & l2 & ->)%list_elem_of_split. change (id :: l2) with ([id] ++ l2). rewrite !times_app, times_once. lia. Qed.

Lemma row_unique tab e e' : tables_ok tab -> e ∈ ob_rows tab -> e' ∈ ob_rows tab -> ev_ID e = ev_ID e' -> e = e'.
Proof.
  intros [Hnd _ _] (i & Hi)%list_elem_of_lookup (j & Hj)%list_elem_of_lookup Heq.
  assert (i = j) as ->; [|by simplify_eq]. eapply (NoDup_lookup _ i j (ev_ID e) Hnd); rewrite list_lookup_fmap; [by rewrite Hi|].
  rewrite Hj. simpl. by rewrite Heq.
Qed.

Lemma waiting_not_processed tab id : tables_ok tab -> waiting tab id -> processed tab id -> False.
Proof. intros Ht (e & He & <- & Hn) (e' & He' & Heq & Hp). by rewrite (row_unique tab e' e Ht He' He Heq) in Hp. Qed.

(** The facts of a relay outlive what happens outside its locks. *)
Lemma pc_ok_frame tab tab' log log' p :
  (forall e, ev_ID e ∈ held p -> e ∈ ob_rows tab -> e ∈ ob_rows tab') -> (forall id, id ∈ log -> id ∈ log') ->
  pc_ok tab log p -> pc_ok tab' log' p.
Proof.
  intros Hrows Hlog. assert (Htx : forall x, held p = tx_locked x -> tx_ok tab log x -> tx_ok tab' log' x).
  { intros x Hp [H1 H2 H3 H4]. rewrite Hp in Hrows. split; [|done| |].
    - intros id Hid. destruct (H1 id Hid). by split; [|apply Hlog].
    - intros id Hid. destruct (H3 id Hid) as (e & He & <- & Hn). exists e. split; [by apply Hrows|done].
    - intros wr Hwr. pose proof (H4 wr Hwr) as Hok. assert (Hb : forall id, id ∈ write_ids wr -> id ∈ tx_locked x).
      { intros id Hid. apply H2, elem_of_booked. by exists wr. }
      destruct wr as [l t|id msg t|e t msg]; simpl in *; [done| |].
      + destruct Hok as (e & He & <- & Hc). exists e. split; [|done]. apply Hrows; [apply Hb, list_elem_of_here|done].
      + destruct Hok as [He Hc]. split; [|done]. apply Hrows; [apply Hb, list_elem_of_here|done]. }
  destruct p as [| |n todo x|x]; simpl; [done|done| |].
  - intros (Hx & Hnd & Htodo). split_and!; [by apply Htx|done|]. intros e He. destruct (Htodo e He). split; [by apply Hrows|done].
  - intros (Hx & Hnd & Hm). split_and!; [by apply Htx|done|done].
Qed.

Lemma elem_of_marked l id : id ∈ marked l <-> exists ids t, WMark ids t ∈ l /\ id ∈ ids.
Proof.
  unfold marked. rewrite elem_of_concat_fmap. split.
  - intros ([l0 t|id0 msg t|e t msg] & Hx & Hid); [by exists l0, t|by apply elem_of_nil in Hid..].
  - intros (ids & t & Hin & Hid). by exists (WMark ids t).
Qed.

(** *** The commit of a poll *)

Section Commit.
Context (tab : OutboxTables) (log : list UUID) (x : relay_tx).
Context (Ht : tables_ok tab) (Hx : tx_ok tab log x) (Hnd : NoDup (booked (tx_writes x))).
Let tab' := writes (tx_writes x) tab.

Lemma commit_from e' : e' ∈ ob_rows tab' -> exists e, e ∈ ob_rows tab /\ writes_row (tx_writes x) e = Some e'.
Proof. unfold tab'. rewrite writes_rows. by intros (e & He & Hw)%list_elem_of_omap; exists e. Qed.

Lemma commit_to e e' : e ∈ ob_rows tab -> writes_row (tx_writes x) e = Some e' -> e' ∈ ob_rows tab'.
Proof. intros He Hw. unfold tab'. rewrite writes_rows. apply list_elem_of_omap. by exists e. Qed.

Lemma commit_outside e : ev_ID e ∉ tx_locked x -> e ∈ ob_rows tab -> e ∈ ob_rows tab'.
Proof. intros Hn He. apply (commit_to e e He), writes_row_other. intros Hb. by apply Hn, (to_booked _ _ _ Hx). Qed.

Lemma commit_row e e' :
  e ∈ ob_rows tab -> writes_row (tx_writes x) e = Some e' ->
  0 <= ev_RetryCount e' < relay_maxRetries /\
  (ev_ProcessedAt e' ≠ None -> ev_ProcessedAt e ≠ None \/ ev_ID e ∈ tx_sent x).
Proof.
  intros He Hw. destruct (tk_rows _ Ht e He) as [_ Hc].
  destruct (writes_row_spec _ e Hnd) as [[_ Hs]|(wr & Hin & Hid & Hs)]; rewrite Hw in Hs; [simplify_eq; by split; [|left]|].
  pose proof (to_writes _ _ _ Hx wr Hin) as Hok. destruct wr as [l t|id msg t|e0 t msg]; simpl in *.
  - rewrite bool_decide_eq_true_2 in Hs by done. simplify_eq. split; [done|]. intros _. right. by apply Hok.
  - apply list_elem_of_singleton in Hid as <-. rewrite bool_decide_eq_true_2 in Hs by done. simplify_eq. simpl.
    destruct Hok as (e' & He' & Heq & Hc'). rewrite (row_unique tab e' e Ht He' He Heq) in Hc'. split; [lia|by left].
  - apply list_elem_of_singleton in Hid. by rewrite bool_decide_eq_true_2 in Hs.
Qed.

Lemma commit_tables : tables_ok tab'.
Proof.
  split.
  - unfold tab'. rewrite writes_rows. pose proof (tk_ids _ Ht) as Hids. revert Hids. generalize (ob_rows tab). intros rows.
    induction rows as [|e rows IH]; csimpl; [done|]. intros [Hn Hr]%NoDup_cons.
    destruct (writes_row (tx_writes x) e) as [e'|] eqn:Hw; [|by apply IH]. csimpl. apply NoDup_cons. split; [|by apply IH].
    destruct (writes_row_id _ _ _ Hnd Hw) as [-> _]. intros (a & Ha & (b & Hb & Hwb)%list_elem_of_omap)%list_elem_of_fmap.
    apply Hn. destruct (writes_row_id _ _ _ Hnd Hwb) as [Hid _]. rewrite Ha, Hid. by apply list_elem_of_fmap_2.
  - intros e' (e & He & Hw)%commit_from. destruct (writes_row_id _ _ _ Hnd Hw) as (-> & -> & ->).
    split; [by apply (tk_rows _ Ht)|by eapply commit_row].
  - intros id d [Hd|(e & t & msg & Hin & -> & ->)]%writes_dlq; [by apply (tk_dlq _ Ht)|].
    destruct (to_writes _ _ _ Hx _ Hin) as [He Hc]. destruct (tk_rows _ Ht e He) as [HC Hr]. split; [done|]. simpl. lia.
Qed.

Lemma commit_processed id : processed tab' id -> processed tab id \/ id ∈ tx_sent x.
Proof.
  intros (e' & (e & He & Hw)%commit_from & <- & Hp). destruct (writes_row_id _ _ _ Hnd Hw) as [-> _].
  destruct (proj2 (commit_row e e' He Hw) Hp) as [Hq|Hq]; [left; by exists e|by right].
Qed.

Lemma commit_keeps_processed id : processed tab id -> processed tab' id.
Proof.
  intros Hp. destruct Hp as (e & He & <- & Hq). exists e. split; [|done]. apply commit_outside; [|done].
  intros Hl. apply (waiting_not_processed tab (ev_ID e) Ht); [by apply (to_locked _ _ _ Hx)|by exists e].
Qed.

Lemma commit_marks id : id ∈ marked (tx_writes x) -> waiting tab id -> processed tab' id.
Proof.
  intros (ids & t & Hin & Hid)%elem_of_marked (e & He & <- & _). exists (mark t e). split_and!; [|done|done].
  apply (commit_to e); [done|]. rewrite (writes_row_by _ _ e Hnd Hin Hid). simpl. by rewrite bool_decide_eq_true_2.
Qed.

(** An event stays in the outbox or moves to the DLQ. *)
Lemma commit_known e : e ∈ ob_rows tab -> (exists e', e' ∈ ob_rows tab' /\ ev_ID e' = ev_ID e) \/ is_Some (ob_dlq tab' !! ev_ID e).
Proof.
  intros He. destruct (writes_row (tx_writes x) e) as [e'|] eqn:Hw.
  { left. exists e'. split; [by eapply commit_to|]. by destruct (writes_row_id _ _ _ Hnd Hw). }
  right. destruct (writes_row_spec _ e Hnd) as [[_ Hs]|(wr & Hin & Hid & Hs)]; rewrite Hw in Hs; [done|].
  destruct wr as [l t|id msg t|e0 t msg]; [done..|]. simpl in Hid. apply list_elem_of_singleton in Hid as ->. by eapply writes_dlq_moved.
Qed.
End Commit.

(** *** The other steps *)

Lemma in_flight_held tab log p id : pc_ok tab log p -> id ∈ in_flight p -> id ∈ held p.
Proof.
  destruct p as [| |n todo x|x]; simpl; [by intros _ ?%elem_of_nil..| |]; intros (Hx & _) Hid; by apply (to_sent _ _ _ Hx).
Qed.

Lemma held_waiting tab log p id : pc_ok tab log p -> id ∈ held p -> waiting tab id.
Proof.
  destruct p as [| |n todo x|x]; simpl; [by intros _ ?%elem_of_nil..| |]; intros (Hx & _) Hid; by apply (to_locked _ _ _ Hx).
Qed.

Lemma held_apart_insert ths i p p' :
  held_apart ths -> ths !! i = Some p -> (forall id, id ∈ held p' -> id ∈ held p \/ id ∉ others ths i) -> held_apart (<[i := p']> ths).
Proof.
  intros Hap Hi Hnew. assert (Hself : forall j q id, j ≠ i -> ths !! j = Some q -> id ∈ held p' -> id ∈ held q -> False).
  { intros j q id Hji Hj Hp' Hq. destruct (Hnew id Hp') as [Hp|Hp]; [by apply Hji, (Hap j i q p id)|].
    apply Hp, elem_of_others. by exists j, q. }
  intros a b q r id [[-> ->]|[Ha Hq]]%lookup_insert_cases [[-> ->]|[Hb Hr]]%lookup_insert_cases H1 H2; [done|..].
  - by destruct (Hself b r id).
  - by destruct (Hself a q id).
  - by eapply Hap.
Qed.

(** A step that leaves the tables alone. *)
Lemma relays_ok_local tab log lost ths i p p' evs ids :
  relays_ok (MkRelays tab log lost ths) -> ths !! i = Some p ->
  (forall id, id ∈ held p' -> id ∈ held p \/ id ∉ others ths i) ->
  (forall e, e ∈ evs -> e ∈ ob_rows tab) ->
  pc_ok tab (log ++ (log_of <$> evs)).*1 p' ->
  (forall id, (times id log.*1 + times id (ev_ID <$> evs) <= S (times id lost + times id ids))%nat) ->
  (forall id, (times id lost + times id ids < times id log.*1 + times id (ev_ID <$> evs))%nat ->
     id ∈ in_flight p' \/ ((times id lost < times id log.*1)%nat /\ id ∉ in_flight p)) ->
  relays_ok (MkRelays tab (log ++ (log_of <$> evs)) (lost ++ ids) (<[i := p']> ths)).
Proof.
  intros [Ht Hap Hpcs Hlog Hpr Hon How] Hi Hheld Hevs Hpc Htimes Hown. simpl in *.
  assert (Hids : (log ++ (log_of <$> evs)).*1 = log.*1 ++ (ev_ID <$> evs)) by (rewrite fmap_app, <- list_fmap_compose; done).
  rewrite Hids in Hpc. split; simpl; rewrite ?Hids.
  - done.
  - by eapply held_apart_insert.
  - intros j q [[-> ->]|[Hj Hq]]%lookup_insert_cases; [done|]. eapply pc_ok_frame; [by intros e _| |by apply (Hpcs j)].
    intros id Hid. apply elem_of_app. by left.
  - intros id m [Hm|(e & [= -> ->] & He)%list_elem_of_fmap]%elem_of_app; [by apply Hlog|].
    unfold message. destruct (tk_rows _ Ht e (Hevs e He)) as [-> _]. done.
  - intros id Hp. apply elem_of_app. left. by apply Hpr.
  - intros id. rewrite !times_app. apply Htimes.
  - intros id. rewrite !times_app. intros Hlt. destruct (Hown id Hlt) as [Hin|[Hold Hnot]].
    + right. exists i, p'. split; [|done]. apply list_lookup_insert_eq. by eapply lookup_lt_Some.
    + destruct (How id Hold) as [Hp|(j & q & Hj & Hq)]; [by left|]. right. exists j, q. split; [|done].
      rewrite list_lookup_insert_ne; [done|]. intros ->. by simplify_eq.
Qed.

(** ... and publishes nothing. *)
Lemma relays_ok_silent tab log lost ths i p p' :
  relays_ok (MkRelays tab log lost ths) -> ths !! i = Some p ->
  (forall id, id ∈ held p' -> id ∈ held p \/ id ∉ others ths i) ->
  (forall id, id ∈ in_flight p -> id ∈ in_flight p') -> pc_ok tab log.*1 p' ->
  relays_ok (MkRelays tab (log ++ (log_of <$> [])) (lost ++ []) (<[i := p']> ths)).
Proof.
  intros Hok Hi Hheld Hfl Hpc. apply (relays_ok_local _ _ _ _ _ p); [done|done|done|by intros e ?%elem_of_nil|by rewrite app_nil_r| |].
  - intros id. pose proof (ro_once _ Hok id) as H1. simpl in *. unfold times at 2 4. simpl. lia.
  - intros id. unfold times at 2 4. simpl. rewrite !Nat.add_0_r. intros Hlt.
    destruct (decide (id ∈ in_flight p)) as [Hin|Hn]; [left; by apply Hfl|by right].
Qed.

(** ... and publishes an event without hearing of it. *)
Lemma relays_ok_unheard tab log lost ths i p p' e :
  relays_ok (MkRelays tab log lost ths) -> ths !! i = Some p -> held p' = held p -> in_flight p' = in_flight p ->
  e ∈ ob_rows tab -> pc_ok tab log.*1 p' ->
  relays_ok (MkRelays tab (log ++ (log_of <$> [e])) (lost ++ [ev_ID e]) (<[i := p']> ths)).
Proof.
  intros Hok Hi Hheld Hfl He Hpc. apply (relays_ok_local _ _ _ _ _ p); [done|done|rewrite Hheld; by left| | | |].
  - by intros e' ->%list_elem_of_singleton.
  - rewrite fmap_app. eapply pc_ok_frame; [by intros e' _| |done]. intros id Hid. apply elem_of_app. by left.
  - intros id. pose proof (ro_once _ Hok id) as H1. simpl in *. lia.
  - intros id. csimpl. intros Hlt. rewrite Hfl. destruct (decide (id ∈ in_flight p)) as [Hin|Hn]; [by left|]. right. split; [lia|done].
Qed.

Lemma write_ok_mono tab l l' x : (forall id, id ∈ l -> id ∈ l') -> write_ok tab l x -> write_ok tab l' x.
Proof. intros Hl. destruct x; simpl; [|done|done]. intros Hx id Hid. by apply Hl, Hx. Qed.

Lemma booked_snoc l x : booked (l ++ [x]) = booked l ++ write_ids x.
Proof. unfold booked. rewrite fmap_app, concat_app. csimpl. by rewrite app_nil_r. Qed.

Lemma refused_ids n e msg t : write_ids (refused n e msg t) = [ev_ID e].
Proof. unfold refused. by destruct (relay_maxRetries <=? ev_RetryCount e + 1). Qed.

Lemma refused_ok tab l n e msg t : e ∈ ob_rows tab -> write_ok tab l (refused n e msg t).
Proof. intros He. unfold refused. destruct (Z.leb_spec relay_maxRetries (ev_RetryCount e + 1)); simpl; [done|]. by exists e. Qed.

Lemma tx_ok_write tab log x wr :
  tx_ok tab log x -> write_ok tab (tx_sent x) wr -> (forall id, id ∈ write_ids wr -> id ∈ tx_locked x) -> tx_ok tab log (tx_write wr x).
Proof.
  intros [H1 H2 H3 H4] Hwr Hids. split; simpl; [done| |done|].
  - intros id. rewrite booked_snoc. intros [Hid|Hid]%elem_of_app; [by apply H2|by apply Hids].
  - intros wr' [Hin| ->%list_elem_of_singleton]%elem_of_app; [by apply H4|done].
Qed.

Lemma pc_ok_refused tab log n e es x msg t :
  pc_ok tab log (RLoop n (e :: es) x) -> pc_ok tab log (RLoop n es (tx_write (refused n e msg t) x)).
Proof.
  simpl. intros (Hx & Hnd & Htodo). destruct (Htodo e (list_elem_of_here _ _)) as [He Hl]. split_and!.
  - apply tx_ok_write; [done|by apply refused_ok|]. rewrite refused_ids. by intros id ->%list_elem_of_singleton.
  - rewrite booked_snoc, refused_ids. csimpl. revert Hnd. csimpl. rewrite <- !app_assoc. simpl.
    rewrite <- (Permutation_middle (tx_sent x)). done.
  - intros e' He'. apply Htodo. by apply list_elem_of_further.
Qed.

Lemma pc_ok_dropped tab log n e es x :
  pc_ok tab log (RLoop n (e :: es) x) -> pc_ok tab log (RLoop n es (tx_abort x)).
Proof.
  simpl. intros ([H1 H2 H3 H4] & Hnd & Htodo). split_and!; [by split| |].
  - csimpl in Hnd. rewrite <- (Permutation_middle (tx_sent x)), <- Permutation_middle in Hnd. by apply NoDup_cons in Hnd as [_ Hnd].
  - intros e' He'. apply Htodo. by apply list_elem_of_further.
Qed.

Lemma pc_ok_sent tab log n e es x :
  pc_ok tab log (RLoop n (e :: es) x) -> pc_ok tab (log ++ [ev_ID e]) (RLoop n es (tx_send (ev_ID e) x)).
Proof.
  intros Hpc. destruct (pc_ok_frame tab tab log (log ++ [ev_ID e]) _ (fun _ _ H => H)
    (fun id H => proj2 (elem_of_app _ _ _) (or_introl H)) Hpc) as ([H1 H2 H3 H4] & Hnd & Htodo).
  destruct (Htodo e (list_elem_of_here _ _)) as [He Hl]. split_and!.
  - split; simpl; [|done|done|].
    + intros id [Hid| ->%list_elem_of_singleton]%elem_of_app; [by apply H1|]. split; [done|]. apply elem_of_app. right. apply list_elem_of_here.
    + intros wr Hwr. eapply write_ok_mono; [|by apply H4]. intros id Hid. apply elem_of_app. by left.
  - simpl. by rewrite <- (app_assoc (tx_sent x)).
  - intros e' He'. apply Htodo. by apply list_elem_of_further.
Qed.

Lemma pc_ok_marked tab log n x t : pc_ok tab log (RLoop n [] x) -> pc_ok tab log (RCommit (tx_write (WMark (tx_sent x) t) x)).
Proof.
  intros (Hx & Hnd & _). simpl. csimpl in Hnd. rewrite app_nil_r in Hnd. split_and!.
  - apply tx_ok_write; [done|by intros id|]. simpl. intros id Hid. by apply (to_sent _ _ _ Hx).
  - by rewrite booked_snoc.
  - intros id Hid. apply elem_of_marked. exists (tx_sent x), t. split; [|done]. apply elem_of_app. right. apply list_elem_of_here.
Qed.

Lemma pc_ok_unmarked tab log n x : tx_sent x = [] -> pc_ok tab log (RLoop n [] x) -> pc_ok tab log (RCommit x).
Proof.
  intros Hs (Hx & Hnd & _). simpl. split_and!; [done| |rewrite Hs; by intros id ?%elem_of_nil].
  by apply NoDup_app in Hnd as [Hnd _].
Qed.

Lemma pc_ok_selected tab L log t n :
  tables_ok tab -> pc_ok tab log (RLoop n (select_rows t L (ob_rows tab)) (MkTx (ev_ID <$> select_rows t L (ob_rows tab)) [] [] false)).
Proof.
  intros Ht. simpl. split_and!.
  - split; simpl; [by intros id ?%elem_of_nil..| |by intros id ?%elem_of_nil].
    intros id (e & -> & He)%list_elem_of_fmap. apply elem_of_select in He as (He & [Hp _] & _). by exists e.
  - by apply NoDup_select, (tk_ids _ Ht).
  - intros e He. split; [by apply elem_of_select in He as [? _]|]. by apply list_elem_of_fmap_2.
Qed.

(** The event a relay is about to publish has no publication that counts. *)
Lemma unsent_forgotten tab log lost ths i n e es x :
  relays_ok (MkRelays tab log lost ths) -> ths !! i = Some (RLoop n (e :: es) x) ->
  (times (ev_ID e) log.*1 <= times (ev_ID e) lost)%nat.
Proof.
  intros Hok Hi. destruct (Nat.lt_ge_cases (times (ev_ID e) lost) (times (ev_ID e) log.*1)) as [Hlt|Hge]; [|done]. exfalso.
  pose proof (ro_pcs _ Hok i _ Hi) as Hpc. simpl in Hpc. destruct Hpc as (Hx & Hnd & Htodo).
  destruct (Htodo e (list_elem_of_here _ _)) as [He Hl].
  destruct (ro_owner _ Hok _ Hlt) as [Hp|(j & q & Hj & Hq)].
  - eapply waiting_not_processed; [apply (ro_tab _ Hok)|by apply (to_locked _ _ _ Hx)|done].
  - simpl in Hj. assert (j = i) as ->.
    { eapply (ro_apart _ Hok j i q _ (ev_ID e)); [done|done| |done]. eapply in_flight_held; [by apply (ro_pcs _ Hok j)|done]. }
    simplify_eq. simpl in Hq. apply NoDup_app in Hnd as (_ & _ & Hnd). apply NoDup_app in Hnd as (_ & Hd & _).
    apply (Hd _ Hq). csimpl. apply list_elem_of_here.
Qed.

Lemma relays_ok_commit tab log lost ths i x :
  relays_ok (MkRelays tab log lost ths) -> ths !! i = Some (RCommit x) ->
  relays_ok (MkRelays (writes (tx_writes x) tab) (log ++ (log_of <$> [])) (lost ++ []) (<[i := RIdle]> ths)).
Proof.
  intros [Ht Hap Hpcs Hlog Hpr Hon How] Hi. simpl in *. rewrite !app_nil_r.
  pose proof (Hpcs i _ Hi) as Hpc. simpl in Hpc. destruct Hpc as (Hx & Hnd & Hm). split; simpl.
  - by eapply commit_tables.
  - eapply held_apart_insert; [done|done|]. simpl. by intros id ?%elem_of_nil.
  - intros j q [[-> ->]|[Hj Hq]]%lookup_insert_cases; [done|]. eapply pc_ok_frame; [|by intros id|by apply (Hpcs j)].
    intros e He Hr. eapply commit_outside; [done| |done]. intros Hl. by apply Hj, (Hap j i q (RCommit x) (ev_ID e)).
  - done.
  - intros id [Hp|Hp]%(commit_processed _ _ _ Ht Hx Hnd); [by apply Hpr|]. by apply (to_sent _ _ _ Hx).
  - done.
  - intros id Hlt. destruct (How id Hlt) as [Hp|(j & q & Hj & Hq)]; [left; by eapply commit_keeps_processed|].
    destruct (decide (j = i)) as [->|Hne].
    + simplify_eq. simpl in Hq. left. eapply commit_marks; [done|by apply Hm|]. by apply (to_locked _ _ _ Hx), (to_sent _ _ _ Hx).
    + right. exists j, q. split; [|done]. by rewrite list_lookup_insert_ne.
Qed.

Lemma relays_ok_run tab log lost ths i p evs ids p' tab' :
  relays_ok (MkRelays tab log lost ths) -> ths !! i = Some p -> relay_step tab (others ths i) p evs ids p' tab' ->
  relays_ok (MkRelays tab' (log ++ (log_of <$> evs)) (lost ++ ids) (<[i := p']> ths)).
Proof.
  intros Hok Hi Hs. pose proof (ro_pcs _ Hok i p Hi) as Hpc. simpl in Hpc. pose proof (ro_once _ Hok) as Hon. simpl in Hon.
  assert (Hsame : forall q, held q = held p -> forall id, id ∈ held q -> id ∈ held p \/ id ∉ others ths i) by (intros q ->; by left).
  destruct Hs as [|t n evs ->|n e es x|n e es x msg t Ha|n e es x|n e es x msg t Ha|n e es x|n x t Hsent Ha|n x Hsent|x Ha|p Hp].
  - apply (relays_ok_silent _ _ _ _ _ RIdle); [done|done|by apply Hsame|done|done].
  - apply (relays_ok_silent _ _ _ _ _ RBegun); [done|done| |done|apply pc_ok_selected, (ro_tab _ Hok)].
    simpl. intros id (e & -> & He)%list_elem_of_fmap. right. by apply elem_of_select in He as (_ & _ & Hn).
  - pose proof (unsent_forgotten _ _ _ _ _ _ _ _ _ Hok Hi) as Hfresh.
    apply (relays_ok_local _ _ _ _ _ (RLoop n (e :: es) x)); [done|done|by apply Hsame| | | |].
    + intros e' ->%list_elem_of_singleton. apply Hpc, list_elem_of_here.
    + rewrite fmap_app. by apply pc_ok_sent.
    + intros id. csimpl. destruct (decide (id = ev_ID e)) as [->|Hne]; [rewrite times_once; lia|].
      rewrite (times_other id [ev_ID e]) by (by intros ->%list_elem_of_singleton). pose proof (Hon id). lia.
    + intros id. csimpl. destruct (decide (id = ev_ID e)) as [->|Hne]; [intros _; left; apply elem_of_app; right; apply list_elem_of_here|].
      rewrite (times_other id [ev_ID e]) by (by intros ->%list_elem_of_singleton). unfold times at 2. simpl. rewrite !Nat.add_0_r. intros Hlt.
      destruct (decide (id ∈ tx_sent x)) as [Hin|Hn]; [left; apply elem_of_app; by left|by right].
  - apply (relays_ok_silent _ _ _ _ _ (RLoop n (e :: es) x)); [done|done|by apply Hsame|done|by apply pc_ok_refused].
  - apply (relays_ok_silent _ _ _ _ _ (RLoop n (e :: es) x)); [done|done|by apply Hsame|done|by eapply pc_ok_dropped].
  - apply (relays_ok_unheard _ _ _ _ _ (RLoop n (e :: es) x)); [done|done|done|done|apply Hpc, list_elem_of_here|by apply pc_ok_refused].
  - apply (relays_ok_unheard _ _ _ _ _ (RLoop n (e :: es) x)); [done|done|done|done|apply Hpc, list_elem_of_here|by eapply pc_ok_dropped].
  - apply (relays_ok_silent _ _ _ _ _ (RLoop n [] x)); [done|done|by apply Hsame|done|by eapply pc_ok_marked].
  - apply (relays_ok_silent _ _ _ _ _ (RLoop n [] x)); [done|done|by apply Hsame|done|by eapply pc_ok_unmarked].
  - by apply relays_ok_commit.
  - apply (relays_ok_local _ _ _ _ _ p); [done|done| |by intros e ?%elem_of_nil|done| |].
    + simpl. by intros id ?%elem_of_nil.
    + intros id. pose proof (Hon id). unfold times at 2. simpl. lia.
    + intros id. unfold times at 4. simpl. intros Hlt. right. pose proof (Hon id). split; [lia|].
      intros Hin%times_elem. lia.
Qed.

Lemma relays_ok_create tab log lost ths e :
  relays_ok (MkRelays tab log lost ths) -> ev_ID e ∉ (ev_ID <$> ob_rows tab) -> C (ev_ID e) = (ev_AggregateID e, ev_Payload e) ->
  ev_ProcessedAt e = None -> ev_RetryCount e = 0 ->
  relays_ok (MkRelays (MkOutbox (ob_rows tab ++ [e]) (ob_dlq tab)) log lost ths).
Proof.
  intros [[Hids Hrows Hdlq] Hap Hpcs Hlog Hpr Hon How] Hn HC Hp Hr. simpl in *. split; simpl; [|done| |done| |done|].
  - split; simpl; [| |done].
    + rewrite fmap_app. apply NoDup_app. split_and!; [done| |apply NoDup_singleton].
      intros id Hid ->%list_elem_of_singleton. done.
    + intros e' [He'| ->%list_elem_of_singleton]%elem_of_app; [by apply Hrows|]. split; [done|]. unfold relay_maxRetries. lia.
  - intros i p Hi. eapply pc_ok_frame; [|by intros id|by apply (Hpcs i)]. intros e' _ He'. apply elem_of_app. by left.
  - intros id (e' & [He'| ->%list_elem_of_singleton]%elem_of_app & Hid & Hq); [|done]. apply Hpr. by exists e'.
  - intros id Hlt. destruct (How id Hlt) as [(e' & He' & Hq)|Hq]; [|by right]. left. exists e'. split; [apply elem_of_app; by left|done].
Qed.

Lemma relays_ok_init : relays_ok (MkRelays (MkOutbox [] ∅) [] [] []).
Proof.
  split; simpl.
  - split; simpl; [constructor|by intros e ?%elem_of_nil|]. intros id d. by rewrite lookup_empty.
  - by intros i j p q id Hi.
  - by intros i p Hi.
  - by intros id m ?%elem_of_nil.
  - by intros id (e & ?%elem_of_nil & _).
  - intros id. unfold times. simpl. lia.
  - intros id. unfold times. simpl. lia.
Qed.

Lemma relays_ok_step s s' : relays_ok s -> relays_step s s' -> relays_ok s'.
Proof.
  intros Hok Hs. destruct Hs as [tab log lost ths|tab log lost ths e Hn HC Hp Hr|tab log lost ths i p evs ids p' tab' Hi Hs].
  - destruct Hok as [Ht Hap Hpcs Hlog Hpr Hon How]. simpl in *. split; simpl; [done| | |done|done|done|].
    + intros i j p q id [Hi|[-> ->]]%lookup_snoc_cases [Hj|[-> ->]]%lookup_snoc_cases; [by apply Hap|..]; by intros ? ?%elem_of_nil || by intros ?%elem_of_nil.
    + intros i p [Hi|[-> ->]]%lookup_snoc_cases; [by apply (Hpcs i)|done].
    + intros id Hlt. destruct (How id Hlt) as [?|(i & p & Hi & Hin)]; [by left|right]. exists i, p. split; [by apply lookup_app_l_Some|done].
  - by apply relays_ok_create.
  - by eapply relays_ok_run.
Qed.

Lemma relays_ok_reachable s : relays_reachable s -> relays_ok s.
Proof. unfold relays_reachable. revert s. apply rtc_ind_r; [apply relays_ok_init|]. intros s s' _ Hs Hok. by eapply relays_ok_step. Qed.

(** C14. Any number of relay instances poll one outbox, with publications, statements
    and commits failing at will.  No two of them hold the same event, everything
    published is an event with its key and payload, a row is marked processed only
    after a publication, and an event is published at most once more than failures
    made the outbox forget its publication. *)
Theorem relays_publish_once s :
  relays_reachable s ->
  (forall id, (times id (rl_log s).*1 <= S (times id (rl_lost s)))%nat) /\
  (forall id m, (id, m) ∈ rl_log s -> m = (topic, fst (C id), snd (C id))) /\
  (forall id, processed (rl_tab s) id -> id ∈ (rl_log s).*1) /\
  (forall i j p q id, rl_ths s !! i = Some p -> rl_ths s !! j = Some q -> id ∈ held p -> id ∈ held q -> i = j).
Proof. intros Hok%relays_ok_reachable. split_and!; apply Hok. Qed.

(** An event in the outbox or its DLQ. *)
Definition kept (tab : OutboxTables) (id : UUID) : Prop := (exists e, e ∈ ob_rows tab /\ ev_ID e = id) \/ is_Some (ob_dlq tab !! id).

Lemma kept_step s s' id : relays_ok s -> relays_step s s' -> kept (rl_tab s) id -> kept (rl_tab s') id.
Proof.
  intros Hok Hs Hk. destruct Hs as [|tab log lost ths e Hn HC Hp Hr|tab log lost ths i p evs ids p' tab' Hi Hs]; simpl in *; [done| |].
  - destruct Hk as [(e' & He' & Hid)|Hd]; [left|by right]. exists e'. split; [apply elem_of_app; by left|done].
  - pose proof (ro_pcs _ Hok i p Hi) as Hpc. simpl in Hpc. destruct Hs; try done. destruct Hpc as (Hx & Hnd & _).
    destruct Hk as [(e & He & <-)|Hd]; [|right; by apply writes_dlq_mono]. by eapply commit_known.
Qed.

(** C16. Whatever the relays do, an event once created stays in the outbox or its DLQ,
    and it is dead-lettered with its key and payload after exactly five failed
    publications: a row that waits has failed less often. *)
Theorem relays_lose_nothing s s' :
  relays_reachable s -> rtc relays_step s s' ->
  (forall id, kept (rl_tab s) id -> kept (rl_tab s') id) /\
  (forall e, e ∈ ob_rows (rl_tab s') -> 0 <= ev_RetryCount e < 5) /\
  (forall id d, ob_dlq (rl_tab s') !! id = Some d -> C id = (dq_AggregateID d, dq_Payload d) /\ dq_RetryCount d = 5).
Proof.
  intros Hs Hrun. assert (Hok' : relays_ok s') by (apply relays_ok_reachable; unfold relays_reachable; by etrans). split_and!.
  - intros id Hk. apply relays_ok_reachable in Hs. clear Hok'. revert Hs Hk. induction Hrun as [s|s1 s2 s3 Hstep _ IH]; [done|].
    intros Hok Hk. apply IH; [by eapply relays_ok_step|by eapply kept_step].
  - intros e He. by apply (tk_rows _ (ro_tab _ Hok')).
  - by apply (tk_dlq _ (ro_tab _ Hok')).
Qed.

(** ** The polls of [Outbox.v] are runs of a relay *)

Lemma one_step tab log lost p evs ids p' tab' :
  relay_step tab [] p evs ids p' tab' ->
  relays_step (MkRelays tab log lost [p]) (MkRelays tab' (log ++ (log_of <$> evs)) (lost ++ ids) [p']).
Proof. intros Hs. by apply (rl_run tab log lost [p] 0 p). Qed.

(** A statement inside a transaction takes effect or aborts it. *)
Lemma stmt_tx {A} (f : OutboxTables -> OutboxTables) (g : OutboxTables -> A) o (w : world OutSt) r w' old ab :
  stmt (fun tab => (inr (g tab), f tab)) o w = (r, w') -> os_tx (w_st w) = Some (old, ab) ->
  (ab = false /\ r = inr (g (os_tab (w_st w))) /\ w_st w' = set_tab (f (os_tab (w_st w))) (w_st w)) \/
  ((exists e, r = inl e) /\ os_tx (w_st w') = Some (old, true) /\ os_kafka (w_st w') = os_kafka (w_st w)).
Proof.
  intros Hs Htx. unfold stmt in Hs. unfold is_aborted, abort_tx in Hs. rewrite Htx in Hs. destruct (o_fault o (w_tick w)).
  - destruct ab; simplify_eq/=; [right|left]; [|done]. split_and!; [by eexists|done|done].
  - simplify_eq. right. split_and!; [by eexists|done|done].
  - simplify_eq. right. split_and!; [by eexists|done|done].
Qed.

(** The world of a poll whose transaction is [x] over the committed tables [old]. *)
Record in_tx (x : relay_tx) (old : OutboxTables) (log : list (UUID * (string * string * json))) (w : world OutSt) : Prop := MkInTx {
  it_tx : os_tx (w_st w) = Some (old, tx_aborted x);
  it_tab : tx_aborted x = false -> os_tab (w_st w) = writes (tx_writes x) old;
  it_log : log.*2 = os_kafka (w_st w)
}.

Lemma in_tx_next x old log w : in_tx x old log w -> in_tx x old log (next w).
Proof. by intros [? ? ?]. Qed.

(** The bookkeeping of a failed publication. *)
Definition book (failedAt : Z) (e : OutboxEvent) (err : error) : M OutSt (option UUID) :=
  let* nextRetry := calculateNextRetry (ev_RetryCount e) in
  if relay_maxRetries <=? ev_RetryCount e + 1 then do* attempt (MoveToDLQ e failedAt (Error err)) in ret None
  else do* attempt (IncrementRetryAndSetError (ev_ID e) (Error err) nextRetry) in ret None.

Lemma writes_snoc l x tab : writes (l ++ [x]) tab = write (writes l tab) x.
Proof. unfold writes. by rewrite foldl_snoc. Qed.

Lemma book_sim failedAt e err o x old log w :
  in_tx x old log w -> exists w', book failedAt e err o w = (inr None, w') /\
  ((tx_aborted x = false /\ exists msg t, in_tx (tx_write (refused failedAt e msg t) x) old log w') \/ in_tx (tx_abort x) old log w').
Proof.
  intros [Htx Htab Hlog]. unfold book, calculateNextRetry, bind, now, ret. simpl. unfold refused.
  destruct (relay_maxRetries <=? ev_RetryCount e + 1) eqn:Hmax.
  - unfold attempt, MoveToDLQ, bind, wrap_err. destruct (stmt _ o (next w)) as [r1 w1] eqn:H1.
    eapply stmt_tx in H1; [|done]. destruct H1 as [(Hab & -> & Hw1)|([e1 ->] & Ht1 & Hk1)].
    + destruct (stmt _ o w1) as [r2 w2] eqn:H2. eapply stmt_tx in H2; [|by rewrite Hw1].
      destruct H2 as [(_ & -> & Hw2)|([e2 ->] & Ht2 & Hk2)]; eexists; (split; [done|]).
      * left. split; [done|]. exists (Error err), 0. split; simpl; rewrite Hw2, Hw1; simpl; [done| |done].
        intros _. rewrite writes_snoc, <- (Htab Hab). simpl. destruct (ob_dlq (os_tab (w_st w)) !! ev_ID e); [by destruct (os_tab (w_st w))|done].
      * right. split; simpl; [done|done|]. by rewrite Hk2, Hw1.
    + eexists; (split; [done|]). right. split; simpl; [done|done|]. by rewrite Hk1.
  - unfold attempt, IncrementRetryAndSetError, wrap_err. destruct (stmt _ o (next w)) as [r1 w1] eqn:H1.
    eapply stmt_tx in H1; [|done]. destruct H1 as [(Hab & -> & Hw1)|([e1 ->] & Ht1 & Hk1)]; eexists; (split; [done|]).
    + left. split; [done|]. exists (Error err), (o_now o (w_tick w)). split; simpl; rewrite Hw1; simpl; [done| |done].
      intros _. by rewrite writes_snoc, <- (Htab Hab).
    + right. split; simpl; [done|done|]. by rewrite Hk1.
Qed.

Lemma relay_event_sim failedAt e es o x old log lost w :
  in_tx x old log w -> exists sent' w' x' log' lost', relay_event topic failedAt e o w = (inr sent', w') /\
  tx_sent x' = tx_sent x ++ option_list sent' /\ in_tx x' old log' w' /\
  rtc relays_step (MkRelays old log lost [RLoop failedAt (e :: es) x]) (MkRelays old log' lost' [RLoop failedAt es x']).
Proof.
  intros Hin. pose proof Hin as [Htx Htab Hlog].
  assert (Hbook : forall err w1 log1 lost1, in_tx x old log1 w1 ->
    (forall x', (tx_aborted x = false /\ exists msg t, x' = tx_write (refused failedAt e msg t) x) \/ x' = tx_abort x ->
       relays_step (MkRelays old log lost [RLoop failedAt (e :: es) x]) (MkRelays old log1 lost1 [RLoop failedAt es x'])) ->
    exists sent' w' x' log' lost', book failedAt e err o w1 = (inr sent', w') /\ tx_sent x' = tx_sent x ++ option_list sent' /\
      in_tx x' old log' w' /\
      rtc relays_step (MkRelays old log lost [RLoop failedAt (e :: es) x]) (MkRelays old log' lost' [RLoop failedAt es x'])).
  { intros err w1 log1 lost1 Hin1 Hstep. destruct (book_sim failedAt e err o x old log1 w1 Hin1) as (w2 & -> & [(Hab & msg & t & Hx)|Hx]);
      eexists None, w2, _, log1, lost1; (split; [done|split; [|split; [exact Hx|apply rtc_once, Hstep]]]); simpl; rewrite ?app_nil_r; eauto. }
  unfold relay_event, bind, attempt, SendMessage, io. fold (book failedAt e).
  destruct (o_fault o (w_tick w)) as [|err|err]; simpl.
  - eexists (Some (ev_ID e)), _, (tx_send (ev_ID e) x), _, _. split_and!; [done|done| |apply rtc_once, one_step, rs_sent].
    split; simpl; [done|done|]. by rewrite fmap_app, Hlog.
  - apply (Hbook err (next w) (log ++ (log_of <$> [])) (lost ++ [])).
    { simpl. rewrite app_nil_r. by apply in_tx_next. }
    intros x' [(Hab & msg & t & ->)| ->]; apply one_step; [by apply rs_refused|by apply rs_refused_abort].
  - apply (Hbook err (World (S (w_tick w)) (MkOutSt (os_tab (w_st w)) (os_tx (w_st w)) (os_kafka (w_st w) ++ [message topic e])))
      (log ++ (log_of <$> [e])) (lost ++ [ev_ID e])).
    { split; simpl; [done|done|]. by rewrite fmap_app, Hlog. }
    intros x' [(Hab & msg & t & ->)| ->]; apply one_step; [by apply rs_unheard|by apply rs_unheard_abort].
Qed.

Lemma relay_events_sim failedAt es o x old log lost w :
  in_tx x old log w -> exists ids w' x' log' lost', relay_events topic failedAt es o w = (inr ids, w') /\
  tx_sent x' = tx_sent x ++ ids /\ in_tx x' old log' w' /\
  rtc relays_step (MkRelays old log lost [RLoop failedAt es x]) (MkRelays old log' lost' [RLoop failedAt [] x']).
Proof.
  revert x log lost w. induction es as [|e es IH]; intros x log lost w Hin; simpl.
  { exists [], w, x, log, lost. split_and!; [done|by rewrite app_nil_r|done|apply rtc_refl]. }
  destruct (relay_event_sim failedAt e es o x old log lost w Hin) as (sent1 & w1 & x1 & log1 & lost1 & Hr & Hs1 & Hin1 & Hrun1).
  destruct (IH x1 log1 lost1 w1 Hin1) as (ids & w2 & x2 & log2 & lost2 & Hrs & Hs2 & Hin2 & Hrun2).
  exists (option_list sent1 ++ ids), w2, x2, log2, lost2. unfold bind, ret. rewrite Hr, Hrs. split_and!.
  - by destruct sent1.
  - by rewrite Hs2, Hs1, app_assoc.
  - done.
  - by etrans.
Qed.

(** The end of a poll: the relay is idle again, with no transaction. *)
Definition poll_ends (old : OutboxTables) (log : list (UUID * (string * string * json))) (lost : list UUID) (p : relay_pc) (w' : world OutSt) : Prop :=
  os_tx (w_st w') = None /\ exists log' lost', log'.*2 = os_kafka (w_st w') /\
  rtc relays_step (MkRelays old log lost [p]) (MkRelays (os_tab (w_st w')) log' lost' [RIdle]).

Lemma poll_ends_rollback old log lost p w :
  p ≠ RIdle -> os_tx (w_st w) = None -> os_tab (w_st w) = old -> log.*2 = os_kafka (w_st w) -> poll_ends old log lost p w.
Proof.
  intros Hp Htx Htab Hlog. split; [done|]. exists (log ++ (log_of <$> [])), (lost ++ in_flight p).
  rewrite Htab. split; [by rewrite app_nil_r|]. by apply rtc_once, one_step, rs_rollback.
Qed.

Lemma outbox_Rollback_runs o (w : world OutSt) old ab :
  os_tx (w_st w) = Some (old, ab) -> exists r n, outbox_Rollback o w = (r, World n (MkOutSt old None (os_kafka (w_st w)))).
Proof. intros Htx. unfold outbox_Rollback. rewrite Htx. destruct (o_fault o (w_tick w)); eauto. Qed.

Lemma rollback_sim o x old log lost p w :
  in_tx x old log w -> p ≠ RIdle -> poll_ends old log lost p (snd (bind (attempt outbox_Rollback) (fun _ => ret tt) o w)).
Proof.
  intros [Htx Htab Hlog] Hp. unfold bind, attempt, ret. destruct (outbox_Rollback_runs o w _ _ Htx) as (r & n & ->). simpl.
  by apply poll_ends_rollback.
Qed.

Lemma commit_sim o x old log lost w : in_tx x old log w -> poll_ends old log lost (RCommit x) (snd (commit_or_rollback o w)).
Proof.
  intros [Htx Htab Hlog]. unfold commit_or_rollback, bind, attempt, outbox_Commit, outbox_Rollback, ret. rewrite Htx.
  assert (Hdone : forall n, tx_aborted x = false -> poll_ends old log lost (RCommit x) (World n (MkOutSt (os_tab (w_st w)) None (os_kafka (w_st w))))).
  { intros n Hab. split; [done|]. exists (log ++ (log_of <$> [])), (lost ++ []). split; [by rewrite app_nil_r|]. simpl.
    rewrite (Htab Hab). by apply rtc_once, (one_step _ _ _ _ [] []), rs_commit. }
  destruct (tx_aborted x); simpl; [by apply poll_ends_rollback|].
  destruct (o_fault o (w_tick w)); simpl; [by apply Hdone|by apply poll_ends_rollback|by apply Hdone].
Qed.

Lemma poll_ends_after old log lost p log1 lost1 p1 w' :
  rtc relays_step (MkRelays old log lost [p]) (MkRelays old log1 lost1 [p1]) -> poll_ends old log1 lost1 p1 w' -> poll_ends old log lost p w'.
Proof. intros Hr (Hn & log' & lost' & Hl & Hr'). split; [done|]. exists log', lost'. split; [done|by etrans]. Qed.

Lemma poll_ends_silent old log lost p p1 w' :
  relay_step old [] p [] [] p1 old -> poll_ends old log lost p1 w' -> poll_ends old log lost p w'.
Proof.
  intros Hs Hend. eapply (poll_ends_after _ _ _ _ (log ++ (log_of <$> [])) (lost ++ [])); [by apply rtc_once, one_step|].
  simpl. by rewrite !app_nil_r.
Qed.

(** The publications, the mark and the commit. *)
Lemma poll_rest_sim o failedAt evs x0 old log lost w :
  in_tx x0 old log w -> tx_sent x0 = [] ->
  poll_ends old log lost (RLoop failedAt evs x0)
    (snd (bind (relay_events topic failedAt evs) (fun processed =>
       if bool_decide (length processed = 0%nat) then commit_or_rollback
       else let* m := attempt (BatchMarkProcessed processed) in
            match m with
            | inl _ => do* attempt outbox_Rollback in ret tt
            | inr _ => commit_or_rollback
            end) o w)).
Proof.
  intros Hin0 Hs0. destruct (relay_events_sim failedAt evs o x0 old log lost w Hin0) as (ids & w3 & x & log3 & lost3 & Hr & Hsent & Hin & Hrun).
  eapply poll_ends_after; [exact Hrun|]. rewrite Hs0 in Hsent. simpl in Hsent. unfold bind at 1. rewrite Hr, <- Hsent.
  case_bool_decide as Hlen.
  { apply nil_length_inv in Hlen. eapply poll_ends_silent; [by apply rs_unmarked|by apply commit_sim]. }
  unfold bind at 1, attempt at 1, BatchMarkProcessed, bind at 1, now, wrap_err. destruct (stmt _ o (next w3)) as [r w4] eqn:H4.
  eapply stmt_tx in H4; [|exact (it_tx _ _ _ _ Hin)]. destruct H4 as [(Hab & -> & Hw4)|([e4 ->] & Ht4 & Hk4)].
  - eapply poll_ends_silent; [apply (rs_marked _ _ _ _ (o_now o (w_tick w3))); [by intros Hn; rewrite Hn in Hlen|done]|].
    apply commit_sim. destruct Hin as [Htx Htab Hlog]. split; rewrite Hw4; simpl; [done| |done].
    intros _. by rewrite writes_snoc, <- (Htab Hab).
  - apply (rollback_sim o (tx_abort x)); [|done]. split; simpl; [done|done|]. rewrite Hk4. apply Hin.
Qed.

Lemma poll_sim o log lost w :
  os_tx (w_st w) = None -> log.*2 = os_kafka (w_st w) -> poll_ends (os_tab (w_st w)) log lost RIdle (snd (poll topic o w)).
Proof.
  intros Htx Hlog. set (old := os_tab (w_st w)). unfold poll. unfold bind at 1, attempt at 1, outbox_Begin. rewrite Htx.
  assert (Hend : forall w', w_st w' = w_st w -> poll_ends old log lost RIdle w').
  { intros w' Hw. unfold poll_ends. rewrite Hw. split; [done|]. exists log, lost. split; [done|apply rtc_refl]. }
  destruct (o_fault o (w_tick w)) as [|e|e]; [|by apply Hend..].
  eapply poll_ends_silent; [apply rs_begin|].
  set (w1 := World (S (w_tick w)) _). unfold bind at 1, attempt at 1, GetUnprocessed, bind at 1, now at 1, wrap_err.
  destruct (stmt _ o (next w1)) as [r w2] eqn:H2. eapply stmt_tx in H2; [|done].
  destruct H2 as [(_ & -> & Hw2)|([e2 ->] & Ht2 & Hk2)].
  2: { apply (rollback_sim o (MkTx [] [] [] true)); [|done]. by split; simpl; [..|rewrite Hk2]. }
  set (evs := take 100 _). assert (Hsel : evs = select_rows (o_now o (S (w_tick w))) [] (ob_rows old)).
  { unfold evs, select_rows. f_equal. f_equal. apply list_filter_iff. intros e. split; [intros Hd; split; [done|by intros ?%elem_of_nil]|by intros [? _]]. }
  unfold bind at 1, now at 1. eapply poll_ends_silent; [by apply (rs_select _ _ (o_now o (S (w_tick w))) (o_now o (w_tick w2)))|].
  apply poll_rest_sim; [|done]. by split; simpl; rewrite Hw2.
Qed.

(** C15. The poll of [Outbox.v] is a run of this machine: from an idle relay to an idle
    relay, with the tables it leaves and the messages it publishes, whatever fails. *)
Theorem poll_refines_relay o log lost w :
  os_tx (w_st w) = None -> log.*2 = os_kafka (w_st w) ->
  let w' := snd (poll topic o w) in
  os_tx (w_st w') = None /\ exists log' lost', log'.*2 = os_kafka (w_st w') /\
  rtc relays_step (MkRelays (os_tab (w_st w)) log lost [RIdle]) (MkRelays (os_tab (w_st w')) log' lost' [RIdle]).
Proof. intros Htx Hlog. by apply poll_sim. Qed.

(** ** A relay never waits for another *)

Lemma others_insert ths i p : others (<[i := p]> ths) i = others ths i.
Proof. unfold others. f_equal. f_equal. revert i. induction ths as [|q ths IH]; intros [|i]; csimpl; [done..|by rewrite IH]. Qed.

Lemma update_rows_none tab f : update_rows (fun e => bool_decide (ev_ID e ∈ [])) f tab = tab.
Proof.
  destruct tab as [rows dlq]. unfold update_rows. simpl. f_equal. rewrite <- (list_fmap_id rows) at 2.
  apply list_fmap_ext. by intros i e _.
Qed.

Section Alone.
Context (tab : OutboxTables) (lost : list UUID) (ths : list relay_pc) (i : nat) (Hi : is_Some (ths !! i)).

(** A step of relay [i] that loses nothing. *)
Lemma alone_step log p evs p' tab' :
  relay_step tab (others ths i) p evs [] p' tab' ->
  relays_step (MkRelays tab log lost (<[i := p]> ths)) (MkRelays tab' (log ++ (log_of <$> evs)) lost (<[i := p']> ths)).
Proof.
  intros Hs. rewrite <- (app_nil_r lost) at 2. rewrite <- (list_insert_insert_eq ths i p' p).
  eapply rl_run; [apply list_lookup_insert_eq; by apply lookup_lt_is_Some|by rewrite others_insert].
Qed.

Lemma alone_silent log p p' tab' :
  relay_step tab (others ths i) p [] [] p' tab' ->
  relays_step (MkRelays tab log lost (<[i := p]> ths)) (MkRelays tab' log lost (<[i := p']> ths)).
Proof. intros Hs. rewrite <- (app_nil_r log) at 2. by apply (alone_step log p []). Qed.

Lemma alone_sends log n es x :
  rtc relays_step (MkRelays tab log lost (<[i := RLoop n es x]> ths))
    (MkRelays tab (log ++ (log_of <$> es)) lost
       (<[i := RLoop n [] (MkTx (tx_locked x) (tx_sent x ++ (ev_ID <$> es)) (tx_writes x) (tx_aborted x))]> ths)).
Proof.
  revert log x. induction es as [|e es IH]; intros log x.
  { simpl. rewrite !app_nil_r. destruct x. apply rtc_refl. }
  eapply rtc_l; [apply alone_step, rs_sent|]. specialize (IH (log ++ (log_of <$> [e])) (tx_send (ev_ID e) x)).
  simpl in IH. rewrite <- !app_assoc in IH. done.
Qed.
End Alone.

Lemma relay_poll_alone tab log lost ths i t :
  ths !! i = Some RIdle ->
  let evs := select_rows t (others ths i) (ob_rows tab) in
  rtc relays_step (MkRelays tab log lost ths)
    (MkRelays (write tab (WMark (ev_ID <$> evs) t)) (log ++ (log_of <$> evs)) lost ths).
Proof.
  intros Hi evs. assert (Hsome : is_Some (ths !! i)) by done. rewrite <- (list_insert_id ths i RIdle Hi) at 1.
  eapply rtc_l; [apply (alone_silent _ _ _ _ Hsome), rs_begin|].
  eapply rtc_l; [by apply (alone_silent _ _ _ _ Hsome), (rs_select _ _ t t evs)|].
  etrans; [by apply alone_sends|]. cbn [tx_sent tx_writes tx_aborted tx_locked app]. set (x := MkTx _ _ _ _).
  assert (Hend : forall p, relay_step tab (others ths i) (RLoop t [] x) [] [] p tab ->
    relay_step tab (others ths i) p [] [] RIdle (write tab (WMark (ev_ID <$> evs) t)) ->
    rtc relays_step (MkRelays tab (log ++ (log_of <$> evs)) lost (<[i := RLoop t [] x]> ths))
      (MkRelays (write tab (WMark (ev_ID <$> evs) t)) (log ++ (log_of <$> evs)) lost ths)).
  { intros p H1 H2. eapply rtc_l; [by apply (alone_silent _ _ _ _ Hsome)|]. rewrite <- (list_insert_id ths i RIdle Hi) at 2.
    by apply rtc_once, (alone_silent _ _ _ _ Hsome). }
  destruct (decide (evs = [])) as [He|He].
  - eapply Hend; [apply rs_unmarked; unfold x; by rewrite He|]. rewrite He. simpl. rewrite update_rows_none.
    by apply (rs_commit tab (others ths i) x).
  - eapply Hend; [apply (rs_marked _ _ _ _ t); [|done]|by apply rs_commit].
    intros Hn%(fmap_nil_inv ev_ID). done.
Qed.

(** SKIP LOCKED: whatever transactions the other relays have open, an idle relay can
    run a whole poll without waiting, publish exactly the due events that are not
    locked, and mark them. *)
Theorem relay_skips_locked tab log lost ths i t :
  ths !! i = Some RIdle ->
  let evs := select_rows t (others ths i) (ob_rows tab) in
  rtc relays_step (MkRelays tab log lost ths)
    (MkRelays (write tab (WMark (ev_ID <$> evs) t)) (log ++ (log_of <$> evs)) lost ths).
Proof. apply relay_poll_alone. Qed.

(** ** Two loops over one repository

    A Start that overlaps a Stop leaves two loops on one Relay ([Workers.v]), and
    the transaction handle of OutboxPostgres is a field they share: the second
    Begin joins the transaction of the first, whose locks do not stop it. *)

Definition overlapping_polls : M OutSt unit :=
  do* outbox_Begin in
  let* mine := GetUnprocessed 100 in
  do* outbox_Begin in
  let* theirs := GetUnprocessed 100 in
  let* t := now in
  let* sent1 := relay_events topic t mine in
  let* sent2 := relay_events topic t theirs in
  do* BatchMarkProcessed sent1 in
  do* outbox_Commit in
  do* BatchMarkProcessed sent2 in
  do* attempt outbox_Commit in
  ret tt.

(** Every event of the batch is published twice although nothing fails. *)
Theorem overlapping_polls_publish_twice o w :
  no_faults o -> os_tx (w_st w) = None ->
  exists t1 t2, os_kafka (w_st (snd (overlapping_polls o w))) =
    os_kafka (w_st w) ++ (message topic <$> batch t1 (ob_rows (os_tab (w_st w)))) ++ (message topic <$> batch t2 (ob_rows (os_tab (w_st w)))).
Proof.
  intros Ho Htx. pose proof Ho as [Hf _]. exists (o_now o (S (w_tick w))), (o_now o (S (S (S (w_tick w))))).
  unfold overlapping_polls, bind, attempt, outbox_Begin, GetUnprocessed, BatchMarkProcessed, bind, now, wrap_err, next.
  rewrite Htx, Hf. simpl. rewrite !(stmt_no_faults _ _ _ Ho) by done. simpl. rewrite !(stmt_no_faults _ _ _ Ho) by done. simpl.
  rewrite (relay_events_calm _ _ _ _ _ Ho). simpl. rewrite (relay_events_calm _ _ _ _ _ Ho). simpl.
  rewrite (stmt_no_faults _ _ _ Ho) by done. simpl. unfold outbox_Commit. simpl. rewrite Hf. simpl.
  rewrite (stmt_no_faults _ _ _ Ho) by done. simpl. by rewrite <- app_assoc.
Qed.
End Races.

(** ** Concrete relays *)

Section Samples.
Local Existing Instance uuid_text.

Definition two_relays : relays := MkRelays (MkOutbox [event ev1 10] ∅) [] [] [RIdle; RIdle].

Lemma two_relays_reachable : relays_reachable "orders" content two_relays.
Proof.
  eapply rtc_l; [apply rl_join|]. eapply rtc_l; [apply rl_join|]. simpl. apply rtc_once.
  apply (rl_create _ _ (MkOutbox [] ∅) [] [] [RIdle; RIdle] (event ev1 10)); [by intros ?%elem_of_nil|done..].
Qed.

(** A poll of relay [i]. *)
Definition after_poll (i : nat) (s : relays) : relays :=
  let evs := select_rows 100 (others (rl_ths s) i) (ob_rows (rl_tab s)) in
  MkRelays (write (rl_tab s) (WMark (ev_ID <$> evs) 100)) (rl_log s ++ (log_of "orders" <$> evs)) (rl_lost s) (rl_ths s).

Lemma both_polled : relays_reachable "orders" content (after_poll 1 (after_poll 0 two_relays)).
Proof.
  unfold relays_reachable. etrans; [apply two_relays_reachable|].
  etrans; [apply (relay_poll_alone "orders" content (rl_tab two_relays) [] [] [RIdle; RIdle] 0 100 eq_refl)|].
  apply (relay_poll_alone "orders" content _ _ [] [RIdle; RIdle] 1 100 eq_refl).
Qed.

(** Both relays poll, one after the other: the event is published once. *)
Lemma relays_publish_once_witness :
  let s := after_poll 1 (after_poll 0 two_relays) in
  length (rl_log s) = 1%nat /\ (times ev1 (rl_log s).*1 <= S (times ev1 (rl_lost s)))%nat.
Proof.
  split; [vm_compute; reflexivity|]. apply (relays_publish_once "orders" content _ both_polled).
Defined.

Lemma relays_lose_nothing_witness :
  kept (rl_tab two_relays) ev1 /\
  kept (write (rl_tab two_relays) (WMark (ev_ID <$> select_rows 100 [] (ob_rows (rl_tab two_relays))) 100)) ev1.
Proof.
  assert (Hk : kept (rl_tab two_relays) ev1).
  { left. exists (event ev1 10). split; [apply list_elem_of_here|reflexivity]. }
  split; [done|].
  exact (proj1 (relays_lose_nothing "orders" content _ _ two_relays_reachable
    (relay_poll_alone "orders" content _ [] [] [RIdle; RIdle] 0 100 eq_refl)) _ Hk).
Defined.

Lemma poll_refines_relay_witness : exists log' lost',
  length log' = 2%nat /\
  rtc (relays_step "orders" content) (MkRelays (os_tab sample_out) [] [] [RIdle])
    (MkRelays (os_tab (w_st (snd (poll "orders" quiet out_world)))) log' lost' [RIdle]).
Proof.
  destruct (poll_refines_relay "orders" content quiet [] [] out_world eq_refl eq_refl) as (_ & log' & lost' & Hl & Hr).
  exists log', lost'. split; [|exact Hr]. rewrite <- (length_fmap snd log'), Hl. vm_compute. reflexivity.
Defined.

(** The second relay skips the event the first one holds. *)
Definition holding : list relay_pc := [RLoop 100 [event ev1 10] (MkTx [ev1] [] [] false); RIdle].

Lemma relay_skips_locked_witness : exists log,
  rtc (relays_step "orders" content) (MkRelays (MkOutbox [event ev1 10; event ev2 20] ∅) [] [] holding)
    (MkRelays (write (MkOutbox [event ev1 10; event ev2 20] ∅) (WMark [ev2] 100)) log [] holding) /\ length log = 1%nat.
Proof.
  exists (log_of "orders" <$> [event ev2 20]). split; [|reflexivity].
  assert (Hsel : select_rows 100 (others holding 1) [event ev1 10; event ev2 20] = [event ev2 20]) by reflexivity.
  pose proof (relay_skips_locked "orders" content (MkOutbox [event ev1 10; event ev2 20] ∅) [] [] holding 1 100 eq_refl) as H.
  cbn [ob_rows] in H. rewrite Hsel in H. exact H.
Defined.

Lemma overlapping_polls_publish_twice_witness : length (os_kafka (w_st (snd (overlapping_polls "orders" quiet out_world)))) = 4%nat.
Proof.
  destruct (overlapping_polls_publish_twice "orders" quiet out_world (conj (fun _ => eq_refl) (fun _ => eq_refl)) eq_refl) as (t1 & t2 & _).
  vm_compute. reflexivity.
Defined.
End Samples.
