(* ===== verification/Users.v ===== *)
(** * user-service

    The users table, the sliding-window rate limiter, registration, login and
    profile lookup, and the gRPC handler.  bcrypt and the JWT library are
    parameters.  E-mail addresses are ASCII: the request validation accepts no
    other, so [ToLower] and [TrimSpace] act on bytes. *)
From S2P Require Import Prelude Errors Effects Auth.

(** ** ratelimit.go *)

Record MemoryRateLimiter := MkLimiter { rl_limit : Z; rl_window : Z }.

Definition NewMemoryRateLimiter (limit window : Z) : MemoryRateLimiter :=
  MkLimiter (if limit <=? 0 then 10 else limit) (if window <=? 0 then 60 * 10 ^ 9 else window).

(** The two implementations of the interface [RateLimiter]. *)
Inductive RateLimiter := NoopLimiter | Memory (r : MemoryRateLimiter).

(** The limiter that the application of user-service is wired with. *)
Definition user_limiter : RateLimiter := Memory (NewMemoryRateLimiter 5 (60 * 10 ^ 9)).

(** The loop that keeps the recent hits. *)
Fixpoint recent_hits (cutoff : Z) (hits : list Z) : list Z :=
  match hits with
  | [] => []
  | t :: hits' => if cutoff <? t then t :: recent_hits cutoff hits' else recent_hits cutoff hits'
  end.

(** Allow at time [t]: the answer and the map afterwards. *)
Definition allow_at (r : MemoryRateLimiter) (t : Z) (key : string) (hits : gmap string (list Z))
  : bool * gmap string (list Z) :=
  let recent := recent_hits (t - rl_window r) (default [] (hits !! key)) in
  if rl_limit r <=? Z.of_nat (length recent) then (false, <[key := recent]> hits)
  else (true, <[key := recent ++ [t]]> hits).

(** ** bcrypt: golang.org/x/crypto

    [bcrypt_Generate n] is one call, with the salt it draws; [bcrypt_Compare]
    tells whether CompareHashAndPassword returns nil. *)
Class BcryptLib := {
  bcrypt_Generate : nat -> string -> error + string;
  bcrypt_Compare : string -> string -> bool
}.

Class BcryptLaws `{BcryptLib} : Prop := {
  bcrypt_match : forall n p h, bcrypt_Generate n p = inr h -> bcrypt_Compare h p = true
}.

(** ** [t.Format("2006-01-02T15:04:05Z")] of a time in UTC *)

(** Year, month and day of a day number counted from 1970-01-01. *)
Definition civil_from_days (days : Z) : Z * Z * Z :=
  let z := days + 719468 in
  let era := z / 146097 in
  let doe := z - era * 146097 in
  let yoe := (doe - doe / 1460 + doe / 36524 - doe / 146096) / 365 in
  let doy := doe - (365 * yoe + yoe / 4 - yoe / 100) in
  let mp := (5 * doy + 2) / 153 in
  let m := if mp <? 10 then mp + 3 else mp - 9 in
  (yoe + era * 400 + (if m <=? 2 then 1 else 0), m, doy - (153 * mp + 2) / 5 + 1).

Definition pad (width : nat) (z : Z) : string :=
  let digits := pretty z in Repeat "0" (width - String.length digits) +:+ digits.

Definition Format_utc (t : Z) : string :=
  let secs := t / 10 ^ 9 in
  let '(y, m, d) := civil_from_days (secs / 86400) in
  let r := secs mod 86400 in
  pad 4 y +:+ "-" +:+ pad 2 m +:+ "-" +:+ pad 2 d +:+ "T" +:+
  pad 2 (r / 3600) +:+ ":" +:+ pad 2 (r / 60 mod 60) +:+ ":" +:+ pad 2 (r mod 60) +:+ "Z".

Example format_sample : Format_utc (1709251199 * 10 ^ 9 + 5) = "2024-02-29T23:59:59Z".
Proof. vm_compute. reflexivity. Qed.

Section Users.
Context `{U : UuidLib} `{J : JwtLib} `{B : BcryptLib}.

(** ** Data *)

Record User := MkUser {
  u_ID : UUID; u_Email : string; u_PasswordHash : string; u_Name : string; u_Role : string; u_CreatedAt : Z
}.

Record UserSt := MkUserSt { us_rows : gmap UUID User; us_hits : gmap string (list Z) }.

Definition users (s : UserSt) : list User := (map_to_list (us_rows s)).*2.

(** ** UserPostgres *)

(** [errors.As(err, &pgErr)]: the SQLSTATE of the first PgError of the chain. *)
Fixpoint pg_code (e : error) : option string :=
  match e with
  | EPg st _ => Some st
  | EWrap _ e' _ => pg_code e'
  | EWrap2 _ e1 _ e2 => match pg_code e1 with Some st => Some st | None => pg_code e2 end
  | EApp _ _ (Some e') _ _ => pg_code e'
  | EJoin es => (fix go l := match l with [] => None | e' :: l' => match pg_code e' with Some st => Some st | None => go l' end end) es
  | _ => None
  end.

(** The INSERT with the constraints of the table. *)
Definition insert_user (u : User) (s : UserSt) : (error + unit) * UserSt :=
  if negb (fits_varchar 255 (u_Email u) && fits_varchar 255 (u_PasswordHash u) &&
           fits_varchar 255 (u_Name u) && fits_varchar 50 (u_Role u))
  then (inl pg_too_long, s)
  else match us_rows s !! u_ID u with
       | Some _ => (inl pg_unique_violation, s)
       | None =>
           if existsb (fun v => bool_decide (u_Email v = u_Email u)) (users s) then (inl pg_unique_violation, s)
           else (inr tt, MkUserSt (<[u_ID u := u]> (us_rows s)) (us_hits s))
       end.

Definition UserRepo_Create (u : User) : M UserSt unit :=
  wrap_err (fun err => if bool_decide (pg_code err = Some "23505")
                       then wrapS ErrAlreadyExists ("user with email " +:+ u_Email u)
                       else wrapf "insert user" err)
    (io (insert_user u)).

(** An error of the query that is not "no rows" is wrapped. *)
Definition query_user (pre : string) (find : UserSt -> option User) : M UserSt User :=
  let* r := wrap_err (wrapf pre) (read (fun s => inr (find s))) in
  match r with
  | Some u => ret u
  | None => throw (wrapS ErrNotFound "user")
  end.

Definition UserRepo_GetByID (id : UUID) : M UserSt User :=
  query_user "get user by id" (fun s => us_rows s !! id).

Definition UserRepo_GetByEmail (email : string) : M UserSt User :=
  query_user "get user by email" (fun s => List.find (fun u => bool_decide (u_Email u = email)) (users s)).

(** ** Use case *)

Definition Allow (l : RateLimiter) (key : string) : M UserSt bool :=
  match l with
  | NoopLimiter => ret true
  | Memory r =>
      let* t := now in
      fun _ w => let '(b, h) := allow_at r t key (us_hits (w_st w)) in
                 (inr b, World (w_tick w) (MkUserSt (us_rows (w_st w)) h))
  end.

Definition normalizeEmail (email : string) : string := ToLower (TrimSpace email).

Definition hashPassword (password : string) : M UserSt string :=
  fun _ w => (match bcrypt_Generate (w_tick w) password with
              | inl err => inl (wrapf "hash password" err)
              | inr hash => inr hash
              end, next w).

Definition verifyPassword (hash password : string) : bool := bcrypt_Compare hash password.

Definition user_claims (user : User) (jti : UUID) (t : Z) : CustomClaims :=
  MkClaims (uuid_String (u_ID user)) "go-ozon-marketplace" ["api-gateway"] (uuid_String jti)
    (Some (NewNumericDate t)) (Some (NewNumericDate t)) (Some (NewNumericDate (t + 24 * hour)))
    (if bool_decide (u_Role user = "") then RoleUser else u_Role user).

Definition issueToken (jwtSecret : string) (user : User) : M UserSt string :=
  let* t := now in
  let* jti := new_uuid in
  match jwt_SignedString "HS256" (user_claims user jti t) jwtSecret with
  | inl err => throw (wrapf "sign token" err)
  | inr tok => ret tok
  end.

Definition rate_limited : error := Wrap (ESentinel ErrFailedPrecondition) "failed_precondition" "rate limit exceeded".

Definition Register (l : RateLimiter) (email0 password name : string) : M UserSt UUID :=
  let email := normalizeEmail email0 in
  let* ok := Allow l ("register:" +:+ email) in
  if negb ok then throw rate_limited
  else
    let* hash := hashPassword password in
    let* id := new_uuid in
    let* t := now in
    let user := MkUser id email hash name RoleUser t in
    do* wrap_err (wrapf "create user") (UserRepo_Create user) in
    ret (u_ID user).

Definition Login (l : RateLimiter) (jwtSecret email0 password : string) : M UserSt string :=
  let email := normalizeEmail email0 in
  let* ok := Allow l ("login:" +:+ email) in
  if negb ok then throw rate_limited
  else
    let* r := attempt (UserRepo_GetByEmail email) in
    match r with
    | inl err =>
        if Is err ErrNotFound then throw (ESentinel ErrInvalidCredentials)
        else throw (wrapf "lookup user" err)
    | inr user =>
        if negb (verifyPassword (u_PasswordHash user) password) then throw (ESentinel ErrInvalidCredentials)
        else issueToken jwtSecret user
    end.

Definition GetUser (id : UUID) : M UserSt User := UserRepo_GetByID id.

(** ** gRPC handler *)

Definition handler_Register (l : RateLimiter) (email password name : string) : M UserSt string :=
  let* id := wrap_err ToStatus (Register l email password name) in
  ret (uuid_String id).

Definition handler_Login (l : RateLimiter) (jwtSecret email password : string) : M UserSt string :=
  wrap_err ToStatus (Login l jwtSecret email password).

(** The profile whose id the request resolves to, or the error status. *)
Definition target_user (ctx : Ctx) (user_id : string) : error + string :=
  match GetUserID ctx with
  | None | Some "" =>
      inl (ToStatus (Wrap (ESentinel ErrInvalidCredentials) "unauthenticated" "missing user identity"))
  | Some own =>
      if bool_decide (user_id = "") then inr own
      else if bool_decide (fst (GetRole ctx) = RoleAdmin) then inr user_id
      else inl (ToStatus (Wrap (ESentinel ErrPermissionDenied) "permission_denied" "only admin can request other user profile"))
  end.

(** The response: id, e-mail, name and the creation time. *)
Record UserProto := MkUserProto { up_UserId : string; up_Email : string; up_Name : string; up_CreatedAt : string }.

Definition handler_GetUser (ctx : Ctx) (user_id : string) : M UserSt UserProto :=
  match target_user ctx user_id with
  | inl e => throw e
  | inr target =>
      match uuid_Parse target with
      | None => throw (ToStatus (Wrap (ESentinel ErrInvalidArgument) "invalid_argument" ("invalid user id: " +:+ uuid_error target)))
      | Some id =>
          let* user := wrap_err ToStatus (GetUser id) in
          ret (MkUserProto (uuid_String (u_ID user)) (u_Email user) (u_Name user) (Format_utc (u_CreatedAt user)))
      end
  end.
End Users.
