(* ===== verification/UsersFacts.v ===== *)
(** * user-service: theorems

    The rate limiter is an exact sliding window.  Accounts are unique up to case
    and surrounding spaces of their address.  Login succeeds for the account's
    password only, does not reveal which accounts exist, and its token verifies
    as the account.  A profile is shown to its owner or to an administrator. *)
From S2P Require Import Prelude Errors Effects Auth Users.

(** ** The sliding window *)

Lemma recent_hits_filter c l : recent_hits c l = filter (fun t => c < t) l.
Proof.
  induction l as [|t l IH]; simpl; [done|]. rewrite filter_cons.
  destruct (Z.ltb_spec c t); rewrite ?decide_True, ?decide_False by lia; by rewrite ?IH.
Qed.

Lemma recent_recent c c' l : c' <= c -> recent_hits c (recent_hits c' l) = recent_hits c l.
Proof. intros Hc. rewrite !recent_hits_filter. rewrite list_filter_filter_l; [done|]. intros t Ht. lia. Qed.

Lemma recent_app c l1 l2 : recent_hits c (l1 ++ l2) = recent_hits c l1 ++ recent_hits c l2.
Proof. rewrite !recent_hits_filter. apply filter_app. Qed.

(** A call is a key and the time of the call.  [times k g]: when [k] was granted. *)
Definition times (k : string) (g : list (string * Z)) : list Z := snd <$> filter (fun c => fst c = k) g.

(** The calls of a history that the limiter grants, starting from given hits. *)
Fixpoint granted (r : MemoryRateLimiter) (hits : gmap string (list Z)) (calls : list (string * Z)) : list (string * Z) :=
  match calls with
  | [] => []
  | (k, t) :: calls' =>
      let '(b, hits') := allow_at r t k hits in
      if b then (k, t) :: granted r hits' calls' else granted r hits' calls'
  end.

(** How many grants of a key lie between two times, the later one included. *)
Definition grants_in (k : string) (after upto : Z) (g : list (string * Z)) : Z :=
  Z.of_nat (length (filter (fun c => fst c = k /\ after < snd c <= upto) g)).

(** The specification, on the list of the grants so far: a call is granted when fewer
    than [limit] grants of its key lie within the last [window]. *)
Fixpoint spec_granted (limit window : Z) (g : list (string * Z)) (calls : list (string * Z)) : list (string * Z) :=
  match calls with
  | [] => []
  | (k, t) :: calls' =>
      if grants_in k (t - window) t g <? limit
      then (k, t) :: spec_granted limit window (g ++ [(k, t)]) calls' else spec_granted limit window g calls'
  end.

(** The calls come in the order of the clock, none before [t]. *)
Fixpoint clocked (t : Z) (calls : list (string * Z)) : Prop :=
  match calls with [] => True | (_, t') :: calls' => t <= t' /\ clocked t' calls' end.

Definition hits_ok (r : MemoryRateLimiter) (t : Z) (g : list (string * Z)) (hits : gmap string (list Z)) : Prop :=
  forall k c, t - rl_window r <= c -> recent_hits c (default [] (hits !! k)) = recent_hits c (times k g).

Lemma times_snoc k g k' t : times k (g ++ [(k', t)]) = times k g ++ (if decide (k' = k) then [t] else []).
Proof. unfold times. rewrite filter_app, fmap_app. f_equal. rewrite filter_cons, filter_nil. simpl. by destruct (decide (k' = k)). Qed.

Lemma grants_in_times k a b g : grants_in k a b g = Z.of_nat (length (filter (fun t => a < t <= b) (times k g))).
Proof.
  unfold grants_in, times. f_equal. induction g as [|[k' t] g IH]; [done|]. rewrite !filter_cons. simpl.
  destruct (decide (k' = k)) as [->|Hk]; [|rewrite decide_False by tauto; exact IH].
  rewrite fmap_cons, filter_cons. simpl. destruct (decide (a < t <= b)) as [Ht|Ht].
  - rewrite decide_True by done. simpl. by rewrite IH.
  - rewrite decide_False by tauto. exact IH.
Qed.

(** No grant is later than [t]. *)
Definition past (t : Z) (g : list (string * Z)) : Prop := forall k t', t' ∈ times k g -> t' <= t.

Lemma past_snoc t g k t' : t <= t' -> past t g -> past t' (g ++ [(k, t')]).
Proof.
  intros Ht Hold k' t'' Hin. rewrite times_snoc in Hin. apply elem_of_app in Hin as [Hin|Hin].
  - specialize (Hold _ _ Hin). lia.
  - destruct (decide (k = k')); [|by apply elem_of_nil in Hin]. apply list_elem_of_singleton in Hin. lia.
Qed.

Lemma past_mono t t' g : t <= t' -> past t g -> past t' g.
Proof. intros Ht Hold k t'' Hin. specialize (Hold _ _ Hin). lia. Qed.

(** What the loop of Allow keeps is what the specification counts. *)
Lemma recent_is_counted k c t g : past t g -> Z.of_nat (length (recent_hits c (times k g))) = grants_in k c t g.
Proof.
  intros Hold. rewrite grants_in_times, recent_hits_filter. f_equal.
  assert (Hl : forall x, x ∈ times k g -> x <= t) by (intros x; apply Hold). revert Hl.
  generalize (times k g) as l. induction l as [|x l IH]; intros Hl; [done|]. rewrite !filter_cons.
  specialize (IH (fun y Hy => Hl y (list_elem_of_further _ _ _ Hy))). specialize (Hl x (list_elem_of_here _ _)).
  destruct (decide (c < x)), (decide (c < x <= t)); simpl; lia.
Qed.

Lemma granted_spec r t g hits calls :
  hits_ok r t g hits -> past t g -> clocked t calls -> granted r hits calls = spec_granted (rl_limit r) (rl_window r) g calls.
Proof.
  revert t g hits. induction calls as [|[k t'] calls IH]; intros t g hits Hok Hold Hcl; [done|].
  destruct Hcl as [Ht Hcl]. pose proof (past_mono _ _ _ Ht Hold) as Hold'. simpl. unfold allow_at.
  rewrite (Hok k (t' - rl_window r)) by lia. rewrite (recent_is_counted _ _ _ _ Hold').
  destruct (Z.leb_spec (rl_limit r) (grants_in k (t' - rl_window r) t' g)), (Z.ltb_spec (grants_in k (t' - rl_window r) t' g) (rl_limit r)); try lia.
  - apply (IH t'); [|done|done]. intros k' c Hc. destruct (decide (k = k')) as [<-|Hk].
    + rewrite lookup_insert_eq. simpl. apply recent_recent. lia.
    + rewrite lookup_insert_ne by done. apply Hok. lia.
  - f_equal. apply (IH t'); [|by eapply past_snoc|done]. intros k' c Hc. rewrite times_snoc.
    destruct (decide (k = k')) as [<-|Hk].
    + rewrite lookup_insert_eq. simpl. rewrite !recent_app. f_equal. apply recent_recent. lia.
    + rewrite lookup_insert_ne, app_nil_r by done. apply Hok. lia.
Qed.

Lemma filter_length_mono {A} (P Q : A -> Prop) `{!forall x, Decision (P x)} `{!forall x, Decision (Q x)} (l : list A) :
  (forall x, P x -> Q x) -> (length (filter P l) <= length (filter Q l))%nat.
Proof.
  intros HPQ. induction l as [|x l IH]; [done|]. rewrite !filter_cons.
  destruct (decide (P x)) as [HP|]; [rewrite decide_True by auto; simpl; lia|]. case_decide; simpl; lia.
Qed.

(** No window of the clock holds more than [limit] grants. *)
Definition window_bound (limit window : Z) (g : list (string * Z)) : Prop := forall k T, grants_in k (T - window) T g <= limit.

Lemma grants_in_snoc k a b g k' t :
  grants_in k a b (g ++ [(k', t)]) = grants_in k a b g + (if decide (k' = k /\ a < t <= b) then 1 else 0).
Proof.
  unfold grants_in. rewrite filter_app, length_app, filter_cons, filter_nil. simpl.
  destruct (decide (k' = k /\ a < t <= b)); simpl; lia.
Qed.

Lemma spec_granted_bound limit window t g calls :
  0 < limit -> window_bound limit window g -> past t g -> clocked t calls ->
  window_bound limit window (g ++ spec_granted limit window g calls).
Proof.
  intros Hl. revert t g. induction calls as [|[k t'] calls IH]; intros t g Hb Hold Hcl; simpl.
  { by rewrite app_nil_r. }
  destruct Hcl as [Ht Hcl]. destruct (Z.ltb_spec (grants_in k (t' - window) t' g) limit) as [Hlt|_].
  - replace (g ++ (k, t') :: _) with ((g ++ [(k, t')]) ++ spec_granted limit window (g ++ [(k, t')]) calls) by (by rewrite <- app_assoc).
    apply (IH t'); [|by eapply past_snoc|done]. intros k' T. rewrite grants_in_snoc.
    case_decide as Hin; [|specialize (Hb k' T); lia]. destruct Hin as [<- Hin].
    enough (grants_in k (T - window) T g <= grants_in k (t' - window) t' g) by lia.
    rewrite <- (recent_is_counted k _ t' g (past_mono _ _ _ Ht Hold)), grants_in_times, recent_hits_filter.
    apply inj_le, filter_length_mono. intros x Hx. lia.
  - apply (IH t'); [done|by eapply past_mono|done].
Qed.

(** C31. The rate limiter is an exact sliding window.  With a clock that does not go back,
    a call is granted exactly when fewer than [limit] calls of its key were granted
    within the last [window], the call at its far end excluded; so no interval of that
    length ever holds more than [limit] grants of a key.  A limit or a window that is
    not positive stands for ten calls and for a minute. *)
Theorem MemoryRateLimiter_sliding_window limit window calls t0 :
  clocked t0 calls ->
  let limit' := if limit <=? 0 then 10 else limit in
  let window' := if window <=? 0 then 60 * 10 ^ 9 else window in
  granted (NewMemoryRateLimiter limit window) ∅ calls = spec_granted limit' window' [] calls /\
  window_bound limit' window' (granted (NewMemoryRateLimiter limit window) ∅ calls).
Proof.
  intros Hcl limit' window'. assert (Hl : 0 < limit') by (unfold limit'; destruct (Z.leb_spec limit 0); lia).
  assert (Hpast : past t0 []) by (intros k t' Hin; by apply elem_of_nil in Hin).
  assert (Heq : granted (NewMemoryRateLimiter limit window) ∅ calls = spec_granted limit' window' [] calls).
  { apply (granted_spec (NewMemoryRateLimiter limit window) t0); [|done|done]. intros k c _. by rewrite lookup_empty. }
  split; [done|]. rewrite Heq. change (spec_granted limit' window' [] calls) with ([] ++ spec_granted limit' window' [] calls).
  apply (spec_granted_bound _ _ t0); [done| |done|done]. intros k T. change (0 <= limit'). by apply Z.lt_le_incl.
Qed.

Lemma MemoryRateLimiter_sliding_window_witness :
  granted (NewMemoryRateLimiter 2 10) ∅ [("a", 0); ("a", 1); ("a", 2); ("b", 2); ("a", 10)]
    = [("a", 0); ("a", 1); ("b", 2); ("a", 10)] /\
  window_bound 2 10 (granted (NewMemoryRateLimiter 2 10) ∅ [("a", 0); ("a", 1); ("a", 2); ("b", 2); ("a", 10)]).
Proof.
  destruct (MemoryRateLimiter_sliding_window 2 10 [("a", 0); ("a", 1); ("a", 2); ("b", 2); ("a", 10)] 0) as [H1 H2].
  - simpl. lia.
  - split; [|exact H2]. rewrite H1. reflexivity.
Defined.

(** ** Normalised addresses *)

Lemma lower_idem c : lower (lower c) = lower c.
Proof. destruct c as [[] [] [] [] [] [] [] []]; reflexivity. Qed.

Lemma is_space_lower c : Ascii.is_space (lower c) = Ascii.is_space c.
Proof. destruct c as [[] [] [] [] [] [] [] []]; reflexivity. Qed.

Lemma ToLower_idem s : ToLower (ToLower s) = ToLower s.
Proof. induction s; simpl; [done|]. by rewrite lower_idem, IHs. Qed.

Lemma ToLower_app s1 s2 : ToLower (s1 +:+ s2) = ToLower s1 +:+ ToLower s2.
Proof. induction s1 as [|c s1 IH]; simpl; [done|]. by rewrite IH. Qed.

Lemma TrimLeft_ToLower s : TrimLeft (ToLower s) = ToLower (TrimLeft s).
Proof. induction s; simpl; [done|]. rewrite is_space_lower. by destruct (Ascii.is_space a). Qed.

Lemma str_app_assoc (s1 s2 s3 : string) : (s1 +:+ s2) +:+ s3 = s1 +:+ (s2 +:+ s3).
Proof. symmetry. induction s1 as [|c s1 IH]; [done|]. exact (f_equal (String c) IH). Qed.

Lemma str_app_nil (s : string) : s +:+ "" = s.
Proof. induction s as [|c s IH]; [done|]. exact (f_equal (String c) IH). Qed.

Lemma rev_app_spec s1 s2 : String.rev_app s1 s2 = String.rev_app s1 "" +:+ s2.
Proof.
  revert s2. induction s1 as [|c s1 IH]; intros s2; simpl; [done|].
  rewrite (IH (String c s2)), (IH (String c "")), str_app_assoc. done.
Qed.

Lemma rev_cons c s : String.rev (String c s) = String.rev s +:+ String c "".
Proof. unfold String.rev. simpl. apply rev_app_spec. Qed.

Lemma rev_snoc s c : String.rev (s +:+ String c "") = String c (String.rev s).
Proof.
  induction s as [|d s IH]; [done|].
  change (String.rev (String d (s +:+ String c "")) = String c (String.rev (String d s))).
  by rewrite !rev_cons, IH.
Qed.

Lemma rev_rev s : String.rev (String.rev s) = s.
Proof. induction s as [|c s IH]; [done|]. by rewrite rev_cons, rev_snoc, IH. Qed.

Lemma rev_ToLower s : String.rev (ToLower s) = ToLower (String.rev s).
Proof.
  induction s as [|c s IH]; [done|].
  change (String.rev (String (lower c) (ToLower s)) = ToLower (String.rev (String c s))).
  by rewrite !rev_cons, ToLower_app, IH.
Qed.

Definition left_trimmed (s : string) : Prop := TrimLeft s = s.

Lemma TrimLeft_trimmed s : left_trimmed (TrimLeft s).
Proof. unfold left_trimmed. induction s as [|c s IH]; simpl; [done|]. destruct (Ascii.is_space c) eqn:Hc; [done|]. simpl. by rewrite Hc. Qed.

(** Trimming the right end of a left-trimmed string keeps its first byte. *)
Lemma TrimLeft_snoc s c : Ascii.is_space c = false -> TrimLeft (s +:+ String c "") = TrimLeft s +:+ String c "".
Proof. intros Hc. induction s as [|d s IH]; simpl; [by rewrite Hc|]. by destruct (Ascii.is_space d). Qed.

Lemma trim_right_trimmed s : left_trimmed s -> left_trimmed (String.rev (TrimLeft (String.rev s))).
Proof.
  unfold left_trimmed. destruct s as [|c s]; [done|]. simpl. destruct (Ascii.is_space c) eqn:Hc.
  - intros Heq. exfalso. assert (Hl : (String.length (TrimLeft s) <= String.length s)%nat).
    { clear. induction s as [|d s IH]; simpl; [lia|]. destruct (Ascii.is_space d); simpl; lia. }
    rewrite Heq in Hl. simpl in Hl. lia.
  - intros _. rewrite rev_cons, TrimLeft_snoc, rev_snoc by done. simpl. by rewrite Hc.
Qed.

Lemma TrimSpace_idem s : TrimSpace (TrimSpace s) = TrimSpace s.
Proof.
  unfold TrimSpace. rewrite (trim_right_trimmed _ (TrimLeft_trimmed s)).
  by rewrite rev_rev, (TrimLeft_trimmed (String.rev (TrimLeft s))).
Qed.

Lemma TrimSpace_ToLower s : TrimSpace (ToLower s) = ToLower (TrimSpace s).
Proof. unfold TrimSpace. by rewrite TrimLeft_ToLower, rev_ToLower, TrimLeft_ToLower, rev_ToLower. Qed.

Lemma normalizeEmail_idem s : normalizeEmail (normalizeEmail s) = normalizeEmail s.
Proof. unfold normalizeEmail. by rewrite TrimSpace_ToLower, TrimSpace_idem, ToLower_idem. Qed.

(** ** Accounts *)

Section Facts.
Context `{U : UuidLib} `{J : JwtLib} `{B : BcryptLib}.
Implicit Types (o : oracle) (w : world UserSt) (s : UserSt) (u : User).

(** Rows carry their key, addresses are stored normalised, and no two accounts
    share an address, also up to case and surrounding spaces. *)
Record users_ok s : Prop := MkUsersOk {
  users_keyed : forall id u, us_rows s !! id = Some u -> u_ID u = id;
  users_normal : forall id u, us_rows s !! id = Some u -> normalizeEmail (u_Email u) = u_Email u;
  users_unique : forall id1 u1 id2 u2, us_rows s !! id1 = Some u1 -> us_rows s !! id2 = Some u2 ->
    normalizeEmail (u_Email u1) = normalizeEmail (u_Email u2) -> id1 = id2
}.

Lemma elem_of_users s u : u ∈ users s <-> exists id, us_rows s !! id = Some u.
Proof.
  unfold users. rewrite list_elem_of_fmap. split.
  - intros ([id v] & -> & Hin). apply elem_of_map_to_list in Hin. eauto.
  - intros [id Hid]. exists (id, u). by rewrite elem_of_map_to_list.
Qed.

Lemma email_taken s e : existsb (fun v => bool_decide (u_Email v = e)) (users s) = false ->
  forall id u, us_rows s !! id = Some u -> u_Email u ≠ e.
Proof.
  intros Hex id u Hu Heq. apply not_true_iff_false in Hex. apply Hex, existsb_exists.
  exists u. rewrite <- list_elem_of_In, elem_of_users. split; [eauto|]. by apply bool_decide_eq_true.
Qed.

Lemma insert_user_inv u s r s' : insert_user u s = (r, s') ->
  s' = s \/ (r = inr tt /\ s' = MkUserSt (<[u_ID u := u]> (us_rows s)) (us_hits s) /\
             us_rows s !! u_ID u = None /\ existsb (fun v => bool_decide (u_Email v = u_Email u)) (users s) = false).
Proof.
  unfold insert_user. destruct (negb _); [intros [= <- <-]; by left|].
  destruct (us_rows s !! u_ID u) eqn:Hid; [intros [= <- <-]; by left|].
  destruct (existsb _ (users s)) eqn:Hex; intros [= <- <-]; [by left|right]. done.
Qed.

Lemma insert_user_ok u s : normalizeEmail (u_Email u) = u_Email u -> users_ok s -> users_ok (snd (insert_user u s)).
Proof.
  intros Hn HI. destruct (insert_user u s) as [r s'] eqn:Hrun.
  apply insert_user_inv in Hrun as [->|(_ & -> & Hnone & Hex)]; [done|]. simpl.
  pose proof (email_taken _ _ Hex) as Hnew. destruct HI as [H1 H2 H3]. split; simpl.
  - intros id v [[<- <-]|[_ Hv]]%lookup_insert_Some; [done|by apply H1].
  - intros id v [[<- <-]|[_ Hv]]%lookup_insert_Some; [done|by eapply H2].
  - intros id1 v1 id2 v2 [[<- <-]|[_ Hv1]]%lookup_insert_Some [[<- <-]|[_ Hv2]]%lookup_insert_Some Heq; [done| | |by eapply H3].
    + rewrite Hn, (H2 _ _ Hv2) in Heq. by destruct (Hnew _ _ Hv2).
    + rewrite Hn, (H2 _ _ Hv1) in Heq. by destruct (Hnew _ _ Hv1).
Qed.

Lemma Allow_inv l k o w r w' : Allow l k o w = (r, w') -> exists b, r = inr b /\ us_rows (w_st w') = us_rows (w_st w).
Proof.
  destruct l as [|rl]; simpl; [unfold ret; intros [= <- <-]; eauto|].
  unfold bind, now. simpl. destruct (allow_at rl _ k _) as [b h]. intros [= <- <-]. eauto.
Qed.

Lemma Allow_keeps l k : pres users_ok (Allow l k).
Proof.
  intros o w [H1 H2 H3]. destruct (Allow l k o w) as [r w'] eqn:Hrun.
  apply Allow_inv in Hrun as (b & _ & Hrows). simpl. split; rewrite Hrows; done.
Qed.

Lemma hashPassword_keeps p : pres users_ok (hashPassword p).
Proof. by intros o w HI. Qed.

Lemma Register_keeps l email password name : pres users_ok (Register l email password name).
Proof.
  unfold Register. apply pres_bind; [apply Allow_keeps|intros ok]. destruct (negb ok); [apply pres_throw|].
  apply pres_bind; [apply hashPassword_keeps|intros hash]. apply pres_bind; [apply pres_new_uuid|intros id].
  apply pres_bind; [apply pres_now|intros t]. apply pres_bind; [|intros; apply pres_ret].
  apply pres_wrap_err, pres_wrap_err, pres_io. intros s. apply insert_user_ok. apply normalizeEmail_idem.
Qed.

Lemma query_user_keeps pre find : pres users_ok (query_user pre find).
Proof. unfold query_user. auto with go_pres. Qed.

Hint Resolve Allow_keeps Register_keeps query_user_keeps : go_pres.

Lemma Login_keeps l secret email password : pres users_ok (Login l secret email password).
Proof. unfold Login, UserRepo_GetByEmail, issueToken. auto 15 with go_pres. Qed.

Hint Resolve Login_keeps : go_pres.

(** One call of the service's API. *)
Inductive user_call :=
| CallRegister (email password name : string)
| CallLogin (email password : string)
| CallGetUser (ctx : Ctx) (user_id : string).

Definition user_serve (l : RateLimiter) (secret : string) (c : user_call) : M UserSt unit :=
  match c with
  | CallRegister e p n => do* attempt (handler_Register l e p n) in ret tt
  | CallLogin e p => do* attempt (handler_Login l secret e p) in ret tt
  | CallGetUser ctx id => do* attempt (handler_GetUser ctx id) in ret tt
  end.

Fixpoint user_serve_all (l : RateLimiter) (secret : string) (cs : list user_call) : M UserSt unit :=
  match cs with
  | [] => ret tt
  | c :: cs' => do* user_serve l secret c in user_serve_all l secret cs'
  end.

Lemma user_serve_keeps l secret c : pres users_ok (user_serve l secret c).
Proof.
  destruct c; simpl; unfold handler_Register, handler_Login, handler_GetUser, GetUser, UserRepo_GetByID;
    auto 12 with go_pres.
Qed.

(** C34. Every history of calls, whatever fails, keeps the accounts unique up to
    case and surrounding spaces of their address, stored normalised and under
    their own id. *)
Theorem accounts_are_unique l secret cs o w :
  users_ok (w_st w) -> users_ok (w_st (snd (user_serve_all l secret cs o w))).
Proof.
  revert o w. change (pres users_ok (user_serve_all l secret cs)).
  induction cs; simpl; auto using user_serve_keeps with go_pres.
Qed.

(** ** Login *)

Lemma query_user_ok pre find o w u w' :
  query_user pre find o w = (inr u, w') -> find (w_st w) = Some u /\ w_st w' = w_st w.
Proof.
  unfold query_user. intros H. apply bind_ok in H as (r & w1 & Hr & H). apply wrap_err_ok in Hr.
  apply read_inv in Hr as [Hw1 Hf]. specialize (Hf r eq_refl). injection Hf as Hf.
  destruct r as [v|]; [|done]. unfold ret in H. simplify_eq. by rewrite Hw1.
Qed.

Lemma find_by_email s email u :
  List.find (fun u => bool_decide (u_Email u = email)) (users s) = Some u ->
  u_Email u = email /\ exists id, us_rows s !! id = Some u.
Proof.
  intros [Hin Heq%bool_decide_eq_true]%find_some. split; [done|]. apply elem_of_users. by apply list_elem_of_In.
Qed.

(** Login returns a token only for an existing account whose stored hash
    matches the password; the token is signed with the service's secret and
    carries the account's id and role. *)
Theorem Login_sound l secret email password o w tok w' :
  Login l secret email password o w = (inr tok, w') ->
  exists id u jti t, us_rows (w_st w) !! id = Some u /\ u_Email u = normalizeEmail email /\
    bcrypt_Compare (u_PasswordHash u) password = true /\
    jwt_SignedString "HS256" (user_claims u jti t) secret = inr tok.
Proof.
  unfold Login. intros H. apply bind_ok in H as (ok & w1 & Hal & H). apply Allow_inv in Hal as (b & _ & Hrows).
  destruct (negb ok); [done|]. apply bind_ok in H as (r & w2 & Hr & H). unfold attempt in Hr.
  destruct (UserRepo_GetByEmail (normalizeEmail email) o w1) as [r' w3] eqn:Hq. injection Hr as <- <-.
  destruct r' as [e|u]; [by destruct (Is e ErrNotFound)|].
  apply query_user_ok in Hq as [Hfind _]. apply find_by_email in Hfind as [Hmail [id Hid]].
  unfold verifyPassword in H. destruct (bcrypt_Compare (u_PasswordHash u) password) eqn:Hc; simpl in H; [|done].
  unfold issueToken in H. apply bind_ok in H as (t & w4 & _ & H). apply bind_ok in H as (jti & w5 & _ & H).
  destruct (jwt_SignedString _ _ _) eqn:Hs; [done|]. unfold ret in H. simplify_eq.
  exists id, u, jti, t. by rewrite <- Hrows.
Qed.

(** The account an address belongs to. *)
Definition account s (email : string) : option User :=
  List.find (fun u => bool_decide (u_Email u = normalizeEmail email)) (users s).

Lemma GetByEmail_calm email o w :
  no_faults o ->
  UserRepo_GetByEmail email o w =
  (match List.find (fun u => bool_decide (u_Email u = email)) (users (w_st w)) with
   | Some u => inr u
   | None => inl (wrapS ErrNotFound "user")
   end, next w).
Proof.
  intros Ho. unfold UserRepo_GetByEmail, query_user, bind, wrap_err. go_step Ho. simpl.
  by destruct (List.find _ (users (w_st w))).
Qed.

(** Without failures and with a request the limiter grants, Login answers an
    unknown address and a wrong password with the same Unauthenticated status
    and the same effect, so it does not tell which accounts exist; otherwise it
    issues a token for the account. *)
Theorem Login_hides_accounts l secret email password o w w1 :
  no_faults o -> Allow l ("login:" +:+ normalizeEmail email) o w = (inr true, w1) ->
  handler_Login l secret email password o w =
  match account (w_st w) email with
  | Some u =>
      if bcrypt_Compare (u_PasswordHash u) password
      then wrap_err ToStatus (issueToken secret u) o (next w1)
      else (inl (EStatus Unauthenticated "invalid credentials"), next w1)
  | None => (inl (EStatus Unauthenticated "invalid credentials"), next w1)
  end.
Proof.
  intros Ho Hal. pose proof (Allow_inv _ _ _ _ _ _ Hal) as (_ & _ & Hrows).
  assert (Hacc : account (w_st w) email = account (w_st w1) email) by (unfold account, users; by rewrite Hrows).
  rewrite Hacc. unfold handler_Login, Login, wrap_err, bind. rewrite Hal. simpl. unfold attempt.
  rewrite (GetByEmail_calm _ _ _ Ho). fold (account (w_st w1) email).
  destruct (account (w_st w1) email) as [u|]; simpl; [|done].
  unfold verifyPassword. by destruct (bcrypt_Compare (u_PasswordHash u) password).
Qed.

(** ** Registration, then login *)

Lemma find_inserted s u email :
  us_rows s !! u_ID u = None -> u_Email u = normalizeEmail email ->
  existsb (fun v => bool_decide (u_Email v = u_Email u)) (users s) = false ->
  account (MkUserSt (<[u_ID u := u]> (us_rows s)) (us_hits s)) email = Some u.
Proof.
  intros Hnone Hmail Hex. unfold account. destruct (List.find _ _) as [v|] eqn:Hfind.
  - apply find_by_email in Hfind as [Hv [id Hid]]. simpl in Hid.
    apply lookup_insert_Some in Hid as [[_ <-]|[_ Hid]]; [done|].
    destruct (email_taken _ _ Hex id v Hid). congruence.
  - exfalso. assert (Hin : In u (users (MkUserSt (<[u_ID u := u]> (us_rows s)) (us_hits s)))).
    { apply list_elem_of_In, elem_of_users. exists (u_ID u). apply lookup_insert_eq. }
    pose proof (find_none _ _ Hfind u Hin) as Hf. simpl in Hf. apply bool_decide_eq_false in Hf. done.
Qed.

Lemma Register_ok `{!BcryptLaws} l email password name o w id w' :
  Register l email password name o w = (inr id, w') ->
  exists u, account (w_st w') email = Some u /\ u_ID u = id /\ u_Role u = RoleUser /\
    (forall e, normalizeEmail e = normalizeEmail email -> account (w_st w') e = Some u) /\
    bcrypt_Compare (u_PasswordHash u) password = true.
Proof.
  unfold Register. intros Hrun. apply bind_ok in Hrun as (ok & w1 & Hal & Hrun). destruct (negb ok); [done|].
  apply bind_ok in Hrun as (hash & w2 & Hh & Hrun). apply bind_ok in Hrun as (id' & w3 & _ & Hrun).
  apply bind_ok in Hrun as (t & w4 & _ & Hrun). apply bind_ok in Hrun as (x & w5 & Hc & Hrun). unfold ret in Hrun. simplify_eq.
  apply wrap_err_ok, wrap_err_ok, io_ok in Hc.
  assert (Hb : bcrypt_Compare hash password = true).
  { unfold hashPassword in Hh. destruct (bcrypt_Generate (w_tick w1) password) eqn:Hg; [done|]. simplify_eq. by eapply bcrypt_match. }
  set (u := MkUser id' (normalizeEmail email) hash name RoleUser t) in *.
  pose proof Hc as Hcase. apply insert_user_inv in Hcase as [Hs|(_ & Hs & Hnone & Hex)].
  - exfalso. unfold insert_user in Hc. destruct (negb _); [done|]. destruct (us_rows (w_st w4) !! u_ID u) eqn:Hid; [done|].
    destruct (existsb _ _); [done|]. injection Hc as _ Hc. rewrite <- Hc in Hs. rewrite <- Hs in Hid. simpl in Hid.
    by rewrite lookup_insert_eq in Hid.
  - exists u. rewrite Hs. split_and!; [by apply find_inserted|done|done| |done].
    intros e He. apply find_inserted; [done| |done]. by rewrite He.
Qed.

(** How many of the hits of a key are younger than a minute. *)
Definition last_minute (t : Z) (hits : list Z) : Z := Z.of_nat (length (filter (fun t' => t - 60 * 10 ^ 9 < t') hits)).

(** The deployed limiter grants when fewer than five hits are that young. *)
Lemma user_limiter_Allow key o w :
  exists w1, Allow user_limiter key o w =
      (inr (last_minute (o_now o (w_tick w)) (default [] (us_hits (w_st w) !! key)) <? 5), w1) /\
    w_tick w1 = S (w_tick w) /\ us_rows (w_st w1) = us_rows (w_st w).
Proof.
  unfold Allow, user_limiter, bind, now. cbn [w_tick w_st next].
  unfold allow_at, last_minute. rewrite recent_hits_filter. change (rl_window _) with (60 * 10 ^ 9). change (rl_limit _) with 5.
  match goal with |- context [5 <=? ?n] => destruct (Z.leb_spec 5 n), (Z.ltb_spec n 5) end; try lia; (eexists; split; [reflexivity|done]).
Qed.

(** A granted login of an account with its password. *)
Lemma login_issues `{!UuidLaws} `{!JwtLaws} secret u o w r w2 :
  u_Role u = RoleUser ->
  (forall n m, (n <= m)%nat -> o_now o n <= o_now o m <= o_now o n + 24 * hour - second) ->
  issueToken secret u o w = (r, w2) ->
  (exists e, r = inl (wrapf "sign token" e)) \/
  (exists tok w3, r = inr tok /\
     Verify (NewJWTVerifier secret []) tok o w2 = (inr (MkIdentity (uuid_String (u_ID u)) RoleUser ""), w3)).
Proof.
  destruct w as [n st]. intros Hrole Hclock Hlog. unfold issueToken, bind, now, new_uuid in Hlog. simpl in Hlog.
  destruct (jwt_SignedString _ _ _) as [e|tok] eqn:Hs; unfold throw, ret in Hlog; simplify_eq; [left; eauto|right].
  set (t := o_now o n) in *.
  assert (Hc : forall m, (n <= m)%nat -> NewNumericDate t <= o_now o m < NewNumericDate (t + 24 * hour)).
  { intros m Hm. specialize (Hclock _ m Hm). fold t in Hclock. pose proof (NewNumericDate_le t).
    pose proof (NewNumericDate_gt (t + 24 * hour)). lia. }
  exists tok. eexists. split; [done|]. unfold Verify, parseJWT, bind, now; simpl.
  rewrite (jwt_sign_parse _ _ _ _ _ _ Hs); [|done|].
  2:{ unfold time_valid, user_claims; simpl. specialize (Hc (S (S n)) ltac:(lia)). apply andb_true_intro. split; lia. }
  unfold user_claims; simpl. rewrite Hrole.
  rewrite !(bool_decide_eq_false_2 (uuid_String _ = "")) by apply uuid_String_nonempty. simpl.
  assert (Hc1 := Hc (S (S (S n))) ltac:(lia)). assert (Hc2 := Hc (S (S (S (S n)))) ltac:(lia)).
  destruct (Z.ltb_spec (o_now o (S (S (S n)))) (NewNumericDate t)); [lia|].
  simpl. destruct (Z.ltb_spec (NewNumericDate (t + 24 * hour)) (o_now o (S (S (S (S n)))))); [lia|].
  reflexivity.
Qed.

(** C29. Registration and login round trip, with the rate limiter of the deployed service.
    An account just registered logs in with its password under any spelling of the
    address that differs in case or surrounding spaces, and the token verifies as that
    account with the user role for 24 hours less a second; unless signing the token
    fails, or five logins for the address were granted within the last minute: then
    the login is refused as rate limited. *)
Theorem register_login_roundtrip `{!UuidLaws} `{!JwtLaws} `{!BcryptLaws} secret email email' password name o w id w1 r w2 :
  no_faults o -> normalizeEmail email' = normalizeEmail email ->
  (forall n m, (n <= m)%nat -> o_now o n <= o_now o m <= o_now o n + 24 * hour - second) ->
  Register user_limiter email password name o w = (inr id, w1) ->
  Login user_limiter secret email' password o w1 = (r, w2) ->
  if last_minute (o_now o (w_tick w1)) (default [] (us_hits (w_st w1) !! ("login:" +:+ normalizeEmail email))) <? 5
  then (exists e, r = inl (wrapf "sign token" e)) \/
       (exists tok w3, r = inr tok /\
          Verify (NewJWTVerifier secret []) tok o w2 = (inr (MkIdentity (uuid_String id) RoleUser ""), w3))
  else r = inl rate_limited.
Proof.
  intros Ho Hmail Hclock Hreg Hlog. apply Register_ok in Hreg as (u & _ & <- & Hrole & Hacc & Hb).
  specialize (Hacc _ Hmail). unfold Login in Hlog. rewrite Hmail in Hlog. unfold bind at 1 in Hlog.
  destruct (user_limiter_Allow ("login:" +:+ normalizeEmail email) o w1) as (wa & Hal & Htick & Hrows). rewrite Hal in Hlog.
  destruct (_ <? 5); simpl in Hlog; [|unfold throw in Hlog; by injection Hlog as <- _].
  unfold bind, attempt in Hlog. rewrite (GetByEmail_calm _ _ _ Ho) in Hlog.
  assert (Hacc' : account (w_st wa) email' = Some u) by (unfold account, users in *; by rewrite Hrows).
  unfold account in Hacc'. rewrite Hmail in Hacc'. rewrite Hacc' in Hlog. simpl in Hlog.
  unfold verifyPassword in Hlog. rewrite Hb in Hlog. simpl in Hlog. by eapply login_issues.
Qed.

(** ** Profiles *)

(** A profile is shown only to an administrator or, when the request names no
    user, to its owner. *)
Theorem profile_needs_owner_or_admin ctx user_id o w p w' :
  users_ok (w_st w) -> handler_GetUser ctx user_id o w = (inr p, w') ->
  fst (GetRole ctx) = RoleAdmin \/
  (user_id = "" /\ exists own id, GetUserID ctx = Some own /\ uuid_Parse own = Some id /\ up_UserId p = uuid_String id).
Proof.
  intros HI Hrun. unfold handler_GetUser in Hrun. destruct (target_user ctx user_id) as [e|target] eqn:Ht; [done|].
  destruct (uuid_Parse target) as [id|] eqn:Hp; [|done].
  apply bind_ok in Hrun as (u & w1 & Hu & Hrun). apply wrap_err_ok, query_user_ok in Hu as [Hu _]. unfold ret in Hrun. simplify_eq.
  pose proof (users_keyed _ HI _ _ Hu) as Hid.
  unfold target_user in Ht. destruct (GetUserID ctx) as [[|c own]|]; [done| |done].
  case_bool_decide as Hempty; [right|]. 2:{ case_bool_decide; [by left|done]. }
  split; [done|]. simplify_eq. eauto 10.
Qed.
End Facts.

(** ** Concrete runs *)

Section Samples.
Local Existing Instance uuid_text.
Local Existing Instance uuid_text_laws.

(** A bcrypt that keeps the password in the hash, enough for the law. *)
Definition bcrypt_plain : BcryptLib := {|
  bcrypt_Generate n p := if Nat.ltb 72 (String.length p) then inl (EPlain "bcrypt: password length exceeds 72 bytes") else inr ("$" +:+ p);
  bcrypt_Compare h p := bool_decide (h = "$" +:+ p)
|}.

Lemma bcrypt_plain_laws : @BcryptLaws bcrypt_plain.
Proof. constructor. intros n p h. simpl. destruct (Nat.ltb 72 (String.length p)); [done|]. intros [= <-]. by apply bool_decide_eq_true. Qed.

Local Existing Instance bcrypt_plain.

Definition ann_id : UUID := uuid_sample 1.
Definition ann : User := MkUser ann_id "ann@example.com" "$password" "Ann" RoleUser 0.
Definition ann_claims : CustomClaims := user_claims ann (uuid_sample 6) 0.
Definition jwt_ann : JwtLib := jwt_single ann_claims "secret".
Local Existing Instance jwt_ann.

Definition no_users : UserSt := MkUserSt ∅ ∅.
Definition with_ann : UserSt := MkUserSt {[ ann_id := ann ]} ∅.

Lemma no_users_ok : users_ok no_users.
Proof. split; simpl; intros; by rewrite lookup_empty in *. Qed.

Lemma with_ann_ok : users_ok with_ann.
Proof.
  split; simpl.
  - intros id u [<- <-]%lookup_singleton_Some. done.
  - intros id u [<- <-]%lookup_singleton_Some. vm_compute. done.
  - intros id1 u1 id2 u2 [<- _]%lookup_singleton_Some [<- _]%lookup_singleton_Some _. done.
Qed.

Lemma accounts_are_unique_witness :
  users_ok (w_st (snd (user_serve_all NoopLimiter "secret"
    [CallRegister " Ann@Example.com" "password" "Ann"; CallRegister "ann@example.com" "other-pass" "Imp"]
    calm (World 0 no_users)))).
Proof. apply accounts_are_unique. exact no_users_ok. Defined.

Lemma Login_sound_witness : exists id u jti t,
  us_rows with_ann !! id = Some u /\ u_Email u = normalizeEmail "ANN@example.com" /\
  bcrypt_Compare (u_PasswordHash u) "password" = true /\
  jwt_SignedString "HS256" (user_claims u jti t) "secret" = inr "h.p.s".
Proof.
  apply (Login_sound NoopLimiter "secret" "ANN@example.com" "password" calm (World 4 with_ann) "h.p.s" (World 7 with_ann)).
  reflexivity.
Defined.

Lemma Login_hides_accounts_witness :
  handler_Login NoopLimiter "secret" "bob@example.com" "password" calm (World 4 with_ann)
    = (inl (EStatus Unauthenticated "invalid credentials"), World 5 with_ann) /\
  handler_Login NoopLimiter "secret" "ann@example.com" "wrong-one" calm (World 4 with_ann)
    = (inl (EStatus Unauthenticated "invalid credentials"), World 5 with_ann).
Proof.
  split.
  - rewrite (Login_hides_accounts NoopLimiter "secret" "bob@example.com" "password" calm (World 4 with_ann) (World 4 with_ann) calm_no_faults eq_refl).
    reflexivity.
  - rewrite (Login_hides_accounts NoopLimiter "secret" "ann@example.com" "wrong-one" calm (World 4 with_ann) (World 4 with_ann) calm_no_faults eq_refl).
    reflexivity.
Defined.

(** The account that the deployed service registers first, its token, and the tables
    after the registration and after the login. *)
Definition first : User := MkUser (uuid_sample 2) "ann@example.com" "$password" "Ann" RoleUser 0.
Definition jwt_first : JwtLib := jwt_single (user_claims first (uuid_sample 8) 0) "secret".
Definition registered : UserSt := MkUserSt {[ u_ID first := first ]} {[ "register:ann@example.com" := [0] ]}.
Definition logged_in : UserSt :=
  MkUserSt {[ u_ID first := first ]} {[ "login:ann@example.com" := [0]; "register:ann@example.com" := [0] ]}.

Lemma register_login_roundtrip_witness :
  (exists e, (inr "h.p.s" : error + string) = inl (wrapf "sign token" e)) \/
  (exists tok w3, (inr "h.p.s" : error + string) = inr tok /\
     @Verify uuid_text jwt_first _ (NewJWTVerifier "secret" []) tok calm (World 9 logged_in)
       = (inr (MkIdentity (uuid_String (u_ID first)) RoleUser ""), w3)).
Proof.
  apply (@register_login_roundtrip uuid_text jwt_first bcrypt_plain uuid_text_laws (jwt_single_laws _ _) bcrypt_plain_laws
    "secret" "ann@example.com " "ANN@example.com" "password" "Ann" calm (World 0 no_users) (u_ID first) (World 5 registered)
    (inr "h.p.s") (World 9 logged_in)).
  - exact calm_no_faults.
  - reflexivity.
  - intros n m _. simpl. unfold hour, second. lia.
  - reflexivity.
  - reflexivity.
Defined.

Definition ann_ctx : Ctx := WithIdentity Background (MkIdentity (uuid_String ann_id) RoleUser "").

Lemma profile_needs_owner_or_admin_witness :
  fst (GetRole ann_ctx) = RoleAdmin \/
  ("" = "" /\ exists own id, GetUserID ann_ctx = Some own /\ uuid_Parse own = Some id /\
     up_UserId (MkUserProto (uuid_String ann_id) "ann@example.com" "Ann" "1970-01-01T00:00:00Z") = uuid_String id).
Proof.
  apply (profile_needs_owner_or_admin ann_ctx "" calm (World 0 with_ann)
    (MkUserProto (uuid_String ann_id) "ann@example.com" "Ann" "1970-01-01T00:00:00Z") (World 1 with_ann)).
  - exact with_ann_ok.
  - reflexivity.
Defined.
End Samples.
