(* ===== verification/Kafka.v ===== *)
(** * pkg/kafka: the consumer

    The consumer configuration, the processing of one message with retries and
    dead letters, and the loop over a claim.  The processor is a parameter over
    its own state [P].  [MarkMessage] only records an offset: the consumer group
    later commits the highest marked offset of the partition, and a restarted
    consumer resumes there. *)
From S2P Require Import Prelude Errors Effects.

(** ** config.go *)

Definition OffsetNewest : Z := -1.
Definition OffsetOldest : Z := -2.

Record Config := MkConfig {
  cf_GroupID : string;
  cf_Topics : list string;
  cf_DLQTopic : string;
  cf_RebalanceStrategy : string;
  cf_InitialOffset : Z;
  cf_MaxRetries : Z;
  cf_InitialBackoff : Z;
  cf_ProcessTimeout : Z;
  cf_IsPermanent : option (error -> bool)
}.

Definition setDefaults (c : Config) : Config :=
  MkConfig (cf_GroupID c) (cf_Topics c) (cf_DLQTopic c)
    (if bool_decide (cf_RebalanceStrategy c = "") then "roundrobin" else cf_RebalanceStrategy c)
    (if cf_InitialOffset c =? 0 then OffsetOldest else cf_InitialOffset c)
    (if cf_MaxRetries c <? 0 then 0 else cf_MaxRetries c)
    (if cf_InitialBackoff c <=? 0 then 50 * 10 ^ 6 else cf_InitialBackoff c)
    (if cf_ProcessTimeout c <=? 0 then 10 * 10 ^ 9 else cf_ProcessTimeout c)
    (match cf_IsPermanent c with None => Some (fun _ => false) | Some f => Some f end).

Definition IsPermanent (c : Config) (e : error) : bool :=
  match cf_IsPermanent c with Some f => f e | None => false end.

Inductive BalanceStrategy := RoundRobin | Range | Sticky.

Definition saramaConfig (c : Config) : error + (BalanceStrategy * Z) :=
  let strategy :=
    if bool_decide (cf_RebalanceStrategy c = "roundrobin") then Some RoundRobin
    else if bool_decide (cf_RebalanceStrategy c = "range") then Some Range
    else if bool_decide (cf_RebalanceStrategy c = "sticky") then Some Sticky
    else None in
  match strategy with
  | Some b => inr (b, cf_InitialOffset c)
  | None => inl (EPlain ("unsupported rebalance strategy: " +:+ String (Ascii.ascii_of_nat 34) (cf_RebalanceStrategy c +:+ String (Ascii.ascii_of_nat 34) "")))
  end.

(** ** Messages and dead letters *)

Record Message := MkMessage {
  m_Topic : string; m_Partition : Z; m_Offset : Z; m_Key : string; m_Value : string
}.

Record DLQEnvelope := MkEnvelope {
  en_OriginalTopic : string; en_Partition : Z; en_Offset : Z; en_Key : string; en_Value : string;
  en_Error : string; en_Attempts : Z; en_Timestamp : Z
}.

Section Consumer.
Context `{U : UuidLib} {P : Type}.

(** Marked messages, dead letters published (topic, key, envelope), the delays
    waited for, and the processor's state. *)
Record ConsSt := MkConsSt {
  k_marked : list Message;
  k_dlq : list (string * string * DLQEnvelope);
  k_waits : list Z;
  k_ext : P
}.

Definition ext_lens : lens ConsSt P :=
  Lens k_ext (fun e s => MkConsSt (k_marked s) (k_dlq s) (k_waits s) e).

(** [dlq]: whether a DLQ producer is attached. *)
Context (cfg : Config) (dlq : bool) (Process : Message -> M P unit).

Definition MarkMessage (msg : Message) : M ConsSt unit :=
  fun _ w => (inr tt, World (w_tick w) (let s := w_st w in MkConsSt (k_marked s ++ [msg]) (k_dlq s) (k_waits s) (k_ext s))).

Definition wait (d : Z) : M ConsSt unit :=
  fun _ w => (inr tt, World (w_tick w) (let s := w_st w in MkConsSt (k_marked s) (k_dlq s) (k_waits s ++ [d]) (k_ext s))).

(** [dlq.go]: an error of the send is logged. *)
Definition sendToDLQ (msg : Message) (err : error) (attempts : Z) : M ConsSt unit :=
  if negb dlq || bool_decide (cf_DLQTopic cfg = "") then ret tt
  else
    let* t := now in
    let envelope := MkEnvelope (m_Topic msg) (m_Partition msg) (m_Offset msg) (m_Key msg) (m_Value msg)
                      (Error err) attempts t in
    do* attempt (io (fun s =>
      (inr tt, MkConsSt (k_marked s) (k_dlq s ++ [(cf_DLQTopic cfg, m_Key msg, envelope)]) (k_waits s) (k_ext s)))) in
    ret tt.

(** How the retry loop ends: the message was processed, or it failed with an
    error after a number of attempts. *)
Inductive loop_end := Processed | Failed (err : error) (attempts : Z).

(** The loop [for attempts = 0; attempts <= MaxRetries; attempts++]; [n] is the
    number of iterations left, and [throw] is [return ctx.Err()]. *)
Fixpoint retry_loop (n : nat) (attempts backoff : Z) (last : error) (msg : Message) : M ConsSt loop_end :=
  match n with
  | O => ret (Failed last attempts)
  | S n' =>
      let* r := attempt (zoom ext_lens (Process msg)) in
      match r with
      | inr _ => do* MarkMessage msg in ret Processed
      | inl err =>
          if IsPermanent cfg err then ret (Failed err attempts)
          else if attempts <? cf_MaxRetries cfg then
            let* d := ctx_done in
            match d with
            | Some e => throw e
            | None => do* wait backoff in retry_loop n' (attempts + 1) (int64 (backoff * 2)) err msg
            end
          else retry_loop n' (attempts + 1) backoff err msg
      end
  end.

(** The iterations of the loop when MaxRetries is not negative. *)
Definition iterations : nat := S (Z.to_nat (cf_MaxRetries cfg)).

Definition process (msg : Message) : M ConsSt unit :=
  let* r := retry_loop iterations 0 (cf_InitialBackoff cfg) (EPlain "") msg in
  match r with
  | Processed => ret tt
  | Failed err attempts =>
      if IsPermanent cfg err then
        do* sendToDLQ msg err attempts in MarkMessage msg
      else if cf_MaxRetries cfg <? attempts then
        do* sendToDLQ msg err attempts in
        if bool_decide (cf_DLQTopic cfg = "") then ret tt else MarkMessage msg
      else throw err
  end.

(** ConsumeClaim: an error of [process] is logged and the loop goes on. *)
Fixpoint ConsumeClaim (msgs : list Message) : M ConsSt unit :=
  match msgs with
  | [] => ret tt
  | msg :: msgs' => do* attempt (process msg) in ConsumeClaim msgs'
  end.

(** The offset the group resumes from after committing the marks: one past the
    highest marked offset. *)
Definition resume_offset (start : Z) (s : ConsSt) : Z :=
  foldr (fun m acc => Z.max (m_Offset m + 1) acc) start (k_marked s).
End Consumer.
Arguments ConsSt : clear implicits.
