(* ===== verification/KafkaFacts.v ===== *)
(** * pkg/kafka: theorems

    What happens to one message under every failure pattern, that a claim is
    consumed completely when nothing but the processor fails, and the two ways
    in which a message can be lost. *)
From S2P Require Import Prelude Errors Effects Auth Kafka.

Section Facts.
Context `{U : UuidLib} {P : Type}.
Context (cfg : Config) (dlq : bool) (Process : Message -> M P unit).
Context (Hretries : 0 <= cf_MaxRetries cfg).
Implicit Types (o : oracle) (w : world (ConsSt P)) (s : ConsSt P) (msg : Message).

Local Abbreviation process := (process cfg dlq Process).
Local Abbreviation retry_loop := (retry_loop cfg Process).

(** The processor accepted the message in one of its calls. *)
Definition accepted o msg : Prop := exists v1 v2 : world P, Process msg o v1 = (inr tt, v2).

(** The delays: the initial one, doubled each time in 64-bit arithmetic. *)
Fixpoint delays (n : nat) (b : Z) : list Z :=
  match n with O => [] | S n' => b :: delays n' (int64 (b * 2)) end.

Lemma zoom_ext (m : M P unit) o w r w' :
  zoom ext_lens m o w = (r, w') ->
  (exists v1 v2 : world P, m o v1 = (r, v2)) /\ k_marked (w_st w') = k_marked (w_st w) /\
  k_dlq (w_st w') = k_dlq (w_st w) /\ k_waits (w_st w') = k_waits (w_st w).
Proof. unfold zoom. destruct (m o _) as [r1 w1] eqn:Hm. intros [= <- <-]. simpl. split; [eauto|done]. Qed.

(** [tries o msg b w es w']: from [w] on the processor is called once for each error of
    [es] and refuses the message with it; none of them is permanent, the context is
    still alive after each, and the consumer waits, first for [b] and then twice as long
    every time. *)
Inductive tries o msg : Z -> world (ConsSt P) -> list error -> world (ConsSt P) -> Prop :=
| tries_none b w : tries o msg b w [] w
| tries_more b w e w1 es w' :
    zoom ext_lens (Process msg) o w = (inl e, w1) -> IsPermanent cfg e = false -> o_done o (w_tick w1) = None ->
    tries o msg (int64 (b * 2)) (snd (wait b o (next w1))) es w' -> tries o msg b w (e :: es) w'.

Lemma tries_same o msg b w es w' :
  tries o msg b w es w' ->
  k_marked (w_st w') = k_marked (w_st w) /\ k_dlq (w_st w') = k_dlq (w_st w) /\ k_waits (w_st w') = k_waits (w_st w) ++ delays (length es) b.
Proof.
  induction 1 as [b w|b w e w1 es w' Hz _ _ _ (Hm & Hd & Hw)]; [by rewrite app_nil_r|].
  apply zoom_ext in Hz as (_ & Hm1 & Hd1 & Hw1). simpl in *. split_and!; [congruence|congruence|]. by rewrite Hw, Hw1, <- app_assoc.
Qed.

(** How the loop goes on from its last call of the processor. *)
Definition loop_ends o msg (a : Z) (last : error + unit) w2 (r : error + loop_end) w' : Prop :=
  match last with
  | inr _ => r = inr Processed /\ w' = snd (MarkMessage msg o w2)
  | inl e =>
      if IsPermanent cfg e then r = inr (Failed e a) /\ w' = w2
      else if a =? cf_MaxRetries cfg then r = inr (Failed e (a + 1)) /\ w' = w2
      else exists ended, o_done o (w_tick w2) = Some ended /\ r = inl ended /\ w' = next w2
  end.

Definition loop_runs o msg (n : nat) (a b : Z) w (r : error + loop_end) w' : Prop :=
  exists es w1 last w2, tries o msg b w es w1 /\ (length es <= n)%nat /\ zoom ext_lens (Process msg) o w1 = (last, w2) /\
    loop_ends o msg (a + Z.of_nat (length es)) last w2 r w'.

Lemma loop_ends_here o msg n a b w last w1 r w' :
  zoom ext_lens (Process msg) o w = (last, w1) -> loop_ends o msg a last w1 r w' -> loop_runs o msg n a b w r w'.
Proof. intros Hl He. exists [], w, last, w1. rewrite Z.add_0_r. split_and!; [apply tries_none|simpl; lia|done|done]. Qed.

Lemma retry_loop_S n a b last msg :
  retry_loop (S n) a b last msg =
    (let* r := attempt (zoom ext_lens (Process msg)) in
     match r with
     | inr _ => do* MarkMessage msg in ret Processed
     | inl err =>
         if IsPermanent cfg err then ret (Failed err a)
         else if a <? cf_MaxRetries cfg then
           let* d := ctx_done in
           match d with Some e => throw e | None => do* wait b in retry_loop n (a + 1) (int64 (b * 2)) err msg end
         else retry_loop n (a + 1) b err msg
     end).
Proof. reflexivity. Qed.

Lemma retry_loop_runs o msg n a b err w r w' :
  a + Z.of_nat n = cf_MaxRetries cfg -> retry_loop (S n) a b err msg o w = (r, w') -> loop_runs o msg n a b w r w'.
Proof.
  revert a b err w. induction n as [|n IH]; intros a b err w Hn Hrun; rewrite retry_loop_S in Hrun; unfold bind at 1, attempt in Hrun;
    destruct (zoom ext_lens (Process msg) o w) as [[e|[]] w1] eqn:Hz.
  2,4: apply (loop_ends_here _ _ _ _ _ _ _ _ _ _ Hz); unfold bind, MarkMessage, ret in Hrun; simplify_eq; done.
  all: destruct (IsPermanent cfg e) eqn:Hperm;
    [apply (loop_ends_here _ _ _ _ _ _ _ _ _ _ Hz); unfold ret in Hrun; simplify_eq; simpl; by rewrite Hperm|].
  - destruct (Z.ltb_spec a (cf_MaxRetries cfg)); [lia|]. apply (loop_ends_here _ _ _ _ _ _ _ _ _ _ Hz). simpl in Hrun. unfold ret in Hrun. simplify_eq. simpl.
    rewrite Hperm. destruct (Z.eqb_spec a (cf_MaxRetries cfg)); [done|lia].
  - destruct (Z.ltb_spec a (cf_MaxRetries cfg)); [|lia]. unfold bind at 1, ctx_done in Hrun.
    destruct (o_done o (w_tick w1)) as [ended|] eqn:Hdone.
    + apply (loop_ends_here _ _ _ _ _ _ _ _ _ _ Hz). unfold throw in Hrun. simplify_eq. simpl. rewrite Hperm.
      destruct (Z.eqb_spec a (cf_MaxRetries cfg)); [lia|]. by exists ended.
    + unfold bind in Hrun. destruct (wait b o (next w1)) as [[e'|[]] w2] eqn:Hw; [done|].
      apply IH in Hrun as (es & w3 & last & w4 & Ht & Hlen & Hz4 & He); [|lia].
      exists (e :: es), w3, last, w4. split_and!; [|simpl; lia|done|].
      * apply (tries_more _ _ _ _ _ w1); [done..|]. by rewrite Hw.
      * simpl length. by replace (a + Z.of_nat (S (length es))) with (a + 1 + Z.of_nat (length es)) by lia.
Qed.

(** The dead letter of a message. *)
Definition envelope_of msg (e : error) (a t : Z) : DLQEnvelope :=
  MkEnvelope (m_Topic msg) (m_Partition msg) (m_Offset msg) (m_Key msg) (m_Value msg) (Error e) a t.

(** What a send to the DLQ from [w] publishes: the dead letter, when a producer and a
    topic are there and the send is not lost on its way to the broker. *)
Definition letters o w msg (e : error) (a : Z) : list (string * string * DLQEnvelope) :=
  if dlq && negb (bool_decide (cf_DLQTopic cfg = "")) then
    match o_fault o (S (w_tick w)) with
    | FBefore _ => []
    | _ => [(cf_DLQTopic cfg, m_Key msg, envelope_of msg e a (o_now o (w_tick w)))]
    end
  else [].

Lemma sendToDLQ_spec msg e a o w :
  exists w', sendToDLQ cfg dlq msg e a o w = (inr tt, w') /\ k_marked (w_st w') = k_marked (w_st w) /\
    k_waits (w_st w') = k_waits (w_st w) /\ k_ext (w_st w') = k_ext (w_st w) /\ k_dlq (w_st w') = k_dlq (w_st w) ++ letters o w msg e a.
Proof.
  unfold sendToDLQ, letters. destruct dlq; simpl; [|exists w; by rewrite app_nil_r].
  case_bool_decide as Ht; simpl; [exists w; by rewrite app_nil_r|]. unfold bind, now, attempt, io. simpl.
  destruct (o_fault o (S (w_tick w))) eqn:Hf; simpl; eexists; split; try reflexivity; simpl; by rewrite ?app_nil_r.
Qed.

(** What becomes of a message whose last call of the processor, after [n] others, took
    the consumer to [w2]. *)
Definition verdict o msg w w2 (n : Z) (last : error + unit) (r : error + unit) w' : Prop :=
  match last with
  | inr _ => r = inr tt /\ k_marked (w_st w') = k_marked (w_st w) ++ [msg] /\ k_dlq (w_st w') = k_dlq (w_st w)
  | inl e =>
      if IsPermanent cfg e then
        r = inr tt /\ k_marked (w_st w') = k_marked (w_st w) ++ [msg] /\ k_dlq (w_st w') = k_dlq (w_st w) ++ letters o w2 msg e n
      else if n =? cf_MaxRetries cfg then
        r = inr tt /\ k_marked (w_st w') = k_marked (w_st w) ++ (if bool_decide (cf_DLQTopic cfg = "") then [] else [msg]) /\
        k_dlq (w_st w') = k_dlq (w_st w) ++ letters o w2 msg e (n + 1)
      else
        k_marked (w_st w') = k_marked (w_st w) /\ k_dlq (w_st w') = k_dlq (w_st w) /\
        exists ended, o_done o (w_tick w2) = Some ended /\ r = inl ended
  end.

Lemma process_runs o msg w r w' :
  process msg o w = (r, w') ->
  exists es w1 last w2, tries o msg (cf_InitialBackoff cfg) w es w1 /\ Z.of_nat (length es) <= cf_MaxRetries cfg /\
    zoom ext_lens (Process msg) o w1 = (last, w2) /\
    k_waits (w_st w') = k_waits (w_st w) ++ delays (length es) (cf_InitialBackoff cfg) /\ k_ext (w_st w') = k_ext (w_st w2) /\
    verdict o msg w w2 (Z.of_nat (length es)) last r w'.
Proof.
  unfold Kafka.process, iterations, bind at 1. destruct (retry_loop _ 0 _ _ msg o w) as [r1 w0] eqn:Hl. intros Hrun.
  apply retry_loop_runs in Hl as (es & w1 & last & w2 & Ht & Hlen & Hz & Hend); [|lia]. rewrite Z.add_0_l in Hend.
  exists es, w1, last, w2. split; [done|]. split; [lia|]. split; [done|].
  apply tries_same in Ht as (Hm & Hd & Hw). apply zoom_ext in Hz as (_ & Hm2 & Hd2 & Hw2). rewrite Hm in Hm2. rewrite Hd in Hd2. rewrite Hw in Hw2.
  unfold loop_ends in Hend. unfold verdict. destruct last as [e|u].
  2:{ destruct Hend as [-> ->]. unfold ret in Hrun. simplify_eq. simpl. by rewrite Hm2, Hd2, Hw2. }
  destruct (IsPermanent cfg e) eqn:Hp; [|destruct (Z.eqb_spec (Z.of_nat (length es)) (cf_MaxRetries cfg)) as [Heq|]].
  - destruct Hend as [-> ->]. rewrite Hp in Hrun. unfold bind in Hrun.
    destruct (sendToDLQ_spec msg e (Z.of_nat (length es)) o w2) as (w3 & Hs & Hm3 & Hw3 & He3 & Hd3). rewrite Hs in Hrun.
    unfold MarkMessage in Hrun. simplify_eq. simpl. by rewrite Hm3, Hw3, He3, Hd3, Hm2, Hw2, Hd2.
  - destruct Hend as [-> ->]. rewrite Hp in Hrun. destruct (Z.ltb_spec (cf_MaxRetries cfg) (Z.of_nat (length es) + 1)); [|lia].
    unfold bind in Hrun. destruct (sendToDLQ_spec msg e (Z.of_nat (length es) + 1) o w2) as (w3 & Hs & Hm3 & Hw3 & He3 & Hd3).
    rewrite Hs in Hrun. case_bool_decide; unfold MarkMessage, ret in Hrun; simplify_eq; simpl; rewrite ?app_nil_r;
      by rewrite Hm3, Hw3, He3, Hd3, Hm2, Hw2, Hd2.
  - destruct Hend as (ended & Hdone & -> & ->). simplify_eq. simpl. rewrite Hm2, Hd2, Hw2. split_and!; eauto.
Qed.

(** C30. What happens to one message, under every failure pattern.  The processor is called
    some number of times, at most MaxRetries, and refuses the message each time with an
    error that is not permanent; between the calls the consumer waits, for the initial
    delay and then twice as long each time.  One more call decides.  If the processor
    accepts the message, it is marked and no dead letter is published.  If it refuses
    it permanently, the dead letter with the number of refusals before is sent and the
    message marked.  If it refuses it otherwise and this was call number MaxRetries + 1,
    the dead letter with that number is sent, and the message is marked unless no DLQ
    topic is configured.  Otherwise the context had ended: its error is returned, and
    nothing is marked or sent.  A dead letter that is sent is published when a producer
    and a topic are there and the send does not fail on its way. *)
Theorem process_verdict o msg w r w' :
  process msg o w = (r, w') ->
  exists es w1 last w2, tries o msg (cf_InitialBackoff cfg) w es w1 /\ Z.of_nat (length es) <= cf_MaxRetries cfg /\
    zoom ext_lens (Process msg) o w1 = (last, w2) /\
    k_waits (w_st w') = k_waits (w_st w) ++ delays (length es) (cf_InitialBackoff cfg) /\ k_ext (w_st w') = k_ext (w_st w2) /\
    match last with
    | inr _ => r = inr tt /\ k_marked (w_st w') = k_marked (w_st w) ++ [msg] /\ k_dlq (w_st w') = k_dlq (w_st w)
    | inl e =>
        if IsPermanent cfg e then
          r = inr tt /\ k_marked (w_st w') = k_marked (w_st w) ++ [msg] /\
          k_dlq (w_st w') = k_dlq (w_st w) ++ letters o w2 msg e (Z.of_nat (length es))
        else if Z.of_nat (length es) =? cf_MaxRetries cfg then
          r = inr tt /\ k_marked (w_st w') = k_marked (w_st w) ++ (if bool_decide (cf_DLQTopic cfg = "") then [] else [msg]) /\
          k_dlq (w_st w') = k_dlq (w_st w) ++ letters o w2 msg e (Z.of_nat (length es) + 1)
        else
          k_marked (w_st w') = k_marked (w_st w) /\ k_dlq (w_st w') = k_dlq (w_st w) /\
          exists ended, o_done o (w_tick w2) = Some ended /\ r = inl ended
    end.
Proof. apply process_runs. Qed.

Definition dead_letter msg s s' : Prop :=
  exists e a t, k_dlq s' = k_dlq s ++ [(cf_DLQTopic cfg, m_Key msg, envelope_of msg e a t)].

(** Nothing but the processor fails, and dead letters are configured. *)
Lemma process_calm o msg w :
  dlq = true -> cf_DLQTopic cfg ≠ "" -> no_faults o ->
  let '(r, w') := process msg o w in
  r = inr tt /\ k_marked (w_st w') = k_marked (w_st w) ++ [msg] /\
  ((accepted o msg /\ k_dlq (w_st w') = k_dlq (w_st w)) \/ dead_letter msg (w_st w) (w_st w')).
Proof.
  intros Hdlq Ht [Hf Hdone]. destruct (process msg o w) as [r w'] eqn:Hrun.
  apply process_runs in Hrun as (es & w1 & last & w2 & _ & _ & Hz & _ & _ & Hv).
  assert (Hsent : forall e a, letters o w2 msg e a = [(cf_DLQTopic cfg, m_Key msg, envelope_of msg e a (o_now o (w_tick w2)))]).
  { intros e a. unfold letters. rewrite Hdlq, bool_decide_eq_false_2 by done. simpl. by rewrite Hf. }
  unfold verdict in Hv. destruct last as [e|[]].
  - rewrite !Hsent, (bool_decide_eq_false_2 (cf_DLQTopic cfg = "")) in Hv by done.
    destruct (IsPermanent cfg e); [|destruct (_ =? _)].
    + destruct Hv as (-> & Hm & Hd). split_and!; [done|done|right; unfold dead_letter; eauto].
    + destruct Hv as (-> & Hm & Hd). split_and!; [done|done|right; unfold dead_letter; eauto].
    + destruct Hv as (_ & _ & ended & Hx & _). by rewrite Hdone in Hx.
  - apply zoom_ext in Hz as (Hacc & _). destruct Hv as (-> & Hm & Hd). split_and!; [done|done|by left].
Qed.

(** A message is settled in the stores: accepted, or kept as a dead letter. *)
Definition settled_msg o s msg : Prop :=
  accepted o msg \/ exists e a t, (cf_DLQTopic cfg, m_Key msg, envelope_of msg e a t) ∈ k_dlq s.

(** A claim is consumed completely: when only the processor fails and dead
    letters are configured, every message of the claim is marked, in order, and
    each one was accepted by the processor or is a dead letter with its topic,
    partition, offset, key and value; the loop goes on after a failure. *)
Theorem ConsumeClaim_settles_all o msgs w :
  dlq = true -> cf_DLQTopic cfg ≠ "" -> no_faults o ->
  let '(r, w') := ConsumeClaim cfg dlq Process msgs o w in
  r = inr tt /\ k_marked (w_st w') = k_marked (w_st w) ++ msgs /\
  (forall msg, msg ∈ msgs -> settled_msg o (w_st w') msg) /\
  exists l, k_dlq (w_st w') = k_dlq (w_st w) ++ l.
Proof.
  intros Hdlq Ht Ho. revert w. induction msgs as [|msg msgs IH]; intros w; simpl.
  - rewrite app_nil_r. split_and!; [done|done|by intros msg ?%elem_of_nil|]. exists []. by rewrite app_nil_r.
  - unfold bind, attempt. pose proof (process_calm o msg w Hdlq Ht Ho) as Hp.
    destruct (process msg o w) as [r1 w1]. destruct Hp as (_ & Hm & Hset). specialize (IH w1).
    destruct (ConsumeClaim cfg dlq Process msgs o w1) as [r w']. destruct IH as (-> & Hm' & Hall & (l & Hl)).
    assert (Hgrow : exists l', k_dlq (w_st w1) = k_dlq (w_st w) ++ l').
    { destruct Hset as [[_ Hd]|(e & a & t & Hd)]; [exists []; by rewrite app_nil_r|eauto]. }
    split_and!; [done| | |].
    + rewrite Hm', Hm, <- app_assoc. done.
    + intros m [->|Hin]%elem_of_cons; [|by apply Hall].
      destruct Hset as [[Hacc _]|(e & a & t & Hd)]; [by left|right]. exists e, a, t. rewrite Hl, Hd.
      apply elem_of_app. left. apply elem_of_app. right. by apply list_elem_of_singleton.
    + destruct Hgrow as [l' Hl']. exists (l' ++ l). by rewrite Hl, Hl', app_assoc.
Qed.
End Facts.

(** ** Concrete runs *)

Section Samples.
Local Existing Instance uuid_text.

Definition msg1 : Message := MkMessage "orders" 0 10 "k1" "v1".
Definition msg2 : Message := MkMessage "orders" 0 11 "k2" "v2".

Definition consumer_cfg : Config :=
  setDefaults (MkConfig "group" ["orders"] "orders.dlq" "" 0 2 100 0 None).

(** Refuses the first message, accepts every other. *)
Definition picky (m : Message) : M unit unit :=
  if bool_decide (m_Offset m = 10) then throw (EPlain "smtp: unavailable") else ret tt.

Definition fresh : ConsSt unit := MkConsSt [] [] [] tt.

Lemma process_verdict_witness :
  exists w', process consumer_cfg true picky msg1 calm (World 0 fresh) = (inr tt, w') /\
  exists es w1, tries consumer_cfg picky calm msg1 100 (World 0 fresh) es w1 /\ k_waits (w_st w') = delays (length es) 100.
Proof.
  destruct (process consumer_cfg true picky msg1 calm (World 0 fresh)) as [r w'] eqn:Hrun.
  destruct (process_verdict consumer_cfg true picky ltac:(cbn; lia) calm msg1 (World 0 fresh) r w' Hrun)
    as (es & w1 & last & w2 & Ht & _ & _ & Hw & _).
  exists w'. split; [f_equal; vm_compute in Hrun; congruence|]. exists es, w1. split; [exact Ht|exact Hw].
Defined.

Lemma ConsumeClaim_settles_all_witness :
  let '(r, w') := ConsumeClaim consumer_cfg true picky [msg1; msg2] calm (World 0 fresh) in
  r = inr tt /\ k_marked (w_st w') = [] ++ [msg1; msg2] /\
  (forall msg, msg ∈ [msg1; msg2] -> settled_msg consumer_cfg picky calm (w_st w') msg) /\
  exists l, k_dlq (w_st w') = [] ++ l.
Proof.
  apply (ConsumeClaim_settles_all consumer_cfg true picky ltac:(cbn; lia) calm [msg1; msg2] (World 0 fresh));
    [reflexivity|discriminate|exact calm_no_faults].
Defined.

(** The context of the first message expires while it waits to be retried. *)
Definition slow : oracle :=
  Oracle (fun _ => FNone) (fun _ => 0) uuid_sample (fun n => if Nat.eqb n 0 then Some (EPlain "context deadline exceeded") else None) (fun _ => true).

Definition after_slow : ConsSt unit :=
  w_st (snd (ConsumeClaim consumer_cfg true picky [msg1; msg2] slow (World 0 fresh))).

(** A message whose processing times out is skipped: it is neither marked nor
    dead-lettered, but the next message of the claim is marked, and the consumer
    group resumes past both. *)
Theorem timed_out_message_is_skipped :
  k_marked after_slow = [msg2] /\ k_dlq after_slow = [] /\ resume_offset 10 after_slow = 12.
Proof. vm_compute. done. Qed.

(** The broker refuses the dead letter. *)
Definition dlq_down : oracle :=
  Oracle (fun _ => FBefore (EPlain "kafka: no leader")) (fun _ => 0) uuid_sample (fun _ => None) (fun _ => true).

Definition after_dlq_down : (error + unit) * world (ConsSt unit) :=
  process consumer_cfg true picky msg1 dlq_down (World 0 fresh).

(** A message the processor refused is marked although its dead letter could
    not be published: it is lost. *)
Theorem failed_dead_letter_loses_message :
  fst after_dlq_down = inr tt /\ k_marked (w_st (snd after_dlq_down)) = [msg1] /\ k_dlq (w_st (snd after_dlq_down)) = [].
Proof. vm_compute. done. Qed.
End Samples.
