(* ===== verification/Codec.v ===== *)
(** * Codec: 64-bit floats and the decoding of JSON structs

    What the services use of float64 and of [encoding/json]: the conversions
    between integers and floats, and [json.Unmarshal] into a struct. *)
From S2P Require Import Prelude OrderDomain Users.
From Stdlib Require Export SpecFloat.

(** ** float64 *)

Definition float64 : Type := spec_float.

Definition float_zero : float64 := S754_zero false.

(** [float64(z)]. *)
Definition float_of_int (z : Z) : float64 := binary_normalize 53 1024 z 0 false.

Definition float_div (x y : float64) : float64 := SFdiv 53 1024 x y.

Definition float_eqb (x y : float64) : bool := SFeqb x y.

(** A decimal literal [m / 10^k], rounded once. *)
Definition float_parse (m : Z) (k : nat) : float64 :=
  match m with
  | Z0 => float_zero
  | Zpos p => float_div (S754_finite false p 0) (S754_finite false (Z.to_pos (10 ^ Z.of_nat k)) 0)
  | Zneg p => float_div (S754_finite true p 0) (S754_finite false (Z.to_pos (10 ^ Z.of_nat k)) 0)
  end.

Definition is_finite (x : float64) : bool :=
  match x with S754_zero _ | S754_finite _ _ _ => true | _ => false end.

(** The integer part, towards zero; out of range values become the smallest
    int64 in [int64_of_float], as on amd64. *)
Definition float_trunc (x : float64) : Z :=
  match x with
  | S754_finite s m e => (if s then Z.opp else id) (Z.shiftl (Zpos m) e)
  | S754_zero _ => 0
  | _ => 2 ^ 63
  end.

Definition int64_of_float (z : Z) : Z := if in_int64 z then z else - 2 ^ 63.

(** The value of an integer after the conversion to float64 and back: 53
    significant bits, ties to even. *)
Definition float64_round (z : Z) : Z :=
  let a := Z.abs z in
  let e := Z.log2 a - 52 in
  if e <=? 0 then z
  else
    let q := Z.shiftr a e in
    let r := a - Z.shiftl q e in
    let half := Z.shiftl 1 (e - 1) in
    let q' := if (half <? r) || ((r =? half) && Z.odd q) then q + 1 else q in
    Z.sgn z * Z.shiftl q' e.

Example float_cents : float_div (float_of_int 1999) (float_of_int 100) = float_parse 1999 2.
Proof. reflexivity. Qed.

Example float_round_trunc : float_trunc (float_of_int (2 ^ 53 + 1)) = float64_round (2 ^ 53 + 1).
Proof. reflexivity. Qed.

(** ** json.Unmarshal into a struct

    An incoming key sets the field whose name it equals up to case; the entries
    are read in order, null sets nothing, and one entry of the wrong type makes
    the whole call fail.  [dec] gives [None] on a wrong type and [Some None] on
    null. *)
Section Struct.
Context {A : Type} (dec : json -> option (option A)) (zero : A).

Definition entries (k : string) (l : list (string * json)) : list json :=
  snd <$> filter (fun kv : string * json => ToLower (fst kv) = ToLower k) l.

Definition struct_field (k : string) (l : list (string * json)) : option A :=
  vs ← mapM dec (entries k l); Some (default zero (last (omap (fun v => v) vs))).

Lemma struct_field_absent k l : entries k l = [] -> struct_field k l = Some zero.
Proof. intros He. unfold struct_field. by rewrite He. Qed.
End Struct.

Definition dec_string (j : json) : option (option string) :=
  match j with JStr s => Some (Some s) | JTime t => Some (Some (Format_utc t)) | JNull => Some None | _ => None end.

Definition dec_int64 (j : json) : option (option Z) :=
  match j with JNum z => if in_int64 z then Some (Some z) else None | JNull => Some None | _ => None end.

Definition dec_float (j : json) : option (option float64) :=
  match j with
  | JNum z => if is_finite (float_of_int z) then Some (Some (float_of_int z)) else None
  | JFrac m k => if is_finite (float_parse m k) then Some (Some (float_parse m k)) else None
  | JNull => Some None
  | _ => None
  end.

Definition field_string : string -> list (string * json) -> option string := struct_field dec_string "".
Definition field_int64 : string -> list (string * json) -> option Z := struct_field dec_int64 0.
Definition field_float : string -> list (string * json) -> option float64 := struct_field dec_float float_zero.

(** The fields of the top-level value: null sets none of them. *)
Definition struct_of (j : json) : option (list (string * json)) :=
  match j with JObj l => Some l | JNull => Some [] | _ => None end.
