(* ===== verification/Catalog.v ===== *)
(** * catalog-service: products, search projection and its relay

    [services/catalog-service]: the products table, the use case that writes a
    product and its event in one transaction, the relay that projects events
    into the Elasticsearch index, the index repository, and the gRPC handler.
    The search engine is a parameter. *)
From S2P Require Import Prelude Errors Effects Auth OrderDomain OrderRepo Outbox Users Codec.

Section Catalog.
Context `{U : UuidLib}.

(** ** Data *)

(** [nil] and empty category lists are both [[]]. *)
Record Product := MkProduct {
  pr_ID : UUID; pr_Name : string; pr_Description : string; pr_Price : Z; pr_Categories : list string;
  pr_IdempotencyKey : string; pr_CreatedAt : Z
}.

(** A document of the index is the JSON object of its source. *)
Definition ESDoc : Type := list (string * json).

Record CatSt := MkCatSt {
  c_products : gmap UUID Product;
  c_outbox : OutboxTables;
  c_index : gmap string ESDoc
}.

Definition set_products (x : gmap UUID Product) (s : CatSt) : CatSt := MkCatSt x (c_outbox s) (c_index s).
Definition set_c_outbox (x : OutboxTables) (s : CatSt) : CatSt := MkCatSt (c_products s) x (c_index s).
Definition set_index (x : gmap string ESDoc) (s : CatSt) : CatSt := MkCatSt (c_products s) (c_outbox s) x.

Definition products (s : CatSt) : list Product := (map_to_list (c_products s)).*2.

(** ** JSON of a product: the exported field names *)

Definition json_strings (l : list string) : json :=
  match l with [] => JNull | _ => JArr (JStr <$> l) end.

Definition marshal_product (p : Product) : json :=
  JObj [("ID", JStr (uuid_String (pr_ID p))); ("Name", JStr (pr_Name p)); ("Description", JStr (pr_Description p));
        ("Price", JNum (pr_Price p)); ("Categories", json_strings (pr_Categories p));
        ("IdempotencyKey", JStr (pr_IdempotencyKey p)); ("CreatedAt", JTime (pr_CreatedAt p))].

(** The decoders of the fields. *)
Definition dec_time (j : json) : option (option Z) :=
  match j with JTime t => Some (Some t) | JNull => Some None | _ => None end.

Definition dec_uuid (j : json) : option (option UUID) :=
  match j with JStr s => Some <$> uuid_Parse s | JNull => Some None | _ => None end.

Definition json_string (j : json) : option string :=
  match j with JStr s => Some s | JNull => Some "" | _ => None end.

Definition dec_strings (j : json) : option (option (list string)) :=
  match j with JArr a => Some <$> mapM json_string a | JNull => Some None | _ => None end.

Definition zero_product : Product := MkProduct uuid_Nil "" "" 0 [] "" time_zero.

Definition unmarshal_product (j : json) : option Product :=
  match j with
  | JNull => Some zero_product
  | JObj l =>
      id ← struct_field dec_uuid uuid_Nil "ID" l; name ← field_string "Name" l; description ← field_string "Description" l;
      price ← field_int64 "Price" l; categories ← struct_field dec_strings [] "Categories" l;
      key ← field_string "IdempotencyKey" l; created ← struct_field dec_time time_zero "CreatedAt" l;
      Some (MkProduct id name description price categories key created)
  | _ => None
  end.

(** ** ProductPostgres *)

(** The INSERT: the id of the row with the idempotency key, new or existing.  The
    constraints are checked before the conflict. *)
Definition insert_product (p : Product) (s : CatSt) : (error + UUID) * CatSt :=
  if negb (fits_varchar 255 (pr_Name p) && fits_varchar 255 (pr_IdempotencyKey p)) then (inl pg_too_long, s)
  else if pr_Price p <? 0 then (inl pg_check_violation, s)
  else match List.find (fun q => bool_decide (pr_IdempotencyKey q = pr_IdempotencyKey p)) (products s) with
       | Some q => (inr (pr_ID q), s)
       | None =>
           match c_products s !! pr_ID p with
           | Some _ => (inl pg_unique_violation, s)
           | None => (inr (pr_ID p), set_products (<[pr_ID p := p]> (c_products s)) s)
           end
       end.

Definition ProductRepo_Create (p : Product) : M CatSt UUID :=
  let* id := wrap_err (wrapf "insert product") (io (insert_product p)) in
  if bool_decide (id = pr_ID p) then ret id else throw (ESentinel ErrAlreadyExists).

Definition ProductRepo_GetByID (id : UUID) : M CatSt Product :=
  let* r := wrap_err (wrapf "get product by id") (read (fun s => inr (c_products s !! id))) in
  match r with
  | Some p => ret p
  | None => throw (wrapS ErrNotFound "product")
  end.

(** The UPDATE sets name, description, price and categories; the result is the
    number of rows. *)
Definition update_product (p : Product) (s : CatSt) : (error + Z) * CatSt :=
  match c_products s !! pr_ID p with
  | None => (inr 0, s)
  | Some q =>
      if negb (fits_varchar 255 (pr_Name p)) then (inl pg_too_long, s)
      else if pr_Price p <? 0 then (inl pg_check_violation, s)
      else (inr 1, set_products (<[pr_ID p := MkProduct (pr_ID q) (pr_Name p) (pr_Description p) (pr_Price p)
                                   (pr_Categories p) (pr_IdempotencyKey q) (pr_CreatedAt q)]> (c_products s)) s)
  end.

Definition affected_or_not_found (n : Z) : M CatSt unit :=
  if n =? 0 then throw (wrapS ErrNotFound "product") else ret tt.

Definition ProductRepo_Update (p : Product) : M CatSt unit :=
  let* n := wrap_err (wrapf "update product") (io (update_product p)) in affected_or_not_found n.

Definition ProductRepo_Delete (id : UUID) : M CatSt unit :=
  let* n := wrap_err (wrapf "delete product") (io (fun s =>
    match c_products s !! id with
    | None => (inr 0, s)
    | Some _ => (inr 1, set_products (delete id (c_products s)) s)
    end)) in
  affected_or_not_found n.

Definition newer_product (p q : Product) : Prop := pr_CreatedAt q <= pr_CreatedAt p.

#[global] Instance newer_product_dec : RelDecision newer_product.
Proof. intros p q. unfold newer_product. apply _. Defined.

(** The page defaults shared by List and Search. *)
Definition page_or (page : Z) : Z := if page <? 1 then 1 else page.
Definition size_or (pageSize : Z) : Z := if pageSize <? 1 then 10 else pageSize.

Definition ProductRepo_List (page0 pageSize0 : Z) : M CatSt (list Product * Z) :=
  let page := page_or page0 in
  let pageSize := size_or pageSize0 in
  let offset := int64 (int64 (page - 1) * pageSize) in
  let* total := wrap_err (wrapf "count products") (read (fun s => inr (Z.of_nat (length (products s))))) in
  let* rows := wrap_err (wrapf "list products") (read (fun s =>
    if offset <? 0 then inl (EPg "2201X" "OFFSET must not be negative")
    else inr (take (Z.to_nat pageSize) (drop (Z.to_nat offset) (merge_sort newer_product (products s)))))) in
  ret (rows, total).

(** ** OutboxPostgres *)

Definition CatOutbox_Create (event : OutboxEvent) : M CatSt unit :=
  let* event := (if IsZero (ev_NextRetryAt event)
                 then let* t := now in ret (with_NextRetryAt t event) else ret event) in
  wrap_err (wrapf "insert outbox event") (io (fun s =>
    let ob := c_outbox s in
    if existsb (fun e => bool_decide (ev_ID e = ev_ID event)) (ob_rows ob) then (inl pg_unique_violation, s)
    else (inr tt, set_c_outbox (MkOutbox (ob_rows ob ++ [new_outbox_row event]) (ob_dlq ob)) s))).

(** SKIP LOCKED: no other relay holds a lock. *)
Definition CatOutbox_GetUnprocessed (limit : nat) : M CatSt (list OutboxEvent) :=
  let* t := now in
  wrap_err (wrapf "get unprocessed outbox") (read (fun s =>
    inr (take limit (merge_sort older_event (filter (due t) (ob_rows (c_outbox s))))))).

Definition CatOutbox_BatchMarkProcessed (ids : list UUID) : M CatSt unit :=
  let* t := now in
  wrap_err (wrapf "batch mark outbox processed") (io (fun s =>
    (inr tt, set_c_outbox (update_rows (fun e => bool_decide (ev_ID e ∈ ids)) (mark t) (c_outbox s)) s))).

Definition CatOutbox_MarkProcessed (id : UUID) : M CatSt unit :=
  let* t := now in
  wrap_err (wrapf "mark outbox processed") (io (fun s =>
    (inr tt, set_c_outbox (update_rows (fun e => bool_decide (ev_ID e = id)) (mark t) (c_outbox s)) s))).

Definition CatOutbox_IncrementRetryAndSetError (id : UUID) (lastError : string) (nextRetryAt : Z) : M CatSt unit :=
  wrap_err (wrapf "increment outbox retry") (io (fun s =>
    (inr tt, set_c_outbox (update_rows (fun e => bool_decide (ev_ID e = id)) (retried lastError nextRetryAt) (c_outbox s)) s))).

Definition CatOutbox_MoveToDLQ (event : OutboxEvent) (failedAt : Z) (lastError : string) : M CatSt unit :=
  do* wrap_err (wrapf "insert outbox dlq") (io (fun s =>
        (inr tt, match ob_dlq (c_outbox s) !! ev_ID event with
                 | Some _ => s
                 | None => set_c_outbox (MkOutbox (ob_rows (c_outbox s))
                             (<[ev_ID event := dlq_row event failedAt lastError]> (ob_dlq (c_outbox s)))) s
                 end))) in
  wrap_err (wrapf "delete outbox event") (io (fun s =>
    (inr tt, set_c_outbox (MkOutbox (filter (fun e => ev_ID e ≠ ev_ID event) (ob_rows (c_outbox s))) (ob_dlq (c_outbox s))) s))).

(** ** ProductES *)

(** The indexed document; [created_at] keeps whole seconds. *)
Definition es_document (p : Product) : ESDoc :=
  [("id", JStr (uuid_String (pr_ID p))); ("name", JStr (pr_Name p)); ("description", JStr (pr_Description p));
   ("price_cents", JNum (pr_Price p)); ("categories", json_strings (pr_Categories p));
   ("created_at", JTime (pr_CreatedAt p / 10 ^ 9 * 10 ^ 9))].

Definition ES_Index (p : Product) : M CatSt unit :=
  wrap_err (wrapf "index product") (io (fun s =>
    (inr tt, set_index (<[uuid_String (pr_ID p) := es_document p]> (c_index s)) s))).

(** A missing document is not an error. *)
Definition ES_Delete (id : UUID) : M CatSt unit :=
  wrap_err (wrapf "delete product from index") (io (fun s =>
    (inr tt, set_index (delete (uuid_String id) (c_index s)) s))).

(** At start-up, on the store that says whether the index exists; the service
    does not start when it fails, so the other operations find the index. *)
Definition EnsureIndex : M bool unit :=
  let* exists_ := wrap_err (wrapf "check index exists") (read (fun e : bool => inr e)) in
  if exists_ then ret tt
  else wrap_err (wrapf "create index") (io (fun e : bool =>
    if e then (inl (EPlain "resource_already_exists_exception"), e) else (inr tt, true))).

(** A hit read back: only the id is required; the price goes through float64. *)
Definition mapToProduct (source : option ESDoc) : error + Product :=
  match source with
  | None => inl (EPlain "source is nil")
  | Some l =>
      match json_field "id" l with
      | Some (JStr idStr) =>
          if bool_decide (idStr = "") then inl (EPlain "missing or invalid id")
          else match uuid_Parse idStr with
               | None => inl (wrapf "parse id" (EPlain (uuid_error idStr)))
               | Some id =>
                   inr (MkProduct id
                          (match json_field "name" l with Some (JStr s) => s | _ => "" end)
                          (match json_field "description" l with Some (JStr s) => s | _ => "" end)
                          (match json_field "price_cents" l with Some (JNum z) => int64_of_float (float64_round z)
                                                               | Some (JFrac m k) => int64_of_float (float_trunc (float_parse m k))
                                                               | _ => 0
                           end)
                          (match json_field "categories" l with
                           | Some (JArr a) => omap (fun j => match j with JStr s => Some s | _ => None end) a
                           | _ => []
                           end)
                          ""
                          (match json_field "created_at" l with Some (JTime t) => t | _ => time_zero end))
               end
      | _ => inl (EPlain "missing or invalid id")
      end
  end.

(** The engine: the sources of the hits of a page, and the total. *)
Context (es_search : gmap string ESDoc -> string -> Z -> Z -> list ESDoc * Z).

Definition map_hits (hits : list ESDoc) : error + list Product :=
  foldr (fun h acc => match mapToProduct (Some h), acc with
                      | inl e, _ => inl (wrapf "map hit to product" e)
                      | inr _, inl e => inl e
                      | inr p, inr l => inr (p :: l)
                      end) (inr []) hits.

Definition ES_Search (query : string) (page0 pageSize0 : Z) : M CatSt (list Product * Z) :=
  let page := page_or page0 in
  let pageSize := size_or pageSize0 in
  let from := int64 (int64 (page - 1) * pageSize) in
  let* res := wrap_err (wrapf "search products") (read (fun s => inr (es_search (c_index s) query from pageSize))) in
  match map_hits (fst res) with
  | inl e => throw e
  | inr l => ret (l, snd res)
  end.

(** ** Use case *)

Definition catalog_event (eventType aggregate : string) (payload : json) : M CatSt OutboxEvent :=
  let* id := new_uuid in
  let* t := now in
  ret (MkEvent id "product" aggregate eventType payload t None 0 None time_zero).

(** On a conflict Go also returns the existing id, which the handler drops. *)
Definition CreateProduct (name description : string) (price : Z) (categories : list string) (key : string) : M CatSt UUID :=
  let* id := new_uuid in
  let* t := now in
  let product := MkProduct id name description price categories key t in
  let* event := catalog_event "ProductCreated" (uuid_String id) (marshal_product product) in
  RunTx (
    let* created := wrap_err (wrapf "create product") (ProductRepo_Create product) in
    do* wrap_err (wrapf "create outbox event") (CatOutbox_Create event) in
    ret created).

Definition cat_GetProduct (id : UUID) : M CatSt Product := ProductRepo_GetByID id.

Definition merge_fields (existing : Product) (name description : option string) (price : option Z) (categories : list string) : Product :=
  MkProduct (pr_ID existing) (default (pr_Name existing) name) (default (pr_Description existing) description)
    (default (pr_Price existing) price)
    (if bool_decide (0 < length categories)%nat then categories else pr_Categories existing)
    (pr_IdempotencyKey existing) (pr_CreatedAt existing).

Definition UpdateProduct (id : UUID) (name description : option string) (price : option Z) (categories : list string) : M CatSt unit :=
  RunTx (
    let* existing := wrap_err (wrapf "get product") (ProductRepo_GetByID id) in
    let updated := merge_fields existing name description price categories in
    do* wrap_err (wrapf "update product") (ProductRepo_Update updated) in
    let* event := catalog_event "ProductUpdated" (uuid_String (pr_ID updated)) (marshal_product updated) in
    wrap_err (wrapf "create outbox event") (CatOutbox_Create event)).

Definition DeleteProduct (id : UUID) : M CatSt unit :=
  RunTx (
    do* wrap_err (wrapf "delete product") (ProductRepo_Delete id) in
    let* event := catalog_event "ProductDeleted" (uuid_String id) (JObj [("product_id", JStr (uuid_String id))]) in
    wrap_err (wrapf "create outbox event") (CatOutbox_Create event)).

Definition ListProducts (page pageSize : Z) : M CatSt (list Product * Z) := ProductRepo_List page pageSize.
Definition SearchProducts (query : string) (page pageSize : Z) : M CatSt (list Product * Z) := ES_Search query page pageSize.

(** ** outbox/handler.go *)

Definition poison (what : string) (err : error) : error := EWrap2 "" (ESentinel ErrPoison) (": " +:+ what +:+ ": ") err.

Definition json_error : error := EPlain "json: cannot unmarshal".

Definition quote (s : string) : string := String (Ascii.ascii_of_nat 34) (s +:+ String (Ascii.ascii_of_nat 34) "").

(** The [product_id] of a delete payload: [None] is a decoding error. *)
Definition delete_payload (j : json) : option string :=
  match j with JNull => Some "" | JObj l => field_string "product_id" l | _ => None end.

Definition Handle (event : OutboxEvent) : M CatSt unit :=
  if bool_decide (ev_EventType event = "ProductCreated") || bool_decide (ev_EventType event = "ProductUpdated") then
    match unmarshal_product (ev_Payload event) with
    | None => throw (poison "unmarshal product payload" json_error)
    | Some product => wrap_err (wrapf "index product") (ES_Index product)
    end
  else if bool_decide (ev_EventType event = "ProductDeleted") then
    match delete_payload (ev_Payload event) with
    | None => throw (poison "unmarshal delete payload" json_error)
    | Some text =>
        match uuid_Parse text with
        | None => throw (poison "invalid product id" (EPlain (uuid_error text)))
        | Some id => wrap_err (wrapf "delete product from index") (ES_Delete id)
        end
    end
  else throw (wrapS ErrPoison ("unknown event type " +:+ quote (ev_EventType event))).

(** ** outbox/relay.go: its constants and delays are those of the order relay *)

Fixpoint handle_all (events : list OutboxEvent) : M CatSt (list (OutboxEvent * option error)) :=
  match events with
  | [] => ret []
  | e :: events' =>
      let* r := attempt (Handle e) in
      let* rest := handle_all events' in
      ret ((e, match r with inl err => Some err | inr _ => None end) :: rest)
  end.

Definition cat_calculateNextRetry (retryCount : Z) : M CatSt Z :=
  let* t := now in ret (t + backoff retryCount).

Definition record_result (failedAt : Z) (event : OutboxEvent) (res : option error) : M CatSt unit :=
  match res with
  | None => wrap_err (wrapf "mark outbox event processed") (CatOutbox_BatchMarkProcessed [ev_ID event])
  | Some err =>
      if Is err ErrPoison || (relay_maxRetries <=? ev_RetryCount event + 1) then
        wrap_err (wrapf "move outbox event to DLQ") (CatOutbox_MoveToDLQ event failedAt (Error err))
      else
        let* nextRetry := cat_calculateNextRetry (ev_RetryCount event) in
        wrap_err (wrapf "increment outbox retry") (CatOutbox_IncrementRetryAndSetError (ev_ID event) (Error err) nextRetry)
  end.

Fixpoint record_results (failedAt : Z) (results : list (OutboxEvent * option error)) : M CatSt unit :=
  match results with
  | [] => ret tt
  | (e, r) :: results' => do* record_result failedAt e r in record_results failedAt results'
  end.

(** poll: errors are logged. *)
Definition cat_poll : M CatSt unit :=
  let* r := attempt (RunTx (CatOutbox_GetUnprocessed 100)) in
  match r with
  | inl _ => ret tt
  | inr events =>
      if bool_decide (length events = 0%nat) then ret tt
      else
        let* results := handle_all events in
        let* t := now in
        do* attempt (RunTx (record_results t results)) in
        ret tt
  end.

(** ** gRPC handler *)

Record ProductProto := MkProductProto {
  pp_ProductId : string; pp_Name : string; pp_Description : string; pp_PriceCents : Z;
  pp_Categories : list string; pp_CreatedAt : string
}.

(** In UTC the RFC 3339 layout ends in Z. *)
Definition toProtoProduct (p : Product) : ProductProto :=
  MkProductProto (uuid_String (pr_ID p)) (pr_Name p) (pr_Description p) (pr_Price p) (pr_Categories p)
    (Format_utc (pr_CreatedAt p)).

Definition toProtoProducts (l : list Product) : list ProductProto := toProtoProduct <$> l.

Definition handler_CreateProduct (name description : string) (price : Z) (categories : list string) (key : string) : M CatSt string :=
  let* id := wrap_err (fun err => if Is err ErrAlreadyExists then EStatus AlreadyExists (Error err) else err)
               (CreateProduct name description price categories key) in
  ret (uuid_String id).

Definition not_found_or_internal (what : string) (err : error) : error :=
  if Is err ErrNotFound then EStatus NotFound (Error err)
  else EStatus Internal (what +:+ ": " +:+ Error err).

Definition handler_GetProduct (product_id : string) : M CatSt ProductProto :=
  match uuid_Parse product_id with
  | None => throw (EPlain (uuid_error product_id))
  | Some id =>
      let* p := wrap_err (not_found_or_internal "get product") (cat_GetProduct id) in ret (toProtoProduct p)
  end.

Definition handler_ListProducts (page pageSize : Z) : M CatSt (list ProductProto * Z) :=
  let* r := ListProducts page pageSize in ret (toProtoProducts (fst r), int32 (snd r)).

Definition handler_SearchProducts (query : string) (page pageSize : Z) : M CatSt (list ProductProto * Z) :=
  let* r := SearchProducts query page pageSize in ret (toProtoProducts (fst r), int32 (snd r)).

Definition handler_UpdateProduct (ctx : Ctx) (product_id : string) (name description : option string) (price : option Z)
    (categories : list string) : M CatSt bool :=
  match RequireRole ctx [RoleAdmin] with
  | Some e => throw e
  | None =>
      match uuid_Parse product_id with
      | None => throw (EStatus InvalidArgument "invalid product_id")
      | Some id =>
          do* wrap_err (not_found_or_internal "update product") (UpdateProduct id name description price categories) in
          ret true
      end
  end.

Definition handler_DeleteProduct (ctx : Ctx) (product_id : string) : M CatSt bool :=
  match RequireRole ctx [RoleAdmin] with
  | Some e => throw e
  | None =>
      match uuid_Parse product_id with
      | None => throw (EStatus InvalidArgument "invalid product_id")
      | Some id => do* wrap_err (not_found_or_internal "delete product") (DeleteProduct id) in ret true
      end
  end.
End Catalog.
