(* ===== verification/CatalogFacts.v ===== *)
(** * catalog-service: theorems

    The products table and the search index are kept in step through the outbox:
    replaying the waiting events on the index always gives the projection of the
    table, and calm polls replay them all.  A failed event is retried out of
    order, which can leave the index stale. *)
From S2P Require Import Prelude Errors Effects Auth OrderDomain OrderRepo Outbox Users Codec Catalog.

Section Facts.
Context `{U : UuidLib} `{HL : !UuidLaws}.
Context (es_search : gmap string ESDoc -> string -> Z -> Z -> list ESDoc * Z).
Implicit Types (o : oracle) (w : world CatSt) (s : CatSt) (p q : Product) (e : OutboxEvent).

(** ** JSON *)

Lemma mapM_strings (l : list string) : mapM json_string (JStr <$> l) = Some l.
Proof. apply mapM_Some, Forall2_fmap_l, Forall_Forall2_diag, Forall_true. done. Qed.

Lemma dec_strings_json l : dec_strings (json_strings l) = Some (match l with [] => None | _ => Some l end).
Proof. destruct l as [|x l]; [done|]. unfold dec_strings, json_strings. by rewrite mapM_strings. Qed.

(** A product survives its JSON form. *)
Lemma product_json_roundtrip p : in_int64 (pr_Price p) = true -> unmarshal_product (marshal_product p) = Some p.
Proof.
  intros Hp. unfold unmarshal_product, marshal_product, field_string, field_int64, struct_field.
  change (entries "ID" _) with [JStr (uuid_String (pr_ID p))].
  change (entries "Name" _) with [JStr (pr_Name p)].
  change (entries "Description" _) with [JStr (pr_Description p)].
  change (entries "Price" _) with [JNum (pr_Price p)].
  change (entries "Categories" _) with [json_strings (pr_Categories p)].
  change (entries "IdempotencyKey" _) with [JStr (pr_IdempotencyKey p)].
  change (entries "CreatedAt" _) with [JTime (pr_CreatedAt p)].
  assert (Hc : mapM dec_strings [json_strings (pr_Categories p)] = Some [match pr_Categories p with [] => None | _ => Some (pr_Categories p) end])
    by (cbn -[dec_strings json_strings]; by rewrite dec_strings_json).
  rewrite Hc. simpl. rewrite uuid_Parse_String, Hp. destruct p as [? ? ? ? [|] ? ?]; done.
Qed.

(** ** The projection *)

#[local] Instance uuid_String_Inj : Inj (=) (=) uuid_String.
Proof. intros u v. apply uuid_String_inj. Qed.

Definition project (m : gmap UUID Product) : gmap string ESDoc := kmap uuid_String (es_document <$> m).

Lemma project_insert m p : project (<[pr_ID p := p]> m) = <[uuid_String (pr_ID p) := es_document p]> (project m).
Proof. unfold project. rewrite fmap_insert, kmap_insert; [done|exact uuid_String_Inj]. Qed.

Lemma project_delete m id : project (delete id m) = delete (uuid_String id) (project m).
Proof. unfold project. rewrite fmap_delete, kmap_delete; [done|exact uuid_String_Inj]. Qed.

(** What an event does to the index; [None] for an event that can never be handled. *)
Definition effect e (idx : gmap string ESDoc) : option (gmap string ESDoc) :=
  if bool_decide (ev_EventType e = "ProductCreated") || bool_decide (ev_EventType e = "ProductUpdated") then
    p ← unmarshal_product (ev_Payload e); Some (<[uuid_String (pr_ID p) := es_document p]> idx)
  else if bool_decide (ev_EventType e = "ProductDeleted") then
    text ← delete_payload (ev_Payload e); id ← uuid_Parse text; Some (delete (uuid_String id) idx)
  else None.

Definition apply_event (idx : gmap string ESDoc) e : gmap string ESDoc := default idx (effect e idx).

Definition replay (idx : gmap string ESDoc) (es : list OutboxEvent) : gmap string ESDoc := foldl apply_event idx es.

Definition waiting e : Prop := ev_ProcessedAt e = None.

#[local] Instance waiting_dec e : Decision (waiting e).
Proof. unfold waiting. apply _. Defined.

Definition pending s : list OutboxEvent := filter waiting (ob_rows (c_outbox s)).

(** No two products have the same idempotency key. *)
Definition unique_keys (m : gmap UUID Product) : Prop :=
  forall id id' p q, m !! id = Some p -> m !! id' = Some q -> pr_IdempotencyKey p = pr_IdempotencyKey q -> id = id'.

(** The consistency of table, outbox and index. *)
Record cat_ok s : Prop := MkCatOk {
  cat_synced : replay (c_index s) (pending s) = project (c_products s);
  cat_keyed : forall id p, c_products s !! id = Some p -> pr_ID p = id;
  cat_prices : forall id p, c_products s !! id = Some p -> in_int64 (pr_Price p) = true;
  cat_wellformed : Forall (fun e => forall idx, is_Some (effect e idx)) (pending s);
  cat_ids : NoDup (ev_ID <$> ob_rows (c_outbox s));
  cat_unique : unique_keys (c_products s)
}.

(** Appending the event of a change keeps everything in step. *)
Lemma append_event_ok s e m :
  cat_ok s -> (forall idx, effect e (project (c_products s)) = Some (project m) /\ is_Some (effect e idx)) ->
  (forall id p, m !! id = Some p -> pr_ID p = id /\ in_int64 (pr_Price p) = true) -> unique_keys m ->
  existsb (fun e' => bool_decide (ev_ID e' = ev_ID e)) (ob_rows (c_outbox s)) = false -> waiting e ->
  cat_ok (set_c_outbox (MkOutbox (ob_rows (c_outbox s) ++ [e]) (ob_dlq (c_outbox s))) (set_products m s)).
Proof.
  intros [H1 H2 H3 H4 H5 _] He Hm Huniq Hex Hw.
  assert (Hpend : pending (set_c_outbox (MkOutbox (ob_rows (c_outbox s) ++ [e]) (ob_dlq (c_outbox s))) (set_products m s))
                  = pending s ++ [e]).
  { unfold pending. simpl. rewrite filter_app, filter_cons, filter_nil. by rewrite decide_True. }
  split.
  - rewrite Hpend. unfold replay. rewrite foldl_app. simpl. fold (replay (c_index s) (pending s)). rewrite H1.
    unfold apply_event. by destruct (He ∅) as [-> _].
  - intros id p Hp. by apply Hm.
  - intros id p Hp. by eapply Hm.
  - rewrite Hpend. apply Forall_app. split; [done|]. apply Forall_singleton. intros idx. apply (He idx).
  - simpl. rewrite fmap_app. apply NoDup_app. split_and!; [done| |apply NoDup_singleton].
    intros x Hx Hx'. apply list_elem_of_singleton in Hx' as ->. apply list_elem_of_fmap in Hx as (e' & Heq & Hin).
    apply not_true_iff_false in Hex. apply Hex, existsb_exists. exists e'. rewrite <- list_elem_of_In.
    split; [done|]. by apply bool_decide_eq_true.
  - done.
Qed.

(** The outbox insert of a transaction. *)
Lemma CatOutbox_Create_ok e o w u w' :
  CatOutbox_Create e o w = (inr u, w') ->
  exists e', ev_EventType e' = ev_EventType e /\ ev_Payload e' = ev_Payload e /\ waiting e' /\ ev_ID e' = ev_ID e /\
    existsb (fun x => bool_decide (ev_ID x = ev_ID e')) (ob_rows (c_outbox (w_st w))) = false /\
    w_st w' = set_c_outbox (MkOutbox (ob_rows (c_outbox (w_st w)) ++ [e']) (ob_dlq (c_outbox (w_st w)))) (w_st w).
Proof.
  unfold CatOutbox_Create. intros H. apply bind_ok in H as (e1 & w1 & H1 & H).
  assert (Hsame : w_st w1 = w_st w /\ exists t, new_outbox_row e1 = new_outbox_row (with_NextRetryAt t e)).
  { destruct (IsZero (ev_NextRetryAt e)).
    - unfold bind, now, ret in H1. simplify_eq. eauto.
    - unfold ret in H1. simplify_eq. split; [done|]. exists (ev_NextRetryAt e1). done. }
  destruct Hsame as [<- [t Ht]]. apply wrap_err_ok, io_ok in H.
  destruct (existsb _ (ob_rows (c_outbox (w_st w1)))) eqn:Hex; [done|]. injection H as _ H.
  exists (new_outbox_row e1). rewrite H. split_and!; try done; rewrite Ht; done.
Qed.

Lemma catalog_event_ok ty agg pl o w e w' :
  catalog_event ty agg pl o w = (inr e, w') -> ev_EventType e = ty /\ ev_Payload e = pl /\ w_st w' = w_st w.
Proof. unfold catalog_event, bind, new_uuid, now, ret. intros H. by simplify_eq/=. Qed.

Lemma created_effect p ty e idx :
  ev_EventType e = ty -> ty = "ProductCreated" \/ ty = "ProductUpdated" -> ev_Payload e = marshal_product p ->
  in_int64 (pr_Price p) = true -> effect e idx = Some (<[uuid_String (pr_ID p) := es_document p]> idx).
Proof.
  intros Hty Hor Hpl Hp. unfold effect. rewrite Hty, Hpl, product_json_roundtrip by done. by destruct Hor as [-> | ->].
Qed.

Lemma deleted_effect id e idx :
  ev_EventType e = "ProductDeleted" -> ev_Payload e = JObj [("product_id", JStr (uuid_String id))] ->
  effect e idx = Some (delete (uuid_String id) idx).
Proof.
  intros Hty Hpl. unfold effect, delete_payload, field_string, struct_field. rewrite Hty, Hpl.
  change (entries "product_id" _) with [JStr (uuid_String id)]. simpl. by rewrite uuid_Parse_String.
Qed.

(** ** The three writes *)

Lemma cat_ok_run {A} (body : M CatSt A) o w :
  cat_ok (w_st w) ->
  (forall a w1, body o (next w) = (inr a, w1) -> cat_ok (w_st w1)) -> cat_ok (w_st (snd (RunTx body o w))).
Proof.
  intros HI Hbody. destruct (RunTx body o w) as [r w'] eqn:Hrun. unfold RunTx in Hrun. simpl.
  apply Run_atomic in Hrun as [->|(a & w1 & Hb & ->)]; [done|by eapply Hbody].
Qed.

Lemma products_insert_ok s p id q :
  cat_ok s -> in_int64 (pr_Price p) = true -> <[pr_ID p := p]> (c_products s) !! id = Some q ->
  pr_ID q = id /\ in_int64 (pr_Price q) = true.
Proof.
  intros HI Hp [[<- <-]|[_ Hq]]%lookup_insert_Some; [done|].
  split; [by apply (cat_keyed _ HI)|by eapply (cat_prices _ HI)].
Qed.

Lemma unique_keys_insert m p :
  unique_keys m -> (forall id q, m !! id = Some q -> pr_IdempotencyKey q = pr_IdempotencyKey p -> id = pr_ID p) ->
  unique_keys (<[pr_ID p := p]> m).
Proof.
  intros Hm Hp id id' q q' [[<- <-]|[_ Hq]]%lookup_insert_Some [[<- <-]|[_ Hq']]%lookup_insert_Some Hk; [done| | |by eapply Hm].
  - symmetry. eapply Hp; [exact Hq'|done].
  - eapply Hp; [exact Hq|done].
Qed.

(** A product written together with its event. *)
Lemma write_and_announce s p e ty :
  cat_ok s -> in_int64 (pr_Price p) = true -> ev_EventType e = ty -> ty = "ProductCreated" \/ ty = "ProductUpdated" ->
  ev_Payload e = marshal_product p -> waiting e ->
  existsb (fun x => bool_decide (ev_ID x = ev_ID e)) (ob_rows (c_outbox s)) = false ->
  (forall id q, c_products s !! id = Some q -> pr_IdempotencyKey q = pr_IdempotencyKey p -> id = pr_ID p) ->
  cat_ok (set_c_outbox (MkOutbox (ob_rows (c_outbox s) ++ [e]) (ob_dlq (c_outbox s)))
            (set_products (<[pr_ID p := p]> (c_products s)) s)).
Proof.
  intros HI Hp Hty Hor Hpl Hw Hex Hkey. apply append_event_ok; [done| | | |done|done].
  - intros idx. rewrite !(created_effect p ty) by done. by rewrite project_insert.
  - intros id q. by apply products_insert_ok.
  - by apply unique_keys_insert; [apply cat_unique|].
Qed.

Lemma elem_of_products s p : p ∈ products s <-> exists id, c_products s !! id = Some p.
Proof.
  unfold products. rewrite list_elem_of_fmap. split.
  - intros ([k v] & -> & Hin). exists k. by apply elem_of_map_to_list in Hin.
  - intros [id Hid]. exists (id, p). split; [done|]. by apply elem_of_map_to_list.
Qed.

Lemma CreateProduct_keeps name description price categories key o w :
  in_int64 price = true -> c_products (w_st w) !! o_uuid o (w_tick w) = None ->
  cat_ok (w_st w) -> cat_ok (w_st (snd (CreateProduct name description price categories key o w))).
Proof.
  intros Hp Hfresh HI. unfold CreateProduct, bind at 1, new_uuid. unfold bind at 1, now. cbn [next w_tick w_st].
  set (p := MkProduct _ _ _ _ _ _ _). unfold bind at 1.
  destruct (catalog_event _ _ _ o _) as [[err|e] w1] eqn:Hev; [by unfold catalog_event, bind, new_uuid, now, ret in Hev|].
  apply catalog_event_ok in Hev as (Hty & Hpl & Hw1). simpl in Hw1.
  apply cat_ok_run; [by rewrite Hw1|]. intros a w2 H.
  apply bind_ok in H as (id & w3 & Hc & H). apply bind_ok in H as (u & w4 & Ho & H). unfold ret in H. simplify_eq.
  apply wrap_err_ok, CatOutbox_Create_ok in Ho as (e' & Hty' & Hpl' & Hwait & _ & Hex & ->).
  apply wrap_err_ok in Hc. unfold ProductRepo_Create in Hc. apply bind_ok in Hc as (id & w5 & Hins & Hc).
  case_bool_decide as Hid; [|done]. unfold ret in Hc. simplify_eq. apply wrap_err_ok, io_ok in Hins.
  unfold insert_product in Hins. simpl in Hins. rewrite Hw1 in Hins.
  destruct (negb _); [done|]. destruct (price <? 0); [done|].
  destruct (List.find _ _) as [q|] eqn:Hfind.
  - exfalso. injection Hins as Hq _. apply find_some in Hfind as [Hin _]. apply list_elem_of_In in Hin.
    apply elem_of_products in Hin as [k Hin].
    pose proof (cat_keyed _ HI _ _ Hin) as Hkey. congruence.
  - rewrite Hfresh in Hins. injection Hins as Hst. rewrite <- Hst in *. simpl in Hex |- *.
    eapply (write_and_announce (w_st w) p e' "ProductCreated"); [done|done|congruence|by left|congruence|done|done|].
    intros id q Hq Hk. exfalso.
    assert (Hin : In q (products (w_st w))) by (apply list_elem_of_In, elem_of_products; eauto).
    apply (find_none _ _ Hfind), bool_decide_eq_false in Hin. by apply Hin.
Qed.

Lemma GetByID_ok id o w p w' : ProductRepo_GetByID id o w = (inr p, w') -> c_products (w_st w) !! id = Some p /\ w_st w' = w_st w.
Proof.
  unfold ProductRepo_GetByID. intros H. apply bind_ok in H as (r & w1 & Hr & H). apply wrap_err_ok, read_inv in Hr as [Hw Hr].
  specialize (Hr r eq_refl). injection Hr as Hr. destruct r as [q|]; [|done]. unfold ret in H. simplify_eq. by rewrite Hw.
Qed.

Lemma UpdateProduct_keeps id name description price categories o w :
  (forall x, price = Some x -> in_int64 x = true) ->
  cat_ok (w_st w) -> cat_ok (w_st (snd (UpdateProduct id name description price categories o w))).
Proof.
  intros Hp HI. apply cat_ok_run; [done|]. intros [] w' H.
  apply bind_ok in H as (q & w1 & Hget & H). apply wrap_err_ok, GetByID_ok in Hget as [Hq Hw1].
  change (w_st (next w)) with (w_st w) in *.
  set (p := merge_fields q name description price categories) in *.
  assert (Hprice : in_int64 (pr_Price p) = true).
  { simpl. destruct price as [x|]; simpl; [by apply Hp|by eapply (cat_prices _ HI)]. }
  pose proof (cat_keyed _ HI _ _ Hq) as Hid.
  apply bind_ok in H as (u & w2 & Hup & H). apply wrap_err_ok in Hup. unfold ProductRepo_Update in Hup.
  apply bind_ok in Hup as (n & w3 & Hup & Hn). apply wrap_err_ok, io_ok in Hup. unfold update_product in Hup.
  rewrite Hw1 in Hup. change (pr_ID p) with (pr_ID q) in Hup. rewrite Hid, Hq in Hup.
  destruct (negb _); [done|]. destruct (pr_Price p <? 0); [done|]. injection Hup as <- Hw3.
  unfold affected_or_not_found, ret in Hn. simplify_eq/=.
  apply bind_ok in H as (e & w4 & Hev & H). apply catalog_event_ok in Hev as (Hty & Hpl & Hw4).
  apply wrap_err_ok, CatOutbox_Create_ok in H as (e' & Hty' & Hpl' & Hwait & _ & Hex & ->).
  rewrite Hw4, <- Hw3 in *. simpl in Hex |- *.
  eapply (write_and_announce (w_st w) p e' "ProductUpdated"); [done|done|congruence|by right|congruence|done|done|].
  intros id' q' Hq' Hk. rewrite (cat_unique _ HI _ _ _ _ Hq' Hq Hk). by symmetry.
Qed.

Lemma DeleteProduct_keeps id o w : cat_ok (w_st w) -> cat_ok (w_st (snd (DeleteProduct id o w))).
Proof.
  intros HI. apply cat_ok_run; [done|]. intros [] w' H.
  apply bind_ok in H as (u & w1 & Hdel & H). apply wrap_err_ok in Hdel. unfold ProductRepo_Delete in Hdel.
  apply bind_ok in Hdel as (n & w2 & Hdel & Hn). apply wrap_err_ok, io_ok in Hdel. change (w_st (next w)) with (w_st w) in Hdel.
  destruct (c_products (w_st w) !! id) as [q|] eqn:Hq; injection Hdel as <- Hw2; unfold affected_or_not_found, ret in Hn; [|done].
  simplify_eq/=. apply bind_ok in H as (e & w4 & Hev & H). apply catalog_event_ok in Hev as (Hty & Hpl & Hw4).
  apply wrap_err_ok, CatOutbox_Create_ok in H as (e' & Hty' & Hpl' & Hwait & _ & Hex & ->).
  rewrite Hw4, <- Hw2 in *. simpl in Hex |- *.
  apply append_event_ok; [done| | | |done|done].
  - intros idx. rewrite !(deleted_effect id) by congruence. by rewrite project_delete.
  - intros id' p [_ Hp]%lookup_delete_Some. split; [by apply (cat_keyed _ HI)|by eapply (cat_prices _ HI)].
  - intros i j p' q' [_ Hi]%lookup_delete_Some [_ Hj]%lookup_delete_Some. by apply (cat_unique _ HI).
Qed.

(** One call of the service's API. *)
Inductive cat_call :=
| CallCreateProduct (name description : string) (price : Z) (categories : list string) (key : string)
| CallUpdateProduct (ctx : Ctx) (id : string) (name description : option string) (price : option Z) (categories : list string)
| CallDeleteProduct (ctx : Ctx) (id : string)
| CallGetProduct (id : string)
| CallListProducts (page pageSize : Z)
| CallSearchProducts (query : string) (page pageSize : Z).

(** Prices on the wire are 64-bit. *)
Definition typed_call (c : cat_call) : Prop :=
  match c with
  | CallCreateProduct _ _ price _ _ => in_int64 price = true
  | CallUpdateProduct _ _ _ _ (Some price) _ => in_int64 price = true
  | _ => True
  end.

Definition cat_serve (c : cat_call) : M CatSt unit :=
  match c with
  | CallCreateProduct n d p cs k => do* attempt (handler_CreateProduct n d p cs k) in ret tt
  | CallUpdateProduct ctx id n d p cs => do* attempt (handler_UpdateProduct ctx id n d p cs) in ret tt
  | CallDeleteProduct ctx id => do* attempt (handler_DeleteProduct ctx id) in ret tt
  | CallGetProduct id => do* attempt (handler_GetProduct id) in ret tt
  | CallListProducts page size => do* attempt (handler_ListProducts page size) in ret tt
  | CallSearchProducts q page size => do* attempt (handler_SearchProducts es_search q page size) in ret tt
  end.

(** The state after a wrapped call is that of the call. *)
Lemma served_state {A B} (m : M CatSt A) (f : A -> B) g o w :
  w_st (snd ((do* attempt (let* a := wrap_err g m in ret (f a)) in ret tt) o w)) = w_st (snd (m o w)).
Proof. unfold bind, attempt, wrap_err, ret. by destruct (m o w) as [[] ?]. Qed.

(** C18. Every call of the catalog API, whatever fails, keeps table, outbox and
    index in step: replaying the waiting events on the index gives exactly the
    projection of the products table.  A product and its event are written
    together or not at all. *)
Theorem catalog_stays_in_step c o w :
  typed_call c -> c_products (w_st w) !! o_uuid o (w_tick w) = None ->
  cat_ok (w_st w) -> cat_ok (w_st (snd (cat_serve c o w))).
Proof.
  intros Hty Hfresh HI. destruct c as [n d p cs k|ctx id n d p cs|ctx id|id|page size|q page size]; simpl in Hty; simpl cat_serve.
  - unfold handler_CreateProduct. rewrite served_state. by apply CreateProduct_keeps.
  - unfold handler_UpdateProduct. destruct (RequireRole _ _); [done|]. destruct (uuid_Parse id); [|done].
    rewrite served_state. apply UpdateProduct_keeps; [|done]. by intros x ->.
  - unfold handler_DeleteProduct. destruct (RequireRole _ _); [done|]. destruct (uuid_Parse id); [|done].
    rewrite served_state. by apply DeleteProduct_keeps.
  - assert (Hpres : pres cat_ok (do* attempt (handler_GetProduct id) in ret tt)); [|by apply Hpres].
    unfold handler_GetProduct, cat_GetProduct, ProductRepo_GetByID. auto 12 with go_pres.
  - assert (Hpres : pres cat_ok (do* attempt (handler_ListProducts page size) in ret tt)); [|by apply Hpres].
    unfold handler_ListProducts, ListProducts, ProductRepo_List. auto 12 with go_pres.
  - assert (Hpres : pres cat_ok (do* attempt (handler_SearchProducts es_search q page size) in ret tt)); [|by apply Hpres].
    unfold handler_SearchProducts, SearchProducts, ES_Search. auto 12 with go_pres.
Qed.

(** ** Polls in which nothing fails *)

Lemma Handle_calm e o w :
  no_faults o -> (forall idx, is_Some (effect e idx)) ->
  Handle e o w = (inr tt, World (S (w_tick w)) (set_index (apply_event (c_index (w_st w)) e) (w_st w))).
Proof.
  intros Ho He. specialize (He (c_index (w_st w))). unfold Handle, apply_event. revert He. unfold effect.
  destruct (bool_decide _ || bool_decide _).
  - destruct (unmarshal_product (ev_Payload e)) as [p|]; simpl; [|by intros []]. intros _.
    unfold ES_Index, wrap_err. by go_step Ho.
  - destruct (bool_decide (ev_EventType e = "ProductDeleted")); [|by intros []].
    destruct (delete_payload (ev_Payload e)) as [text|]; simpl; [|by intros []].
    destruct (uuid_Parse text) as [id|]; simpl; [|by intros []]. intros _. unfold ES_Delete, wrap_err. by go_step Ho.
Qed.

Lemma handle_all_calm es o w :
  no_faults o -> Forall (fun e => forall idx, is_Some (effect e idx)) es ->
  handle_all es o w = (inr ((fun e => (e, None)) <$> es),
    World (length es + w_tick w) (set_index (replay (c_index (w_st w)) es) (w_st w))).
Proof.
  intros Ho Hes. revert w. induction Hes as [|e es He Hes IH]; intros w; simpl.
  - unfold ret. f_equal. destruct w as [n []]. done.
  - unfold bind, attempt. rewrite (Handle_calm e o w Ho He). rewrite IH. simpl. unfold ret. do 3 f_equal. lia.
Qed.

Lemma filter_mark t id (rows : list OutboxEvent) :
  filter waiting ((fun e => if bool_decide (ev_ID e ∈ [id]) then mark t e else e) <$> rows) =
  filter (fun e => ev_ID e ≠ id) (filter waiting rows).
Proof.
  induction rows as [|e rows IH]; [done|]. rewrite fmap_cons, !filter_cons, IH.
  destruct (decide (ev_ID e = id)) as [Heq|Hne].
  - rewrite (bool_decide_eq_true_2 (ev_ID e ∈ [id])) by set_solver.
    rewrite (decide_False (P := waiting (mark t e))) by done.
    destruct (decide (waiting e)); [|done]. rewrite filter_cons, decide_False by (by intros []). done.
  - rewrite (bool_decide_eq_false_2 (ev_ID e ∈ [id])) by set_solver.
    destruct (decide (waiting e)); [|done]. by rewrite filter_cons, decide_True.
Qed.

(** Only the outbox rows differ: same keys, and the waiting ones are filtered. *)
Definition marked_off (ids : list UUID) s s' : Prop :=
  c_products s' = c_products s /\ c_index s' = c_index s /\
  ev_ID <$> ob_rows (c_outbox s') = ev_ID <$> ob_rows (c_outbox s) /\
  pending s' = filter (fun e => ev_ID e ∉ ids) (pending s).

Lemma record_results_calm t es o w :
  no_faults o ->
  exists w', record_results t ((fun e => (e, None)) <$> es) o w = (inr tt, w') /\ marked_off (ev_ID <$> es) (w_st w) (w_st w').
Proof.
  intros Ho. revert w. induction es as [|e es IH]; intros w; simpl.
  - exists w. split; [done|]. split_and!; [done..|]. symmetry. apply list_filter_all. intros x _. by apply not_elem_of_nil.
  - unfold bind at 1, record_result, CatOutbox_BatchMarkProcessed, wrap_err, bind, now. go_step Ho. simpl.
    set (w1 := World _ _). destruct (IH w1) as (w' & Hrun & Hp & Hi & Hids & Hpend). exists w'. split; [done|].
    split_and!; [done|done| |].
    + rewrite Hids. simpl. rewrite <- list_fmap_compose. apply list_fmap_ext. intros i x _. simpl. by destruct (bool_decide _).
    + rewrite Hpend. unfold w1, pending. simpl. rewrite filter_mark, list_filter_filter. apply list_filter_iff.
      intros x. rewrite not_elem_of_cons. tauto.
Qed.

Definition earlier e e' : Prop := ev_CreatedAt e < ev_CreatedAt e'.

(** The waiting events are due, and their time stamps follow the order in which
    they were written. *)
Record orderly (T : Z) s : Prop := MkOrderly {
  orderly_sorted : StronglySorted earlier (pending s);
  orderly_due : Forall (fun e => ev_NextRetryAt e <= T) (pending s)
}.

#[local] Instance older_event_trans : Transitive older_event.
Proof. intros a b c. unfold older_event. lia. Qed.

#[local] Instance older_event_total : Total older_event.
Proof. intros a b. unfold older_event. lia. Qed.

Lemma sort_pending s : StronglySorted earlier (pending s) -> merge_sort older_event (pending s) = pending s.
Proof.
  intros Hs.
  assert (Hle : StronglySorted older_event (pending s)).
  { eapply StronglySorted_weaken; [|exact Hs]. unfold earlier, older_event. intros; lia. }
  assert (Heq : forall e1 e2, e1 ∈ pending s -> e2 ∈ pending s -> ev_CreatedAt e1 = ev_CreatedAt e2 -> e1 = e2).
  { clear Hle. induction Hs as [|e es Hes IH Hall]; [by intros e1 e2 ?%elem_of_nil|].
    rewrite Forall_forall in Hall. unfold earlier in Hall.
    intros e1 e2 [->|H1]%elem_of_cons [->|H2]%elem_of_cons Ht; [done| | |by apply IH].
    - specialize (Hall _ H2). lia.
    - specialize (Hall _ H1). lia. }
  apply (StronglySorted_unique_strong older_event).
  - intros e1 e2 H1 H2 H12 H21. rewrite merge_sort_Permutation in H1. apply Heq; [done|done|].
    unfold older_event in *. lia.
  - apply StronglySorted_merge_sort; apply _.
  - done.
  - apply merge_sort_Permutation.
Qed.

Lemma due_pending t s :
  Forall (fun e => ev_NextRetryAt e <= t) (pending s) -> filter (due t) (ob_rows (c_outbox s)) = pending s.
Proof.
  unfold pending. generalize (ob_rows (c_outbox s)). induction l as [|e l IH]; [done|]. rewrite !filter_cons.
  intros Hall. destruct (decide (waiting e)) as [Hw|Hw].
  - inversion Hall; subst. rewrite decide_True by done. f_equal. by apply IH.
  - rewrite decide_False by (intros [? _]; by apply Hw). by apply IH.
Qed.

(** Taking the first events off a list without duplicate keys. *)
Lemma filter_taken (es es' : list OutboxEvent) :
  NoDup (ev_ID <$> es ++ es') -> filter (fun e => ev_ID e ∉ ev_ID <$> es) (es ++ es') = es'.
Proof.
  intros Hnd. rewrite filter_app, (list_filter_nil _ es), list_filter_all; [done| |].
  - intros x Hx Hin. rewrite fmap_app in Hnd. apply NoDup_app in Hnd as (_ & Hdis & _).
    apply (Hdis (ev_ID x)); [done|]. by apply list_elem_of_fmap_2.
  - intros x Hx Hnot. apply Hnot. by apply list_elem_of_fmap_2.
Qed.

Lemma pending_nodup s : cat_ok s -> NoDup (ev_ID <$> pending s).
Proof.
  intros HI. eapply sublist_NoDup; [exact (cat_ids _ HI)|]. apply fmap_sublist, sublist_filter.
Qed.

(** One poll without failures: it replays the oldest hundred waiting events on the
    index, and they no longer wait. *)
Lemma cat_poll_calm T o w :
  no_faults o -> (forall n, T <= o_now o n) -> cat_ok (w_st w) -> orderly T (w_st w) ->
  exists w', cat_poll o w = (inr tt, w') /\ let s' := w_st w' in
  c_products s' = c_products (w_st w) /\ c_index s' = replay (c_index (w_st w)) (take 100 (pending (w_st w))) /\
  pending s' = drop 100 (pending (w_st w)) /\
  (ev_ID <$> ob_rows (c_outbox s')) = (ev_ID <$> ob_rows (c_outbox (w_st w))).
Proof.
  intros Ho HT HI [Hsort Hdue]. simpl.
  assert (Hget : exists w1, RunTx (CatOutbox_GetUnprocessed 100) o w = (inr (take 100 (pending (w_st w))), w1) /\ w_st w1 = w_st w).
  { unfold RunTx. go_step Ho. unfold CatOutbox_GetUnprocessed, bind, now, wrap_err. go_step Ho. simpl.
    rewrite due_pending, sort_pending by (done || (eapply Forall_impl; [exact Hdue|]; intros e He; simpl in He; specialize (HT (S (w_tick w))); lia)).
    eauto. }
  destruct Hget as (w1 & Hget & Hw1). unfold cat_poll, bind at 1, attempt at 1. rewrite Hget.
  case_bool_decide as Hlen.
  - apply nil_length_inv in Hlen. exists w1. simpl. rewrite Hw1, Hlen. split_and!; try done.
    destruct (pending (w_st w)) eqn:Hpe; [done|by inversion Hlen].
  - unfold bind at 1. rewrite handle_all_calm; [|done|by apply Forall_take, cat_wellformed]. rewrite Hw1.
    unfold bind at 1, now. set (w2 := next _). unfold bind, attempt, RunTx. rewrite (Run_no_faults _ _ _ Ho).
    destruct (record_results_calm (o_now o (w_tick (World (length (take 100 (pending (w_st w))) + w_tick w1)
      (set_index (replay (c_index (w_st w)) (take 100 (pending (w_st w)))) (w_st w))))) (take 100 (pending (w_st w))) o (next w2) Ho)
      as (w3 & Hrun & Hp & Hi & Hids & Hpend).
    rewrite Hrun. exists (next w3). simpl. split_and!; [done|done|done| |done].
    change (pending (w_st (next w3))) with (pending (w_st w3)). rewrite Hpend.
    change (pending (w_st (next w2))) with (pending (w_st w)).
    pose proof (filter_taken (take 100 (pending (w_st w))) (drop 100 (pending (w_st w)))) as Htaken.
    rewrite take_drop in Htaken. by apply Htaken, pending_nodup.
Qed.

Lemma replay_app idx es es' : replay idx (es ++ es') = replay (replay idx es) es'.
Proof. apply foldl_app. Qed.

(** Such a poll keeps the consistency and the order of what still waits. *)
Lemma cat_poll_keeps T o w w' :
  no_faults o -> (forall n, T <= o_now o n) -> cat_ok (w_st w) -> orderly T (w_st w) -> cat_poll o w = (inr tt, w') ->
  cat_ok (w_st w') /\ orderly T (w_st w') /\ c_products (w_st w') = c_products (w_st w) /\
  pending (w_st w') = drop 100 (pending (w_st w)).
Proof.
  intros Ho HT HI Hord Hrun. destruct (cat_poll_calm T o w Ho HT HI Hord) as (w1 & Hrun' & Hp & Hi & Hpend & Hids).
  rewrite Hrun in Hrun'. injection Hrun' as <-. destruct HI as [H1 H2 H3 H4 H5 H8]. destruct Hord as [H6 H7].
  split_and!; [split|split|done|done]; rewrite ?Hp, ?Hpend, ?Hids; try done.
  - by rewrite Hi, <- replay_app, take_drop.
  - by apply Forall_drop.
  - rewrite <- (take_drop 100 (pending (w_st w))) in H6. by apply StronglySorted_app in H6 as (_ & _ & ?).
  - by apply Forall_drop.
Qed.

Fixpoint cat_polls (k : nat) : M CatSt unit :=
  match k with O => ret tt | S k' => do* cat_poll in cat_polls k' end.

Lemma cat_polls_drain T k o w :
  no_faults o -> (forall n, T <= o_now o n) -> cat_ok (w_st w) -> orderly T (w_st w) ->
  (length (pending (w_st w)) <= 100 * k)%nat ->
  exists w', cat_polls k o w = (inr tt, w') /\ c_products (w_st w') = c_products (w_st w) /\
    c_index (w_st w') = project (c_products (w_st w)) /\ pending (w_st w') = [].
Proof.
  intros Ho HT. revert w. induction k as [|k IH]; intros w HI Hord Hlen; simpl.
  - assert (Hnil : pending (w_st w) = []) by (apply nil_length_inv; lia).
    exists w. split_and!; [done|done| |done]. pose proof (cat_synced _ HI) as Hs. by rewrite Hnil in Hs.
  - destruct (cat_poll_calm T o w Ho HT HI Hord) as (w1 & Hrun & _).
    destruct (cat_poll_keeps T o w w1 Ho HT HI Hord Hrun) as (HI1 & Hord1 & Hp1 & Hpend1).
    destruct (IH w1 HI1 Hord1) as (w2 & Hrun2 & Hp2 & Hi2 & Hpend2); [rewrite Hpend1, length_drop; lia|].
    exists w2. unfold bind. rewrite Hrun. rewrite Hp1 in *. done.
Qed.

(** C19. The search index converges: from any consistent state, once calls stop,
    polls in which nothing fails make the index exactly the projection of the
    products table, a hundred events a poll, with nothing left waiting. *)
Theorem index_converges T k o w :
  no_faults o -> (forall n, T <= o_now o n) -> cat_ok (w_st w) -> orderly T (w_st w) ->
  (length (pending (w_st w)) <= 100 * k)%nat ->
  exists w', cat_polls k o w = (inr tt, w') /\ c_products (w_st w') = c_products (w_st w) /\
    c_index (w_st w') = project (c_products (w_st w)) /\ pending (w_st w') = [].
Proof. apply cat_polls_drain. Qed.

(** ** Idempotency keys *)

(** A second CreateProduct with a key that is already taken is answered
    AlreadyExists and changes nothing. *)
Theorem duplicate_key_refused name description price categories key q o w :
  no_faults o -> fits_varchar 255 name = true -> fits_varchar 255 key = true -> 0 <= price ->
  cat_ok (w_st w) -> c_products (w_st w) !! o_uuid o (w_tick w) = None ->
  c_products (w_st w) !! pr_ID q = Some q -> pr_IdempotencyKey q = key ->
  exists msg w', handler_CreateProduct name description price categories key o w = (inl (EStatus AlreadyExists msg), w') /\
    w_st w' = w_st w.
Proof.
  intros Ho Hname Hkey Hprice HI Hfresh Hq Hqk.
  assert (Hfind : exists q', List.find (fun q => bool_decide (pr_IdempotencyKey q = key)) (products (w_st w)) = Some q'
                             /\ pr_ID q' ≠ o_uuid o (w_tick w)).
  { destruct (List.find _ _) as [q'|] eqn:Hf.
    - exists q'. split; [done|]. apply find_some in Hf as [Hin%list_elem_of_In _].
      apply elem_of_products in Hin as [id Hin]. pose proof (cat_keyed _ HI _ _ Hin). congruence.
    - assert (Hin : In q (products (w_st w))) by (apply list_elem_of_In, elem_of_products; eauto).
      apply (find_none _ _ Hf), bool_decide_eq_false in Hin. by destruct Hin. }
  destruct Hfind as (q' & Hf & Hne).
  unfold handler_CreateProduct, CreateProduct, catalog_event, ProductRepo_Create, RunTx.
  unfold bind at 1, wrap_err at 1, bind at 1, new_uuid, now, ret. cbn [w_tick w_st next].
  unfold bind at 1. unfold bind at 1. unfold bind at 1. unfold bind at 1. cbn [w_tick w_st next].
  go_step Ho. unfold bind, wrap_err. go_step Ho. unfold insert_product. cbn [pr_Name pr_IdempotencyKey pr_Price pr_ID w_st next].
  rewrite Hname, Hkey. simpl. rewrite (proj2 (Z.ltb_ge price 0)) by lia. rewrite Hf. simpl.
  rewrite bool_decide_eq_false_2 by done. simpl. eauto.
Qed.

(** ** Search *)

(** What a search can tell about a product. *)
Definition search_view p : Product :=
  MkProduct (pr_ID p) (pr_Name p) (pr_Description p) (pr_Price p) (pr_Categories p) "" (pr_CreatedAt p / 10 ^ 9 * 10 ^ 9).

Lemma float64_round_small z : Z.abs z < 2 ^ 53 -> float64_round z = z.
Proof.
  intros Hz. unfold float64_round. destruct (Z.leb_spec (Z.log2 (Z.abs z) - 52) 0) as [_|Hl]; [done|].
  assert (Z.abs z ≠ 0) by (intros H0; rewrite H0 in Hl; simpl in Hl; lia).
  assert (2 ^ 53 <= Z.abs z); [|lia]. apply Z.log2_le_pow2; lia.
Qed.

Lemma omap_strings (l : list string) : omap (fun j => match j with JStr s => Some s | _ => None end) (JStr <$> l) = l.
Proof. induction l as [|x l IH]; [done|]. simpl. by f_equal. Qed.

(** A document reads back as the product it was made from, with its whole
    seconds and without its idempotency key, as long as the price is exact in a
    64-bit float. *)
Lemma es_roundtrip p : Z.abs (pr_Price p) < 2 ^ 53 -> mapToProduct (Some (es_document p)) = inr (search_view p).
Proof.
  intros Hp. unfold mapToProduct, es_document.
  change (json_field "id" _) with (Some (JStr (uuid_String (pr_ID p)))).
  change (json_field "name" _) with (Some (JStr (pr_Name p))).
  change (json_field "description" _) with (Some (JStr (pr_Description p))).
  change (json_field "price_cents" _) with (Some (JNum (pr_Price p))).
  change (json_field "categories" _) with (Some (json_strings (pr_Categories p))).
  change (json_field "created_at" _) with (Some (JTime (pr_CreatedAt p / 10 ^ 9 * 10 ^ 9))).
  cbv beta iota. rewrite bool_decide_eq_false_2 by apply uuid_String_nonempty. rewrite uuid_Parse_String.
  rewrite float64_round_small by done. unfold int64_of_float, search_view. f_equal. f_equal.
  - unfold in_int64. destruct (Z.leb_spec (- 2 ^ 63) (pr_Price p)); [|lia]. destruct (Z.ltb_spec (pr_Price p) (2 ^ 63)); [done|lia].
  - destruct (pr_Categories p) as [|c l]; [done|]. apply (omap_strings (c :: l)).
Qed.

Lemma map_hits_products (ps : list Product) :
  Forall (fun p => Z.abs (pr_Price p) < 2 ^ 53) ps -> map_hits (es_document <$> ps) = inr (search_view <$> ps).
Proof.
  induction 1 as [|p ps Hp Hps IH]; [done|]. change (map_hits (es_document <$> (p :: ps))) with
    (match mapToProduct (Some (es_document p)), map_hits (es_document <$> ps) with
     | inl e, _ => inl (wrapf "map hit to product" e)
     | inr _, inl e => inl e
     | inr p, inr l => inr (p :: l)
     end). by rewrite es_roundtrip, IH.
Qed.

Lemma project_values m (hits : list ESDoc) :
  (forall d, d ∈ hits -> exists key, project m !! key = Some d) ->
  exists ps, hits = es_document <$> ps /\ Forall (fun p => exists id, m !! id = Some p) ps.
Proof.
  induction hits as [|d hits IH]; intros Hh; [by exists []|].
  destruct IH as (ps & -> & Hps); [intros d' Hd'; apply Hh; by right|].
  destruct (Hh d) as [key Hkey]; [by left|]. unfold project in Hkey.
  apply lookup_kmap_Some in Hkey as (id & -> & Hid); [|exact uuid_String_Inj].
  apply lookup_fmap_Some in Hid as (p & <- & Hp). exists (p :: ps). split; [done|]. constructor; eauto.
Qed.

(** A search over an up-to-date index returns products of the table: with an
    engine that returns stored documents, every hit is mapped without error to
    what the document keeps of a product that exists, and the total is passed on. *)
Theorem search_reads_table query page size o w :
  (forall idx text from n d, d ∈ fst (es_search idx text from n) -> exists key, idx !! key = Some d) ->
  no_faults o -> c_index (w_st w) = project (c_products (w_st w)) ->
  (forall id p, c_products (w_st w) !! id = Some p -> Z.abs (pr_Price p) < 2 ^ 53) ->
  exists ps total, SearchProducts es_search query page size o w = (inr (search_view <$> ps, total), next w) /\
    Forall (fun p => exists id, c_products (w_st w) !! id = Some p) ps.
Proof.
  intros Hes Ho Hidx Hprices. unfold SearchProducts, ES_Search.
  set (from := int64 _). destruct (es_search (c_index (w_st w)) query from (size_or size)) as [hits total] eqn:Hs.
  destruct (project_values (c_products (w_st w)) hits) as (ps & -> & Hps).
  { intros d Hd. rewrite <- Hidx. apply (Hes _ query from (size_or size)). by rewrite Hs. }
  exists ps, total. split; [|done]. unfold bind, wrap_err. go_step Ho. cbv beta. rewrite Hs. simpl.
  rewrite map_hits_products; [done|]. eapply Forall_impl; [exact Hps|]. intros p [id Hp]. by eapply Hprices.
Qed.

(** Above 2^53 a price shown by a search can differ from the stored one. *)
Lemma search_price_rounds : float64_round (2 ^ 53 + 1) = 2 ^ 53.
Proof. reflexivity. Qed.

(** ** Authorisation *)

(** Updates and deletions need the admin role; without it nothing is read or
    written. *)
Lemma catalog_needs_admin ctx (err : error) product_id name description price categories o w :
  RequireRole ctx [RoleAdmin] = Some err ->
  handler_UpdateProduct ctx product_id name description price categories o w = (inl err, w) /\
  handler_DeleteProduct ctx product_id o w = (inl err, w).
Proof. intros He. unfold handler_UpdateProduct, handler_DeleteProduct. by rewrite He. Qed.
End Facts.


(** ** Concrete runs *)

Section Samples.
#[local] Existing Instance uuid_text.
#[local] Existing Instance uuid_text_laws.

Definition cat_oracle (f : nat -> fault) : oracle := Oracle f (fun n => 10 ^ 9 * Z.of_nat n) uuid_sample (fun _ => None) (fun _ => true).

Definition cat_calm : oracle := cat_oracle (fun _ => FNone).

Lemma cat_calm_no_faults : no_faults cat_calm.
Proof. by split. Qed.

Definition no_products : CatSt := MkCatSt ∅ (MkOutbox [] ∅) ∅.

Lemma no_products_ok : cat_ok no_products.
Proof.
  split; try done; try (intros ? ? Hx; by rewrite lookup_empty in Hx).
  constructor.
Qed.

Definition lamp : M CatSt string := handler_CreateProduct "Lamp" "A lamp" 100 ["home"] "key-1".

Definition lamp_world : world CatSt := snd (lamp cat_calm (World 0 no_products)).

Definition lamp_id : UUID := uuid_sample 0.

Definition admin : Ctx := WithIdentity Background (MkIdentity "root" RoleAdmin "").

Definition search_all (idx : gmap string ESDoc) (query : string) (from size : Z) : list ESDoc * Z :=
  ((map_to_list idx).*2, Z.of_nat (base.size idx)).

Lemma catalog_stays_in_step_witness :
  cat_ok (w_st (snd (cat_serve search_all (CallCreateProduct "Lamp" "A lamp" 100 ["home"] "key-1") cat_calm (World 0 no_products)))).
Proof. apply catalog_stays_in_step; [reflexivity|reflexivity|exact no_products_ok]. Defined.

Lemma lamp_world_ok : cat_ok (w_st lamp_world).
Proof.
  change (cat_ok (w_st (snd (cat_serve search_all (CallCreateProduct "Lamp" "A lamp" 100 ["home"] "key-1") cat_calm (World 0 no_products))))).
  unfold cat_serve, handler_CreateProduct. rewrite served_state. apply CreateProduct_keeps; [reflexivity|reflexivity|exact no_products_ok].
Qed.

Definition lamp_row : Product := MkProduct lamp_id "Lamp" "A lamp" 100 ["home"] "key-1" (10 ^ 9).
Lemma lamp_stored : c_products (w_st lamp_world) = {[lamp_id := lamp_row]}.
Proof. reflexivity. Qed.

Lemma duplicate_key_refused_witness : exists msg w',
  handler_CreateProduct "Torch" "A torch" 5 [] "key-1" cat_calm lamp_world = (inl (EStatus AlreadyExists msg), w') /\
  w_st w' = w_st lamp_world.
Proof.
  apply (duplicate_key_refused "Torch" "A torch" 5 [] "key-1" lamp_row).
  - exact cat_calm_no_faults.
  - reflexivity.
  - reflexivity.
  - lia.
  - exact lamp_world_ok.
  - rewrite lamp_stored. reflexivity.
  - rewrite lamp_stored. reflexivity.
  - reflexivity.
Defined.

Definition later : oracle := Oracle (fun _ => FNone) (fun n => 10 ^ 12 + 10 ^ 9 * Z.of_nat n) uuid_sample (fun _ => None) (fun _ => true).

Definition lamp_event : OutboxEvent :=
  MkEvent (uuid_sample 2) "product" (uuid_String lamp_id) "ProductCreated" (marshal_product lamp_row) (3 * 10 ^ 9) None 0 None (6 * 10 ^ 9).

Lemma lamp_pending : pending (w_st lamp_world) = [lamp_event].
Proof. reflexivity. Qed.

Lemma lamp_orderly : orderly (10 ^ 12) (w_st lamp_world).
Proof. split; rewrite lamp_pending; repeat constructor. simpl. lia. Qed.

Lemma index_converges_witness : exists w',
  cat_polls 1 later lamp_world = (inr tt, w') /\ c_products (w_st w') = c_products (w_st lamp_world) /\
  c_index (w_st w') = project (c_products (w_st lamp_world)) /\ pending (w_st w') = [].
Proof.
  apply (index_converges (10 ^ 12) 1 later lamp_world); [by split|intros n; simpl; lia|exact lamp_world_ok|exact lamp_orderly|].
  rewrite lamp_pending. simpl. lia.
Defined.

Definition indexed_world : world CatSt := snd (cat_polls 1 later lamp_world).

Lemma search_reads_table_witness : exists ps total,
  SearchProducts search_all "lamp" 1 10 later indexed_world = (inr (search_view <$> ps, total), next indexed_world) /\
  Forall (fun p => exists id, c_products (w_st indexed_world) !! id = Some p) ps.
Proof.
  apply (search_reads_table search_all "lamp" 1 10 later indexed_world).
  - intros idx q from n d Hd. simpl in Hd. apply list_elem_of_fmap in Hd as ([k v] & -> & Hin).
    exists k. by apply elem_of_map_to_list.
  - by split.
  - reflexivity.
  - intros id p Hp. change (c_products (w_st indexed_world)) with (c_products (w_st lamp_world)) in Hp. rewrite lamp_stored in Hp. apply lookup_singleton_Some in Hp as [_ <-]. simpl. lia.
Defined.

(** The price of the lamp is raised, but the index call of its first event fails
    once. *)
Definition raise_price : M CatSt bool := handler_UpdateProduct admin (uuid_String lamp_id) None None (Some 200) [].

Definition stale_run : world CatSt :=
  let o := Oracle (fun n => if Nat.eqb n 21 then FBefore (EPlain "elasticsearch: timeout") else FNone)
             (fun n => 10 ^ 12 + 10 ^ 9 * Z.of_nat n) uuid_sample (fun _ => None) (fun _ => true) in
  snd (cat_polls 2 o (snd (raise_price cat_calm lamp_world))).

(** The failed ProductCreated is retried after ProductUpdated was applied: both
    polls succeed in the end, nothing waits any more, and the index keeps the old
    price for good. *)
Theorem retry_leaves_index_stale :
  pending (w_st stale_run) = [] /\ pr_Price <$> products (w_st stale_run) = [200] /\
  (json_field "price_cents") <$> (map_to_list (c_index (w_st stale_run))).*2 = [Some (JNum 100)].
Proof. split_and!; reflexivity. Qed.
End Samples.
