(* ===== verification/CatalogRaces.v ===== *)
(** * Several outbox relays of catalog-service

    [Catalog.v] runs one relay.  The deployment sets a replica count for the service
    and every replica polls: here the relays interleave.  A poll reads its batch in
    one transaction, calls Elasticsearch outside of any, and records the results in
    a second transaction; between the two it holds no lock. *)
From S2P Require Import Prelude Errors Effects Auth OrderDomain OrderRepo Outbox OutboxRaces Catalog CatalogFacts.

Section Races.
Context `{U : UuidLib} (C : UUID -> string * json).

Definition result : Type := OutboxEvent * option error.

Inductive cat_pc :=
| CIdle
| CGot (todo : list OutboxEvent) (results : list result).

(** The write of the second transaction for one result. *)
Definition cat_booking (failedAt t : Z) (r : result) : relay_write :=
  match r.2 with
  | None => WMark [ev_ID r.1] t
  | Some err =>
      if Is err ErrPoison || (relay_maxRetries <=? ev_RetryCount r.1 + 1) then WDlq r.1 failedAt (Error err)
      else WRetry (ev_ID r.1) (Error err) (t + backoff (ev_RetryCount r.1))
  end.

(** One transaction or one call of the index; [L]: rows that a transaction of
    another relay has locked just then.  The flag is false when something fails, the
    list is what was handled. *)
Inductive cat_step (tab : OutboxTables) (idx : gmap string ESDoc)
  : bool -> cat_pc -> list UUID -> cat_pc -> OutboxTables -> gmap string ESDoc -> Prop :=
| cs_select t L : cat_step tab idx true CIdle [] (CGot (select_rows t L (ob_rows tab)) []) tab idx
| cs_handled e es rs idx' :
    effect e idx = Some idx' -> cat_step tab idx true (CGot (e :: es) rs) [ev_ID e] (CGot es (rs ++ [(e, None)])) tab idx'
| cs_failed e es rs err : cat_step tab idx false (CGot (e :: es) rs) [] (CGot es (rs ++ [(e, Some err)])) tab idx
| cs_unheard e es rs err idx' :
    effect e idx = Some idx' -> cat_step tab idx false (CGot (e :: es) rs) [] (CGot es (rs ++ [(e, Some err)])) tab idx'
| cs_recorded failedAt rs ws :
    Forall2 (fun r wr => exists t, wr = cat_booking failedAt t r) rs ws ->
    cat_step tab idx true (CGot [] rs) [] CIdle (writes ws tab) idx
| cs_lost p : cat_step tab idx false p [] CIdle tab idx.

Record cat_relays := MkCatRelays {
  cr_tab : OutboxTables;
  cr_index : gmap string ESDoc;
  cr_handled : list UUID;
  cr_ths : list cat_pc
}.

Inductive cat_relays_step : bool -> cat_relays -> cat_relays -> Prop :=
| cr_join tab idx h ths : cat_relays_step true (MkCatRelays tab idx h ths) (MkCatRelays tab idx h (ths ++ [CIdle]))
| cr_create tab idx h ths e :
    ev_ID e ∉ (ev_ID <$> ob_rows tab) -> C (ev_ID e) = (ev_AggregateID e, ev_Payload e) -> ev_ProcessedAt e = None ->
    cat_relays_step true (MkCatRelays tab idx h ths) (MkCatRelays (MkOutbox (ob_rows tab ++ [e]) (ob_dlq tab)) idx h ths)
| cr_run tab idx h ths i ok p ids p' tab' idx' :
    ths !! i = Some p -> cat_step tab idx ok p ids p' tab' idx' ->
    cat_relays_step ok (MkCatRelays tab idx h ths) (MkCatRelays tab' idx' (h ++ ids) (<[i := p']> ths)).

Definition cat_run (s s' : cat_relays) : Prop := rtc (fun a b => exists ok, cat_relays_step ok a b) s s'.

Definition no_relays : cat_relays := MkCatRelays (MkOutbox [] ∅) ∅ [] [].
Definition cat_relays_reachable (s : cat_relays) : Prop := cat_run no_relays s.

(** ** At least once *)

Definition content (e : OutboxEvent) : Prop := C (ev_ID e) = (ev_AggregateID e, ev_Payload e).

Record cat_tab_ok (h : list UUID) (tab : OutboxTables) : Prop := MkCatTabOk {
  ct_rows : forall e, e ∈ ob_rows tab -> content e;
  ct_dlq : forall id d, ob_dlq tab !! id = Some d -> C id = (dq_AggregateID d, dq_Payload d);
  ct_processed : forall id, processed tab id -> id ∈ h
}.

Definition cat_pc_ok (h : list UUID) (p : cat_pc) : Prop :=
  match p with
  | CIdle => True
  | CGot todo rs => (forall e, e ∈ todo -> content e) /\ forall r, r ∈ rs -> content r.1 /\ (r.2 = None -> ev_ID r.1 ∈ h)
  end.

Definition cat_relays_ok (s : cat_relays) : Prop :=
  cat_tab_ok (cr_handled s) (cr_tab s) /\ forall i p, cr_ths s !! i = Some p -> cat_pc_ok (cr_handled s) p.

(** A write that marks only handled events and dead-letters known ones. *)
Definition cat_write_ok (h : list UUID) (x : relay_write) : Prop :=
  match x with WMark l _ => forall id, id ∈ l -> id ∈ h | WRetry _ _ _ => True | WDlq e _ _ => content e end.

Lemma cat_write_keeps h tab x : cat_tab_ok h tab -> cat_write_ok h x -> cat_tab_ok h (write tab x).
Proof.
  intros [Hr Hd Hp] Hx. split.
  - intros e'. rewrite write_rows. intros (e & He & Hw)%list_elem_of_omap.
    destruct (write_row_id _ _ _ Hw) as (Hid & Hag & Hpl). unfold content. rewrite Hid, Hag, Hpl. by apply Hr.
  - intros id d. destruct x as [l t|id0 msg t|e t msg]; simpl; [apply Hd..|].
    destruct (ob_dlq tab !! ev_ID e); [apply Hd|]. intros [[<- <-]|[_ ?]]%lookup_insert_Some; [done|by apply Hd].
  - intros id (e' & He' & Hid & Hq). rewrite write_rows in He'. apply list_elem_of_omap in He' as (e & He & Hw).
    destruct (write_row_id _ _ _ Hw) as (Hsame & _ & _).
    destruct x as [l t|id0 msg t|e0 t msg]; simpl in Hw; case_bool_decide as Hb; simplify_eq/=; try (by apply Hp; exists e').
    + by apply Hx.
    + apply Hp. by exists e.
Qed.

Lemma cat_writes_keep h ws tab : cat_tab_ok h tab -> (forall x, x ∈ ws -> cat_write_ok h x) -> cat_tab_ok h (writes ws tab).
Proof.
  unfold writes. revert tab. induction ws as [|x ws IH]; intros tab Ht Hws; simpl; [done|].
  apply IH; [|intros y Hy; apply Hws; by apply list_elem_of_further]. apply cat_write_keeps; [done|]. apply Hws, list_elem_of_here.
Qed.

Lemma cat_booking_ok h failedAt t r : content r.1 -> (r.2 = None -> ev_ID r.1 ∈ h) -> cat_write_ok h (cat_booking failedAt t r).
Proof.
  intros Hc Hh. unfold cat_booking. destruct (r.2) as [err|]; [by destruct (_ || _)|]. simpl. intros id ->%list_elem_of_singleton. by apply Hh.
Qed.

Lemma cat_pc_ok_mono h h' p : (forall id, id ∈ h -> id ∈ h') -> cat_pc_ok h p -> cat_pc_ok h' p.
Proof.
  intros Hh. destruct p as [|todo rs]; [done|]. intros [H1 H2]. split; [done|]. intros r Hr. destruct (H2 r Hr) as [? H3].
  split; [done|]. intros Hn. by apply Hh, H3.
Qed.

Lemma cat_step_pc tab idx ok h p ids p' tab' idx' :
  cat_step tab idx ok p ids p' tab' idx' -> cat_tab_ok h tab -> cat_pc_ok h p -> cat_pc_ok (h ++ ids) p'.
Proof.
  assert (Hmore : forall e es rs ids res, (res = None -> ids = [ev_ID e]) -> cat_pc_ok h (CGot (e :: es) rs) ->
    cat_pc_ok (h ++ ids) (CGot es (rs ++ [(e, res)]))).
  { intros e es rs ids0 res Hres Hp. apply (cat_pc_ok_mono _ (h ++ ids0)) in Hp; [|intros id ?; apply elem_of_app; by left].
    destruct Hp as [H1 H2]. split; [intros e' He'; apply H1; by apply list_elem_of_further|].
    intros r [Hr| ->%list_elem_of_singleton]%elem_of_app; [by apply H2|]. split; [apply H1, list_elem_of_here|].
    intros Hn. simpl in *. rewrite (Hres Hn). apply elem_of_app. right. apply list_elem_of_here. }
  intros Hs Ht Hp. destruct Hs as [t L|e es rs idx' He|e es rs err|e es rs err idx' He|failedAt rs ws Hws|p]; [|by apply Hmore..|done|done].
  split; [|by intros r ?%elem_of_nil]. intros e (He & _)%elem_of_select. by apply (ct_rows _ _ Ht).
Qed.

Lemma cat_step_tab tab idx ok h p ids p' tab' idx' :
  cat_step tab idx ok p ids p' tab' idx' -> cat_tab_ok h tab -> cat_pc_ok h p -> cat_tab_ok h tab'.
Proof.
  intros Hs Ht Hp. destruct Hs as [t L|e es rs idx' He|e es rs err|e es rs err idx' He|failedAt rs ws Hws|p]; try done.
  apply cat_writes_keep; [done|]. intros x Hx. apply list_elem_of_lookup in Hx as [i Hi].
  destruct (Forall2_lookup_r _ _ _ _ _ Hws Hi) as (r & Hr & t & ->). apply list_elem_of_lookup_2 in Hr.
  destruct Hp as [_ Hp]. destruct (Hp r Hr). by apply cat_booking_ok.
Qed.

Lemma cat_tab_ok_mono h h' tab : (forall id, id ∈ h -> id ∈ h') -> cat_tab_ok h tab -> cat_tab_ok h' tab.
Proof. intros Hh [H1 H2 H3]. split; [done|done|]. intros id Hid. by apply Hh, H3. Qed.

Lemma cat_relays_ok_step ok s s' : cat_relays_ok s -> cat_relays_step ok s s' -> cat_relays_ok s'.
Proof.
  intros [Ht Hp] Hs. destruct Hs as [tab idx h ths|tab idx h ths e Hn HC Hq|tab idx h ths i ok p ids p' tab' idx' Hi Hs]; simpl in *.
  - split; [done|]. intros j q [Hj|[-> ->]]%lookup_snoc_cases; [by apply (Hp j)|done].
  - split; [|done]. destruct Ht as [H1 H2 H3]. split; simpl; [|done|].
    + intros e' [He'| ->%list_elem_of_singleton]%elem_of_app; [by apply H1|done].
    + intros id (e' & [He'| ->%list_elem_of_singleton]%elem_of_app & Hid & Hne); [|done]. apply H3. by exists e'.
  - assert (Hmono : forall id, id ∈ h -> id ∈ h ++ ids) by (intros id ?; apply elem_of_app; by left).
    split; simpl; [eapply cat_tab_ok_mono, cat_step_tab; eauto|].
    intros j q [[-> ->]|[Hj Hq]]%lookup_insert_cases; [by eapply cat_step_pc; eauto|]. eapply cat_pc_ok_mono; [done|by apply (Hp j)].
Qed.

Lemma cat_relays_ok_reachable s : cat_relays_reachable s -> cat_relays_ok s.
Proof.
  unfold cat_relays_reachable, cat_run. revert s. apply rtc_ind_r.
  - split; [|by intros i p Hi]. split; simpl; [by intros e ?%elem_of_nil|intros id d; by rewrite lookup_empty|].
    by intros id (e & ?%elem_of_nil & _).
  - intros s s' _ [ok Hs] Hok. by eapply cat_relays_ok_step.
Qed.

Lemma kept_write tab x id : kept tab id -> kept (write tab x) id.
Proof.
  intros [(e & He & <-)|Hd].
  - destruct (write_row x e) as [e'|] eqn:Hw.
    + left. exists e'. rewrite write_rows. destruct (write_row_id _ _ _ Hw) as [-> _]. split; [apply list_elem_of_omap; by exists e|done].
    + right. destruct x as [l t|id0 msg t|e0 t msg]; [done..|]. simpl in Hw. case_bool_decide as Hb; [|done]. rewrite Hb.
      apply (writes_dlq_moved [WDlq e0 t msg] tab e0 t msg), list_elem_of_here.
  - right. by apply (writes_dlq_mono [x]).
Qed.

Lemma kept_writes ws tab id : kept tab id -> kept (writes ws tab) id.
Proof. unfold writes. revert tab. induction ws as [|x ws IH]; intros tab Hk; simpl; [done|]. by apply IH, kept_write. Qed.

Lemma cat_kept_step ok s s' id : cat_relays_step ok s s' -> kept (cr_tab s) id -> kept (cr_tab s') id.
Proof.
  intros Hs Hk. destruct Hs as [|tab idx h ths e Hn HC Hq|tab idx h ths i ok p ids p' tab' idx' Hi Hs]; simpl in *; [done| |].
  - destruct Hk as [(e' & He' & Hid)|Hd]; [left|by right]. exists e'. split; [apply elem_of_app; by left|done].
  - destruct Hs; try done. by apply kept_writes.
Qed.

(** C20. With any number of relays and any failures, no product event is lost: it stays
    in the outbox or its DLQ with its payload, and it is marked processed only after
    the index has taken it. *)
Theorem cat_relays_lose_nothing s s' :
  cat_relays_reachable s -> cat_run s s' ->
  (forall id, kept (cr_tab s) id -> kept (cr_tab s') id) /\
  (forall id, processed (cr_tab s') id -> id ∈ cr_handled s') /\
  (forall id d, ob_dlq (cr_tab s') !! id = Some d -> C id = (dq_AggregateID d, dq_Payload d)).
Proof.
  intros Hs Hrun. assert (Hok : cat_relays_ok s') by (apply cat_relays_ok_reachable; unfold cat_relays_reachable, cat_run; by etrans). split_and!.
  - intros id. clear Hok Hs. induction Hrun as [s|s1 s2 s3 [ok Hstep] _ IH]; [done|]. intros Hk. by eapply IH, cat_kept_step.
  - apply (ct_processed _ _ (proj1 Hok)).
  - apply (ct_dlq _ _ (proj1 Hok)).
Qed.

(** ** The poll of [Catalog.v] is a run of a relay *)

Lemma Handle_sim e o w r w' :
  Handle e o w = (r, w') ->
  c_products (w_st w') = c_products (w_st w) /\ c_outbox (w_st w') = c_outbox (w_st w) /\
  match r with
  | inr _ => effect e (c_index (w_st w)) = Some (c_index (w_st w'))
  | inl _ => c_index (w_st w') = c_index (w_st w) \/ effect e (c_index (w_st w)) = Some (c_index (w_st w'))
  end.
Proof.
  unfold Handle, effect, throw, ES_Index, ES_Delete, wrap_err, io. intros H.
  destruct (bool_decide _ || bool_decide _).
  - destruct (unmarshal_product (ev_Payload e)) as [p|]; [|simplify_eq; by auto].
    destruct (o_fault o (w_tick w)); simplify_eq/=; by auto.
  - destruct (bool_decide (ev_EventType e = "ProductDeleted")); [|simplify_eq; by auto].
    destruct (delete_payload (ev_Payload e)) as [text|]; [|simplify_eq; by auto]. simpl.
    destruct (uuid_Parse text) as [id|]; [|simplify_eq; by auto].
    destruct (o_fault o (w_tick w)); simplify_eq/=; by auto.
Qed.

Lemma cat_one_step ok tab idx h p ids p' tab' idx' s' :
  cat_step tab idx ok p ids p' tab' idx' -> cat_run (MkCatRelays tab' idx' (h ++ ids) [p']) s' ->
  cat_run (MkCatRelays tab idx h [p]) s'.
Proof. intros Hs Hr. eapply rtc_l; [|exact Hr]. exists ok. by apply (cr_run tab idx h [p] 0 ok p). Qed.

Lemma handle_all_sim es rs o w h :
  exists res w' h', handle_all es o w = (inr res, w') /\
  c_products (w_st w') = c_products (w_st w) /\ c_outbox (w_st w') = c_outbox (w_st w) /\
  cat_run (MkCatRelays (c_outbox (w_st w)) (c_index (w_st w)) h [CGot es rs])
    (MkCatRelays (c_outbox (w_st w)) (c_index (w_st w')) h' [CGot [] (rs ++ res)]).
Proof.
  revert rs w h. induction es as [|e es IH]; intros rs w h; simpl.
  { exists [], w, h. rewrite app_nil_r. split_and!; [done..|apply rtc_refl]. }
  unfold bind, attempt. destruct (Handle e o w) as [r w1] eqn:H1. apply Handle_sim in H1 as (Hp1 & Ho1 & He1).
  set (res1 := (e, match r with inl err => Some err | inr _ => None end) : result).
  destruct (IH (rs ++ [res1]) w1 (h ++ match r with inr _ => [ev_ID e] | inl _ => [] end)) as (res & w2 & h2 & -> & Hp2 & Ho2 & Hrun).
  exists (res1 :: res), w2, h2. split_and!; [done|congruence|congruence|]. rewrite Ho1, <- app_assoc in Hrun.
  destruct r as [err|u].
  - destruct He1 as [He1|He1]; [rewrite He1 in Hrun; eapply cat_one_step; [apply cs_failed|exact Hrun]|].
    eapply cat_one_step; [apply cs_unheard, He1|exact Hrun].
  - eapply cat_one_step; [apply cs_handled, He1|exact Hrun].
Qed.

Lemma record_result_ok failedAt r o w u w' :
  record_result failedAt r.1 r.2 o w = (inr u, w') ->
  exists t, w_st w' = set_c_outbox (write (c_outbox (w_st w)) (cat_booking failedAt t r)) (w_st w).
Proof.
  unfold record_result, cat_booking. destruct (r.2) as [err|].
  - destruct (Is err ErrPoison || (relay_maxRetries <=? ev_RetryCount r.1 + 1)).
    + intros (u1 & w1 & H1%wrap_err_ok%io_ok & H2%wrap_err_ok%io_ok)%wrap_err_ok%bind_ok. exists 0.
      injection H2 as _ H2. rewrite <- H2. injection H1 as _ H1. rewrite <- H1. simpl.
      by destruct (ob_dlq (c_outbox (w_st w)) !! ev_ID r.1) eqn:Hd.
    + intros (nr & w1 & Hnow & H2%wrap_err_ok%wrap_err_ok%io_ok)%bind_ok. unfold cat_calculateNextRetry, bind, now, ret in Hnow.
      injection Hnow as <- <-. exists (o_now o (w_tick w)). by injection H2 as _ H2.
  - intros (t & w1 & [= <- <-] & H2%wrap_err_ok%io_ok)%wrap_err_ok%bind_ok. exists (o_now o (w_tick w)). by injection H2 as _ H2.
Qed.

Lemma record_results_ok failedAt rs o w u w' :
  record_results failedAt rs o w = (inr u, w') ->
  exists ws, Forall2 (fun r wr => exists t, wr = cat_booking failedAt t r) rs ws /\
  w_st w' = set_c_outbox (writes ws (c_outbox (w_st w))) (w_st w).
Proof.
  revert w. induction rs as [|[e r] rs IH]; intros w; simpl.
  - intros [= _ <-]. exists []. split; [constructor|]. by destruct (w_st w).
  - intros (u1 & w1 & (t & H1)%(record_result_ok failedAt (e, r)) & (ws & Hws & H2)%IH)%bind_ok. exists (cat_booking failedAt t (e, r) :: ws).
    split; [constructor; [by exists t|done]|]. by rewrite H2, H1.
Qed.

Lemma GetUnprocessed_selects o w evs w' :
  RunTx (CatOutbox_GetUnprocessed 100) o w = (inr evs, w') -> exists t, evs = select_rows t [] (ob_rows (c_outbox (w_st w))).
Proof.
  intros (w1 & H1 & _)%Run_ok. unfold CatOutbox_GetUnprocessed in H1.
  apply bind_ok in H1 as (t & w3 & [= <- <-] & H3%wrap_err_ok). apply read_inv in H3 as [_ H3].
  specialize (H3 evs eq_refl). injection H3 as <-. eexists. unfold select_rows. f_equal. f_equal.
  apply list_filter_iff. intros e. split; [intros Hd; split; [exact Hd|by intros ?%elem_of_nil]|by intros [? _]].
Qed.

Definition cat_poll_ends (h : list UUID) (s s' : CatSt) : Prop :=
  c_products s' = c_products s /\ exists h',
  cat_run (MkCatRelays (c_outbox s) (c_index s) h [CIdle]) (MkCatRelays (c_outbox s') (c_index s') h' [CIdle]).

Lemma cat_poll_sim o h w : cat_poll_ends h (w_st w) (w_st (snd (cat_poll o w))).
Proof.
  unfold cat_poll, bind at 1, attempt at 1. destruct (RunTx (CatOutbox_GetUnprocessed 100) o w) as [r w1] eqn:H1.
  assert (Hw1 : w_st w1 = w_st w).
  { apply Run_atomic in H1 as [H1|(evs & w2 & H2 & ->)]; [done|]. unfold CatOutbox_GetUnprocessed in H2.
    apply bind_ok in H2 as (t & w3 & [= <- <-] & H3%wrap_err_ok). by apply read_inv in H3 as [-> _]. }
  assert (Hskip : cat_poll_ends h (w_st w) (w_st w1)) by (rewrite Hw1; split; [done|]; exists h; apply rtc_refl).
  destruct r as [e|evs]; [exact Hskip|]. case_bool_decide as Hlen; [exact Hskip|]. clear Hskip.
  apply GetUnprocessed_selects in H1 as [t Hsel]. destruct (handle_all_sim evs [] o w1 h) as (res & w2 & h2 & Hall & Hp2 & Ho2 & Hrun).
  unfold bind, attempt, now, ret. rewrite Hall. destruct (RunTx (record_results _ res) o (next w2)) as [r3 w3] eqn:H3. cbn [snd].
  rewrite Hw1 in *. assert (Hgo : forall s', cat_run (MkCatRelays (c_outbox (w_st w)) (c_index (w_st w2)) h2 [CGot [] res]) s' ->
    cat_run (MkCatRelays (c_outbox (w_st w)) (c_index (w_st w)) h [CIdle]) s').
  { intros s' Hs'. eapply cat_one_step; [apply (cs_select _ _ t [])|]. rewrite <- Hsel, app_nil_r. unfold cat_run. by etrans. }
  unfold cat_poll_ends. apply Run_atomic in H3 as [H3|(u & w4 & (ws & Hws & H4)%record_results_ok & H3)].
  - rewrite H3. split; [done|]. exists (h2 ++ []). simpl. rewrite Ho2. apply Hgo. eapply cat_one_step; [apply cs_lost|apply rtc_refl].
  - rewrite H3, H4. split; [done|]. exists (h2 ++ []). simpl. rewrite Ho2. apply Hgo.
    eapply cat_one_step; [by apply (cs_recorded _ _ (o_now o (w_tick w2)) res ws)|apply rtc_refl].
Qed.

(** The poll of [Catalog.v] is a run of this machine, whatever fails. *)
Theorem cat_poll_refines_relay o h w :
  let s' := w_st (snd (cat_poll o w)) in
  c_products s' = c_products (w_st w) /\ exists h',
  cat_run (MkCatRelays (c_outbox (w_st w)) (c_index (w_st w)) h [CIdle]) (MkCatRelays (c_outbox s') (c_index s') h' [CIdle]).
Proof. apply cat_poll_sim. Qed.
End Races.

(** ** Two relays and a price change *)

Section Samples.
Local Existing Instance uuid_text.

Definition raised_row : Product := MkProduct lamp_id "Lamp" "A lamp" 200 ["home"] "key-1" (10 ^ 9).

Definition raised_event : OutboxEvent :=
  MkEvent (uuid_sample 3) "product" (uuid_String lamp_id) "ProductUpdated" (marshal_product raised_row) (5 * 10 ^ 9) None 0 None (5 * 10 ^ 9).

Definition lamp_content (id : UUID) : string * json :=
  (uuid_String lamp_id, marshal_product (if bool_decide (id = uuid_sample 3) then raised_row else lamp_row)).

(** What a relay writes after handling [es]. *)
Definition all_marked (es : list OutboxEvent) : list relay_write := (fun e => WMark [ev_ID e] 20) <$> es.

Definition stale_relays : cat_relays :=
  MkCatRelays (writes (all_marked [lamp_event]) (writes (all_marked [lamp_event; raised_event]) (MkOutbox [lamp_event; raised_event] ∅)))
    (replay ∅ [lamp_event; raised_event; lamp_event]) [uuid_sample 2; uuid_sample 3; uuid_sample 2] [CIdle; CIdle].

Lemma stale_run_calm : rtc (cat_relays_step lamp_content true) no_relays stale_relays.
Proof.
  eapply rtc_l; [apply cr_join|]. eapply rtc_l; [apply cr_join|].
  eapply rtc_l; [apply (cr_create _ _ _ _ _ lamp_event); [by intros ?%elem_of_nil|reflexivity|reflexivity]|].
  eapply rtc_l; [apply (cr_run _ _ _ _ _ 0 true CIdle); [reflexivity|apply (cs_select _ _ (10 ^ 10) [])]|].
  eapply rtc_l; [apply (cr_create _ _ _ _ _ raised_event); [|reflexivity|reflexivity]|].
  { intros Hin%list_elem_of_singleton. discriminate. }
  eapply rtc_l; [apply (cr_run _ _ _ _ _ 1 true CIdle); [reflexivity|apply (cs_select _ _ (10 ^ 10) [])]|].
  eapply rtc_l; [eapply (cr_run _ _ _ _ _ 1 true); [reflexivity|apply (cs_handled _ _ lamp_event); reflexivity]|].
  eapply rtc_l; [eapply (cr_run _ _ _ _ _ 1 true); [reflexivity|apply (cs_handled _ _ raised_event); reflexivity]|].
  eapply rtc_l; [eapply (cr_run _ _ _ _ _ 1 true); [reflexivity|apply (cs_recorded _ _ 20 _ (all_marked [lamp_event; raised_event]))]|].
  { repeat (constructor; [by exists 20|]). constructor. }
  eapply rtc_l; [eapply (cr_run _ _ _ _ _ 0 true); [reflexivity|apply (cs_handled _ _ lamp_event); reflexivity]|].
  eapply rtc_l; [eapply (cr_run _ _ _ _ _ 0 true); [reflexivity|apply (cs_recorded _ _ 20 _ (all_marked [lamp_event]))]|].
  { repeat (constructor; [by exists 20|]). constructor. }
  apply rtc_refl.
Qed.

(** Relay 0 reads the creation; before it calls the index, the price changes and
    relay 1 handles both events; then relay 0 goes on.  Nothing fails, every event
    is processed, and the index keeps the old price for good. *)
Theorem slow_relay_leaves_index_stale :
  rtc (cat_relays_step lamp_content true) no_relays stale_relays /\
  filter waiting (ob_rows (cr_tab stale_relays)) = [] /\
  (json_field "price_cents") <$> (map_to_list (cr_index stale_relays)).*2 = [Some (JNum 100)] /\
  (json_field "price_cents") <$> (map_to_list (replay ∅ [lamp_event; raised_event])).*2 = [Some (JNum 200)].
Proof. split; [exact stale_run_calm|]. split_and!; reflexivity. Qed.

Lemma cat_calm_run s s' : rtc (cat_relays_step lamp_content true) s s' -> cat_run lamp_content s s'.
Proof. apply rtc_subrel. intros a b Hab. by exists true. Qed.

Lemma cat_relays_lose_nothing_witness :
  kept (cr_tab stale_relays) (uuid_sample 2) /\ processed (cr_tab stale_relays) (uuid_sample 2) /\ uuid_sample 2 ∈ cr_handled stale_relays.
Proof.
  destruct (cat_relays_lose_nothing lamp_content no_relays stale_relays (rtc_refl _ _) (cat_calm_run _ _ stale_run_calm)) as (_ & Hp & _).
  assert (Hpr : processed (cr_tab stale_relays) (uuid_sample 2)).
  { exists (mark 20 (mark 20 lamp_event)). split_and!; [apply list_elem_of_here|reflexivity|discriminate]. }
  split_and!; [|exact Hpr|by apply Hp]. left. exists (mark 20 (mark 20 lamp_event)). split; [apply list_elem_of_here|reflexivity].
Defined.
End Samples.
