(* ===== verification/Checkout.v ===== *)
(** * Checkout: the four services of an order

    order-service with its clients of inventory-, payment- and catalog-service, each
    over the model of the other service's handler, and what CreateOrder leaves in the
    tables of the four databases under every pattern of failures. *)
From S2P Require Import Prelude Errors Effects Auth Inventory InventoryFacts Payment PaymentFacts OrderDomain OrderRepo Saga SagaFacts SagaFrame OrderService System OrderFacts Catalog.

(** ** Clients on a part of the world *)

Section Lift.
Context `{U : UuidLib} {E E' : Type} {IC : InventoryClient E} {PC : PaymentClient E} {L : SagaClientLaws E}.
Context (l : lens E' E) {LL : LensLaws l}.

#[local] Instance lift_inventory : InventoryClient E' := {|
  cl_Reserve p q oid k := zoom l (cl_Reserve p q oid k); cl_Release p q oid k := zoom l (cl_Release p q oid k)
|}.

#[local] Instance lift_payment : PaymentClient E' := {|
  cl_ProcessPayment oid a k := zoom l (cl_ProcessPayment oid a k); cl_Refund pid k := zoom l (cl_Refund pid k)
|}.

Lemma zoom_part {A} (m : M E A) o (w : world E') r w' :
  zoom l m o w = (r, w') -> exists w1, m o (World (w_tick w) (l_get l (w_st w))) = (r, w1) /\ l_get l (w_st w') = w_st w1.
Proof. intros (w1 & Hm & Hw)%zoom_run. exists w1. split; [done|]. by rewrite Hw, l_get_put. Qed.

(** What the saga relies on carries over. *)
#[local] Program Instance lift_laws : SagaClientLaws E' := {|
  holds_at e oid p q := holds_at (l_get l e) oid p q; payment_at e oid pid := payment_at (l_get l e) oid pid
|}.
Next Obligation. intros p q oid k o w u w' (w1 & Hm & ->)%zoom_part. by eapply Reserve_holds. Qed.
Next Obligation. intros oid' p' q' p q oid k. apply (pres_zoom l (fun e => holds_at e oid' p' q')), Reserve_keeps_holds. Qed.
Next Obligation. intros oid' p' q' oid a k. apply (pres_zoom l (fun e => holds_at e oid' p' q')), Pay_keeps_holds. Qed.
Next Obligation. intros oid a k o w pid w' (w1 & Hm & ->)%zoom_part. by eapply Pay_recorded. Qed.
End Lift.

Section Checkout.
Context `{U : UuidLib} `{HL : !UuidLaws}.
Context (redis : bool) (dlq : option DLQProducer) (inv_ctx pay_ctx : Ctx) (pb_text : string -> Z -> string -> string).

(** The three other services. *)
Definition shop : Type := sys * CatSt.

Definition sys_lens : lens shop sys := Lens fst (fun t s => (t, snd s)).
Definition cat_lens : lens shop CatSt := Lens snd (fun t s => (fst s, t)).

#[global] Instance sys_lens_laws : LensLaws sys_lens.
Proof. split; by intros; destruct s. Qed.

#[global] Instance cat_lens_laws : LensLaws cat_lens.
Proof. split; by intros; destruct s. Qed.

#[local] Instance shop_inventory : InventoryClient shop := lift_inventory (IC := grpc_inventory redis inv_ctx) sys_lens.
#[local] Instance shop_payment : PaymentClient shop := lift_payment (PC := grpc_payment dlq pay_ctx pb_text) sys_lens.

#[local] Instance shop_laws : SagaClientLaws shop :=
  lift_laws (IC := grpc_inventory redis inv_ctx) (PC := grpc_payment dlq pay_ctx pb_text)
    (L := sys_laws redis dlq inv_ctx pay_ctx pb_text) sys_lens.

(** grpcclient/catalog.go: [resp.Product]. *)
Definition client_GetProduct (productID : string) : M shop (option CatalogProduct) :=
  let* resp := zoom cat_lens (rpc (handler_GetProduct productID)) in
  ret (Some (MkCatalogProduct (pp_PriceCents resp))).

#[local] Instance shop_catalog : CatalogClient shop := {| cl_GetProduct := client_GetProduct |}.

Implicit Types (o : oracle) (w : world (OrderSt shop)) (s : OrderSt shop).

Definition catalog_of s : CatSt := snd (t_ext s).

(** The catalog has the product at the item's price. *)
Definition priced s (i : OrderItem) : Prop :=
  exists p, c_products (catalog_of s) !! it_ProductID i = Some p /\ pr_Price p = it_Price i.

Lemma handler_GetProduct_ok (id : UUID) o (v : world CatSt) resp v' :
  handler_GetProduct (uuid_String id) o v = (inr resp, v') ->
  w_st v' = w_st v /\ exists p, c_products (w_st v) !! id = Some p /\ pp_PriceCents resp = pr_Price p.
Proof.
  unfold handler_GetProduct. rewrite uuid_Parse_String. intros (p & v1 & Hp%wrap_err_ok & Hr)%bind_ok. unfold ret in Hr. simplify_eq.
  unfold cat_GetProduct, ProductRepo_GetByID in Hp. apply bind_ok in Hp as (r & v2 & [Hv Hres]%wrap_err_ok%read_inv & Hp).
  specialize (Hres _ eq_refl). simplify_eq. destruct (c_products (w_st v) !! id) as [q|] eqn:Hq; [|done].
  unfold ret in Hp. simplify_eq. split; [done|]. by exists p.
Qed.

Lemma client_GetProduct_ok (id : UUID) o (v : world shop) resp v' :
  client_GetProduct (uuid_String id) o v = (inr resp, v') ->
  w_st v' = w_st v /\ exists p, c_products (snd (w_st v)) !! id = Some p /\ resp = Some (MkCatalogProduct (pr_Price p)).
Proof.
  unfold client_GetProduct. intros (pr & v1 & Hz & Hr)%bind_ok. unfold ret in Hr. simplify_eq.
  apply zoom_run in Hz as (v2 & [Hst (p & Hp & Hprice)]%rpc_ok%handler_GetProduct_ok & Hv).
  rewrite Hv, Hst. simpl. split; [by destruct (w_st v)|]. exists p. by rewrite Hprice.
Qed.

(** The price check passes only when every item has the catalog's price. *)
Lemma check_prices_ok items o w u w' :
  check_prices items o w = (inr u, w') -> w_st w' = w_st w /\ Forall (priced (w_st w)) items.
Proof.
  revert w. induction items as [|i items IH]; intros w; simpl; [intros [= _ <-]; by split|].
  intros (resp & w1 & Hget%wrap_err_ok & Hrest)%bind_ok. unfold ext in Hget. apply zoom_run in Hget as (v & Hget & Hw1).
  apply client_GetProduct_ok in Hget as [Hv (p & Hp & ->)]. simpl in *.
  assert (Hsame : w_st w1 = w_st w) by (rewrite Hw1, Hv; by destruct (w_st w)).
  destruct (Z.eqb_spec (pr_Price p) (it_Price i)) as [Heq|]; simpl in Hrest; [|done].
  apply IH in Hrest as [Hw' Hall]. rewrite Hsame in *. split; [done|]. constructor; [by exists p|done].
Qed.
(** The order that is built: new identifiers, everything else as requested. *)
Definition same_line (i j : OrderItem) : Prop :=
  it_ProductID j = it_ProductID i /\ it_Quantity j = it_Quantity i /\ it_Price j = it_Price i.

Lemma assign_ids_ok id items o w : exists items' w', assign_ids id items o w = (inr items', w') /\ w_st w' = w_st w /\ Forall2 same_line items items'.
Proof.
  revert w. induction items as [|i items IH]; intros w; simpl; [exists [], w; by split_and!|].
  unfold bind, new_uuid. destruct (IH (next w)) as (items' & w' & -> & Hst & Hall).
  exists (MkItem (o_uuid o (w_tick w)) id (it_ProductID i) (it_Quantity i) (it_Price i) :: items'), w'.
  split_and!; [done|by rewrite Hst|by constructor].
Qed.

Lemma build_order_ok userID items o w :
  exists order w', build_order userID items o w = (inr order, w') /\ w_st w' = w_st w /\ o_UserID order = userID /\
    o_TotalAmount order = order_total items /\ Forall2 same_line items (o_Items order).
Proof.
  unfold build_order, bind, new_uuid, now.
  destruct (assign_ids_ok (o_uuid o (w_tick w)) items o (next (next (next w)))) as (items' & w' & -> & Hst & Hall).
  by do 2 eexists.
Qed.

Lemma create_tx_ok order o w id w' :
  create_tx order o w = (inr id, w') ->
  t_orders (w_st w') = <[o_ID order := order_row order]> (t_orders (w_st w)) /\ t_orders (w_st w) !! o_ID order = None /\
  t_sagas (w_st w') = t_sagas (w_st w).
Proof.
  unfold create_tx, OrderRepo_Create. intros (u & w1 & (u1 & w2 & Ho%wrap_err_ok%io_ok & Hi%wrap_err_ok%io_ok)%wrap_err_ok%bind_ok & H)%bind_ok.
  destruct (t_orders (w_st w) !! o_ID order) eqn:Hnone; [done|]. destruct (valid_status (o_Status order)); [|done]. injection Ho as _ Hw2.
  destruct (insert_items _ _ _) as [e|its]; [done|]. injection Hi as _ Hw1.
  apply bind_ok in H as (ev & w3 & Hev & H). apply bind_ok in H as (u2 & w4 & Hout%wrap_err_ok & H). unfold ret in H. simplify_eq.
  unfold outboxEventFromOrder in Hev. apply bind_ok in Hev as (eid & w5 & He & Hev). unfold new_uuid in He. unfold ret in Hev. simplify_eq.
  unfold OutboxRepo_Create in Hout. apply bind_ok in Hout as (ev2 & w6 & Hnow & Hout%wrap_err_ok%io_ok). simpl in Hnow.
  apply bind_ok in Hnow as (t & w7 & Ht & Hnow). unfold now in Ht. unfold ret in Hnow. simplify_eq.
  destruct (existsb _ (ob_rows _)) in Hout; [done|]. injection Hout as _ Hw'. simpl in Hw'. by rewrite <- Hw', <- Hw1, <- Hw2.
Qed.

(** *** The orders that a call adds *)

Section OneCall.
Context (userID : UUID) (items : list OrderItem) (s0 : OrderSt shop) (order : Order).
Context (Huser : o_UserID order = userID) (Htotal : o_TotalAmount order = order_total items).

(** The only new order is the one of this call, with its user and its total. *)
Definition adds s : Prop := forall id row, t_orders s !! id = Some row -> t_orders s0 !! id = None ->
  id = o_ID order /\ or_UserID row = userID /\ or_TotalAmount row = order_total items.

Lemma adds_nothing s : t_orders s = t_orders s0 -> adds s.
Proof. intros Heq id row Hrow Hnone. rewrite Heq, Hnone in Hrow. discriminate. Qed.

Lemma adds_order s : t_orders s = <[o_ID order := order_row order]> (t_orders s0) -> adds s.
Proof.
  intros Heq id row. rewrite Heq. intros [[<- <-]|[_ Hrow]]%lookup_insert_Some Hnone; [by split_and!|].
  by rewrite Hnone in Hrow.
Qed.

Lemma adds_ProcessOrder key : pres adds (ProcessOrder order key).
Proof.
  apply frame_ProcessOrder, framed_tables; [done|done|]. intros s id row st t Hs Hrow id' row' Hrow' Hnone. simpl in Hrow'.
  apply lookup_insert_Some in Hrow' as [[<- <-]|[_ Hrow']]; [|by eapply Hs].
  destruct (Hs _ _ Hrow Hnone) as (-> & Hu & Ht). by split_and!.
Qed.
End OneCall.

(** The saga table references the order table. *)
Definition saga_fk s : Prop := forall id, is_Some (t_sagas s !! id) -> is_Some (t_orders s !! id).

(** What the tables of inventory- and payment-service hold for a confirmed order. *)
Definition fulfilled s (id : UUID) (items : list OrderItem) (paymentID : string) : Prop :=
  Forall (fun i => reservations (i_db (fst (fst (t_ext s)))) !! (id, it_ProductID i) = Some (MkRow (int32 (it_Quantity i)) "reserved")) items /\
  exists p, payments (y_db (snd (fst (t_ext s)))) !! id = Some p /\ uuid_String (p_ID p) = paymentID.

Lemma confirmed_fulfilled order items s srow :
  Forall2 same_line items (o_Items order) -> confirmed_means order s ->
  t_sagas s !! o_ID order = Some srow -> sr_Status srow = SagaStatusConfirmed ->
  fulfilled s (o_ID order) items (sr_PaymentID srow) /\
  exists orow, t_orders s !! o_ID order = Some orow /\ or_Status orow = OrderStatusPaid.
Proof.
  intros Hsame Hcm Hrow Hst. destruct (Hcm srow Hrow Hst) as ([_ Hall] & Hpaid & Horow). split; [|done].
  rewrite take_ge in Hall by done. split; [|exact Hpaid]. clear -Hsame Hall.
  revert Hall. induction Hsame as [|i j is' js (Hp & Hq & _) _ IH]; intros Hall; [constructor|].
  apply Forall_cons in Hall as [Hj Hall]. constructor; [|by apply IH]. rewrite <- Hp, <- Hq. exact Hj.
Qed.

Lemma new_order_confirmed order items key o w w' :
  Forall2 same_line items (o_Items order) -> t_sagas (w_st w) !! o_ID order = None ->
  w_st w' = w_st (snd (ProcessOrder order key o w)) ->
  forall srow, t_sagas (w_st w') !! o_ID order = Some srow -> sr_Status srow = SagaStatusConfirmed ->
  fulfilled (w_st w') (o_ID order) items (sr_PaymentID srow) /\
  exists orow, t_orders (w_st w') !! o_ID order = Some orow /\ or_Status orow = OrderStatusPaid.
Proof.
  intros Hsame Hnone -> srow Hrow Hst. apply (confirmed_fulfilled order); [done| |done|done].
  apply ProcessOrder_sound. split; intros r Hr; by rewrite Hnone in Hr.
Qed.

Lemma create_run_ok order o w r w' :
  Run (create_tx order) o w = (r, w') ->
  (w_st w' = w_st w /\ exists e, r = inl e) \/
  (t_orders (w_st w') = <[o_ID order := order_row order]> (t_orders (w_st w)) /\ t_orders (w_st w) !! o_ID order = None /\
   t_sagas (w_st w') = t_sagas (w_st w)).
Proof.
  intros Hr. destruct r as [e|id].
  - apply Run_atomic in Hr as [Hsame|(id & w1 & Hc%create_tx_ok & ->)]; [left; eauto|by right].
  - apply Run_ok in Hr as (w1 & Hc%create_tx_ok & ->). by right.
Qed.

(** A state in which the order may be there, without a saga; and one in which its saga
    says nothing but the truth. *)
Definition ready userID items (s0 : OrderSt shop) order s : Prop := adds userID items s0 order s /\ t_sagas s !! o_ID order = None.

Definition truthful userID items (s0 : OrderSt shop) order s : Prop :=
  adds userID items s0 order s /\
  forall srow, t_sagas s !! o_ID order = Some srow -> sr_Status srow = SagaStatusConfirmed ->
    fulfilled s (o_ID order) items (sr_PaymentID srow) /\
    exists orow, t_orders s !! o_ID order = Some orow /\ or_Status orow = OrderStatusPaid.

Lemma ready_truthful userID items s0 order s : ready userID items s0 order s -> truthful userID items s0 order s.
Proof. intros [Ha Hn]. split; [done|]. intros srow Hs. by rewrite Hn in Hs. Qed.

Lemma tail_truthful userID items s0 order oredis a b c key (cid : UUID) o w :
  Forall2 same_line items (o_Items order) -> ready userID items s0 order (w_st w) ->
  truthful userID items s0 order
    (w_st (snd ((do* publishOrderEvent oredis a b c in do* wrap_err (wrapf "saga process order") (process_order order key) in ret cid) o w))).
Proof.
  intros Hsame Hready. pose proof (publishOrderEvent_pres (ready userID items s0 order) oredis a b c ltac:(done) o w Hready) as Hpub.
  unfold bind at 1. destruct (publishOrderEvent oredis a b c o w) as [[e|u] w1]; simpl in Hpub; [by apply ready_truthful|].
  destruct Hpub as [Hadds Hnone]. unfold bind, wrap_err, process_order.
  pose proof (adds_ProcessOrder userID items s0 order key o w1 Hadds) as Hadds'.
  pose proof (new_order_confirmed order items key o w1 (snd (ProcessOrder order key o w1)) Hsame Hnone eq_refl) as Hconf.
  unfold bind. destruct (ProcessOrder order key o w1) as [[e|r] w2]; simpl in *; by split.
Qed.

(** C2. A checkout, under every pattern of failures.  Whatever CreateOrder answers, an order
    that is new afterwards belongs to its caller, its total is the sum of its lines, and
    every line had the price of the catalog.  When its saga is confirmed, it is paid, the
    inventory tables hold every line for it, and the payment table has its payment under
    the id that the saga recorded. *)
Theorem checkout_sound oredis userID items key o w id row :
  let w' := snd (CreateOrder oredis userID items key o w) in
  saga_fk (w_st w) -> t_orders (w_st w) !! id = None -> t_orders (w_st w') !! id = Some row ->
  or_UserID row = userID /\ or_TotalAmount row = order_total items /\ Forall (priced (w_st w)) items /\
  forall srow, t_sagas (w_st w') !! id = Some srow -> sr_Status srow = SagaStatusConfirmed ->
    or_Status row = OrderStatusPaid /\ fulfilled (w_st w') id items (sr_PaymentID srow).
Proof.
  intros w' Hfk Hnew Hrow.
  enough (Forall (priced (w_st w)) items /\ exists order, truthful userID items (w_st w) order (w_st w')) as (Hpriced & order & Hadds & Hconf).
  { destruct (Hadds id row Hrow Hnew) as (-> & Hu & Ht). split_and!; [done..|]. intros srow Hs Hst.
    destruct (Hconf srow Hs Hst) as [Hful (orow & Ho & Hpaid)]. split; [congruence|done]. }
  unfold w' in *. clear w'. destruct (CreateOrder oredis userID items key o w) as [res wf] eqn:Hc. simpl in *. unfold CreateOrder, bind at 1 in Hc.
  pose proof (check_prices_pres (fun s => t_orders s = t_orders (w_st w)) items ltac:(done) o w eq_refl) as Hkeep.
  destruct (check_prices items o w) as [[e|u] w1] eqn:Hcp; [injection Hc as _ <-; simpl in Hkeep; rewrite Hkeep, Hnew in Hrow; discriminate|].
  apply check_prices_ok in Hcp as [Hw1 Hpriced]. split; [done|]. unfold bind at 1 in Hc.
  destruct (build_order_ok userID items o w1) as (order & w2 & Hbuild & Hw2 & Huser & Htotal & Hsame). rewrite Hbuild in Hc.
  unfold bind at 1 in Hc. destruct (Run (create_tx order) o w2) as [r w3] eqn:Hrun. apply create_run_ok in Hrun. rewrite Hw2, Hw1 in Hrun.
  destruct Hrun as [[Hw3 [e ->]]|(Hord & Hnone & Hsag)]; [injection Hc as _ <-; rewrite Hw3, Hnew in Hrow; discriminate|]. exists order.
  assert (Hready : ready userID items (w_st w) order (w_st w3)).
  { split; [by apply adds_order|]. rewrite Hsag. apply eq_None_not_Some. intros Hs%Hfk. rewrite Hnone in Hs. by destruct Hs. }
  destruct r as [e|cid]; [injection Hc as _ <-; by apply ready_truthful|].
  pose proof (tail_truthful userID items (w_st w) order oredis (uuid_String (o_ID order)) (status_string (o_Status order)) (uuid_String (o_UserID order))
    key cid o w3 Hsame Hready) as Htail. by rewrite Hc in Htail.
Qed.
End Checkout.

(** ** A checkout that goes through *)

Section Sample.
#[local] Existing Instance uuid_text.
#[local] Existing Instance uuid_text_laws.
#[local] Instance sample_inventory : InventoryClient shop := shop_inventory false service_ctx.
#[local] Instance sample_payment : PaymentClient shop := shop_payment None payer_ctx request_text.
#[local] Instance sample_catalog : CatalogClient shop := shop_catalog.

Definition sample_shop : OrderSt shop :=
  MkOrderSt ∅ [] ∅ (MkOutbox [] ∅) []
    ((sample_inv, MkPaySt (MkPayDB ∅ []) []),
     MkCatSt {[ p0 := MkProduct p0 "mug" "" 100 [] "" 0 ]} (MkOutbox [] ∅) ∅).

Definition wanted : list OrderItem := [MkItem uuid_Nil uuid_Nil p0 2 100].

Definition bought : OrderSt shop := w_st (snd (CreateOrder false buyer_id wanted "key" calm (World 0 sample_shop))).

Definition bought_id : UUID := uuid_sample 2.

Lemma bought_status :
  (or_Status <$> t_orders bought !! bought_id, sr_Status <$> t_sagas bought !! bought_id) = (Some OrderStatusPaid, Some SagaStatusConfirmed).
Proof. vm_compute. reflexivity. Qed.

Lemma bought_rows :
  (exists row, t_orders bought !! bought_id = Some row) /\
  exists srow, t_sagas bought !! bought_id = Some srow /\ sr_Status srow = SagaStatusConfirmed.
Proof.
  pose proof bought_status as Hb. destruct (t_orders bought !! bought_id) as [row|]; [|discriminate Hb].
  destruct (t_sagas bought !! bought_id) as [srow|]; [|discriminate Hb]. injection Hb as _ Hs. split; [by exists row|by exists srow].
Qed.

Lemma checkout_sound_witness :
  exists row srow, t_orders bought !! bought_id = Some row /\ or_TotalAmount row = 200 /\ or_Status row = OrderStatusPaid /\
    fulfilled bought bought_id wanted (sr_PaymentID srow).
Proof.
  destruct bought_rows as [[row Hrow] (srow & Hs & Hst)]. exists row, srow.
  destruct (checkout_sound false None service_ctx payer_ctx request_text false buyer_id wanted "key" calm (World 0 sample_shop) bought_id row
    ltac:(intros id [x Hx]; simpl in Hx; rewrite lookup_empty in Hx; discriminate Hx) eq_refl Hrow) as (_ & Htotal & _ & Hconf).
  destruct (Hconf srow Hs Hst) as [Hpaid Hful]. split; [exact Hrow|]. split; [rewrite Htotal; vm_compute; reflexivity|]. split; [exact Hpaid|exact Hful].
Defined.
End Sample.
