(* ===== verification/Analytics.v ===== *)
(** * analytics-service: buffered events

    [services/analytics-service]: the event batcher, the use case, the Kafka
    processor, the ClickHouse repository and the gRPC handler.  The batcher is
    modelled twice: as methods that run alone, and as threads whose critical
    sections interleave. *)
From S2P Require Import Prelude Errors Effects OrderDomain OrderRepo Users Kafka Codec.

(** ** domain *)

Definition EventTypeOrderCreated := "order_created".
Definition EventTypeOrderConfirmed := "order_confirmed".
Definition EventTypeOrderCancelled := "order_cancelled".
Definition EventTypePaymentSuccess := "payment_success".

Record AnalyticsEvent := MkAnEvent {
  an_EventType : string; an_AggregateID : string; an_Payload : string; an_Amount : float64;
  an_Currency : string; an_OccurredAt : Z; an_CreatedAt : Z; an_AggregationKey : string
}.

(** ** Critical sections of the batcher

    [mu] guards the buffer; the capacity of the slices is not observable. *)

Definition append_event (size : Z) (event : AnalyticsEvent) (buffer : list AnalyticsEvent) : bool * list AnalyticsEvent :=
  let buffer' := buffer ++ [event] in (size <=? Z.of_nat (length buffer'), buffer').

Definition take_buffer (buffer : list AnalyticsEvent) : list AnalyticsEvent * list AnalyticsEvent := (buffer, []).

Definition restore (events buffer : list AnalyticsEvent) : list AnalyticsEvent := events ++ buffer.

Section Analytics.
Context `{U : UuidLib}.

Record ABTestEvent := MkABTest {
  ab_EventID : UUID; ab_Experiment : string; ab_Variation : string; ab_UserID : UUID;
  ab_Conversion : bool; ab_RevenueMinor : Z; ab_CreatedAt : Z
}.

(** The batcher's buffer and whether [stopCh] is closed; the two tables. *)
Record AnSt := MkAnSt {
  a_buffer : list AnalyticsEvent;
  a_stopped : bool;
  a_events : list AnalyticsEvent;
  a_abtests : list ABTestEvent
}.

Definition set_buffer (x : list AnalyticsEvent) (s : AnSt) : AnSt := MkAnSt x (a_stopped s) (a_events s) (a_abtests s).
Definition set_ch_events (x : list AnalyticsEvent) (s : AnSt) : AnSt := MkAnSt (a_buffer s) (a_stopped s) x (a_abtests s).
Definition set_abtests (x : list ABTestEvent) (s : AnSt) : AnSt := MkAnSt (a_buffer s) (a_stopped s) (a_events s) x.

(** Code under the mutex: it cannot fail. *)
Definition locked {A} (f : AnSt -> A * AnSt) : M AnSt A :=
  fun _ w => let '(a, s) := f (w_st w) in (inr a, World (w_tick w) s).

(** ** repository/clickhouse *)

(** Appending to a prepared batch is local to the driver but can fail. *)
Fixpoint append_all (events : list AnalyticsEvent) : M AnSt unit :=
  match events with
  | [] => ret tt
  | _ :: events' => do* wrap_err (wrapf "append event") (read (fun _ => inr tt)) in append_all events'
  end.

(** MergeTree keeps every row: nothing is deduplicated. *)
Definition BatchInsert (events : list AnalyticsEvent) : M AnSt unit :=
  do* wrap_err (wrapf "prepare batch") (read (fun _ => inr tt)) in
  do* append_all events in
  wrap_err (wrapf "send batch") (io (fun s => (inr tt, set_ch_events (a_events s ++ events) s))).

(** [uuid.NewV7] for a missing id, the current time for a missing time. *)
Definition Repo_TrackABTestEvent (event : ABTestEvent) : M AnSt unit :=
  do* wrap_err (wrapf "prepare batch") (read (fun _ => inr tt)) in
  let* id := (if bool_decide (ab_EventID event = uuid_Nil) then new_uuid else ret (ab_EventID event)) in
  let* created := (if IsZero (ab_CreatedAt event) then now else ret (ab_CreatedAt event)) in
  let row := MkABTest id (ab_Experiment event) (ab_Variation event) (ab_UserID event) (ab_Conversion event)
               (ab_RevenueMinor event) created in
  do* wrap_err (wrapf "append event") (read (fun _ => inr tt)) in
  wrap_err (wrapf "send batch") (io (fun s => (inr tt, set_abtests (a_abtests s ++ [row]) s))).

(** The server's [SUM] over Float64. *)
Context (ch_sum : list float64 -> float64).

(** [toDate(created_at)] of a server in UTC. *)
Definition toDate (t : Z) : string := take_str 10 (Format_utc t).

Definition counts_as_revenue (date : string) (e : AnalyticsEvent) : Prop :=
  toDate (an_CreatedAt e) = date /\ an_EventType e = EventTypePaymentSuccess.

#[global] Instance counts_as_revenue_dec date e : Decision (counts_as_revenue date e).
Proof. unfold counts_as_revenue. apply _. Defined.

Definition Repo_GetDailyRevenue (date : string) : M AnSt float64 :=
  wrap_err (wrapf "scan revenue") (read (fun s =>
    inr (ch_sum (an_Amount <$> filter (counts_as_revenue date) (a_events s))))).

(** Migrations: the plain files named [*.up.sql], in the order of their names.
    The store is the list of executed scripts. *)
Record DirEntry := MkDirEntry { de_Name : string; de_IsDir : bool; de_Content : string }.

Definition HasSuffix (s suffix : string) : bool := HasPrefix (String.rev s) (String.rev suffix).

Definition string_le (s t : string) : Prop := String.leb s t = true.

#[global] Instance string_le_dec : RelDecision string_le.
Proof. intros s t. unfold string_le. apply _. Defined.

Definition entry_le (d d' : DirEntry) : Prop := string_le (de_Name d) (de_Name d').

#[global] Instance entry_le_dec : RelDecision entry_le.
Proof. intros d d'. unfold entry_le. apply _. Defined.

Definition is_migration (d : DirEntry) : bool := negb (de_IsDir d) && HasSuffix (de_Name d) ".up.sql".

Fixpoint run_files (files : list DirEntry) : M (list string) unit :=
  match files with
  | [] => ret tt
  | f :: files' =>
      do* wrap_err (wrapf ("read migration " +:+ de_Name f)) (read (fun _ => inr tt)) in
      do* wrap_err (wrapf ("execute migration " +:+ de_Name f)) (io (fun s => (inr tt, s ++ [de_Content f]))) in
      run_files files'
  end.

Definition runMigrations (dir : list DirEntry) : M (list string) unit :=
  do* wrap_err (wrapf "read migration dir") (read (fun _ => inr tt)) in
  run_files (merge_sort entry_le (filter (fun d => is_migration d = true) dir)).

(** ** usecase/batcher.go, one call at a time *)

Definition Flush : M AnSt unit :=
  let* events := locked (fun s => let '(es, rest) := take_buffer (a_buffer s) in (es, set_buffer rest s)) in
  match events with
  | [] => ret tt
  | _ :: _ =>
      let* r := attempt (BatchInsert events) in
      match r with
      | inr _ => ret tt
      | inl err => do* locked (fun s => (tt, set_buffer (restore events (a_buffer s)) s)) in throw err
      end
  end.

Definition batch_size : Z := 100.

Definition Add (event : AnalyticsEvent) : M AnSt unit :=
  let* shouldFlush := locked (fun s => let '(b, buf) := append_event batch_size event (a_buffer s) in (b, set_buffer buf s)) in
  if shouldFlush then Flush else ret tt.

(** Closing a closed channel panics. *)
Definition Stop : M AnSt unit :=
  let* already := locked (fun s => (a_stopped s, MkAnSt (a_buffer s) true (a_events s) (a_abtests s))) in
  if already then throw (EPlain "panic: close of closed channel") else Flush.

(** ** usecase/usecase.go *)

Definition TrackEvent (eventType aggregateID payload key : string) (amount : float64) : M AnSt unit :=
  let* occurred := now in
  let* created := now in
  Add (MkAnEvent eventType aggregateID payload amount "" occurred created key).

Definition GetDailyRevenue (date : string) : M AnSt float64 := Repo_GetDailyRevenue date.

Definition TrackABTestEvent (event : ABTestEvent) : M AnSt unit := Repo_TrackABTestEvent event.

Definition uc_Flush : M AnSt unit := Stop.

(** ** consumer/processor.go *)

Definition mapEventType (eventType : string) : option string :=
  if bool_decide (eventType = "OrderCreated") then Some EventTypeOrderCreated
  else if bool_decide (eventType = "OrderConfirmed") then Some EventTypeOrderConfirmed
  else if bool_decide (eventType = "OrderCancelled") then Some EventTypeOrderCancelled
  else if bool_decide (eventType = "PaymentSuccess") then Some EventTypePaymentSuccess
  else None.

Record KafkaEvent := MkKafkaEvent {
  ke_EventType : string; ke_OrderID : string; ke_UserID : string; ke_AmountCents : Z; ke_Amount : float64
}.

Definition unmarshal_event (j : json) : option KafkaEvent :=
  l ← struct_of j;
  ty ← field_string "event_type" l; order ← field_string "order_id" l; user ← field_string "user_id" l;
  cents ← field_int64 "amount_cents" l; amount ← field_float "amount" l;
  Some (MkKafkaEvent ty order user cents amount).

Definition aggregationKey (msg : Message) : string :=
  if bool_decide (0 < String.length (m_Key msg))%nat then m_Key msg
  else m_Topic msg +:+ ":" +:+ pretty (m_Partition msg) +:+ ":" +:+ pretty (m_Offset msg).

Definition event_amount (event : KafkaEvent) : float64 :=
  if float_eqb (ke_Amount event) float_zero && negb (ke_AmountCents event =? 0)
  then float_div (float_of_int (ke_AmountCents event)) (float_of_int 100)
  else ke_Amount event.

(** The parser of [encoding/json]: [None] is a syntax error. *)
Context (json_parse : string -> option json).

Definition Process (msg : Message) : M AnSt unit :=
  match json_parse (m_Value msg) ≫= unmarshal_event with
  | None => throw (wrapf "unmarshal analytics event" (EPlain "json: cannot unmarshal"))
  | Some event =>
      match mapEventType (ke_EventType event) with
      | None => throw (EPlain ("unknown analytics event type: " +:+ ke_EventType event))
      | Some eventType => TrackEvent eventType (ke_OrderID event) (m_Value msg) (aggregationKey msg) (event_amount event)
      end
  end.

(** ** delivery/grpc/handler.go *)

Definition handler_TrackEvent (eventType aggregateId payload key : string) : M AnSt bool :=
  do* wrap_err ToStatus (TrackEvent eventType aggregateId payload key float_zero) in ret true.

Definition handler_GetDailyRevenue (date : string) : M AnSt float64 := wrap_err ToStatus (GetDailyRevenue date).

Definition handler_TrackABTestEvent (experiment variation userId : string) (conversion : bool) (revenueMinor : Z) : M AnSt bool :=
  match uuid_Parse userId with
  | None => throw (ToStatus (ESentinel ErrInvalidArgument))
  | Some id =>
      let* t := now in
      do* wrap_err ToStatus (TrackABTestEvent (MkABTest uuid_Nil experiment variation id conversion revenueMinor t)) in
      ret true
  end.
End Analytics.
