(* ===== verification/Batcher.v ===== *)
(** * The event batcher as interleaved threads

    [usecase/batcher.go] of analytics-service with any number of concurrent
    calls: every critical section of the mutex, every channel operation and every
    insert is one step, and steps of different threads interleave freely.  The
    first thread is the loop started by [newEventBatcher]. *)
From S2P Require Import Prelude Errors Effects OrderDomain OrderRepo Users Kafka Codec Analytics.

(** Who called Flush: Add or Stop, which return its result, or the loop, which
    logs it. *)
Inductive caller := Returns | LoopTick.

(** Where a thread is. *)
Inductive pc :=
| AddLock (event : AnalyticsEvent)
| FlushLock (c : caller)
| Inserting (c : caller) (events : list AnalyticsEvent)
| Restoring (c : caller) (events : list AnalyticsEvent) (err : error)
| StopClose
| StopWait
| LoopSelect
| LoopEnd
| Finished (res : option error)
| Panicked.

Definition resume (c : caller) (res : option error) : pc :=
  match c with Returns => Finished res | LoopTick => LoopSelect end.

(** The shared store: the buffer, the rows of ClickHouse, the two channels.
    [sh_added] and [sh_twice] are ghosts: the events whose append has happened,
    and the rows whose insert was reported as failed. *)
Record shared := MkShared {
  sh_buffer : list AnalyticsEvent;
  sh_rows : list AnalyticsEvent;
  sh_stop : bool;
  sh_done : bool;
  sh_added : list AnalyticsEvent;
  sh_twice : list AnalyticsEvent
}.

(** One step of one thread. *)
Inductive tstep (size : Z) : pc -> shared -> pc -> shared -> Prop :=
| t_add event b r st dn ad tw full b' :
    append_event size event b = (full, b') ->
    tstep size (AddLock event) (MkShared b r st dn ad tw)
      (if full then FlushLock Returns else Finished None) (MkShared b' r st dn (ad ++ [event]) tw)
| t_flush_empty c r st dn ad tw :
    tstep size (FlushLock c) (MkShared [] r st dn ad tw) (resume c None) (MkShared [] r st dn ad tw)
| t_flush_take c b r st dn ad tw es b' :
    b ≠ [] -> take_buffer b = (es, b') ->
    tstep size (FlushLock c) (MkShared b r st dn ad tw) (Inserting c es) (MkShared b' r st dn ad tw)
| t_insert_ok c es b r st dn ad tw :
    tstep size (Inserting c es) (MkShared b r st dn ad tw) (resume c None) (MkShared b (r ++ es) st dn ad tw)
| t_insert_fails c es err b r st dn ad tw :
    tstep size (Inserting c es) (MkShared b r st dn ad tw) (Restoring c es err) (MkShared b r st dn ad tw)
| t_insert_reply_lost c es err b r st dn ad tw :
    tstep size (Inserting c es) (MkShared b r st dn ad tw) (Restoring c es err) (MkShared b (r ++ es) st dn ad (tw ++ es))
| t_restore c es err b r st dn ad tw :
    tstep size (Restoring c es err) (MkShared b r st dn ad tw) (resume c (Some err)) (MkShared (restore es b) r st dn ad tw)
| t_tick b r st dn ad tw :
    tstep size LoopSelect (MkShared b r st dn ad tw) (FlushLock LoopTick) (MkShared b r st dn ad tw)
| t_loop_ends b r dn ad tw :
    tstep size LoopSelect (MkShared b r true dn ad tw) LoopEnd (MkShared b r true true ad tw)
| t_stop_close b r dn ad tw :
    tstep size StopClose (MkShared b r false dn ad tw) StopWait (MkShared b r true dn ad tw)
| t_stop_panics b r dn ad tw :
    tstep size StopClose (MkShared b r true dn ad tw) Panicked (MkShared b r true dn ad tw)
| t_stop_waited b r st ad tw :
    tstep size StopWait (MkShared b r st true ad tw) (FlushLock Returns) (MkShared b r st true ad tw).

(** A call that starts: Add, Flush or Stop. *)
Definition entry (p : pc) : Prop :=
  match p with AddLock _ | FlushLock Returns | StopClose => True | _ => False end.

Definition system : Type := list pc * shared.

Inductive step (size : Z) : system -> system -> Prop :=
| step_call ths sh p : entry p -> step size (ths, sh) (ths ++ [p], sh)
| step_run ths sh i p p' sh' :
    ths !! i = Some p -> tstep size p sh p' sh' -> step size (ths, sh) (<[i := p']> ths, sh').

Definition start : system := ([LoopSelect], MkShared [] [] false false [] []).

Definition reachable (size : Z) (sys : system) : Prop := rtc (step size) start sys.

(** ** Accounting *)

Definition held_by (p : pc) : list AnalyticsEvent :=
  match p with Inserting _ es | Restoring _ es _ => es | _ => [] end.

Definition held (ths : list pc) : list AnalyticsEvent := ths ≫= held_by.

Lemma held_insert ths i p p' :
  ths !! i = Some p -> held_by p ++ held (<[i := p']> ths) ≡ₚ held_by p' ++ held ths.
Proof.
  intros Hi. rewrite <- (take_drop_middle ths i p Hi) at 2.
  rewrite (insert_take_drop ths i p') by (by eapply lookup_lt_Some).
  unfold held. rewrite !bind_app. simpl. solve_Permutation.
Qed.

Definition accounted (sys : system) : Prop :=
  sh_rows (snd sys) ++ sh_buffer (snd sys) ++ held (fst sys) ≡ₚ sh_added (snd sys) ++ sh_twice (snd sys).

Lemma resume_holds c res : held_by (resume c res) = [].
Proof. by destruct c. Qed.

(** One step of a thread moves events between rows, buffer and the thread. *)
Lemma tstep_accounts size p sh p' sh' :
  tstep size p sh p' sh' ->
  sh_rows sh' ++ sh_buffer sh' ++ held_by p' ++ sh_added sh ++ sh_twice sh ≡ₚ
  sh_rows sh ++ sh_buffer sh ++ held_by p ++ sh_added sh' ++ sh_twice sh'.
Proof.
  intros Ht. inversion Ht; subst; simpl; rewrite ?resume_holds; simpl; try done;
    repeat match goal with
    | H : append_event _ _ _ = _ |- _ => unfold append_event in H; injection H as <- <-
    | H : take_buffer _ = _ |- _ => injection H as <- <-
    end; unfold restore; try solve_Permutation.
  destruct (_ <=? _); simpl; solve_Permutation.
Qed.

Lemma step_accounts size sys sys' : step size sys sys' -> accounted sys -> accounted sys'.
Proof.
  unfold accounted. intros Hs. destruct Hs as [ths sh p Hp|ths sh i p p' sh' Hi Ht]; simpl; intros HI.
  - rewrite <- HI. unfold held. rewrite bind_app. simpl. destruct p as [| [] | | | | | | | |]; try done; simpl; by rewrite !app_nil_r.
  - apply tstep_accounts in Ht. pose proof (held_insert ths i p p' Hi) as Hh.
    apply (Permutation_app_inv_l (held_by p ++ sh_added sh ++ sh_twice sh)).
    transitivity ((sh_rows sh' ++ sh_buffer sh' ++ held_by p' ++ sh_added sh ++ sh_twice sh) ++ held ths).
    + transitivity ((sh_rows sh' ++ sh_buffer sh') ++ (sh_added sh ++ sh_twice sh) ++ (held_by p ++ held (<[i:=p']> ths)));
        [solve_Permutation|]. rewrite Hh. solve_Permutation.
    + rewrite Ht. transitivity ((sh_rows sh ++ sh_buffer sh ++ held ths) ++ held_by p ++ sh_added sh' ++ sh_twice sh');
        [solve_Permutation|]. rewrite HI. solve_Permutation.
Qed.

Lemma reachable_ind size (P : system -> Prop) :
  P start -> (forall sys sys', P sys -> step size sys sys' -> P sys') -> forall sys, reachable size sys -> P sys.
Proof.
  intros H0 Hs sys Hr. unfold reachable in Hr. revert sys Hr. apply rtc_ind_r; [done|]. intros y z _ Hyz HP. by eapply Hs.
Qed.

(** C24. Nothing is lost by the batcher: in every interleaving of any number of
    calls, with any inserts failing, the rows, the buffer and the batches being
    inserted hold exactly the events added, plus one extra copy of each row whose
    insert was wrongly reported as failed. *)
Theorem batcher_accounts size sys : reachable size sys -> accounted sys.
Proof. revert sys. apply reachable_ind; [by constructor|]. intros sys sys' HI Hs. by eapply step_accounts. Qed.

(** ** Well-formed states *)

(** The code of the loop goroutine. *)
Definition loop_pc (p : pc) : bool :=
  match p with
  | FlushLock LoopTick | Inserting LoopTick _ | Restoring LoopTick _ _ | LoopSelect | LoopEnd => true
  | _ => false
  end.

(** A batch that is being inserted is not empty, and waiting for the loop means
    that it was told to stop. *)
Definition pc_ok (stop : bool) (p : pc) : Prop :=
  match p with
  | Inserting _ es | Restoring _ es _ => es ≠ []
  | StopWait => stop = true
  | _ => True
  end.

Definition ended (p : pc) : bool := match p with LoopEnd => true | _ => false end.

Record well_formed (sys : system) : Prop := MkWf {
  wf_loop : exists p, fst sys !! 0%nat = Some p /\ loop_pc p = true /\ ended p = sh_done (snd sys);
  wf_calls : forall i p, fst sys !! S i = Some p -> loop_pc p = false;
  wf_pcs : Forall (pc_ok (sh_stop (snd sys))) (fst sys);
  wf_done : sh_done (snd sys) = true -> sh_stop (snd sys) = true
}.

(** What one step of a thread keeps. *)
Lemma tstep_well_formed size p sh p' sh' :
  tstep size p sh p' sh' -> pc_ok (sh_stop sh) p -> (sh_done sh = true -> sh_stop sh = true) ->
  pc_ok (sh_stop sh') p' /\ (sh_stop sh = true -> sh_stop sh' = true) /\ loop_pc p' = loop_pc p /\
  (sh_done sh' = true -> sh_stop sh' = true) /\
  (if loop_pc p then ended p = sh_done sh -> ended p' = sh_done sh' else sh_done sh' = sh_done sh).
Proof.
  intros Ht Hp Hd. inversion Ht; subst; simpl in *; split_and!; try done; try (by destruct c);
    try (injection H0 as <- <-; done); by destruct full.
Qed.

Lemma pc_ok_mono (st st' : bool) p : (st = true -> st' = true) -> pc_ok st p -> pc_ok st' p.
Proof. intros Hst. destruct p; simpl; auto. Qed.

Lemma step_well_formed size sys sys' : step size sys sys' -> well_formed sys -> well_formed sys'.
Proof.
  intros Hs [(p0 & Hp0 & Hloop & Hend) Hcalls Hpcs Hdone]. destruct Hs as [ths sh p Hp|ths sh i p p' sh' Hi Ht]; simpl in *.
  - split; simpl; [| | |done].
    + exists p0. by rewrite lookup_app_l by (by eapply lookup_lt_Some).
    + intros i q Hq. apply lookup_app_Some in Hq as [Hq|[_ Hq]]; [by eapply Hcalls|].
      apply list_lookup_singleton_Some in Hq as [_ <-]. by destruct p as [| [] | | | | | | | |].
    + apply Forall_app. split; [done|]. apply Forall_singleton. by destruct p.
  - assert (Hok : pc_ok (sh_stop sh) p) by (by eapply Forall_lookup_1).
    destruct (tstep_well_formed _ _ _ _ _ Ht Hok Hdone) as (Hok' & Hst & Hlp & Hdone' & Hcase).
    assert (Hlt : (i < length ths)%nat) by (by eapply lookup_lt_Some).
    split; simpl; [| | |done].
    + destruct i as [|i].
      * simplify_eq. exists p'. rewrite list_lookup_insert_eq by done. rewrite Hloop in *. by split_and!; [|congruence|auto].
      * exists p0. rewrite list_lookup_insert_ne by done. rewrite (Hcalls _ _ Hi) in Hcase. by split_and!; [| |congruence].
    + intros j q Hj. apply list_lookup_insert_Some in Hj as [(Heq & <- & _)|[_ Hj]]; [|by eapply Hcalls].
      subst i. rewrite Hlp. by eapply Hcalls.
    + apply Forall_insert; [|done]. eapply Forall_impl; [exact Hpcs|]. intros q. by apply pc_ok_mono.
Qed.

Lemma reachable_well_formed size sys : reachable size sys -> well_formed sys.
Proof.
  revert sys. apply reachable_ind; [|intros; by eapply step_well_formed].
  split; simpl; [exists LoopSelect; by split_and!|done|by repeat constructor|done].
Qed.

(** C38. The threads of the batcher keep their roles: exactly the first one runs
    the loop, [doneCh] is closed exactly when it has returned, a call waits for it
    only after [stopCh] was closed, and no insert gets an empty batch. *)
Theorem batcher_well_formed size sys : reachable size sys -> well_formed sys.
Proof. apply reachable_well_formed. Qed.

(** ** Stopping *)

Lemma run_one size ths sh i p p' sh' :
  ths !! i = Some p -> tstep size p sh p' sh' -> rtc (step size) (ths, sh) (<[i := p']> ths, sh').
Proof. intros Hi Ht. apply rtc_once. by eapply step_run. Qed.

Lemma run_more size ths sh i p p' sh' sys :
  ths !! i = Some p -> tstep size p sh p' sh' -> rtc (step size) (<[i := p']> ths, sh') sys -> rtc (step size) (ths, sh) sys.
Proof. intros Hi Ht Hrest. etrans; [by eapply run_one|done]. Qed.

(** A Flush whose insert succeeds empties the buffer. *)
Lemma flush_runs size ths sh i c :
  ths !! i = Some (FlushLock c) ->
  exists sh', rtc (step size) (ths, sh) (<[i := resume c None]> ths, sh') /\
    sh_buffer sh' = [] /\ sh_stop sh' = sh_stop sh /\ sh_done sh' = sh_done sh /\ sh_added sh' = sh_added sh.
Proof.
  intros Hi. assert (Hlt : (i < length ths)%nat) by (by eapply lookup_lt_Some).
  destruct sh as [b r st dn ad tw]. destruct b as [|e b].
  - exists (MkShared [] r st dn ad tw). split_and!; try done. eapply run_one; [done|constructor].
  - exists (MkShared [] (r ++ e :: b) st dn ad tw). split_and!; try done.
    eapply run_more; [done|by apply (t_flush_take _ c (e :: b))|]. rewrite <- (list_insert_insert_eq ths i (resume c None) (Inserting c (e :: b))).
    eapply run_one; [by apply list_lookup_insert_eq|constructor].
Qed.

(** The loop goroutine reaches its select. *)
Lemma loop_reaches_select size ths sh p :
  ths !! 0%nat = Some p -> loop_pc p = true -> ended p = false ->
  exists sh', rtc (step size) (ths, sh) (<[0%nat := LoopSelect]> ths, sh') /\
    sh_stop sh' = sh_stop sh /\ sh_done sh' = sh_done sh /\ sh_added sh' = sh_added sh.
Proof.
  intros Hi Hp He. destruct p as [|[]|[] es|[] es err| | | | | |]; try done.
  - destruct (flush_runs size ths sh 0 LoopTick Hi) as (sh' & Hr & _ & H1 & H2 & H3). by exists sh'.
  - destruct sh as [b r st dn ad tw]. exists (MkShared b (r ++ es) st dn ad tw). split_and!; try done.
    eapply run_one; [done|]. apply (t_insert_ok size LoopTick).
  - destruct sh as [b r st dn ad tw]. exists (MkShared (restore es b) r st dn ad tw). split_and!; try done.
    eapply run_one; [done|]. apply (t_restore size LoopTick).
  - exists sh. rewrite list_insert_id by done. by split_and!.
Qed.

(** The loop ends once it was told to. *)
Lemma loop_ends size ths sh :
  well_formed (ths, sh) -> sh_stop sh = true ->
  exists p sh', rtc (step size) (ths, sh) (<[0%nat := p]> ths, sh') /\ sh_done sh' = true /\ sh_added sh' = sh_added sh.
Proof.
  intros [(p & Hp & Hl & He) _ _ _] Hst. simpl in *. destruct (ended p) eqn:Hend.
  - exists p, sh. rewrite list_insert_id by done. by split_and!.
  - destruct (loop_reaches_select size ths sh p Hp Hl Hend) as (sh' & Hr & H1 & H2 & H3). destruct sh' as [b r st dn ad tw]. simpl in *.
    exists LoopEnd, (MkShared b r st true ad tw). split_and!; [|done|done]. etrans; [exact Hr|].
    rewrite <- (list_insert_insert_eq ths 0 LoopEnd LoopSelect). rewrite H1, Hst. eapply run_one; [|constructor].
    apply list_lookup_insert_eq. by eapply lookup_lt_Some.
Qed.

(** A Stop that waits for the loop is never stuck: in every reachable state the
    loop and the Stop alone can finish it, with every buffered event inserted when
    ClickHouse accepts the batches, and nothing added or lost on the way. *)
Theorem waiting_Stop_returns size sys i :
  reachable size sys -> fst sys !! i = Some StopWait ->
  exists p sh', rtc (step size) sys (<[i := Finished None]> (<[0%nat := p]> (fst sys)), sh') /\
    sh_done sh' = true /\ sh_buffer sh' = [] /\ sh_added sh' = sh_added (snd sys) /\
    sh_rows sh' ++ held (<[i := Finished None]> (<[0%nat := p]> (fst sys))) ≡ₚ sh_added sh' ++ sh_twice sh'.
Proof.
  intros Hr Hi. destruct sys as [ths sh]. pose proof (reachable_well_formed _ _ Hr) as Hwf. simpl in *.
  assert (Hst : sh_stop sh = true) by (exact (Forall_lookup_1 _ _ _ _ (wf_pcs _ Hwf) Hi)).
  assert (Hi0 : i ≠ 0%nat). { intros ->. destruct (wf_loop _ Hwf) as (p & Hp & Hl & _). simpl in Hp. by simplify_eq. }
  destruct (loop_ends size ths sh Hwf Hst) as (p & sh1 & Hr1 & Hd1 & Ha1).
  set (ths1 := <[0%nat := p]> ths) in *.
  assert (Hi1 : ths1 !! i = Some StopWait) by (unfold ths1; by rewrite list_lookup_insert_ne).
  destruct sh1 as [b r st dn ad tw]. simpl in *. subst dn.
  assert (Hr2 : rtc (step size) (ths1, MkShared b r st true ad tw) (<[i := FlushLock Returns]> ths1, MkShared b r st true ad tw))
    by (eapply run_one; [exact Hi1|constructor]).
  destruct (flush_runs size (<[i := FlushLock Returns]> ths1) (MkShared b r st true ad tw) i Returns) as (sh2 & Hr3 & Hb & _ & Hd & Ha).
  { apply list_lookup_insert_eq. by eapply lookup_lt_Some. }
  rewrite list_insert_insert_eq in Hr3. exists p, sh2.
  assert (Hall : rtc (step size) (ths, sh) (<[i := Finished None]> ths1, sh2)) by (etrans; [exact Hr1|]; etrans; [exact Hr2|exact Hr3]).
  split_and!; [exact Hall|done|done|by rewrite Ha, Ha1|].
  assert (Hacc : accounted (<[i := Finished None]> ths1, sh2)).
  { eapply (reachable_ind size accounted); [by constructor|intros; by eapply step_accounts|]. unfold reachable in *. by etrans. }
  unfold accounted in Hacc. simpl in Hacc. by rewrite Hb in Hacc.
Qed.

(** ** The methods of [Analytics.v] are runs of one thread *)

Section Sequential.
Context `{U : UuidLib}.
Implicit Types (o : oracle) (w : world AnSt) (sh : shared).

Definition result_of (r : error + unit) : option error := match r with inl e => Some e | inr _ => None end.

(** The two stores agree on buffer and rows. *)
Definition agrees sh w : Prop := sh_buffer sh = a_buffer (w_st w) /\ sh_rows sh = a_events (w_st w).

Lemma append_all_state es o w r w' : append_all es o w = (r, w') -> w_st w' = w_st w.
Proof.
  revert w. induction es as [|e es IH]; intros w; simpl; [by intros [= _ <-]|].
  unfold bind, wrap_err. destruct (read _ o w) as [[err|[]] w1] eqn:Hr; apply read_inv in Hr as [Hst _]; intros H; simplify_eq; [done|].
  by rewrite (IH _ H).
Qed.

(** An insert leaves all rows or none, and reports a failure or not. *)
Lemma BatchInsert_cases es o w r w' :
  BatchInsert es o w = (r, w') ->
  (w_st w' = w_st w /\ exists e, r = inl e) \/
  (w_st w' = set_ch_events (a_events (w_st w) ++ es) (w_st w)).
Proof.
  unfold BatchInsert, bind, wrap_err. destruct (read _ o w) as [[err|[]] w1] eqn:H1; apply read_inv in H1 as [Hst1 _].
  { intros H. simplify_eq. eauto. }
  destruct (append_all es o w1) as [[err|[]] w2] eqn:H2; apply append_all_state in H2.
  { intros H. simplify_eq. left. split; [congruence|eauto]. }
  rewrite <- Hst1, <- H2. unfold io. destruct (o_fault o (w_tick w2)); intros H; simplify_eq/=; eauto.
Qed.

Lemma Flush_is_a_run size o w r w' ths sh i :
  Flush o w = (r, w') -> agrees sh w -> ths !! i = Some (FlushLock Returns) ->
  exists sh', rtc (step size) (ths, sh) (<[i := Finished (result_of r)]> ths, sh') /\ agrees sh' w'.
Proof.
  intros Hrun [Hb Hr] Hi. destruct sh as [b rows st dn ad tw]. simpl in *. subst b rows.
  assert (Hlt : (i < length ths)%nat) by (by eapply lookup_lt_Some).
  unfold Flush, bind at 1, locked, take_buffer in Hrun. destruct (a_buffer (w_st w)) as [|e b] eqn:Hbuf.
  - unfold ret in Hrun. simplify_eq/=. eexists. split; [eapply run_one; [done|apply (t_flush_empty size Returns)]|by split].
  - unfold bind, attempt in Hrun. destruct (BatchInsert (e :: b) o _) as [r1 w1] eqn:Hins.
    assert (Htake : forall sys, rtc (step size) (<[i := Inserting Returns (e :: b)]> ths, MkShared [] (a_events (w_st w)) st dn ad tw) sys ->
      rtc (step size) (ths, MkShared (e :: b) (a_events (w_st w)) st dn ad tw) sys).
    { intros sys. eapply run_more; [done|by apply (t_flush_take size Returns (e :: b))]. }
    assert (Hfail : forall rows tw' err, tstep size (Inserting Returns (e :: b)) (MkShared [] (a_events (w_st w)) st dn ad tw)
        (Restoring Returns (e :: b) err) (MkShared [] rows st dn ad tw') ->
      rtc (step size) (ths, MkShared (e :: b) (a_events (w_st w)) st dn ad tw)
        (<[i := Finished (Some err)]> ths, MkShared (restore (e :: b) []) rows st dn ad tw')).
    { intros rows tw' err Ht. apply Htake. eapply run_more; [by apply list_lookup_insert_eq|exact Ht|]. rewrite list_insert_insert_eq.
      rewrite <- (list_insert_insert_eq ths i (Finished (Some err)) (Restoring Returns (e :: b) err)).
      eapply run_one; [by apply list_lookup_insert_eq|apply (t_restore size Returns)]. }
    apply BatchInsert_cases in Hins as [[Hst [err ->]]|Hst]; [|destruct r1 as [err|[]]].
    + unfold throw in Hrun. simplify_eq/=. eexists. split; [apply Hfail, t_insert_fails|]. split; simpl; by rewrite Hst.
    + unfold throw in Hrun. simplify_eq/=. eexists. split; [apply Hfail, t_insert_reply_lost|]. split; simpl; by rewrite Hst.
    + unfold ret in Hrun. simplify_eq/=. eexists. split.
      * apply Htake. rewrite <- (list_insert_insert_eq ths i (Finished None) (Inserting Returns (e :: b))).
        eapply run_one; [by apply list_lookup_insert_eq|apply (t_insert_ok size Returns)].
      * split; simpl; by rewrite Hst.
Qed.

(** The sequential Add refines the thread model: every run of it, under every
    failure pattern, is a run of one thread with the same result, buffer and rows,
    so what holds of all interleavings holds of it. *)
Theorem Add_is_a_run event o w r w' ths sh i :
  Add event o w = (r, w') -> agrees sh w -> ths !! i = Some (AddLock event) ->
  exists sh', rtc (step batch_size) (ths, sh) (<[i := Finished (result_of r)]> ths, sh') /\ agrees sh' w'.
Proof.
  intros Hrun [Hb Hr] Hi. destruct sh as [b rows st dn ad tw]. simpl in *. subst b rows.
  assert (Hlt : (i < length ths)%nat) by (by eapply lookup_lt_Some).
  unfold Add, bind at 1, locked in Hrun. destruct (append_event batch_size event (a_buffer (w_st w))) as [full b'] eqn:Happ.
  assert (Hadd := run_one batch_size ths _ i _ _ _ Hi (t_add batch_size event _ (a_events (w_st w)) st dn ad tw full b' Happ)).
  destruct full.
  - edestruct (Flush_is_a_run batch_size o _ r w' (<[i := FlushLock Returns]> ths)
      (MkShared b' (a_events (w_st w)) st dn (ad ++ [event]) tw) i Hrun) as (sh' & Hsteps & Hag);
      [by split|by apply list_lookup_insert_eq|].
    rewrite list_insert_insert_eq in Hsteps. exists sh'. split; [by etrans|done].
  - unfold ret in Hrun. simplify_eq/=. eexists. split; [exact Hadd|by split].
Qed.
End Sequential.

(** ** Concrete runs *)

Definition sale : AnalyticsEvent := MkAnEvent EventTypePaymentSuccess "order-1" "{}" (float_of_int 10) "" 0 0 "k1".

(** One Add of a batch of one whose insert is being sent when Stop is called. *)
Definition busy : system :=
  ([LoopSelect; Inserting Returns [sale]; StopWait], MkShared [] [] true false [sale] []).

Lemma busy_reachable : reachable 1 busy.
Proof.
  unfold reachable, start.
  eapply rtc_l; [apply (step_call _ _ _ (AddLock sale)); done|].
  eapply rtc_l; [apply (step_run _ _ _ 1 (AddLock sale)); [done|by apply t_add]|].
  eapply rtc_l; [apply (step_run _ _ _ 1 (FlushLock Returns)); [done|by apply t_flush_take]|].
  eapply rtc_l; [apply (step_call _ _ _ StopClose); done|].
  eapply rtc_l; [apply (step_run _ _ _ 2 StopClose); [done|apply t_stop_close]|].
  apply rtc_refl.
Qed.

Lemma batcher_accounts_witness : accounted busy.
Proof. apply (batcher_accounts 1). exact busy_reachable. Defined.

Lemma batcher_well_formed_witness : well_formed busy.
Proof. apply (batcher_well_formed 1). exact busy_reachable. Defined.

Lemma waiting_Stop_returns_witness : exists p sh',
  rtc (step 1) busy (<[2%nat := Finished None]> (<[0%nat := p]> (fst busy)), sh') /\
  sh_done sh' = true /\ sh_buffer sh' = [] /\ sh_added sh' = [sale] /\
  sh_rows sh' ++ held (<[2%nat := Finished None]> (<[0%nat := p]> (fst busy))) ≡ₚ sh_added sh' ++ sh_twice sh'.
Proof. apply (waiting_Stop_returns 1 busy 2); [exact busy_reachable|reflexivity]. Defined.

(** A second Stop panics: its channel is closed already. *)
Lemma second_Stop_panics size ths b r dn ad tw i :
  ths !! i = Some StopClose ->
  step size (ths, MkShared b r true dn ad tw) (<[i := Panicked]> ths, MkShared b r true dn ad tw).
Proof. intros Hi. eapply step_run; [done|constructor]. Qed.

Section Sample.
#[local] Existing Instance uuid_text.

Definition an_world : world AnSt := World 0 (MkAnSt (replicate 99 sale) false [] []).

Definition an_oracle (f : nat -> fault) : oracle := Oracle f (fun n => Z.of_nat n) uuid_sample (fun _ => None) (fun _ => true).

Definition insert_down : oracle := an_oracle (fun n => if Nat.eqb n 0 then FBefore (EPlain "clickhouse: timeout") else FNone).

Lemma Add_is_a_run_witness : exists sh',
  rtc (step batch_size) ([LoopSelect; AddLock sale], MkShared (replicate 99 sale) [] false false [] [])
    ([LoopSelect; Finished (Some (wrapf "prepare batch" (EPlain "clickhouse: timeout")))], sh') /\
  agrees sh' (World 1 (MkAnSt (replicate 100 sale) false [] [])).
Proof.
  apply (Add_is_a_run sale insert_down an_world (inl (wrapf "prepare batch" (EPlain "clickhouse: timeout")))
    (World 1 (MkAnSt (replicate 100 sale) false [] [])) [LoopSelect; AddLock sale] (MkShared (replicate 99 sale) [] false false [] []) 1).
  - reflexivity.
  - by split.
  - reflexivity.
Defined.
End Sample.
