(* ===== verification/AnalyticsFacts.v ===== *)
(** * analytics-service: theorems

    Payments are counted once when nothing fails; what order-service publishes is
    refused by the processor; a failed insert makes the consumer add an event
    twice; migrations run in the order of their names.  The batcher's threads are
    in [Batcher.v]. *)
From S2P Require Import Prelude Errors Effects OrderDomain OrderRepo OrderService Users Kafka Codec Analytics.

Section Facts.
Context `{U : UuidLib}.
Context (ch_sum : list float64 -> float64) (json_parse : string -> option json).
Implicit Types (o : oracle) (w : world AnSt) (s : AnSt).

(** ** What order-service publishes *)

(** The payload of an order has none of the fields of the event. *)
Lemma order_payload_decodes order : unmarshal_event (json_order order) = Some (MkKafkaEvent "" "" "" 0 float_zero).
Proof. reflexivity. Qed.

Lemma order_event_refused order msg o w :
  json_parse (m_Value msg) = Some (json_order order) ->
  Process json_parse msg o w = (inl (EPlain "unknown analytics event type: "), w).
Proof. intros Hp. unfold Process. rewrite Hp. cbn [option_bind mbind]. by rewrite order_payload_decodes. Qed.

(** A processor that refuses a message leaves its state alone through every
    retry. *)
Lemma retry_loop_refused {P} (cfg : Config) (Pr : Message -> M P unit) msg err n a b last o (w : world (ConsSt P)) :
  (forall wp, Pr msg o wp = (inl err, wp)) -> k_ext (w_st (snd (retry_loop cfg Pr n a b last msg o w))) = k_ext (w_st w).
Proof.
  intros Hp. revert a b last w. induction n as [|n IH]; intros a b last w; [done|].
  simpl. unfold bind at 1, attempt, zoom. rewrite Hp. cbn [fst snd w_tick w_st].
  replace (l_put ext_lens (l_get ext_lens (w_st w)) (w_st w)) with (w_st w) by (by destruct w as [? []]).
  destruct (IsPermanent cfg err); [done|]. destruct (a <? cf_MaxRetries cfg).
  - unfold bind at 1, ctx_done. destruct (o_done o _); [done|]. unfold bind, wait. rewrite IH. done.
  - by rewrite IH.
Qed.

Lemma sendToDLQ_ext {P} (cfg : Config) dlq msg err a :
  forall p : P, pres (fun c : ConsSt P => k_ext c = p) (sendToDLQ cfg dlq msg err a).
Proof.
  intros p. unfold sendToDLQ. destruct (_ || _); [apply pres_ret|].
  apply pres_bind; [apply pres_now|]. intros t. apply pres_bind; [|intros; apply pres_ret]. apply pres_attempt, pres_io. done.
Qed.

Lemma process_refused {P} (cfg : Config) dlq (Pr : Message -> M P unit) msg err o (w : world (ConsSt P)) :
  (forall wp, Pr msg o wp = (inl err, wp)) -> k_ext (w_st (snd (process cfg dlq Pr msg o w))) = k_ext (w_st w).
Proof.
  intros Hp. unfold process, bind at 1.
  pose proof (retry_loop_refused cfg Pr msg err (iterations cfg) 0 (cf_InitialBackoff cfg) (EPlain "") o w Hp) as Hl.
  destruct (retry_loop _ _ _ _ _ _ _ _ _) as [[e|[|e a]] w1]; simpl in Hl; [done|done|].
  assert (Hmark : forall m, pres (fun c : ConsSt P => k_ext c = k_ext (w_st w)) (MarkMessage (P := P) m)) by (by intros m o' wc).
  assert (Hdlq : forall k : M (ConsSt P) unit, pres (fun c => k_ext c = k_ext (w_st w)) k ->
    k_ext (w_st (snd ((do* sendToDLQ cfg dlq msg e a in k) o w1))) = k_ext (w_st w)).
  { intros k Hk. apply (pres_bind (fun c : ConsSt P => k_ext c = k_ext (w_st w))); [apply sendToDLQ_ext|done|done]. }
  destruct (IsPermanent cfg e); [by apply Hdlq|]. destruct (_ <? a); [|done].
  apply Hdlq. case_bool_decide; [apply pres_ret|apply Hmark].
Qed.

(** What order-service publishes never reaches analytics: whatever fails, a
    consumer of the order topic leaves the buffer and the tables as they were,
    because the published order has no [event_type]. *)
Theorem order_events_reach_no_analytics cfg dlq msgs o (w : world (ConsSt AnSt)) :
  Forall (fun msg => exists order, json_parse (m_Value msg) = Some (json_order order)) msgs ->
  k_ext (w_st (snd (ConsumeClaim cfg dlq (Process json_parse) msgs o w))) = k_ext (w_st w).
Proof.
  intros Hall. revert w. induction Hall as [|msg msgs [order Hm] Hall IH]; intros w; [done|].
  simpl. unfold bind, attempt.
  pose proof (process_refused cfg dlq (Process json_parse) msg _ o w (fun w' => order_event_refused order msg o w' Hm)) as Hp.
  destruct (process _ _ _ _ _ _) as [r w1]. simpl in Hp. by rewrite IH.
Qed.

(** ** Payments are counted *)

Lemma append_all_calm es o w : no_faults o -> append_all es o w = (inr tt, World (length es + w_tick w) (w_st w)).
Proof.
  intros Ho. revert w. induction es as [|e es IH]; intros w; simpl; [by destruct w|].
  unfold bind, wrap_err. go_step Ho. rewrite IH. simpl. do 2 f_equal. lia.
Qed.

Lemma BatchInsert_calm es o w :
  no_faults o -> exists n, BatchInsert es o w = (inr tt, World n (set_ch_events (a_events (w_st w) ++ es) (w_st w))).
Proof.
  intros Ho. unfold BatchInsert, bind, wrap_err. go_step Ho. rewrite append_all_calm by done. go_step Ho. simpl. eauto.
Qed.

(** Without failures Flush moves the buffer to the table. *)
Lemma Flush_calm o w :
  no_faults o -> exists n, Flush o w = (inr tt, World n (set_ch_events (a_events (w_st w) ++ a_buffer (w_st w)) (set_buffer [] (w_st w)))).
Proof.
  intros Ho. unfold Flush, bind, locked, take_buffer, attempt. destruct w as [t [b st r ab]]; simpl. destruct b as [|e b]; simpl.
  - exists t. unfold ret, set_buffer, set_ch_events. simpl. by rewrite app_nil_r.
  - destruct (BatchInsert_calm (e :: b) o (World t (set_buffer [] (MkAnSt (e :: b) st r ab))) Ho) as [n ->]. by exists n.
Qed.

Lemma Add_calm event o w :
  no_faults o -> exists n s, Add event o w = (inr tt, World n s) /\
    a_events s ++ a_buffer s = a_events (w_st w) ++ a_buffer (w_st w) ++ [event] /\ a_stopped s = a_stopped (w_st w).
Proof.
  intros Ho. unfold Add, bind, locked, append_event. destruct (_ <=? _).
  - edestruct (Flush_calm o) as [n Hf]; [done|]. rewrite Hf. simpl. eexists _, _. split; [done|]. simpl. by rewrite app_nil_r.
  - eexists _, _. split; [done|]. by simpl.
Qed.

(** A payment event is counted once: without failures, after the message was
    processed and the service flushed at shutdown, the revenue of its day is the
    sum over the earlier payments of that day and this one. *)
Theorem payment_is_counted msg event o w :
  no_faults o -> a_stopped (w_st w) = false ->
  json_parse (m_Value msg) ≫= unmarshal_event = Some event -> ke_EventType event = "PaymentSuccess" ->
  exists w1 w2, Process json_parse msg o w = (inr tt, w1) /\ uc_Flush o w1 = (inr tt, w2) /\
    let date := toDate (o_now o (S (w_tick w))) in
    exists w3, GetDailyRevenue ch_sum date o w2 =
      (inr (ch_sum ((an_Amount <$> filter (counts_as_revenue date) (a_events (w_st w) ++ a_buffer (w_st w)))
              ++ [event_amount event])), w3).
Proof.
  intros Ho Hst Hev Hty. unfold Process. rewrite Hev, Hty. cbn [mapEventType]. simpl.
  unfold TrackEvent, bind at 1, now, bind at 1. cbn [w_tick w_st next].
  set (ev := MkAnEvent _ _ _ _ _ _ _ _).
  destruct (Add_calm ev o (next (next w)) Ho) as (n & s & Hadd & Hrows & Hstop). rewrite Hadd.
  exists (World n s). unfold uc_Flush, Stop, bind at 1, locked. cbn [w_st w_tick]. rewrite Hstop. cbn [w_st next]. rewrite Hst.
  edestruct (Flush_calm o) as [n2 Hf]; [done|]. rewrite Hf. eexists. split_and!; [done|done|].
  eexists. unfold GetDailyRevenue, Repo_GetDailyRevenue, wrap_err. rewrite (read_no_faults _ _ _ Ho). cbn [w_st set_ch_events a_events].
  cbv beta. simpl. rewrite Hrows. simpl. rewrite app_assoc, filter_app, fmap_app. f_equal. f_equal. f_equal. f_equal.
  rewrite filter_cons_True by done. by rewrite filter_nil.
Qed.

(** ** Migrations *)

(** Migrations run in the order of their names: whatever fails, the executed
    scripts are a prefix of the sorted [*.up.sql] files, and all of them when the
    call succeeds. *)
Theorem migrations_in_order dir o (w : world (list string)) :
  let scripts := de_Content <$> merge_sort entry_le (filter (fun d => is_migration d = true) dir) in
  exists k, w_st (snd (runMigrations dir o w)) = w_st w ++ take k scripts /\
    (fst (runMigrations dir o w) = inr tt -> k = length scripts).
Proof.
  simpl. unfold runMigrations, bind at 1 2, wrap_err at 1 2.
  destruct (read _ o w) as [[err|[]] w0] eqn:Hr; apply read_inv in Hr as [Hst _]; rewrite <- Hst; simpl.
  { exists 0%nat. rewrite take_0, app_nil_r. done. }
  generalize (merge_sort entry_le (filter (fun d => is_migration d = true) dir)). clear Hst.
  intros files. revert w0. induction files as [|f files IH]; intros w0; simpl.
  - exists 0%nat. by rewrite app_nil_r.
  - unfold bind at 1 3, wrap_err at 1 3. destruct (read _ o w0) as [[err|[]] w1] eqn:Hr; apply read_inv in Hr as [Hst _]; rewrite <- Hst; simpl.
    { exists 0%nat. by rewrite app_nil_r. }
    unfold bind, wrap_err, io. destruct (o_fault o (w_tick w1)); simpl.
    + destruct (IH (World (S (w_tick w1)) (w_st w1 ++ [de_Content f]))) as (k & Hk & Hok). exists (S k). simpl in *.
      rewrite Hk, <- app_assoc. split; [done|]. intros H. by rewrite (Hok H).
    + exists 0%nat. by rewrite app_nil_r.
    + exists 1%nat. split; [|done]. simpl. by rewrite take_0.
Qed.
End Facts.

(** ** Concrete runs *)

Section Samples.
#[local] Existing Instance uuid_text.

Definition an_run_oracle (f : nat -> fault) : oracle :=
  Oracle f (fun n => 10 ^ 9 * Z.of_nat n) uuid_sample (fun _ => None) (fun _ => true).

(** The configuration of the deployed consumer: three retries, no DLQ topic. *)
Definition analytics_consumer : Config :=
  setDefaults (MkConfig "analytics-service" ["order-events"] "" "" 0 3 (100 * 10 ^ 6) (10 * 10 ^ 9) None).

Definition paid_text : string := "payment".

Definition paid_parse (s : string) : option json :=
  if bool_decide (s = paid_text)
  then Some (JObj [("event_type", JStr "PaymentSuccess"); ("order_id", JStr "o-1"); ("amount_cents", JNum 1999)])
  else None.

Definition paid_msg : Message := MkMessage "order-events" 0 7 "" paid_text.

Definition old_sale : AnalyticsEvent := MkAnEvent EventTypePaymentSuccess "o-0" "" (float_of_int 1) "" 0 0 "k0".

(** The buffer holds 99 events when the insert that the message triggers fails
    once: the event stays in the buffer, the error makes the consumer retry, and
    the retry adds it again. *)
Definition insert_fails_once : oracle :=
  an_run_oracle (fun n => if Nat.eqb n 2 then FBefore (EPlain "clickhouse: timeout") else FNone).

Definition counted_run : (error + unit) * world (ConsSt AnSt) :=
  process analytics_consumer false (Process paid_parse) paid_msg insert_fails_once
    (World 0 (MkConsSt [] [] [] (MkAnSt (replicate 99 old_sale) false [] []))).

(** One failed insert makes the consumer count a payment twice. *)
Theorem failed_insert_counts_twice :
  fst counted_run = inr tt /\ k_marked (w_st (snd counted_run)) = [paid_msg] /\
  an_Amount <$> filter (fun e => an_AggregationKey e = "order-events:0:7") (a_events (k_ext (w_st (snd counted_run))))
    = [float_parse 1999 2; float_parse 1999 2].
Proof. split_and!; vm_compute; reflexivity. Qed.

Definition an_calm : oracle := an_run_oracle (fun _ => FNone).

Definition sum_first (l : list float64) : float64 := default float_zero (last l).

Lemma payment_is_counted_witness : exists w1 w2,
  Process paid_parse paid_msg an_calm (World 0 (MkAnSt [] false [] [])) = (inr tt, w1) /\ uc_Flush an_calm w1 = (inr tt, w2) /\
  exists w3, GetDailyRevenue sum_first "1970-01-01" an_calm w2 = (inr (float_parse 1999 2), w3).
Proof.
  apply (payment_is_counted sum_first paid_parse paid_msg (MkKafkaEvent "PaymentSuccess" "o-1" "" 1999 float_zero) an_calm
    (World 0 (MkAnSt [] false [] []))).
  - by split.
  - reflexivity.
  - reflexivity.
  - reflexivity.
Defined.

Definition some_order : Order := MkOrder (uuid_sample 0) (uuid_sample 1) [] 100 OrderStatusPending 0 0.

Lemma order_events_reach_no_analytics_witness :
  k_ext (w_st (snd (ConsumeClaim analytics_consumer false (Process (fun _ => Some (json_order some_order))) [paid_msg; paid_msg]
    insert_fails_once (World 0 (MkConsSt [] [] [] (MkAnSt [old_sale] false [] [])))))) = MkAnSt [old_sale] false [] [].
Proof.
  apply (order_events_reach_no_analytics (fun _ => Some (json_order some_order)) analytics_consumer false [paid_msg; paid_msg]).
  repeat constructor; by exists some_order.
Defined.
End Samples.
