(* ===== verification/Notification.v ===== *)
(** * notification-service

    [services/notification-service]: the Kafka processor, the use case that
    validates and sends a mail, the SMTP and log providers, and the gRPC handler.
    [net/mail.ParseAddress] and the JSON parser are parameters. *)
From S2P Require Import Prelude Errors Effects Auth OrderDomain Users Kafka Codec.

(** ** email/provider.go *)

Definition at_sign : Ascii.ascii := Ascii.ascii_of_nat 64.
Definition colon : Ascii.ascii := Ascii.ascii_of_nat 58.
Definition cr : Ascii.ascii := Ascii.ascii_of_nat 13.
Definition lf : Ascii.ascii := Ascii.ascii_of_nat 10.
Definition dquote : Ascii.ascii := Ascii.ascii_of_nat 34.

Definition crlf : string := String cr (String lf "").

Definition mask_tail (s : string) : string :=
  if bool_decide (String.length s <= 3)%nat then Repeat "*" (String.length s)
  else take_str 3 s +:+ Repeat "*" (String.length s - 3).

Definition MaskEmail (email : string) : string :=
  match index_byte at_sign email with
  | None | Some O => mask_tail email
  | Some at_ => mask_tail (take_str at_ email) +:+ drop_str at_ email
  end.

Definition buildMessage (from to subject body : string) : string :=
  "From: " +:+ from +:+ crlf +:+
  "To: " +:+ to +:+ crlf +:+
  "Subject: " +:+ subject +:+ crlf +:+
  "MIME-Version: 1.0" +:+ crlf +:+
  "Content-Type: text/plain; charset=" +:+ String dquote ("utf-8" +:+ String dquote crlf) +:+
  crlf +:+ body.

Record SMTPProvider := MkSMTP { sm_addr : string; sm_from : string; sm_username : string; sm_password : string }.

Definition NewSMTPProvider (host : string) (port : Z) (from username password : string) : SMTPProvider :=
  MkSMTP (host +:+ ":" +:+ pretty port) from username password.

(** A mail handed to the server: address, PLAIN credentials with their host,
    envelope and message. *)
Record Mail := MkMail {
  ml_addr : string; ml_auth : option (string * string * string); ml_from : string; ml_to : list string; ml_msg : string
}.

(** The mails sent and the log lines (recipient as logged, subject). *)
Record NotSt := MkNotSt { n_sent : list Mail; n_log : list (string * string) }.

Section Notification.
Context `{U : UuidLib}.

Definition log_line (to subject : string) : M NotSt unit :=
  fun _ w => (inr tt, World (w_tick w) (MkNotSt (n_sent (w_st w)) (n_log (w_st w) ++ [(to, subject)]))).

Fixpoint has_byte (c : Ascii.ascii) (s : string) : bool :=
  match s with EmptyString => false | String d s' => bool_decide (c = d) || has_byte c s' end.

(** [smtp.SendMail] refuses envelope addresses with line breaks. *)
Definition one_line (s : string) : bool := negb (has_byte cr s || has_byte lf s).

Definition smtp_line_error : error := EPlain "smtp: A line must not contain CR or LF".

Inductive Provider := SMTP (p : SMTPProvider) | LogOnly.

(** The mail is sent by a goroutine: when the context ends first the call returns
    its error although the mail may still be delivered, a failure after the
    effect. *)
Definition SMTP_Send (p : SMTPProvider) (to subject body : string) : M NotSt unit :=
  let msg := buildMessage (sm_from p) to subject body in
  let auth := if bool_decide (sm_username p = "") then None
              else Some (sm_username p, sm_password p, default "" (head (Split (sm_addr p) colon))) in
  io (fun s =>
    if one_line (sm_from p) && one_line to
    then (inr tt, MkNotSt (n_sent s ++ [MkMail (sm_addr p) auth (sm_from p) [to] msg]) (n_log s))
    else (inl smtp_line_error, s)).

Definition Log_Send (to subject body : string) : M NotSt unit := log_line (MaskEmail to) subject.

Definition Send (p : Provider) (to subject body : string) : M NotSt unit :=
  match p with SMTP p' => SMTP_Send p' to subject body | LogOnly => Log_Send to subject body end.

(** [net/mail.ParseAddress] accepts. *)
Context (ParseAddress : string -> bool).

(** ** usecase/usecase.go *)

Definition validateSendEmail (to subject body : string) : option error :=
  if negb (ParseAddress to) || bool_decide (to = "") then Some (wrapS ErrInvalidArgument "invalid email address")
  else if bool_decide (subject = "") then Some (wrapS ErrInvalidArgument "subject is required")
  else if bool_decide (body = "") then Some (wrapS ErrInvalidArgument "body is required")
  else None.

Definition SendEmail (p : Provider) (to subject body : string) : M NotSt unit :=
  match validateSendEmail to subject body with
  | Some e => throw e
  | None =>
      let* r := attempt (Send p to subject body) in
      do* log_line (MaskEmail to) subject in
      match r with
      | inl err => throw (wrapf "send email" err)
      | inr _ => ret tt
      end
  end.

(** ** consumer/processor.go *)

Record NotEvent := MkNotEvent { ne_EventType : string; ne_OrderID : string; ne_UserID : string; ne_Email : string }.

Definition unmarshal_not_event (j : json) : option NotEvent :=
  l ← struct_of j;
  ty ← field_string "event_type" l; order ← field_string "order_id" l;
  user ← field_string "user_id" l; email ← field_string "email" l;
  Some (MkNotEvent ty order user email).

Definition messageFor (event : NotEvent) : option (string * string) :=
  if bool_decide (ne_EventType event = "OrderConfirmed") then
    Some ("Order Confirmed", "Your order " +:+ ne_OrderID event +:+ " has been confirmed.")
  else if bool_decide (ne_EventType event = "OrderCancelled") then
    Some ("Order Cancelled", "Your order " +:+ ne_OrderID event +:+ " has been cancelled.")
  else if bool_decide (ne_EventType event = "PaymentFailed") then
    Some ("Payment Failed", "Payment for order " +:+ ne_OrderID event +:+ " failed.")
  else None.

Context (json_parse : string -> option json).

(** A message that cannot be decoded or has an unknown type is dropped. *)
Definition not_Process (p : Provider) (msg : Message) : M NotSt unit :=
  match json_parse (m_Value msg) ≫= unmarshal_not_event with
  | None => ret tt
  | Some event =>
      match messageFor event with
      | None => ret tt
      | Some (subject, body) =>
          wrap_err (wrapf ("send email for " +:+ ne_EventType event)) (SendEmail p (ne_Email event) subject body)
      end
  end.

(** ** delivery/grpc/handler.go *)

Record SendEmailRequest := MkSendEmail { se_To : string; se_Subject : string; se_Body : string }.

Definition validateSendEmailRequest (req : option SendEmailRequest) : option error :=
  match req with
  | None => Some (wrapS ErrInvalidArgument "request is nil")
  | Some r =>
      if negb (ParseAddress (se_To r)) || bool_decide (se_To r = "") then Some (wrapS ErrInvalidArgument "invalid email address")
      else if bool_decide (se_Subject r = "") then Some (wrapS ErrInvalidArgument "subject is required")
      else if bool_decide (se_Body r = "") then Some (wrapS ErrInvalidArgument "body is required")
      else None
  end.

Definition handler_SendEmail (p : Provider) (ctx : Ctx) (req : option SendEmailRequest) : M NotSt bool :=
  match RequireRole ctx [RoleService] with
  | Some e => throw e
  | None =>
      match validateSendEmailRequest req, req with
      | Some e, _ => throw (ToStatus e)
      | None, None => ret true
      | None, Some r => do* wrap_err ToStatus (SendEmail p (se_To r) (se_Subject r) (se_Body r)) in ret true
      end
  end.
End Notification.
