(* ===== verification/NotificationFacts.v ===== *)
(** * notification-service: theorems

    A message on the wire reads back as the headers and the body it was built
    from, unless a header has line breaks; masked addresses hide all but three
    letters; orders published by order-service send no mail. *)
From S2P Require Import Prelude Errors Effects Auth OrderDomain OrderRepo OrderService Users Kafka Codec Notification.

(** ** Messages *)

(** A reader of messages: the lines up to the first empty one, and the rest. *)
Fixpoint read_line (s : string) : string * string :=
  match s with
  | EmptyString => ("", "")
  | String c s' =>
      match s' with
      | String d s'' => if bool_decide (c = cr) && bool_decide (d = lf) then ("", s'')
                        else let '(l, r) := read_line s' in (String c l, r)
      | EmptyString => (s, "")
      end
  end.

Fixpoint read_headers (n : nat) (s : string) : list string * string :=
  match n with
  | O => ([], s)
  | S n' =>
      let '(l, r) := read_line s in
      if bool_decide (l = "") then ([], r) else let '(ls, b) := read_headers n' r in (l :: ls, b)
  end.

Definition read_message (s : string) : list string * string := read_headers (String.length s) s.

Lemma one_line_cons c s : one_line (String c s) = true -> c ≠ cr /\ c ≠ lf /\ one_line s = true.
Proof.
  unfold one_line. rewrite negb_true_iff, orb_false_iff. simpl. rewrite !orb_false_iff, !bool_decide_eq_false.
  intros [[H1 H2] [H3 H4]]. split_and!; [congruence|congruence|]. by rewrite H2, H4.
Qed.

(** A line without breaks is read back up to its end. *)
Lemma read_line_app l s : one_line l = true -> read_line (l +:+ crlf +:+ s) = (l, s).
Proof.
  induction l as [|c l IH]; intros Hl; [done|]. apply one_line_cons in Hl as (Hcr & _ & Hl).
  specialize (IH Hl). change (String c l +:+ crlf +:+ s) with (String c (l +:+ crlf +:+ s)).
  assert (Hne : exists d t, l +:+ crlf +:+ s = String d t) by (destruct l; simpl; eauto). destruct Hne as (d & t & Heq).
  rewrite Heq in *.
  change (read_line (String c (String d t))) with (if bool_decide (c = cr) && bool_decide (d = lf) then ("", t)
    else let '(l, r) := read_line (String d t) in (String c l, r)). rewrite bool_decide_eq_false_2 by done. cbn [andb]. by rewrite IH.
Qed.

Lemma read_header_app n l s :
  one_line l = true -> l ≠ "" -> read_headers (S n) (l +:+ crlf +:+ s) = let '(ls, b) := read_headers n s in (l :: ls, b).
Proof. intros Hl Hne. cbn [read_headers]. rewrite read_line_app by done. by rewrite bool_decide_eq_false_2. Qed.

Lemma has_byte_app c s t : has_byte c (s +:+ t) = has_byte c s || has_byte c t.
Proof. induction s as [|d s IH]; [done|]. change (String d s +:+ t) with (String d (s +:+ t)). simpl. by rewrite IH, orb_assoc. Qed.

Lemma one_line_app s t : one_line s = true -> one_line t = true -> one_line (s +:+ t) = true.
Proof.
  unfold one_line. rewrite !has_byte_app, !negb_true_iff, !orb_false_iff. intros [-> ->] [-> ->]. done.
Qed.

Definition content_type : string := "Content-Type: text/plain; charset=" +:+ String dquote ("utf-8" +:+ String dquote "").

(** A message reads back: with a sender, recipient and subject free of line
    breaks, a reader finds exactly the five headers that were written, and the
    body unchanged whatever it contains. *)
Theorem message_roundtrip from to subject body :
  one_line from = true -> one_line to = true -> one_line subject = true ->
  read_message (buildMessage from to subject body) =
    (["From: " +:+ from; "To: " +:+ to; "Subject: " +:+ subject; "MIME-Version: 1.0"; content_type], body).
Proof.
  intros Hf Ht Hs. unfold read_message.
  assert (Hmsg : buildMessage from to subject body =
    ("From: " +:+ from) +:+ crlf +:+ ("To: " +:+ to) +:+ crlf +:+ ("Subject: " +:+ subject) +:+ crlf +:+
    "MIME-Version: 1.0" +:+ crlf +:+ content_type +:+ crlf +:+ "" +:+ crlf +:+ body).
  { reflexivity. }
  assert (Hlen : exists n, String.length (buildMessage from to subject body) = (6 + n)%nat) by (by eexists).
  destruct Hlen as [n ->]. rewrite Hmsg. cbn [plus].
  rewrite read_header_app by (done || by apply one_line_app).
  rewrite read_header_app by (done || by apply one_line_app).
  rewrite read_header_app by (done || by apply one_line_app).
  rewrite read_header_app by done. rewrite read_header_app by done.
  cbn [read_headers]. by rewrite (read_line_app "") by done.
Qed.

(** A subject with a line break writes headers of its own. *)
Lemma subject_injects_header :
  fst (read_message (buildMessage "a@x" "b@x" ("Hi" +:+ crlf +:+ "Bcc: c@x") "body")) =
    ["From: a@x"; "To: b@x"; "Subject: Hi"; "Bcc: c@x"; "MIME-Version: 1.0"; content_type].
Proof. reflexivity. Qed.

(** ** Masked addresses *)

Lemma index_byte_app c l s : has_byte c l = false -> index_byte c (l +:+ String c s) = Some (String.length l).
Proof.
  induction l as [|d l IH]; simpl.
  - intros _. by rewrite decide_True.
  - rewrite orb_false_iff, bool_decide_eq_false. intros [Hne Hl]. rewrite decide_False by done.
    change (String.append l (String c s)) with (l +:+ String c s). by rewrite IH.
Qed.

Lemma MaskEmail_address l d :
  has_byte at_sign l = false -> l ≠ "" -> MaskEmail (l +:+ String at_sign d) = mask_tail l +:+ String at_sign d.
Proof.
  intros Hl Hne. unfold MaskEmail. rewrite index_byte_app by done.
  destruct l as [|c l]; [done|]. change (String.length (String c l)) with (S (String.length l)) at 1.
  cbv iota. change (S (String.length l)) with (String.length (String c l)). by rewrite take_str_app, drop_str_app.
Qed.

Lemma Repeat_length n : String.length (Repeat "*" n) = n.
Proof. induction n as [|n IH]; [done|]. exact (f_equal S IH). Qed.

Lemma take_str_length n s : (n <= String.length s)%nat -> String.length (take_str n s) = n.
Proof.
  unfold take_str. revert n. induction s as [|c s IH]; intros [|n] Hn; simpl in *; try lia; try done. by rewrite IH by lia.
Qed.

Lemma mask_tail_length s : String.length (mask_tail s) = String.length s.
Proof.
  unfold mask_tail. case_bool_decide; [apply Repeat_length|].
  rewrite string_length_app, Repeat_length, take_str_length; lia.
Qed.

(** A masked address hides the account: of the local part only its length
    and, when it is longer than three, its first three letters show, so two
    accounts that agree on these are logged identically; the length is kept. *)
Theorem MaskEmail_hides l1 l2 d :
  has_byte at_sign l1 = false -> has_byte at_sign l2 = false -> String.length l1 = String.length l2 ->
  (3 < String.length l1)%nat -> take_str 3 l1 = take_str 3 l2 ->
  MaskEmail (l1 +:+ String at_sign d) = MaskEmail (l2 +:+ String at_sign d) /\
  String.length (MaskEmail (l1 +:+ String at_sign d)) = String.length (l1 +:+ String at_sign d).
Proof.
  intros H1 H2 Hlen Hlong H3.
  rewrite !MaskEmail_address by (done || (intros ->; simpl in *; lia)). split.
  - unfold mask_tail. rewrite !bool_decide_eq_false_2 by lia. by rewrite H3, Hlen.
  - by rewrite !string_length_app, mask_tail_length.
Qed.

(** ** Mails *)

Section Facts.
Context `{U : UuidLib} (ParseAddress : string -> bool) (json_parse : string -> option json).
Implicit Types (o : oracle).

(** What one call can do: nothing, or one mail to the address it names; every log
    line has the masked address. *)
Definition mails_only (to : string) (s s' : NotSt) : Prop :=
  (n_sent s' = n_sent s \/ exists m, n_sent s' = n_sent s ++ [m] /\ ml_to m = [to]) /\
  (forall line, line ∈ n_log s' -> line ∈ n_log s \/ fst line = MaskEmail to).

Lemma log_line_mails to subject s s' :
  mails_only to s s' -> mails_only to s (MkNotSt (n_sent s') (n_log s' ++ [(MaskEmail to, subject)])).
Proof.
  intros [Hs Hl]. split; [done|]. intros line [Hline|Hline]%elem_of_app; [by apply Hl|].
  apply list_elem_of_singleton in Hline as ->. by right.
Qed.

Lemma mails_only_refl to s : mails_only to s s.
Proof. split; [by left|]. intros line. by left. Qed.

Lemma Send_mails p to subject body o w : mails_only to (w_st w) (w_st (snd (Send p to subject body o w))).
Proof.
  destruct p as [p|]; simpl; [|by apply log_line_mails, mails_only_refl]. unfold SMTP_Send.
  destruct (io _ o w) as [r w'] eqn:Hio. simpl. apply io_inv in Hio as [-> | ->]; [apply mails_only_refl|]. simpl.
  destruct (one_line _ && _); [|apply mails_only_refl]. split; [right; eauto|]. intros line. by left.
Qed.

(** A mail goes only where it was validated: whatever fails, SendEmail sends at
    most one mail, to its own recipient, and only when the address parses and
    subject and body are not empty; the logs show the recipient masked. *)
Theorem SendEmail_sends_valid p to subject body o w :
  let w' := snd (SendEmail ParseAddress p to subject body o w) in
  mails_only to (w_st w) (w_st w') /\
  (w_st w' ≠ w_st w -> ParseAddress to = true /\ to ≠ "" /\ subject ≠ "" /\ body ≠ "").
Proof.
  simpl. unfold SendEmail, validateSendEmail.
  destruct (ParseAddress to) eqn:Hp; simpl; [|split; [apply mails_only_refl|done]].
  repeat (case_bool_decide; simpl; [split; [apply mails_only_refl|done]|]).
  split; [|done]. unfold bind, attempt, log_line. pose proof (Send_mails p to subject body o w) as Hs.
  destruct (Send p to subject body o w) as [[err|[]] w1]; by apply log_line_mails.
Qed.

(** A confirmed order with an address gets its mail. *)
Lemma confirmed_order_mails p msg order user email o w :
  no_faults o -> ParseAddress email = true -> email ≠ "" -> one_line (sm_from p) = true -> one_line email = true ->
  json_parse (m_Value msg) ≫= unmarshal_not_event = Some (MkNotEvent "OrderConfirmed" order user email) ->
  exists m w', not_Process ParseAddress json_parse (SMTP p) msg o w = (inr tt, w') /\ n_sent (w_st w') = n_sent (w_st w) ++ [m] /\
    ml_to m = [email] /\ ml_msg m = buildMessage (sm_from p) email "Order Confirmed" ("Your order " +:+ order +:+ " has been confirmed.").
Proof.
  intros Ho Hp Hne Hf Ht Hev. unfold not_Process. rewrite Hev. simpl. unfold wrap_err, SendEmail, validateSendEmail. rewrite Hp. simpl.
  rewrite (bool_decide_eq_false_2 (email = "")) by done. simpl. unfold bind, attempt, SMTP_Send. go_step Ho. rewrite Hf, Ht. simpl.
  eexists _, _. split; [done|]. by simpl.
Qed.

(** ** Orders of order-service *)

Lemma order_ignored order p msg o w :
  json_parse (m_Value msg) = Some (json_order order) -> not_Process ParseAddress json_parse p msg o w = (inr tt, w).
Proof. intros Hp. unfold not_Process. rewrite Hp. reflexivity. Qed.

(** What order-service publishes sends no mail: whatever fails, the consumer
    marks every such message and neither mails nor dead-letters anything, because
    the published order has no [event_type] and no address. *)
Theorem order_events_send_no_mail cfg dlq p msgs o (w : world (ConsSt NotSt)) :
  Forall (fun msg => exists order, json_parse (m_Value msg) = Some (json_order order)) msgs ->
  exists w', ConsumeClaim cfg dlq (not_Process ParseAddress json_parse p) msgs o w = (inr tt, w') /\
    k_ext (w_st w') = k_ext (w_st w) /\ k_dlq (w_st w') = k_dlq (w_st w) /\ k_marked (w_st w') = k_marked (w_st w) ++ msgs.
Proof.
  intros Hall. revert w. induction Hall as [|msg msgs [order Hm] Hall IH]; intros w; simpl.
  - exists w. by rewrite app_nil_r.
  - unfold bind, attempt, process, iterations, bind. simpl. unfold bind, attempt, zoom. rewrite (order_ignored order) by done.
    unfold MarkMessage, ret. simpl.
    edestruct IH as (w' & Hrun & He & Hd & Hmk). rewrite Hrun. exists w'. simpl in *. by rewrite He, Hd, Hmk, <- app_assoc.
Qed.
End Facts.

(** ** Concrete runs *)

Section Samples.
#[local] Existing Instance uuid_text.

Lemma message_roundtrip_witness :
  read_message (buildMessage "shop@example.com" "ann@example.com" "Order Confirmed" ("Hello" +:+ crlf +:+ crlf +:+ "bye")) =
    (["From: shop@example.com"; "To: ann@example.com"; "Subject: Order Confirmed"; "MIME-Version: 1.0"; content_type],
     "Hello" +:+ crlf +:+ crlf +:+ "bye").
Proof. apply (message_roundtrip "shop@example.com" "ann@example.com" "Order Confirmed"); reflexivity. Defined.

Lemma MaskEmail_hides_witness :
  MaskEmail "anna@x.org" = MaskEmail "anne@x.org" /\ String.length (MaskEmail "anna@x.org") = 10%nat.
Proof. apply (MaskEmail_hides "anna" "anne" "x.org"); [reflexivity|reflexivity|reflexivity|simpl; lia|reflexivity]. Defined.

Definition not_oracle : oracle := Oracle (fun _ => FNone) (fun _ => 0) uuid_sample (fun _ => None) (fun _ => true).

Definition not_consumer : Config :=
  setDefaults (MkConfig "notification-service" ["order-events"] "notification-dlq" "" 0 2 (50 * 10 ^ 6) (10 * 10 ^ 9)
    (Some (fun err => Is err ErrInvalidArgument))).

Definition not_msg : Message := MkMessage "order-events" 0 3 "" "order".

Definition published : Order := MkOrder (uuid_sample 0) (uuid_sample 1) [] 100 OrderStatusPending 0 0.

Lemma order_events_send_no_mail_witness : exists w',
  ConsumeClaim not_consumer true (not_Process (fun _ => true) (fun _ => Some (json_order published)) LogOnly) [not_msg; not_msg] not_oracle
    (World 0 (MkConsSt [] [] [] (MkNotSt [] []))) = (inr tt, w') /\
  k_ext (w_st w') = MkNotSt [] [] /\ k_dlq (w_st w') = [] /\ k_marked (w_st w') = [not_msg; not_msg].
Proof.
  apply (order_events_send_no_mail (fun _ => true) (fun _ => Some (json_order published)) not_consumer true LogOnly [not_msg; not_msg] not_oracle
    (World 0 (MkConsSt [] [] [] (MkNotSt [] [])))).
  repeat constructor; by exists published.
Defined.
End Samples.
