(* ===== verification/Flags.v ===== *)
(** * Feature flags and experiments: pkg/featureflags, pkg/abtesting

    The flag store with its two backends, the evaluation of a flag for a user, and
    the assignment of a user to a variation.  A value of the Redis hash is the JSON
    of a flag, or [None] for a text that does not parse. *)
From S2P Require Import Prelude Errors Effects OrderDomain Users Codec.

(** ** FNV-1a, 32 bits: [hash/fnv] *)

Definition fnv_offset : Z := 2166136261.
Definition fnv_prime : Z := 16777619.

Definition fnv_step (h b : Z) : Z := uint32 (Z.lxor h b * fnv_prime).

Definition fnv32a (s : string) : Z := foldl fnv_step fnv_offset (bytes_of s).

Example fnv_empty : fnv32a "" = 2166136261.
Proof. reflexivity. Qed.

Example fnv_foobar : fnv32a "foobar" = 3214735720.
Proof. reflexivity. Qed.

Definition hashUserID (s : string) : Z := fnv32a s.
Definition hashString (s : string) : Z := fnv32a s.

(** ** store.go *)

Record Flag := MkFlag { fl_Name : string; fl_Enabled : bool; fl_Strategy : string; fl_Percentage : Z }.

(** [fs_client]: whether a Redis client was given. *)
Record FlagSt := MkFlagSt { fs_client : bool; fs_local : gmap string Flag; fs_redis : gmap string (option json) }.

Definition marshal_flag (f : Flag) : json :=
  JObj [("name", JStr (fl_Name f)); ("enabled", JBool (fl_Enabled f)); ("strategy", JStr (fl_Strategy f));
        ("percentage", JNum (fl_Percentage f))].

Definition dec_bool (j : json) : option (option bool) :=
  match j with JBool b => Some (Some b) | JNull => Some None | _ => None end.

Definition unmarshal_flag (j : json) : option Flag :=
  l ← struct_of j;
  name ← field_string "name" l; enabled ← struct_field dec_bool false "enabled" l;
  strategy ← field_string "strategy" l; percentage ← field_int64 "percentage" l;
  Some (MkFlag name enabled strategy percentage).

Definition with_name (name : string) (f : Flag) : Flag := MkFlag name (fl_Enabled f) (fl_Strategy f) (fl_Percentage f).

Section Flags.
Context `{U : UuidLib}.

(** Code under the store's mutex: it cannot fail. *)
Definition local_op {A} (f : FlagSt -> A * FlagSt) : M FlagSt A :=
  fun _ w => let '(a, s) := f (w_st w) in (inr a, World (w_tick w) s).

Definition has_client : M FlagSt bool := local_op (fun s => (fs_client s, s)).

Definition flag_json_error (name : string) : error := wrapf ("unmarshal flag " +:+ name) (EPlain "json: cannot unmarshal").

Definition Get (name : string) : M FlagSt (option Flag) :=
  let* client := has_client in
  if negb client then local_op (fun s => (fs_local s !! name, s))
  else
    let* raw := wrap_err (wrapf ("hget featureflags/" +:+ name)) (read (fun s => inr (fs_redis s !! name))) in
    match raw with
    | None => ret None
    | Some text =>
        match text ≫= unmarshal_flag with
        | None => throw (flag_json_error name)
        | Some f => ret (Some (with_name name f))
        end
    end.

Definition Set_ (flag : Flag) : M FlagSt unit :=
  let* client := has_client in
  if negb client then local_op (fun s => (tt, MkFlagSt (fs_client s) (<[fl_Name flag := flag]> (fs_local s)) (fs_redis s)))
  else wrap_err (wrapf ("hset featureflags/" +:+ fl_Name flag)) (io (fun s =>
    (inr tt, MkFlagSt (fs_client s) (fs_local s) (<[fl_Name flag := Some (marshal_flag flag)]> (fs_redis s))))).

(** The entries of the hash, in the order of the iteration. *)
Fixpoint decode_flags (l : list (string * option json)) : error + list Flag :=
  match l with
  | [] => inr []
  | (name, text) :: l' =>
      match text ≫= unmarshal_flag with
      | None => inl (flag_json_error name)
      | Some f => match decode_flags l' with inl e => inl e | inr fs => inr (with_name name f :: fs) end
      end
  end.

Definition List_ : M FlagSt (list Flag) :=
  let* client := has_client in
  if negb client then local_op (fun s => ((map_to_list (fs_local s)).*2, s))
  else
    let* data := wrap_err (wrapf "hgetall featureflags") (read (fun s => inr (map_to_list (fs_redis s)))) in
    match decode_flags data with inl e => throw e | inr fs => ret fs end.

Definition store_SetEnabled (name : string) (enabled : bool) : M FlagSt unit :=
  let* flag := Get name in
  let flag' := default (MkFlag name false "default" 0) flag in
  Set_ (MkFlag (fl_Name flag') enabled (fl_Strategy flag') (fl_Percentage flag')).

Definition store_SetPercentage (name : string) (percentage : Z) : M FlagSt unit :=
  if (percentage <? 0) || (100 <? percentage) then throw (EPlain "percentage must be 0-100")
  else
    let* flag := Get name in
    let flag' := default (MkFlag name false "" 0) flag in
    Set_ (MkFlag (fl_Name flag') true "percentage" percentage).

(** ** provider.go *)

Inductive reason := ErrorReason | DisabledReason | TargetingMatchReason.

(** A boolean resolution: value, reason, and the resolution error if any. *)
Record BoolDetail := MkDetail { bd_Value : bool; bd_Reason : reason; bd_Error : option string }.

(** [uint32(f.Percentage)] keeps the low 32 bits. *)
Definition evaluate (f : Flag) (userID : string) : bool :=
  if bool_decide (fl_Strategy f = "percentage") then
    if bool_decide (userID = "") then false
    else hashUserID (userID +:+ fl_Name f) mod 100 <? uint32 (fl_Percentage f)
  else if bool_decide (fl_Strategy f = "user_id") then negb (bool_decide (userID = ""))
  else true.

Definition BooleanEvaluation (flag : string) (defaultValue : bool) (userID : string) : M FlagSt BoolDetail :=
  let* r := attempt (Get flag) in
  ret match r with
      | inl err => MkDetail defaultValue ErrorReason (Some (Error err))
      | inr None => MkDetail defaultValue ErrorReason (Some flag)
      | inr (Some f) =>
          if negb (fl_Enabled f) then MkDetail defaultValue DisabledReason None
          else MkDetail (evaluate f userID) TargetingMatchReason None
      end.

(** The other kinds of flags do not exist: the default with a type mismatch. *)
Definition OtherEvaluation {A} (flag : string) (defaultValue : A) : A * reason * option string :=
  (defaultValue, ErrorReason, Some flag).

(** ** featureflags.go: the client returns the default on a resolution error *)

Definition IsEnabled (name userID : string) : M FlagSt bool :=
  let* d := BooleanEvaluation name false userID in
  ret (match bd_Error d with Some _ => false | None => bd_Value d end).

Definition ff_Register (flag : Flag) : M FlagSt unit := Set_ flag.
Definition ff_List : M FlagSt (list Flag) := List_.
Definition ff_SetEnabled (name : string) (enabled : bool) : M FlagSt unit := store_SetEnabled name enabled.
Definition ff_SetPercentage (name : string) (percentage : Z) : M FlagSt unit := store_SetPercentage name percentage.
End Flags.

(** ** pkg/abtesting *)

Record Variation := MkVariation { va_Name : string; va_Weight : Z }.

Record Experiment := MkExperiment { ex_Name : string; ex_Variations : list Variation }.

(** The loop: the first variation whose cumulative weight exceeds the slot. *)
Fixpoint assign_loop (slot cumulative : Z) (vs : list Variation) : option string :=
  match vs with
  | [] => None
  | v :: vs' =>
      let cumulative' := int64 (cumulative + va_Weight v) in
      if slot <? cumulative' then Some (va_Name v) else assign_loop slot cumulative' vs'
  end.

Definition assign_slot (e : Experiment) (slot : Z) : string :=
  match assign_loop slot 0 (ex_Variations e) with
  | Some name => name
  | None => default "" (va_Name <$> last (ex_Variations e))
  end.

Definition Assign (e : Experiment) (userID : string) : string :=
  match ex_Variations e with
  | [] => ""
  | _ => assign_slot e (hashString (userID +:+ ex_Name e) mod 100)
  end.
