(* ===== verification/FlagsFacts.v ===== *)
(** * Feature flags and experiments: theorems

    A stored flag reads back; a rollout only grows with its percentage and reaches
    everyone at 100; every variation gets as many of the hundred slots as its
    weight. *)
From S2P Require Import Prelude Errors Effects OrderDomain Users Codec Flags.

Section Facts.
Context `{U : UuidLib}.
Implicit Types (o : oracle) (w : world FlagSt).

Lemma flag_json_roundtrip f : in_int64 (fl_Percentage f) = true -> unmarshal_flag (marshal_flag f) = Some f.
Proof.
  intros Hp. destruct f as [n e st p]. unfold unmarshal_flag, marshal_flag, struct_of, field_string, field_int64, struct_field. simpl in *.
  by rewrite Hp.
Qed.

(** What a store holds under a name: [None] when its text does not decode. *)
Definition stored (name : string) (s : FlagSt) : option (option Flag) :=
  if negb (fs_client s) then Some (fs_local s !! name)
  else match fs_redis s !! name with
       | None => Some None
       | Some text => (fun f => Some (with_name name f)) <$> (text ≫= unmarshal_flag)
       end.

Lemma Get_calm name o w :
  no_faults o ->
  exists w', Get name o w = (match stored name (w_st w) with Some f => inr f | None => inl (flag_json_error name) end, w') /\ w_st w' = w_st w.
Proof.
  intros Ho. unfold Get, stored, has_client, bind at 1, local_op. destruct w as [t s]; simpl. destruct (fs_client s); simpl; [|eauto].
  unfold bind, wrap_err. go_step Ho. simpl. destruct (fs_redis s !! name) as [text|]; [|unfold ret; eauto].
  destruct (text ≫= unmarshal_flag); unfold ret, throw; simpl; eauto.
Qed.

Lemma Set_calm f o w :
  no_faults o -> in_int64 (fl_Percentage f) = true ->
  exists w', Set_ f o w = (inr tt, w') /\ stored (fl_Name f) (w_st w') = Some (Some f).
Proof.
  intros Ho Hp. unfold Set_, has_client, bind at 1, local_op. destruct w as [t s]; simpl. destruct (fs_client s) eqn:Hc; simpl.
  - unfold wrap_err. go_step Ho. eexists. split; [done|]. unfold stored. simpl. rewrite Hc. simpl. rewrite lookup_insert_eq.
    simpl. rewrite flag_json_roundtrip by done. by destruct f.
  - eexists. split; [done|]. unfold stored. simpl. rewrite Hc. simpl. by rewrite lookup_insert_eq.
Qed.

Lemma flag_roundtrip_aux f user o w :
  no_faults o -> in_int64 (fl_Percentage f) = true ->
  exists w1 w3, ff_Register f o w = (inr tt, w1) /\ IsEnabled (fl_Name f) user o w1 = (inr (fl_Enabled f && evaluate f user), w3).
Proof.
  intros Ho Hp. destruct (Set_calm f o w Ho Hp) as (w1 & Hset & Hst).
  destruct (Get_calm (fl_Name f) o w1 Ho) as (w2 & Hget & _). rewrite Hst in Hget.
  exists w1, w2. split; [done|]. unfold IsEnabled, BooleanEvaluation, bind, attempt. rewrite Hget. unfold ret. simpl.
  by destruct (fl_Enabled f).
Qed.

(** A flag that was stored reads back, from Redis or from memory. *)
Lemma flag_roundtrip f o w :
  no_faults o -> in_int64 (fl_Percentage f) = true ->
  exists w1 w2, ff_Register f o w = (inr tt, w1) /\ Get (fl_Name f) o w1 = (inr (Some f), w2).
Proof.
  intros Ho Hp. destruct (Set_calm f o w Ho Hp) as (w1 & Hset & Hst).
  destruct (Get_calm (fl_Name f) o w1 Ho) as (w2 & Hget & _). rewrite Hst in Hget. by exists w1, w2.
Qed.

(** ** Rollouts *)

Lemma uint32_small z : 0 <= z < 2 ^ 32 -> uint32 z = z.
Proof. intros Hz. unfold uint32. by apply Z.mod_small. Qed.

(** The map in memory is keyed by the names of its flags; every operation keeps
    it so. *)
Definition named (s : FlagSt) : Prop := forall k f, fs_local s !! k = Some f -> fl_Name f = k.

Lemma pres_local_op {A} (I : FlagSt -> Prop) (f : FlagSt -> A * FlagSt) : (forall s, I s -> I (snd (f s))) -> pres I (local_op f).
Proof. intros Hf o w HI. unfold local_op. specialize (Hf _ HI). by destruct (f (w_st w)). Qed.

Lemma Get_named name : pres named (Get name).
Proof.
  unfold Get, has_client. apply pres_bind; [by apply pres_local_op|]. intros []; simpl; [|by apply pres_local_op].
  auto 10 with go_pres.
Qed.

Lemma Set_named f : pres named (Set_ f).
Proof.
  unfold Set_, has_client. apply pres_bind; [by apply pres_local_op|]. intros []; simpl; [by apply pres_wrap_err, pres_io|].
  apply pres_local_op. intros s Hs k g. simpl. intros [[<- <-]|[_ Hg]]%lookup_insert_Some; [done|by apply Hs].
Qed.

Lemma flags_stay_named name enabled percentage f :
  pres named (ff_Register f) /\ pres named (ff_SetEnabled name enabled) /\ pres named (ff_SetPercentage name percentage).
Proof.
  split_and!; [apply Set_named| |unfold ff_SetPercentage, store_SetPercentage; destruct (_ || _); [apply pres_throw|]];
    apply pres_bind; try apply Get_named; intros x; apply Set_named.
Qed.

(** After a SetPercentage, who sees the flag. *)
Lemma SetPercentage_calm name p user o w :
  no_faults o -> 0 <= p <= 100 -> named (w_st w) -> is_Some (stored name (w_st w)) ->
  exists w1 w2, ff_SetPercentage name p o w = (inr tt, w1) /\
    IsEnabled name user o w1 = (inr (negb (bool_decide (user = "")) && (hashUserID (user +:+ name) mod 100 <? p)), w2).
Proof.
  intros Ho Hp Hnm [f Hf]. unfold ff_SetPercentage, store_SetPercentage.
  destruct (Z.ltb_spec p 0); [lia|]. destruct (Z.ltb_spec 100 p); [lia|]. simpl.
  destruct (Get_calm name o w Ho) as (w0 & Hget & _). rewrite Hf in Hget. unfold bind at 1. rewrite Hget.
  set (f' := MkFlag _ true "percentage" p).
  assert (Hname : fl_Name f' = name).
  { unfold f'. simpl. destruct f as [f|]; [|done]. simpl. unfold stored in Hf. destruct (fs_client (w_st w)) eqn:Hc; simpl in Hf.
    - destruct (fs_redis (w_st w) !! name) as [text|]; [|done]. destruct (text ≫= unmarshal_flag); by simplify_eq/=.
    - apply Hnm. by simplify_eq. }
  destruct (flag_roundtrip_aux f' user o w0 Ho) as (w1 & w3 & Hset & Hen).
  { simpl. unfold in_int64. apply andb_true_intro. split; [apply Z.leb_le|apply Z.ltb_lt]; lia. }
  exists w1, w3. rewrite Hname in Hen. split; [done|]. rewrite Hen. do 2 f_equal. unfold evaluate. rewrite Hname.
  change (fl_Strategy f') with "percentage". change (fl_Percentage f') with p. simpl.
  destruct (bool_decide (user = "")); [done|]. simpl. by rewrite uint32_small by lia.
Qed.

(** A rollout only grows: a user who sees a flag at one percentage sees it at
    every higher one; at 100 every identified user sees it, at 0 nobody does, and
    anonymous users never do. *)
Theorem rollout_monotone name p q user o w :
  no_faults o -> 0 <= p -> p <= q -> q <= 100 -> named (w_st w) -> is_Some (stored name (w_st w)) ->
  exists wp wp' bp wq wq' bq,
    ff_SetPercentage name p o w = (inr tt, wp) /\ IsEnabled name user o wp = (inr bp, wp') /\
    ff_SetPercentage name q o w = (inr tt, wq) /\ IsEnabled name user o wq = (inr bq, wq') /\
    (bp = true -> bq = true) /\ (q = 100 -> bq = negb (bool_decide (user = ""))) /\ (p = 0 -> bp = false).
Proof.
  intros Ho Hp0 Hpq Hq Hnm Hst.
  destruct (SetPercentage_calm name p user o w Ho ltac:(lia) Hnm Hst) as (wp & wp' & Hsp & Hep).
  destruct (SetPercentage_calm name q user o w Ho ltac:(lia) Hnm Hst) as (wq & wq' & Hsq & Heq).
  pose proof (Z.mod_pos_bound (hashUserID (user +:+ name)) 100 ltac:(lia)) as Hmod.
  eexists wp, wp', _, wq, wq', _. split_and!; [done|done|done|done| | |].
  - rewrite !andb_true_iff, !Z.ltb_lt. intros [Hu Hlt]. split; [done|lia].
  - intros ->. rewrite (proj2 (Z.ltb_lt _ _)) by lia. apply andb_true_r.
  - intros ->. rewrite (proj2 (Z.ltb_ge _ _)) by lia. apply andb_false_r.
Qed.

(** Register does not check the percentage: a negative one turns the flag on for
    everyone. *)
Lemma negative_percentage_is_everyone name user :
  user ≠ "" -> evaluate (MkFlag name true "percentage" (-1)) user = true.
Proof.
  intros Hu. unfold evaluate. simpl. rewrite bool_decide_eq_false_2 by done.
  pose proof (Z.mod_pos_bound (hashUserID (user +:+ name)) 100 ltac:(lia)) as Hmod.
  apply Z.ltb_lt. change (uint32 (-1)) with (2 ^ 32 - 1). lia.
Qed.
End Facts.

(** ** Experiments *)

Definition total_weight (vs : list Variation) : Z := list_sumZ va_Weight vs.

(** The slots of an interval that satisfy a test. *)
Definition slots (lo n : Z) (f : Z -> bool) : nat := length (filter (fun s => f s = true) (seqZ lo n)).

Lemma slots_split lo n m f : 0 <= n -> 0 <= m -> slots lo (n + m) f = (slots lo n f + slots (lo + n) m f)%nat.
Proof. intros Hn Hm. unfold slots. by rewrite seqZ_app, filter_app, length_app. Qed.

Lemma slots_const lo n f b : (forall s, lo <= s < lo + n -> f s = b) -> slots lo n f = if b then Z.to_nat n else 0%nat.
Proof.
  intros Hf. unfold slots. destruct b.
  - rewrite list_filter_all; [by rewrite length_seqZ|]. intros s Hs%elem_of_seqZ. by apply Hf.
  - rewrite list_filter_nil; [done|]. intros s Hs%elem_of_seqZ. rewrite (Hf s Hs). done.
Qed.

Lemma slots_ext lo n f g : (forall s, lo <= s < lo + n -> f s = g s) -> slots lo n f = slots lo n g.
Proof.
  intros Hfg. unfold slots. f_equal. assert (Hin : forall s, s ∈ seqZ lo n -> f s = g s) by (intros s Hs%elem_of_seqZ; by apply Hfg).
  revert Hin. generalize (seqZ lo n). intros l. induction l as [|x l IH]; intros Hin; [done|].
  rewrite !filter_cons, (Hin x) by left. rewrite IH by (intros s Hs; apply Hin; by right). done.
Qed.

Definition gets (name : string) (r : option string) : bool := bool_decide (r = Some name).

(** The slots from [c] on that the loop gives to a name. *)
Lemma assign_loop_slots vs c name :
  Forall (fun v => 0 <= va_Weight v) vs -> 0 <= c -> c + total_weight vs <= 100 ->
  slots c (100 - c) (fun s => gets name (assign_loop s c vs)) =
  Z.to_nat (list_sumZ (fun v => if bool_decide (va_Name v = name) then va_Weight v else 0) vs).
Proof.
  intros Hvs. revert c. induction Hvs as [|v vs Hv Hvs IH]; intros c Hc Htot.
  - simpl. by rewrite (slots_const c (100 - c) _ false).
  - unfold total_weight in *. simpl in Htot |- *.
    assert (Hrest : 0 <= list_sumZ va_Weight vs).
    { clear -Hvs. induction Hvs as [|v vs Hv Hvs IH]; simpl; lia. }
    assert (Hrest' : 0 <= list_sumZ (fun v => if bool_decide (va_Name v = name) then va_Weight v else 0) vs).
    { clear -Hvs. induction Hvs as [|v vs Hv Hvs IH]; simpl; [done|]. case_bool_decide; lia. }
    assert (Hint : int64 (c + va_Weight v) = c + va_Weight v).
    { apply int64_id. unfold in_int64. apply andb_true_intro. split; [apply Z.leb_le|apply Z.ltb_lt]; lia. }
    rewrite Hint. replace (100 - c) with (va_Weight v + (100 - (c + va_Weight v))) by lia. rewrite slots_split by lia.
    rewrite (slots_const c (va_Weight v) _ (bool_decide (va_Name v = name))).
    2:{ intros s Hs. rewrite (proj2 (Z.ltb_lt _ _)) by lia. unfold gets. apply bool_decide_ext. split; [congruence|by intros ->]. }
    rewrite (slots_ext (c + va_Weight v) _ _ (fun s => gets name (assign_loop s (c + va_Weight v) vs))).
    2:{ intros s Hs. by rewrite (proj2 (Z.ltb_ge _ _)) by lia. }
    rewrite IH by lia. case_bool_decide; lia.
Qed.

(** Every slot is taken when the weights sum to 100. *)
Lemma assign_loop_total vs slot c :
  Forall (fun v => 0 <= va_Weight v) vs -> 0 <= c -> c + total_weight vs <= 100 -> slot < c + total_weight vs ->
  vs ≠ [] -> is_Some (assign_loop slot c vs).
Proof.
  intros Hvs. revert c. induction Hvs as [|v vs Hv Hvs IH]; intros c Hc Htot Hslot Hne; [done|].
  unfold total_weight in *. simpl in *.
  assert (Hrest : 0 <= list_sumZ va_Weight vs) by (clear -Hvs; induction Hvs as [|v vs Hv Hvs IH]; simpl; lia).
  assert (Hint : int64 (c + va_Weight v) = c + va_Weight v).
  { apply int64_id. unfold in_int64. apply andb_true_intro. split; [apply Z.leb_le|apply Z.ltb_lt]; lia. }
  rewrite Hint. destruct (Z.ltb_spec slot (c + va_Weight v)); [eauto|]. destruct vs as [|v' vs]; [simpl in *; lia|].
  apply IH; [lia|lia|lia|done].
Qed.

(** Every variation gets its share: with weights that sum to 100 a name is
    assigned exactly as many of the hundred slots as its weights say. *)
Theorem variations_get_their_weights e name :
  Forall (fun v => 0 <= va_Weight v) (ex_Variations e) -> total_weight (ex_Variations e) = 100 ->
  slots 0 100 (fun s => bool_decide (assign_slot e s = name)) =
  Z.to_nat (list_sumZ (fun v => if bool_decide (va_Name v = name) then va_Weight v else 0) (ex_Variations e)).
Proof.
  intros Hvs Htot. rewrite <- (assign_loop_slots (ex_Variations e) 0 name) by (done || lia).
  apply slots_ext. intros s Hs. unfold assign_slot, gets.
  destruct (assign_loop_total (ex_Variations e) s 0) as [n Hn]; [done|lia|lia|lia| |].
  { intros Hnil. rewrite Hnil in Htot. done. }
  rewrite Hn. apply bool_decide_ext. split; congruence.
Qed.

(** ** Concrete runs *)

Section Samples.
#[local] Existing Instance uuid_text.

Definition ff_oracle : oracle := Oracle (fun _ => FNone) (fun _ => 0) uuid_sample (fun _ => None) (fun _ => true).

Definition ff_world : world FlagSt := World 0 (MkFlagSt true ∅ ∅).

Lemma rollout_monotone_witness : exists wp wp' bp wq wq' bq,
  ff_SetPercentage "new-ui" 10 ff_oracle ff_world = (inr tt, wp) /\ IsEnabled "new-ui" "ann" ff_oracle wp = (inr bp, wp') /\
  ff_SetPercentage "new-ui" 100 ff_oracle ff_world = (inr tt, wq) /\ IsEnabled "new-ui" "ann" ff_oracle wq = (inr bq, wq') /\
  (bp = true -> bq = true) /\ (100 = 100 -> bq = negb (bool_decide ("ann" = ""))) /\ (10 = 0 -> bp = false).
Proof.
  apply (rollout_monotone "new-ui" 10 100 "ann" ff_oracle ff_world); [by split|lia|lia|lia|by intros k f Hk|by eexists].
Defined.

Lemma variations_get_their_weights_witness :
  slots 0 100 (fun s => bool_decide (assign_slot (MkExperiment "color" [MkVariation "red" 30; MkVariation "blue" 70]) s = "blue")) = 70%nat.
Proof.
  apply (variations_get_their_weights (MkExperiment "color" [MkVariation "red" 30; MkVariation "blue" 70]) "blue");
    [repeat constructor; simpl; lia|reflexivity].
Defined.
End Samples.
