(* ===== verification/Middleware.v ===== *)
(** * pkg/middleware: rate limits, request ids, logging, validation

    HTTP and gRPC middleware as transformers of handlers.  Parsing of addresses
    ([net]), the counting store of ulule/limiter and protovalidate are parameters;
    the store of the application behind the middleware is a type [A]. *)
From S2P Require Import Prelude Errors Effects Auth.

(** ** HTTP requests and responses *)

(** The request: the headers under their canonical names, the limit that
    MaxBytesReader puts on the body, and the values the middleware adds to the
    context. *)
Record HttpReq := MkHttpReq {
  rq_Method : string; rq_Path : string; rq_RemoteAddr : string; rq_Header : list (string * string);
  rq_MaxBytes : option Z; rq_ctx : Ctx; rq_rateIP : option string; rq_requestID : option string
}.

(** [r.Header.Get]: the first value of a key, or the empty string. *)
Definition Header_Get (r : HttpReq) (key : string) : string :=
  match List.find (fun kv => bool_decide (fst kv = key)) (rq_Header r) with Some (_, v) => v | None => "" end.

Record AccessLine := MkAccessLine {
  al_method : string; al_path : string; al_remote : string; al_status : Z; al_request_id : string
}.

Definition StatusOK : Z := 200.
Definition StatusTooManyRequests : Z := 429.

(** [net]: the host of an address, a network, an IP and membership. *)
Class NetLib := {
  IPNet : Type;
  IP : Type;
  net_SplitHost : string -> option string;
  net_ParseCIDR : string -> option IPNet;
  net_ParseIP : string -> IP;
  net_Contains : IPNet -> IP -> bool
}.

(** ulule/limiter: one hit on a key under a limit per period; [true] when the
    limit was reached. *)
Class LimiterLib := {
  LimStore : Type;
  limiter_Get : Z -> Z -> string -> LimStore -> bool * LimStore
}.

Definition comma : Ascii.ascii := Ascii.ascii_of_nat 44.

Section ClientIP.
Context `{NL : NetLib}.

(** The CIDRs that parse; the others are skipped. *)
Definition trusted_nets (trusted : list string) : list IPNet := omap net_ParseCIDR trusted.

Definition peer_host (r : HttpReq) : string := default (rq_RemoteAddr r) (net_SplitHost (rq_RemoteAddr r)).

Definition trusted_peer (r : HttpReq) (trusted : list string) : bool :=
  existsb (fun cidr => net_Contains cidr (net_ParseIP (peer_host r))) (trusted_nets trusted).

(** The loop from the last part to the first. *)
Definition last_part (parts : list string) : option string :=
  List.find (fun ip => negb (bool_decide (ip = ""))) (TrimSpace <$> reverse parts).

Definition ClientIP (r : HttpReq) (trusted : list string) : string :=
  if bool_decide (length trusted = 0%nat) then peer_host r
  else if negb (trusted_peer r trusted) then peer_host r
  else
    let xff := Header_Get r "X-Forwarded-For" in
    if bool_decide (xff = "") then peer_host r
    else default (peer_host r) (last_part (Split xff comma)).
End ClientIP.

Section Middleware.
Context `{U : UuidLib} `{NL : NetLib} `{LL : LimiterLib} {A : Type}.

(** The response as written so far, the access log, the limiter's store, and the
    application.  [h_status] is what the client sees (the first WriteHeader);
    [h_seen] is the field of [responseWriter], the last one. *)
Record HttpSt := MkHttpSt {
  h_status : option Z; h_seen : Z; h_headers : list (string * string); h_log : list AccessLine;
  h_limits : LimStore; h_app : A
}.

Definition HttpHandler : Type := HttpReq -> M HttpSt unit.

Definition http_step (f : HttpSt -> HttpSt) : M HttpSt unit := fun _ w => (inr tt, World (w_tick w) (f (w_st w))).

Definition WriteHeader (code : Z) : M HttpSt unit :=
  http_step (fun s => MkHttpSt (match h_status s with Some c => Some c | None => Some code end) code
                        (h_headers s) (h_log s) (h_limits s) (h_app s)).

Definition set_header (k v : string) : M HttpSt unit :=
  http_step (fun s => MkHttpSt (h_status s) (h_seen s) (filter (fun kv => fst kv ≠ k) (h_headers s) ++ [(k, v)])
                        (h_log s) (h_limits s) (h_app s)).

(** ** ratelimit.go *)

Record RedisRateLimiter := MkRedisLimiter { rr_limit : Z; rr_period : Z }.

Definition NewRedisRateLimiter (limit window : Z) : RedisRateLimiter :=
  MkRedisLimiter (if limit <=? 0 then 10 else limit) (if window <=? 0 then 10 ^ 9 else window).

(** An error of the store, a timeout included, refuses the request. *)
Definition Redis_Allow (rl : RedisRateLimiter) (key : string) : M HttpSt bool :=
  let* r := attempt (io (fun s =>
    let '(reached, store) := limiter_Get (rr_limit rl) (rr_period rl) key (h_limits s) in
    (inr reached, MkHttpSt (h_status s) (h_seen s) (h_headers s) (h_log s) store (h_app s)))) in
  ret (match r with inl _ => false | inr reached => negb reached end).

Inductive MwLimiter := RedisLimiter (rl : RedisRateLimiter) | NoLimiter.

Definition limiter_Allow (rl : MwLimiter) (key : string) : M HttpSt bool :=
  match rl with RedisLimiter rl' => Redis_Allow rl' key | NoLimiter => ret true end.

Record RoleRateLimiter := MkRoleLimiter { ro_user : MwLimiter; ro_admin : MwLimiter; ro_service : MwLimiter }.

Definition NewRoleRateLimiter (userLimit adminLimit window : Z) : RoleRateLimiter :=
  MkRoleLimiter (RedisLimiter (NewRedisRateLimiter userLimit window)) (RedisLimiter (NewRedisRateLimiter adminLimit window)) NoLimiter.

Definition Role_Allow (rl : RoleRateLimiter) (ctx : Ctx) (key : string) : M HttpSt bool :=
  let role := fst (GetRole ctx) in
  if bool_decide (role = RoleAdmin) then limiter_Allow (ro_admin rl) key
  else if bool_decide (role = RoleService) then limiter_Allow (ro_service rl) key
  else limiter_Allow (ro_user rl) key.

Definition RateLimitHTTP (allow : Ctx -> string -> M HttpSt bool) (trusted : list string) (next_ : HttpHandler) : HttpHandler := fun r =>
  let ip := ClientIP r trusted in
  let* ok := allow (rq_ctx r) ip in
  if negb ok then WriteHeader StatusTooManyRequests else next_ r.

Definition MaxBytesHandler (next_ : HttpHandler) (maxBytes : Z) : HttpHandler := fun r =>
  if 0 <? maxBytes
  then next_ (MkHttpReq (rq_Method r) (rq_Path r) (rq_RemoteAddr r) (rq_Header r) (Some maxBytes) (rq_ctx r) (rq_rateIP r) (rq_requestID r))
  else next_ r.

Definition WithRateLimitIP (next_ : HttpHandler) (trusted : list string) : HttpHandler := fun r =>
  next_ (MkHttpReq (rq_Method r) (rq_Path r) (rq_RemoteAddr r) (rq_Header r) (rq_MaxBytes r) (rq_ctx r)
           (Some (ClientIP r trusted)) (rq_requestID r)).

Definition RateLimitIPFromContext (r : HttpReq) : string := default "" (rq_rateIP r).

(** ** http.go *)

Definition RequestID (next_ : HttpHandler) : HttpHandler := fun r =>
  let* reqID := (if bool_decide (Header_Get r "X-Request-ID" = "")
                 then let* id := new_uuid in ret (uuid_String id) else ret (Header_Get r "X-Request-ID")) in
  do* set_header "X-Request-ID" reqID in
  next_ (MkHttpReq (rq_Method r) (rq_Path r) (rq_RemoteAddr r) (rq_Header r) (rq_MaxBytes r) (rq_ctx r) (rq_rateIP r) (Some reqID)).

Definition GetRequestID (r : HttpReq) : string := default "" (rq_requestID r).

(** The status in the log is that of the response writer it wraps. *)
Definition NewAccessLog (next_ : HttpHandler) : HttpHandler := fun r =>
  do* now in
  do* http_step (fun s => MkHttpSt (h_status s) StatusOK (h_headers s) (h_log s) (h_limits s) (h_app s)) in
  do* next_ r in
  do* now in
  http_step (fun s => MkHttpSt (h_status s) (h_seen s) (h_headers s)
    (h_log s ++ [MkAccessLine (rq_Method r) (rq_Path r) (rq_RemoteAddr r) (h_seen s) (GetRequestID r)]) (h_limits s) (h_app s)).
End Middleware.
Arguments HttpSt {LL} A.
Arguments HttpHandler {U LL} A.

(** ** grpc.go, protovalidate.go: unary interceptors *)

Section Interceptors.
Context `{U : UuidLib} `{G : GrpcStatus} {A Req Resp : Type}.

(** The request counters by method and status code, the log lines (method and
    code), and the application. *)
Record GrpcSt := MkGrpcSt { g_total : gmap (string * string) Z; g_log : list (string * string); g_app : A }.

Definition UnaryHandler : Type := Req -> M GrpcSt Resp.

Definition grpc_step (f : GrpcSt -> GrpcSt) : M GrpcSt unit := fun _ w => (inr tt, World (w_tick w) (f (w_st w))).

(** The code of [status.FromError(err)]: nil is OK, a foreign error Unknown. *)
Definition code_of (r : error + Resp) : code :=
  match r with
  | inr _ => OK
  | inl e => match status_FromError e with Some (c, _) => c | None => Unknown end
  end.

(** Return the handler's own result, error or value. *)
Definition rethrow (r : error + Resp) : M GrpcSt Resp := match r with inl e => throw e | inr a => ret a end.

Definition NewLoggingInterceptor (method : string) (handler : UnaryHandler) : UnaryHandler := fun req =>
  do* now in
  let* r := attempt (handler req) in
  do* now in
  do* grpc_step (fun s => MkGrpcSt (g_total s) (g_log s ++ [(method, code_text (code_of r))]) (g_app s)) in
  rethrow r.

Definition MetricsUnaryInterceptor (method : string) (handler : UnaryHandler) : UnaryHandler := fun req =>
  do* now in
  let* r := attempt (handler req) in
  do* now in
  let label := (method, code_text (code_of r)) in
  do* grpc_step (fun s => MkGrpcSt (<[label := default 0 (g_total s !! label) + 1]> (g_total s)) (g_log s) (g_app s)) in
  rethrow r.

(** [validate]: the rules of the message, [None] when they hold. *)
Definition ProtoValidateInterceptor (validate : Req -> option string) (handler : UnaryHandler) : UnaryHandler := fun req =>
  match validate req with
  | Some msg => throw (EStatus InvalidArgument msg)
  | None => handler req
  end.
End Interceptors.
Arguments GrpcSt A : clear implicits.
Arguments UnaryHandler {U} A Req Resp.
