(* ===== verification/MiddlewareFacts.v ===== *)
(** * pkg/middleware: theorems

    A client cannot choose the address it is limited by; a refused request and a
    failing limiter never reach the application; the interceptors return what
    their handler returns. *)
From S2P Require Import Prelude Errors Effects Auth Middleware.

(** ** Splitting a header *)

Lemma rev_app_rev s acc : String.rev (String.rev_app s acc) = String.rev_app acc s.
Proof.
  unfold String.rev. revert acc. assert (H : forall acc t, String.rev_app (String.rev_app s acc) t = String.rev_app acc (s +:+ t)).
  { induction s as [|c s IH]; intros acc t; [done|]. simpl. rewrite IH. reflexivity. }
  intros acc. rewrite H. f_equal. clear H. induction s as [|c s IH]; [done|]. exact (f_equal (String c) IH).
Qed.

Lemma split_byte_go_last c acc s : no_byte c s -> split_byte_go c acc s = [String.rev_app acc s].
Proof.
  intros Hs. rewrite <- rev_app_rev. revert acc. induction s as [|d s IH]; intros acc; [done|].
  destruct Hs as [Hd Hs]. simpl. rewrite decide_False by done. by rewrite IH.
Qed.

Lemma split_byte_go_app c acc p s : split_byte_go c acc (p +:+ String c s) = split_byte_go c acc p ++ split_byte_go c "" s.
Proof.
  revert acc. induction p as [|d p IH]; intros acc; simpl.
  - by rewrite decide_True.
  - change (String.append p (String c s)) with (p +:+ String c s). destruct (decide (c = d)); simpl; by rewrite IH.
Qed.

Lemma Split_last p c s : no_byte c s -> Split (p +:+ String c s) c = Split p c ++ [s].
Proof. intros Hs. unfold Split. by rewrite split_byte_go_app, (split_byte_go_last c "" s). Qed.

Section Facts.
Context `{U : UuidLib} `{NL : NetLib} `{LL : LimiterLib} {A : Type}.
Implicit Types (o : oracle) (w : world (HttpSt A)) (r : HttpReq).

(** ** The client's address *)

Definition with_headers (h : list (string * string)) r : HttpReq :=
  MkHttpReq (rq_Method r) (rq_Path r) (rq_RemoteAddr r) h (rq_MaxBytes r) (rq_ctx r) (rq_rateIP r) (rq_requestID r).

Lemma untrusted_ClientIP h r trusted : trusted_peer r trusted = false -> ClientIP (with_headers h r) trusted = peer_host r.
Proof.
  intros Hp. unfold ClientIP. change (trusted_peer (with_headers h r) trusted) with (trusted_peer r trusted). rewrite Hp.
  by case_bool_decide.
Qed.

(** A client cannot escape its limit by inventing headers: when the peer is not
    a trusted proxy, a request that is refused is refused with any headers, and
    the application is not called. *)
Theorem rate_limit_unspoofable allow trusted (next_ : HttpHandler A) h r o w w1 :
  trusted_peer r trusted = false -> allow (rq_ctx r) (peer_host r) o w = (inr false, w1) ->
  RateLimitHTTP allow trusted next_ (with_headers h r) o w = WriteHeader StatusTooManyRequests o w1.
Proof.
  intros Hp Hal. unfold RateLimitHTTP. rewrite untrusted_ClientIP by done.
  change (rq_ctx (with_headers h r)) with (rq_ctx r). unfold bind. by rewrite Hal.
Qed.

(** Behind a trusted proxy the entry that the proxy appended counts: whatever
    the client put into the header before it is ignored. *)
Theorem proxy_entry_wins r trusted forged ip :
  trusted ≠ [] -> trusted_peer r trusted = true -> no_byte comma ip -> TrimSpace ip ≠ "" ->
  Header_Get r "X-Forwarded-For" = forged +:+ String comma ip ->
  ClientIP r trusted = TrimSpace ip.
Proof.
  intros Hne Hp Hip Htrim Hh. unfold ClientIP. rewrite bool_decide_eq_false_2 by (by destruct trusted). rewrite Hp, Hh.
  rewrite bool_decide_eq_false_2 by (by destruct forged). unfold last_part. rewrite Split_last by done.
  rewrite reverse_snoc. simpl. by rewrite bool_decide_eq_false_2.
Qed.

(** ** Limits *)

(** A failing store refuses, and the application is not called: fail closed. *)
Lemma failing_limiter_refuses rl trusted (next_ : HttpHandler A) r o w :
  o_fault o (w_tick w) ≠ FNone -> h_status (w_st w) = None ->
  exists w', RateLimitHTTP (fun _ => Redis_Allow rl) trusted next_ r o w = (inr tt, w') /\
    h_status (w_st w') = Some StatusTooManyRequests /\ h_app (w_st w') = h_app (w_st w).
Proof.
  intros Hf Hs. unfold RateLimitHTTP, Redis_Allow, bind, attempt, io. destruct (o_fault o (w_tick w)) as [|e|e]; [done| |]; simpl.
  - eexists. split; [done|]. simpl. by rewrite Hs.
  - destruct (limiter_Get _ _ _ _) as [reached store]. simpl. eexists. split; [done|]. simpl. by rewrite Hs.
Qed.

(** A service is never limited. *)
Lemma service_is_not_limited userLimit adminLimit window ctx key o w :
  fst (GetRole ctx) = RoleService -> Role_Allow (NewRoleRateLimiter userLimit adminLimit window) ctx key o w = (inr true, w).
Proof. intros Hr. unfold Role_Allow. by rewrite Hr. Qed.

(** ** Request ids *)

(** The id that the next handler sees is the one in the response header, and the
    client's own id when it sent one. *)
Lemma RequestID_echo (next_ : HttpHandler A) r o w :
  exists r' w', RequestID next_ r o w = next_ r' o w' /\
    ("X-Request-ID", GetRequestID r') ∈ h_headers (w_st w') /\
    (Header_Get r "X-Request-ID" ≠ "" -> GetRequestID r' = Header_Get r "X-Request-ID").
Proof.
  unfold RequestID. case_bool_decide as Hh; unfold bind, new_uuid, ret, set_header, http_step; simpl;
    eexists _, _; (split; [done|]); split; simpl; try done; apply elem_of_app; right; apply list_elem_of_here.
Qed.
End Facts.

(** ** Interceptors *)

Section Interceptors.
Context `{U : UuidLib} `{G : GrpcStatus} {A Req Resp : Type}.
Implicit Types (o : oracle).

(** Logging and metrics are transparent: they return the handler's result,
    error or value, leave the application to it, and count the request once under
    its method and status. *)
Theorem interceptors_are_transparent method (handler : UnaryHandler A Req Resp) req o w r w1 :
  handler req o (next w) = (r, w1) ->
  (exists w', NewLoggingInterceptor method handler req o w = (r, w') /\ g_app (w_st w') = g_app (w_st w1) /\
     g_log (w_st w') = g_log (w_st w1) ++ [(method, code_text (code_of r))]) /\
  (exists w', MetricsUnaryInterceptor method handler req o w = (r, w') /\ g_app (w_st w') = g_app (w_st w1) /\
     forall label, g_total (w_st w') !! label =
       if decide (label = (method, code_text (code_of r))) then Some (default 0 (g_total (w_st w1) !! label) + 1)
       else g_total (w_st w1) !! label).
Proof.
  intros Hrun. split.
  - unfold NewLoggingInterceptor, bind, now, attempt, grpc_step. rewrite Hrun. destruct r as [e|a]; simpl; eexists; (split; [done|]); done.
  - unfold MetricsUnaryInterceptor, bind, now, attempt, grpc_step. rewrite Hrun.
    destruct r as [e|a]; simpl; eexists; (split; [done|]); (split; [done|]); intros label; simpl;
      (destruct (decide (label = _)) as [->|Hne]; [by rewrite lookup_insert_eq|by rewrite lookup_insert_ne]).
Qed.

(** A message that breaks its rules never reaches the handler. *)
Lemma invalid_message_refused validate (handler : UnaryHandler A Req Resp) req msg o w :
  validate req = Some msg -> ProtoValidateInterceptor validate handler req o w = (inl (EStatus InvalidArgument msg), w).
Proof. intros Hv. unfold ProtoValidateInterceptor. by rewrite Hv. Qed.
End Interceptors.

(** ** Concrete runs *)

Section Samples.
#[local] Existing Instance uuid_text.

(** Addresses as texts, a network as the list of its members; a limiter that
    counts the hits of each key. *)
#[local] Instance text_net : NetLib := {|
  IPNet := string; IP := string;
  net_SplitHost a := (fun n => take_str n a) <$> index_byte (Ascii.ascii_of_nat 58) a;
  net_ParseCIDR := Some; net_ParseIP := id;
  net_Contains n ip := bool_decide (n = ip)
|}.

#[local] Instance count_limiter : LimiterLib := {|
  LimStore := gmap string Z;
  limiter_Get limit _ key s := let n := default 0 (s !! key) + 1 in (limit <? n, <[key := n]> s)
|}.

Definition mw_oracle : oracle := Oracle (fun _ => FNone) (fun _ => 0) uuid_sample (fun _ => None) (fun _ => true).

Definition mw_req : HttpReq := MkHttpReq "GET" "/" "10.0.0.9:5000" [("X-Forwarded-For", "1.2.3.4, 5.6.7.8")] None Background None None.

Definition mw_world : world (HttpSt unit) := World 0 (MkHttpSt None 0 [] [] {["10.0.0.9" := 10]} tt).

Definition limited_world : world (HttpSt unit) := World 1 (MkHttpSt None 0 [] [] {["10.0.0.9" := 11]} tt).

Lemma rate_limit_unspoofable_witness :
  RateLimitHTTP (fun _ => Redis_Allow (NewRedisRateLimiter 0 0)) ["10.0.0.1"] (fun _ => ret tt)
    (with_headers [("X-Forwarded-For", "8.8.8.8")] mw_req) mw_oracle mw_world
  = WriteHeader StatusTooManyRequests mw_oracle limited_world.
Proof.
  apply (rate_limit_unspoofable (fun _ => Redis_Allow (NewRedisRateLimiter 0 0)) ["10.0.0.1"] (fun _ => ret tt)
    [("X-Forwarded-For", "8.8.8.8")] mw_req mw_oracle mw_world limited_world); reflexivity.
Defined.

Lemma proxy_entry_wins_witness : ClientIP mw_req ["10.0.0.9"] = "5.6.7.8".
Proof.
  apply (proxy_entry_wins mw_req ["10.0.0.9"] "1.2.3.4" " 5.6.7.8"); [done|reflexivity|by repeat split|by vm_compute|reflexivity].
Defined.

Lemma interceptors_are_transparent_witness :
  (exists w', NewLoggingInterceptor (G := grpc_direct) "/a.B/C" (fun _ : unit => ret 5) tt mw_oracle (World 0 (MkGrpcSt ∅ [] tt)) = (inr 5, w') /\
     g_app (w_st w') = tt /\ g_log (w_st w') = [("/a.B/C", "OK")]) /\
  (exists w', MetricsUnaryInterceptor (G := grpc_direct) "/a.B/C" (fun _ : unit => ret 5) tt mw_oracle (World 0 (MkGrpcSt ∅ [] tt)) = (inr 5, w') /\
     g_app (w_st w') = tt /\
     forall label, g_total (w_st w') !! label =
       if decide (label = ("/a.B/C", "OK")) then Some (default 0 ((∅ : gmap (string * string) Z) !! label) + 1)
       else (∅ : gmap (string * string) Z) !! label).
Proof.
  apply (interceptors_are_transparent (G := grpc_direct) "/a.B/C" (fun _ : unit => ret 5) tt mw_oracle (World 0 (MkGrpcSt ∅ [] tt)) (inr 5)
    (World 1 (MkGrpcSt ∅ [] tt))).
  reflexivity.
Defined.
End Samples.
