(* ===== verification/Transport.v ===== *)
(** * gRPC transport: pkg/grpcclient, pkg/tracing and the server chain of pkg/server

    The client factory with its credentials and interceptors, the circuit breaker
    of pkg/fxmodules, the propagation of trace headers, and the interceptor chain
    every gRPC service runs its handlers behind.  sony/gobreaker, the trace
    propagator, TLS loading and the JWT library are parameters. *)
From S2P Require Import Prelude Errors Effects Auth Middleware.

(** ** tracing.go: metadata as a text map carrier *)

(** [metadata.MD]: lower-case keys with their values. *)
Notation MD := (gmap string (list string)).

Definition MD_Get (m : MD) (key : string) : list string := default [] (m !! ToLower key).

Definition MD_Set (m : MD) (key : string) (vals : list string) : MD :=
  if bool_decide (vals = []) then m else <[ToLower key := vals]> m.

Definition Carrier_Get (m : MD) (key : string) : string :=
  match MD_Get m key with [] => "" | v :: _ => v end.

Definition Carrier_Set (m : MD) (key value : string) : MD := MD_Set m key [value].

Definition Carrier_Keys (m : MD) : list string := (map_to_list m).*1.

(** The propagator writes its headers through [Set]. *)
Definition Inject (headers : list (string * string)) (m : MD) : MD :=
  foldl (fun acc kv => Carrier_Set acc kv.1 kv.2) m headers.

(** [UnaryClientInterceptor]: the headers go into a copy of the outgoing
    metadata, or into fresh metadata; [headers] are those of the span context. *)
Definition trace_client {B} (headers : list (string * string)) (outgoing : option MD) (invoker : MD -> B) : B :=
  invoker (Inject headers (default ∅ outgoing)).

(** [UnaryServerInterceptor]: what [propagator.Extract] reads of the incoming
    metadata under the keys of the propagator. *)
Definition trace_server {B} (keys : list string) (incoming : option MD) (handler : list (string * string) -> B) : B :=
  match incoming with
  | Some md => handler ((fun k => (k, Carrier_Get md k)) <$> keys)
  | None => handler []
  end.

(** ** server.go: mutual TLS *)

Inductive ClientAuthType := NoClientCert | RequireAndVerifyClientCert.

Record TLSConfig := MkTLS {
  tls_cert : string * string; tls_pool : string; tls_ServerName : string; tls_ClientAuth : ClientAuthType; tls_MinVersion : Z
}.

Definition VersionTLS12 : Z := 771.

Definition file : Type := string * string.

(** The file system and crypto/x509: the error of a key pair, the content of a
    file, whether a PEM block holds a certificate.  A file is its directory and
    name, as the callers join them. *)
Class TLSLib := {
  tls_LoadX509KeyPair : file -> file -> error + (string * string);
  os_ReadFile : file -> error + string;
  x509_AppendCertsFromPEM : string -> bool;
  credentials_NewServerTLSFromFile : file -> file -> error + string;
  credentials_NewClientTLSFromFile : file -> string -> error + string
}.

(** Plain text, one-sided TLS, or mutual TLS. *)
Inductive Credentials := Insecure | TLS (c : string) | MTLS (c : TLSConfig).

Section Credentials.
Context `{T : TLSLib}.

Definition LoadServerCredentials (certFile keyFile : file) : error + Credentials :=
  match credentials_NewServerTLSFromFile certFile keyFile with
  | inl err => inl (wrapf "load server tls credentials" err)
  | inr creds => inr (TLS creds)
  end.

Definition LoadClientCredentials (caFile : file) (serverName : string) : error + Credentials :=
  match credentials_NewClientTLSFromFile caFile serverName with
  | inl err => inl (wrapf "load client tls credentials" err)
  | inr creds => inr (TLS creds)
  end.

Definition LoadServerMTLSCredentials (certFile keyFile caFile : file) : error + Credentials :=
  match tls_LoadX509KeyPair certFile keyFile with
  | inl err => inl (wrapf "load server cert/key" err)
  | inr cert =>
      match os_ReadFile caFile with
      | inl err => inl (wrapf "load ca cert" err)
      | inr caCert =>
          if x509_AppendCertsFromPEM caCert then inr (MTLS (MkTLS cert caCert "" RequireAndVerifyClientCert VersionTLS12))
          else inl (EPlain "failed to append ca cert")
      end
  end.

Definition LoadClientMTLSCredentials (certFile keyFile caFile : file) (serverName : string) : error + Credentials :=
  match tls_LoadX509KeyPair certFile keyFile with
  | inl err => inl (wrapf "load client cert/key" err)
  | inr cert =>
      match os_ReadFile caFile with
      | inl err => inl (wrapf "load ca cert" err)
      | inr caCert =>
          if x509_AppendCertsFromPEM caCert then inr (MTLS (MkTLS cert caCert serverName NoClientCert VersionTLS12))
          else inl (EPlain "failed to append ca cert")
      end
  end.

(** bootstrap.go: the credentials of a server, plain text without a CERT_PATH. *)
Definition server_creds (certPath : string) : error + Credentials :=
  if bool_decide (certPath = "") then inr Insecure
  else match LoadServerMTLSCredentials (certPath, "server-cert.pem") (certPath, "server-key.pem") (certPath, "ca-cert.pem") with
       | inl err => inl (wrapf "load tls credentials" err)
       | inr c => inr c
       end.
End Credentials.

(** ** factory.go *)

Record ClientConfig := MkClientCfg {
  g_CertPath : string; g_JWTSecret : string; g_ServiceName : string; g_UserAuth : bool; g_InsecureSkipTLS : bool
}.

(** [strings.LastIndex(addr, ":")]. *)
Fixpoint last_index (c : Ascii.ascii) (s : string) : option nat :=
  match s with
  | EmptyString => None
  | String d s' =>
      match last_index c s' with
      | Some n => Some (S n)
      | None => if Ascii.eqb d c then Some 0%nat else None
      end
  end.

Definition addr_colon : Ascii.ascii := Ascii.ascii_of_nat 58.

Definition serverNameFromAddr (addr : string) : string :=
  match last_index addr_colon addr with Some idx => take_str idx addr | None => addr end.

Example server_name : serverNameFromAddr "inventory:50053" = "inventory".
Proof. reflexivity. Qed.

(** sony/gobreaker: what a request asks before it runs, and what it reports. *)
Record CBSettings := MkCBSettings { cb_MaxRequests : Z; cb_Interval : Z; cb_Timeout : Z; cb_ReadyToTrip : Z -> bool }.

Class BreakerLib := {
  CB : Type;
  cb_ErrOpenState : error;
  cb_beforeRequest : CBSettings -> Z -> CB -> option error * CB;
  cb_afterRequest : CBSettings -> Z -> bool -> CB -> CB
}.

(** The documented life of a breaker whose counts are never cleared by an
    interval: closed with a number of consecutive failures, or open until a time. *)
Class BreakerLaws `{BreakerLib} := {
  cb_closed : CB -> Z -> Prop;
  cb_open : CB -> Z -> Prop;
  cb_closed_lets : forall st t c n, cb_closed c n -> exists c', cb_beforeRequest st t c = (None, c') /\ cb_closed c' n;
  cb_success : forall st t c n, cb_closed c n -> cb_closed (cb_afterRequest st t true c) 0;
  cb_failure : forall st t c n, cb_closed c n -> cb_ReadyToTrip st (n + 1) = false -> cb_closed (cb_afterRequest st t false c) (n + 1);
  cb_trip : forall st t c n, cb_closed c n -> cb_ReadyToTrip st (n + 1) = true -> cb_open (cb_afterRequest st t false c) (t + cb_Timeout st);
  cb_open_refuses : forall st t c until, cb_open c until -> t < until ->
    exists c', cb_beforeRequest st t c = (Some cb_ErrOpenState, c') /\ cb_open c' until
}.

(** circuitbreaker.go: one breaker for all clients of a service. *)
Definition CircuitBreaker : CBSettings := MkCBSettings 2 0 (30 * second) (fun consecutiveFailures => 5 <=? consecutiveFailures).

Section Client.
Context `{U : UuidLib} `{J : JwtLib} `{T : TLSLib} `{B : BreakerLib} {A : Type}.

(** The breaker that the clients of a process share, and the other side. *)
Record CliSt := MkCliSt { cl_cb : CB; cl_app : A }.

Definition ClientInterceptor : Type := forall R, Ctx -> (Ctx -> M CliSt R) -> M CliSt R.

Definition cb_step {R} (f : CB -> R * CB) : M CliSt R := fun _ w =>
  let '(r, c) := f (cl_cb (w_st w)) in (inr r, World (w_tick w) (MkCliSt c (cl_app (w_st w)))).

(** [cb.Execute]: a nil error is a success. *)
Definition circuitBreakerInterceptor (st : CBSettings) : ClientInterceptor := fun R ctx invoker =>
  let* t := now in
  let* refused := cb_step (cb_beforeRequest st t) in
  match refused with
  | Some err => throw err
  | None =>
      let* r := attempt (invoker ctx) in
      let* t' := now in
      do* cb_step (fun c => (tt, cb_afterRequest st t' (match r with inr _ => true | inl _ => false end) c)) in
      match r with inl err => throw err | inr a => ret a end
  end.

Record Factory := MkFactory {
  fa_cfg : ClientConfig; fa_cb : option CBSettings; fa_issuer : option ServiceTokenIssuer;
  fa_insecureAllowed : bool; fa_interceptors : list ClientInterceptor
}.

Definition WithUnaryInterceptor (i : ClientInterceptor) (f : Factory) : Factory :=
  MkFactory (fa_cfg f) (fa_cb f) (fa_issuer f) (fa_insecureAllowed f) (fa_interceptors f ++ [i]).

Definition WithInsecureAllowed (allowed : bool) (f : Factory) : Factory :=
  MkFactory (fa_cfg f) (fa_cb f) (fa_issuer f) allowed (fa_interceptors f).

Definition NewFactory (cfg : ClientConfig) (cb : option CBSettings) (opts : list (Factory -> Factory)) : Factory :=
  let issuer := if negb (bool_decide (g_JWTSecret cfg = "")) && negb (bool_decide (g_ServiceName cfg = ""))
                then Some (NewServiceTokenIssuer (g_JWTSecret cfg) (g_ServiceName cfg) "api-gateway") else None in
  foldl (fun f opt => opt f) (MkFactory cfg cb issuer true []) opts.

Definition clientCreds (f : Factory) (addr : string) : error + Credentials :=
  let dir := g_CertPath (fa_cfg f) in
  if negb (bool_decide (dir = "")) then
    LoadClientMTLSCredentials (dir, "server-cert.pem") (dir, "server-key.pem") (dir, "ca-cert.pem") (serverNameFromAddr addr)
  else if g_InsecureSkipTLS (fa_cfg f) || fa_insecureAllowed f then inr Insecure
  else inl (EPlain "no CERT_PATH configured and insecure connections are not allowed").

(** [grpc.WithChainUnaryInterceptor]: the first interceptor is the outermost. *)
Definition client_chain (ics : list ClientInterceptor) : ClientInterceptor := fun R =>
  foldr (fun (i : ClientInterceptor) (call : Ctx -> (Ctx -> M CliSt R) -> M CliSt R) ctx invoker =>
           i R ctx (fun ctx' => call ctx' invoker)) (fun ctx invoker => invoker ctx) ics.

Record ClientConn := MkConn { cn_addr : string; cn_creds : Credentials; cn_interceptors : list ClientInterceptor }.

(** [NewClient]; the trace headers are not among the values a [Ctx] records, so
    the tracing interceptor passes the context on. *)
Definition trace_interceptor : ClientInterceptor := fun R ctx invoker => invoker ctx.

Definition NewClient (f : Factory) (addr : string) : error + ClientConn :=
  match clientCreds f addr with
  | inl err => inl err
  | inr creds =>
      let breaker := match fa_cb f with Some st => [circuitBreakerInterceptor st] | None => [] end in
      let auth : list ClientInterceptor :=
        if g_UserAuth (fa_cfg f) then [fun R ctx invoker => UserAuthInterceptor ctx invoker]
        else match fa_issuer f with Some i => [fun R ctx invoker => ServiceAuthInterceptor i ctx invoker] | None => [] end in
      inr (MkConn addr creds ([trace_interceptor] ++ breaker ++ fa_interceptors f ++ auth))
  end.

(** A unary call on the connection. *)
Definition Invoke {R} (conn : ClientConn) (ctx : Ctx) (invoker : Ctx -> M CliSt R) : M CliSt R :=
  client_chain (cn_interceptors conn) R ctx invoker.
End Client.
Arguments CliSt {B} A.
Arguments ClientInterceptor {U B} A.
Arguments Factory {U B} A.
Arguments ClientConn {U B} A.

(** What the server sees of a call: the outgoing values are its metadata. *)
Definition deliver (ctx : Ctx) : Ctx := MkCtx None None None (Some (c_outgoing ctx)) [].

(** ** fx.go: the chain of a server *)

Section Server.
Context `{U : UuidLib} `{J : JwtLib} `{G : GrpcStatus} {A Req Resp : Type}.

Definition ServerHandler : Type := Ctx -> Req -> M (GrpcSt A) Resp.

Definition ServerInterceptor : Type := string -> ServerHandler -> ServerHandler.

Definition ChainUnaryInterceptor (ics : list ServerInterceptor) (method : string) (handler : ServerHandler) : ServerHandler :=
  foldr (fun (i : ServerInterceptor) h => i method h) handler ics.

(** The interceptors of [RegisterGRPCService], outermost first; the fourth, tracing,
    passes on the values a [Ctx] records. *)
Definition standard_interceptors (validate : Req -> option string) (jwtSecret : string) : list ServerInterceptor :=
  [ fun method h ctx => NewLoggingInterceptor method (h ctx);
    fun method h ctx => MetricsUnaryInterceptor method (h ctx);
    fun _ h ctx => ProtoValidateInterceptor validate (h ctx);
    fun _ h ctx => h ctx;
    fun method h ctx req => AuthUnaryInterceptor (Verify (NewJWTVerifier jwtSecret [])) method ctx (fun ctx' => h ctx' req) ].

Definition server_chain (validate : Req -> option string) (jwtSecret method : string) (handler : ServerHandler) : ServerHandler :=
  ChainUnaryInterceptor (standard_interceptors validate jwtSecret) method handler.
End Server.
Arguments ServerHandler {U} A Req Resp.
