(* ===== verification/TransportFacts.v ===== *)
(** * Theorems on the gRPC transport

    What the server chain lets through and records, the identity a service call
    arrives with, when the shared breaker refuses, and the round trip of trace
    headers. *)
From S2P Require Import Prelude Errors Effects Auth Middleware Transport.

(** ** Trace headers *)

Lemma Carrier_Get_Set m k v k' :
  Carrier_Get (Carrier_Set m k v) k' = if decide (ToLower k = ToLower k') then v else Carrier_Get m k'.
Proof.
  unfold Carrier_Get, Carrier_Set, MD_Set, MD_Get. rewrite bool_decide_eq_false_2 by done.
  destruct (decide (ToLower k = ToLower k')) as [->|Hne]; [by rewrite lookup_insert_eq|by rewrite lookup_insert_ne].
Qed.

Lemma Inject_other headers m k :
  ToLower k ∉ (ToLower ∘ fst <$> headers) -> Carrier_Get (Inject headers m) k = Carrier_Get m k.
Proof.
  revert m. induction headers as [|[h v] hs IH]; intros m Hk; [done|].
  rewrite fmap_cons in Hk. apply not_elem_of_cons in Hk as [Hne Hk]. simpl in *. unfold Inject in *. simpl.
  rewrite IH by done. rewrite Carrier_Get_Set. by rewrite decide_False by done.
Qed.

Lemma Inject_get headers m k v :
  NoDup (ToLower ∘ fst <$> headers) -> (k, v) ∈ headers -> Carrier_Get (Inject headers m) k = v.
Proof.
  revert m. induction headers as [|[h x] hs IH]; intros m Hnd Hin; [by apply not_elem_of_nil in Hin|].
  rewrite fmap_cons in Hnd. apply NoDup_cons in Hnd as [Hh Hnd]. change (Inject ((h, x) :: hs) m) with (Inject hs (Carrier_Set m h x)).
  apply elem_of_cons in Hin as [[= -> ->]|Hin]; [|by apply IH].
  rewrite Inject_other by done. rewrite Carrier_Get_Set. by rewrite decide_True.
Qed.

(** Trace headers survive the call. The server reads, under the
    propagator's keys, the headers that the client injected, whatever metadata the
    caller had set before, and every other header is left as it was. *)
Theorem trace_roundtrip headers outgoing :
  NoDup (ToLower ∘ fst <$> headers) ->
  trace_client headers outgoing (fun md => trace_server headers.*1 (Some md) id) = headers /\
  forall k, ToLower k ∉ (ToLower ∘ fst <$> headers) ->
    trace_client headers outgoing (fun md => Carrier_Get md k) = Carrier_Get (default ∅ outgoing) k.
Proof.
  intros Hnd. unfold trace_client, trace_server. split; [|intros k Hk; by apply Inject_other].
  rewrite <- list_fmap_compose. simpl. transitivity (id <$> headers); [|apply list_fmap_id].
  apply list_fmap_ext. intros i [k v] Hi. simpl. f_equal. apply Inject_get; [done|]. by eapply list_elem_of_lookup_2.
Qed.

Lemma trace_roundtrip_witness :
  trace_client [("traceparent", "00-1"); ("Baggage", "a=b")] (Some {["authorization" := ["Bearer t"]; "baggage" := ["old"]]})
    (fun md => trace_server ["traceparent"; "Baggage"] (Some md) id) = [("traceparent", "00-1"); ("Baggage", "a=b")].
Proof.
  apply (trace_roundtrip [("traceparent", "00-1"); ("Baggage", "a=b")]). vm_compute.
  apply NoDup_cons; split; [by intros Hin%list_elem_of_singleton|apply NoDup_singleton].
Defined.

(** ** Addresses and credentials *)

Lemma last_index_none c s : no_byte c s -> last_index c s = None.
Proof.
  induction s as [|d s IH]; simpl; [done|]. intros [Hd Hs]. rewrite IH by done. destruct (Ascii.eqb_spec d c); [by subst|done].
Qed.

Lemma last_index_app c host port : no_byte c port -> last_index c (host +:+ String c port) = Some (String.length host).
Proof.
  intros Hp. induction host as [|d host IH]; simpl; [|by rewrite IH].
  rewrite last_index_none by done. by rewrite Ascii.eqb_refl.
Qed.

(** The TLS name is the host of a host:port address. *)
Lemma serverNameFromAddr_host host port : no_byte addr_colon port -> serverNameFromAddr (host +:+ String addr_colon port) = host.
Proof. intros Hp. unfold serverNameFromAddr. rewrite last_index_app by done. apply take_str_app. Qed.

Section Creds.
Context `{U : UuidLib} `{J : JwtLib} `{T : TLSLib} `{B : BreakerLib} {A : Type}.

(** A server with a CERT_PATH takes only clients with a certificate. *)
Lemma server_creds_mutual certPath c :
  server_creds certPath = inr c -> certPath <> "" -> exists t, c = MTLS t /\ tls_ClientAuth t = RequireAndVerifyClientCert.
Proof.
  unfold server_creds, LoadServerMTLSCredentials. intros Hc Hne. rewrite bool_decide_eq_false_2 in Hc by done.
  repeat case_match; simplify_eq; by eexists.
Qed.

(** A plain-text connection is opened only without a CERT_PATH and with consent. *)
Lemma plain_text_needs_consent (f : Factory A) addr conn :
  NewClient f addr = inr conn -> cn_creds conn = Insecure ->
  g_CertPath (fa_cfg f) = "" /\ (g_InsecureSkipTLS (fa_cfg f) || fa_insecureAllowed f) = true.
Proof.
  unfold NewClient, clientCreds, LoadClientMTLSCredentials. intros Hn Hc.
  case_bool_decide as Hd; simpl in *; repeat case_match; simplify_eq/=; try done.
Qed.
End Creds.

(** ** The breaker *)

Section Breaker.
Context `{U : UuidLib} `{B : BreakerLib} `{L : !BreakerLaws} {A : Type}.
Implicit Types (w : world (CliSt A)) (o : oracle).

(** Calls one after the other, with their results; each goes to its own method. *)
Fixpoint call_all {R} (st : CBSettings) (ctx : Ctx) (calls : list (Ctx -> M (CliSt A) R)) : M (CliSt A) (list (error + R)) :=
  match calls with
  | [] => ret []
  | c :: cs =>
      let* r := attempt (circuitBreakerInterceptor st R ctx c) in
      let* rs := call_all st ctx cs in
      ret (r :: rs)
  end.

(** The other side does not touch the breaker. *)
Definition keeps_cb {R} (c : Ctx -> M (CliSt A) R) : Prop :=
  forall ctx o w, cl_cb (w_st (snd (c ctx o w))) = cl_cb (w_st w).

Lemma failed_call {R} st ctx (c : Ctx -> M (CliSt A) R) o w n e w' :
  keeps_cb c -> cb_closed (cl_cb (w_st w)) n -> circuitBreakerInterceptor st R ctx c o w = (inl e, w') ->
  (cb_ReadyToTrip st (n + 1) = false -> cb_closed (cl_cb (w_st w')) (n + 1)) /\
  (cb_ReadyToTrip st (n + 1) = true -> exists k, cb_open (cl_cb (w_st w')) (o_now o k + cb_Timeout st)).
Proof.
  intros Hk Hc. unfold circuitBreakerInterceptor, bind, now, cb_step, attempt, throw, ret; simpl.
  destruct (cb_closed_lets st (o_now o (w_tick w)) _ _ Hc) as (c1 & Hb & Hc1). rewrite Hb. simpl.
  pose proof (Hk ctx o (World (S (w_tick w)) (MkCliSt c1 (cl_app (w_st w))))) as Hcb.
  destruct (c ctx o _) as [[err|a] w2]; simpl in *; [|done]. intros [= -> <-]. simpl.
  rewrite Hcb. split; intros Ht; [by apply cb_failure|]. exists (w_tick w2). by eapply cb_trip.
Qed.

Lemma call_all_inv {R} st ctx (c : Ctx -> M (CliSt A) R) cs o w es w' :
  call_all st ctx (c :: cs) o w = (inr (inl <$> es), w') ->
  exists e es' w1, es = e :: es' /\ circuitBreakerInterceptor st R ctx c o w = (inl e, w1) /\
    call_all st ctx cs o w1 = (inr (inl <$> es'), w').
Proof.
  simpl. unfold bind, attempt, ret. destruct (circuitBreakerInterceptor st R ctx c o w) as [r w1].
  destruct (call_all st ctx cs o w1) as [[e|rs] w2] eqn:Hcs; [done|]. intros [= Hes <-].
  destruct es as [|e es']; [done|]. simplify_eq/=. eauto 10.
Qed.

Lemma failing_calls {R} ctx (calls : list (Ctx -> M (CliSt A) R)) o w n es w' :
  Forall keeps_cb calls -> cb_closed (cl_cb (w_st w)) n -> 0 <= n -> n + Z.of_nat (length calls) = 5 -> calls <> [] ->
  call_all CircuitBreaker ctx calls o w = (inr (inl <$> es), w') ->
  exists k, cb_open (cl_cb (w_st w')) (o_now o k + 30 * second).
Proof.
  revert n w es. induction calls as [|c cs IH]; intros n w es Hk Hc Hn Hlen Hne; [done|].
  intros (e & es' & w1 & -> & Hcall & Hrest)%call_all_inv. apply Forall_cons in Hk as [Hkc Hk].
  destruct (failed_call _ _ _ _ _ _ _ _ Hkc Hc Hcall) as [Hclosed Hopen]. simpl in Hlen.
  destruct cs as [|c2 cs].
  - simpl in Hrest. unfold ret in Hrest. simplify_eq. apply Hopen. simpl in *. apply Z.leb_le. lia.
  - eapply (IH (n + 1)); [done| |lia|simpl in *; lia|done|done]. apply Hclosed. simpl. apply Z.leb_gt. simpl in Hlen. lia.
Qed.

(** Refusals open the breaker of every client. The clients of a service
    share one breaker and any error of a call is a failure for it: after five failed
    calls in a row, to whatever methods and with whatever error codes, the next call
    within thirty seconds is refused without being sent. *)
Theorem failing_calls_open_breaker {R R'} ctx (calls : list (Ctx -> M (CliSt A) R)) (call : Ctx -> M (CliSt A) R') o w es w' :
  Forall keeps_cb calls -> cb_closed (cl_cb (w_st w)) 0 -> length calls = 5%nat ->
  call_all CircuitBreaker ctx calls o w = (inr (inl <$> es), w') ->
  (forall n m, o_now o m < o_now o n + 30 * second) ->
  exists w'', circuitBreakerInterceptor CircuitBreaker R' ctx call o w' = (inl cb_ErrOpenState, w'') /\
    cl_app (w_st w'') = cl_app (w_st w').
Proof.
  intros Hk Hc Hlen Hrun Htime.
  destruct (failing_calls ctx calls o w 0 es w' Hk Hc) as [k Hopen]; [lia|lia|by destruct calls|done|].
  destruct (cb_open_refuses CircuitBreaker (o_now o (w_tick w')) _ _ Hopen) as (c' & Hb & _); [apply Htime|].
  unfold circuitBreakerInterceptor, bind, now, cb_step, throw; simpl. rewrite Hb. simpl. eauto.
Qed.
End Breaker.

(** ** The server chain *)

Section Chain.
Context `{U : UuidLib} `{J : JwtLib} `{G : GrpcStatus} {A Req Resp : Type}.
Implicit Types (o : oracle) (w : world (GrpcSt A)).

(** The request is logged and counted once, and nothing else of [w] changes. *)
Definition recorded (method : string) (r : error + Resp) (w w' : world (GrpcSt A)) : Prop :=
  let label := (method, code_text (code_of r)) in
  g_app (w_st w') = g_app (w_st w) /\ g_log (w_st w') = g_log (w_st w) ++ [label] /\
  g_total (w_st w') = <[label := default 0 (g_total (w_st w) !! label) + 1]> (g_total (w_st w)).

Lemma logged_and_counted method (h : UnaryHandler A Req Resp) req o w r w' :
  NewLoggingInterceptor method (MetricsUnaryInterceptor method h) req o w = (r, w') ->
  exists w1, h req o (next (next w)) = (r, w1) /\ recorded method r w1 w'.
Proof.
  unfold NewLoggingInterceptor, MetricsUnaryInterceptor, bind, now, attempt, grpc_step, rethrow.
  destruct (h req o (next (next w))) as [[e|a] w1] eqn:Hh; simpl; intros [= <- <-]; exists w1; by split.
Qed.

(** C23. What a server lets through. A request behind the standard chain is
    refused as invalid, or, at a protected method, as unauthenticated, in both cases
    without touching the application; otherwise its handler runs once on a valid
    message and its result is returned, at a protected method under the identity of
    a token that verifies with the server's secret. Every request is logged and
    counted once under its final status. *)
Theorem serve_protects validate secret method (handler : ServerHandler A Req Resp) ctx req o w r w' :
  server_chain validate secret method handler ctx req o w = (r, w') ->
  exists w1, recorded method r w1 w' /\
    ((exists msg, validate req = Some msg /\ r = inl (EStatus InvalidArgument msg) /\ w_st w1 = w_st w) \/
     (isPublicEndpoint method = false /\ validate req = None /\
      (exists msg, r = inl (EStatus Unauthenticated msg)) /\ w_st w1 = w_st w) \/
     (validate req = None /\ exists ctx' w0, handler ctx' req o w0 = (r, w1) /\ w_st w0 = w_st w /\
      if isPublicEndpoint method then ctx' = ctx
      else exists header rest id wv, c_md ctx = Some (header :: rest) /\ ctx' = WithIdentity ctx id /\
        Verify (NewJWTVerifier secret []) (TrimPrefix header "Bearer ") o wv = (inr id, w0))).
Proof.
  unfold server_chain, ChainUnaryInterceptor, standard_interceptors. simpl.
  intros (w1 & Hin & Hrec)%logged_and_counted. exists w1. split; [done|].
  unfold ProtoValidateInterceptor in Hin. destruct (validate req) as [msg|] eqn:Hv; [left; unfold throw in Hin; naive_solver|].
  right. unfold AuthUnaryInterceptor in Hin. destruct (isPublicEndpoint method) eqn:Hpub; [right; eauto 10|].
  destruct (c_md ctx) as [[|h l]|]; unfold throw in Hin; [left; naive_solver| |left; naive_solver].
  unfold bind, attempt in Hin.
  destruct (Verify _ _ _ (next (next w))) as [[e|id] w0] eqn:Hver; [left|right].
  - simpl in Hin. simplify_eq. split_and!; [done|done|by eexists|]. by rewrite (Verify_reads _ _ _ _ _ _ Hver).
  - simpl in Hin. split; [done|]. eexists _, w0. split; [done|].
    split; [by rewrite (Verify_reads _ _ _ _ _ _ Hver)|]. eauto 10.
Qed.
End Chain.

(** ** From client to server *)

Section EndToEnd.
Context `{U : UuidLib} `{UL : !UuidLaws} `{J : JwtLib} `{JL : !JwtLaws} `{G : GrpcStatus} `{T : TLSLib} `{B : BreakerLib} `{L : !BreakerLaws}.
Context {A Req Resp : Type}.
Implicit Types (o : oracle).

Definition app_lens : lens (CliSt (GrpcSt A)) (GrpcSt A) := Lens cl_app (fun a s => MkCliSt (cl_cb s) a).

(** A call through the connection to a server with its chain. *)
Definition remote_call (validate : Req -> option string) (secret method : string) (handler : ServerHandler A Req Resp)
    (conn : ClientConn (GrpcSt A)) (ctx : Ctx) (req : Req) : M (CliSt (GrpcSt A)) Resp :=
  Invoke conn ctx (fun ctx' => zoom app_lens (server_chain validate secret method handler (deliver ctx') req)).

(** The server's side of a call that carries a token of the issuer. *)
Lemma serve_issued validate i method (handler : ServerHandler A Req Resp) ctx req token o (wi w1 : world (CliSt (GrpcSt A))) (w : world (GrpcSt A)) :
  is_audience i = "api-gateway" -> is_subject i <> "" -> isPublicEndpoint method = false -> validate req = None ->
  Issue i o wi = (inr token, w1) -> (w_tick w1 <= w_tick w)%nat -> c_md ctx = Some [token] ->
  (forall n m, (n <= m)%nat -> o_now o m <= o_now o n + hour - second) ->
  exists wa wb wf r, server_chain validate (is_secret i) method handler ctx req o w = (r, wf) /\
    handler (WithIdentity ctx (MkIdentity (is_subject i) RoleService "")) req o wa = (r, wb) /\
    w_st wa = w_st w /\ recorded method r wb wf.
Proof.
  intros Haud Hsub Hpub Hval Hissue Htick Hmd Htime.
  destruct (server_chain validate (is_secret i) method handler ctx req o w) as [r wf] eqn:Hserve.
  unfold server_chain, ChainUnaryInterceptor, standard_interceptors in Hserve. simpl in Hserve.
  apply logged_and_counted in Hserve as (wb & Hin & Hrec). unfold ProtoValidateInterceptor in Hin. rewrite Hval in Hin.
  unfold AuthUnaryInterceptor in Hin. rewrite Hpub, Hmd in Hin. unfold bind, attempt in Hin.
  destruct (issued_token_verifies (S' := GrpcSt A) i o wi w1 (next (next w)) token Haud Hsub Hissue) as [w3 Hv]; [simpl; lia|done|].
  rewrite Hv in Hin. simpl in Hin. exists w3, wb, wf, r. split_and!; [done|done| |done].
  by rewrite (Verify_reads _ _ _ _ _ _ Hv).
Qed.

(** C28. A service call arrives as the service. A client of the factory that
    shares the server's secret, called while its breaker is closed, reaches the
    handler of a protected method with the service's name and role as identity, and
    returns the handler's result. *)
Theorem service_call_authenticated cfg addr conn ctx validate method (handler : ServerHandler A Req Resp) req o
    (w : world (CliSt (GrpcSt A))) n :
  g_JWTSecret cfg <> "" -> g_ServiceName cfg <> "" -> g_UserAuth cfg = false ->
  NewClient (NewFactory cfg (Some CircuitBreaker) []) addr = inr conn ->
  c_outgoing ctx = [] -> cb_closed (cl_cb (w_st w)) n -> isPublicEndpoint method = false -> validate req = None ->
  (forall c, exists token w1, Issue (NewServiceTokenIssuer (g_JWTSecret cfg) (g_ServiceName cfg) "api-gateway") o
     (World (S (w_tick w)) (MkCliSt c (cl_app (w_st w)))) = (inr token, w1)) ->
  (forall n m, (n <= m)%nat -> o_now o m <= o_now o n + hour - second) ->
  exists ctx' wa wb wf r, remote_call validate (g_JWTSecret cfg) method handler conn ctx req o w = (r, wf) /\
    IdentityFromContext ctx' = Some (MkIdentity (g_ServiceName cfg) RoleService "") /\
    handler ctx' req o wa = (r, wb) /\ w_st wa = cl_app (w_st w) /\ g_app (cl_app (w_st wf)) = g_app (w_st wb).
Proof.
  intros Hsec Hname Huser Hconn Hout Hcb Hpub Hval Hissue Htime.
  unfold NewFactory in Hconn. rewrite !bool_decide_eq_false_2 in Hconn by done. simpl in Hconn.
  unfold NewClient in Hconn. destruct (clientCreds _ addr) as [|creds]; [done|]. simpl in Hconn. rewrite Huser in Hconn.
  injection Hconn as <-. unfold remote_call, Invoke, client_chain. simpl. unfold trace_interceptor, circuitBreakerInterceptor.
  unfold bind, now, cb_step, attempt; simpl.
  destruct (cb_closed_lets CircuitBreaker (o_now o (w_tick w)) _ _ Hcb) as (c1 & Hb & _). rewrite Hb. simpl.
  destruct (Hissue c1) as (token & w1 & Hi). unfold ServiceAuthInterceptor, bind. rewrite Hi. unfold zoom. simpl.
  pose proof (Issue_reads _ _ _ _ _ Hi) as Hst. rewrite Hst. simpl.
  destruct (serve_issued validate (NewServiceTokenIssuer (g_JWTSecret cfg) (g_ServiceName cfg) "api-gateway") method handler
    (deliver (AppendAuthorization ctx token)) req token o _ w1 (World (w_tick w1) (cl_app (w_st w))) eq_refl Hname Hpub Hval Hi)
    as (wa & wb & wf & r & Hserve & Hh & Hwa & Hrec); [done|simpl; by rewrite Hout|done|].
  simpl in Hserve. rewrite Hserve. simpl. destruct Hrec as [Happ _].
  destruct r as [e|a]; eexists _, wa, wb, _, _; (split; [reflexivity|]); (split; [|split; [exact Hh|by split]]); done.
Qed.
End EndToEnd.

(** ** Concrete calls *)

Section Samples.
#[local] Existing Instance uuid_text.
#[local] Existing Instance uuid_text_laws.
#[local] Existing Instance grpc_direct.

(** A breaker that counts, opens, and closes again after its timeout. *)
Inductive toy_breaker := Closed (failures : Z) | Open (until : Z).

#[local] Instance toy_lib : BreakerLib := {|
  CB := toy_breaker;
  cb_ErrOpenState := EPlain "circuit breaker is open";
  cb_beforeRequest st t c := match c with
    | Closed n => (None, c)
    | Open until => if t <? until then (Some (EPlain "circuit breaker is open"), c) else (None, Closed 0)
    end;
  cb_afterRequest st t ok c := match c with
    | Closed n => if (ok : bool) then Closed 0 else if cb_ReadyToTrip st (n + 1) then Open (t + cb_Timeout st) else Closed (n + 1)
    | Open until => c
    end
|}.

#[local] Instance toy_laws : BreakerLaws.
Proof.
  refine {| cb_closed c n := c = Closed n; cb_open c until := c = Open until |}; simpl.
  - intros st t c n ->. eauto.
  - by intros st t c n ->.
  - intros st t c n -> Hr. by rewrite Hr.
  - intros st t c n -> Hr. by rewrite Hr.
  - intros st t c until -> Ht. apply Z.ltb_lt in Ht. rewrite Ht. eauto.
Defined.

Definition out_of_stock (ctx : Ctx) : M (CliSt unit) unit := throw (EStatus FailedPrecondition "insufficient stock").

Definition tr_world : world (CliSt unit) := World 0 (MkCliSt (Closed 0) tt).

(** Five refusals of inventory-service, then a payment. *)
Lemma failing_calls_open_breaker_witness :
  exists w'', circuitBreakerInterceptor CircuitBreaker unit Background (fun _ => ret tt) calm (World 10 (MkCliSt (Open (30 * second)) tt))
    = (inl (EPlain "circuit breaker is open"), w'') /\ cl_app (w_st w'') = tt.
Proof.
  apply (failing_calls_open_breaker Background (replicate 5 out_of_stock) (fun _ => ret tt) calm tr_world
    (replicate 5 (EStatus FailedPrecondition "insufficient stock"))).
  - apply Forall_replicate. by intros ctx o w.
  - reflexivity.
  - reflexivity.
  - reflexivity.
  - intros n m. simpl. unfold second. lia.
Defined.

Definition tr_claims : CustomClaims := service_claims (NewServiceTokenIssuer "a-shared-secret" "order-service" "api-gateway") (o_uuid calm 1) 0.

#[local] Instance tr_jwt : JwtLib := jwt_single tr_claims "a-shared-secret".
#[local] Instance tr_jwt_laws : JwtLaws := jwt_single_laws tr_claims "a-shared-secret".

#[local] Instance tr_tls : TLSLib := {|
  tls_LoadX509KeyPair c k := inl (EPlain "no such file");
  os_ReadFile f := inl (EPlain "no such file");
  x509_AppendCertsFromPEM p := false;
  credentials_NewServerTLSFromFile c k := inl (EPlain "no such file");
  credentials_NewClientTLSFromFile c n := inl (EPlain "no such file")
|}.

Definition order_client : ClientConfig := MkClientCfg "" "a-shared-secret" "order-service" false false.

Definition tr_conn : ClientConn (GrpcSt unit) :=
  MkConn "inventory:50053" Insecure
    [trace_interceptor; circuitBreakerInterceptor CircuitBreaker;
     fun R ctx invoker => ServiceAuthInterceptor (NewServiceTokenIssuer "a-shared-secret" "order-service" "api-gateway") ctx invoker].

Definition tr_server : world (CliSt (GrpcSt unit)) := World 0 (MkCliSt (Closed 3) (MkGrpcSt ∅ [] tt)).

Lemma service_call_authenticated_witness :
  exists ctx' wa wb wf r,
    remote_call (fun _ => None) "a-shared-secret" "/inventory.v1.InventoryService/Reserve" (fun ctx _ => ret (GetUserID ctx)) tr_conn
      Background tt calm tr_server = (r, wf) /\
    IdentityFromContext ctx' = Some (MkIdentity "order-service" RoleService "") /\
    (ret (GetUserID ctx') : M (GrpcSt unit) _) calm wa = (r, wb) /\
    w_st wa = MkGrpcSt ∅ [] tt /\ g_app (cl_app (w_st wf)) = g_app (w_st wb).
Proof.
  apply (service_call_authenticated order_client "inventory:50053" tr_conn Background (fun _ => None)
    "/inventory.v1.InventoryService/Reserve" (fun ctx (_ : unit) => ret (GetUserID ctx)) tt calm tr_server 3); try done.
  intros c. eexists _, _. reflexivity.
Defined.

Lemma serve_protects_witness :
  exists w1, recorded "/order.v1.OrderService/GetOrder" (inl (EStatus Unauthenticated "missing metadata") : error + unit) w1
    (World 4 (MkGrpcSt {[("/order.v1.OrderService/GetOrder", "Unauthenticated") := 1]}
       [("/order.v1.OrderService/GetOrder", "Unauthenticated")] 7)).
Proof.
  destruct (serve_protects (fun _ : unit => None) "a-shared-secret" "/order.v1.OrderService/GetOrder"
    (fun _ _ => ret tt) Background tt calm (World 0 (MkGrpcSt ∅ [] 7)) (inl (EStatus Unauthenticated "missing metadata"))
    (World 4 (MkGrpcSt {[("/order.v1.OrderService/GetOrder", "Unauthenticated") := 1]}
       [("/order.v1.OrderService/GetOrder", "Unauthenticated")] 7))) as (w1 & Hrec & _); [reflexivity|].
  by exists w1.
Defined.
End Samples.
