(* ===== verification/Lifecycle.v ===== *)
(** * Life of a Kafka consumer

    [pkg/kafka/consumer.go]: building a consumer, its restart loop and its end.
    sarama's consumer group is a parameter.  The life of a serving process is in
    Serving.v. *)
From S2P Require Import Prelude Errors Effects Kafka.

(** ** consumer.go *)

Section ConsumerLoop.
Context `{U : UuidLib} {S : Type}.

Record Consumer := MkConsumer { co_cfg : Kafka.Config; co_dlq : bool }.

(** [sarama.NewSyncProducer] and [sarama.NewConsumerGroup] connect, or fail. *)
Definition sarama_connect : M S unit := io (fun s => (inr tt, s)).

Definition newDLQProducer (brokers : list string) : M S bool :=
  if bool_decide (length brokers = 0%nat) then ret false
  else let* r := attempt sarama_connect in ret (match r with inr _ => true | inl _ => false end).

Definition NewConsumer (brokers : list string) (cfg : Kafka.Config) : M S Consumer :=
  let cfg := setDefaults cfg in
  match saramaConfig cfg with
  | inl err => throw err
  | inr _ =>
      do* wrap_err (wrapf "new consumer group") sarama_connect in
      if bool_decide (cf_DLQTopic cfg = "") then ret (MkConsumer cfg false)
      else let* dlq := newDLQProducer brokers in ret (MkConsumer cfg dlq)
  end.

Definition NewConsumerFromGroup (cfg : Kafka.Config) : Consumer := MkConsumer (setDefaults cfg) false.

Definition SetDLQProducer (present : bool) (c : Consumer) : Consumer := MkConsumer (co_cfg c) present.

(** [group.Consume]: one session, which ends by itself, with the group, or with
    an error; the two sentinels that end the loop. *)
Context (Consume : M S unit) (is_Canceled is_ErrClosedConsumerGroup : error -> bool).

(** What the loop did: the errors of its sessions, [None] for a session that
    ended without one, the pauses it took, and the rest of the world. *)
Record LoopSt := MkLoopSt { lp_sessions : list (option error); lp_pauses : list Z; lp_ext : S }.

Definition loop_lens : lens LoopSt S := Lens lp_ext (fun e s => MkLoopSt (lp_sessions s) (lp_pauses s) e).

Definition loop_note (f : LoopSt -> LoopSt) : M LoopSt unit := fun _ w => (inr tt, World (w_tick w) (f (w_st w))).

Definition session_ended (e : option error) : M LoopSt unit :=
  loop_note (fun s => MkLoopSt (lp_sessions s ++ [e]) (lp_pauses s) (lp_ext s)).

Definition pause (d : Z) : M LoopSt unit :=
  loop_note (fun s => MkLoopSt (lp_sessions s) (lp_pauses s ++ [d]) (lp_ext s)).

(** The goroutine of [Start] for [n] turns: [true] when it has returned. *)
Fixpoint Start_loop (n : nat) : M LoopSt bool :=
  match n with
  | O => ret false
  | Datatypes.S n' =>
      let* d := ctx_done in
      match d with
      | Some _ => ret true
      | None =>
          let* r := attempt (zoom loop_lens Consume) in
          match r with
          | inr _ => do* session_ended None in Start_loop n'
          | inl err =>
              do* session_ended (Some err) in
              if is_Canceled err || is_ErrClosedConsumerGroup err then ret true
              else
                let* d' := ctx_done in
                match d' with
                | Some _ => ret true
                | None => do* pause (3 * 10 ^ 9) in Start_loop n'
                end
          end
      end
  end.

(** [Close]: an error of the DLQ producer is logged, the group's is returned. *)
Definition Close (c : Consumer) (dlq_Close group_Close : M S unit) : M S unit :=
  do* (if co_dlq c then do* attempt dlq_Close in ret tt else ret tt) in group_Close.
End ConsumerLoop.
Arguments LoopSt : clear implicits.

Section ConsumerFacts.
Context `{U : UuidLib} {S : Type}.
Implicit Types (o : oracle).

(** A dead-letter producer that cannot connect does not stop the consumer. *)
Lemma NewConsumer_without_dlq brokers cfg o (w w' : world S) c :
  NewConsumer brokers cfg o w = (inr c, w') -> co_cfg c = setDefaults cfg /\ (co_dlq c = true -> cf_DLQTopic cfg <> "" /\ brokers <> []).
Proof.
  unfold NewConsumer. destruct (saramaConfig _); [done|]. intros (u & w1 & _ & Hrun)%bind_ok.
  case_bool_decide as Ht; [unfold ret in Hrun; by simplify_eq/=|].
  apply bind_ok in Hrun as (dlq & w2 & Hd & Hr). unfold ret in Hr. simplify_eq/=. split; [done|]. intros ->.
  split; [done|]. intros ->. by unfold newDLQProducer in Hd.
Qed.

Context (Consume : M S unit) (is_Canceled is_ErrClosed : error -> bool).
Implicit Types (w : world (LoopSt S)).

Definition ends_loop (e : option error) : Prop := match e with Some err => is_Canceled err = true \/ is_ErrClosed err = true | None => False end.

(** An entry of the sessions is what one call of [Consume] returned. *)
Definition consumed (o : oracle) (e : option error) : Prop :=
  match e with Some err => exists (u u' : world S), Consume o u = (inl err, u') | None => exists (u u' : world S), Consume o u = (inr tt, u') end.

(** What [n] turns do, from the sessions they hold. *)
Definition turns_end (n : nat) (o : oracle) (sessions : list (option error)) (back : bool) : Prop :=
  if back then (exists k, o_done o k <> None) \/ (exists e, last sessions = Some e /\ ends_loop e)
  else length sessions = n /\ Forall (fun e => ~ ends_loop e) sessions.

Lemma turns_end_cons n o e sessions back : ~ ends_loop e -> turns_end n o sessions back -> turns_end (Datatypes.S n) o (e :: sessions) back.
Proof.
  intros He. unfold turns_end. destruct back; [|intros [Hl Hf]; split; [simpl; lia|by constructor]].
  intros [Hk|(e' & Hl & He')]; [by left|]. right. exists e'. split; [|done]. rewrite last_cons, Hl. done.
Qed.

Lemma Start_loop_run n o w :
  exists sessions back w', Start_loop Consume is_Canceled is_ErrClosed n o w = (inr back, w') /\
    lp_sessions (w_st w') = lp_sessions (w_st w) ++ sessions /\ turns_end n o sessions back /\ Forall (consumed o) sessions.
Proof.
  revert w. induction n as [|n IH]; intros w; simpl.
  { exists [], false, w. rewrite app_nil_r. split_and!; by repeat constructor. }
  unfold bind, ctx_done, attempt, ret, session_ended, pause, loop_note, zoom. simpl.
  destruct (o_done o (w_tick w)) eqn:Hd.
  { exists [], true. eexists. split; [done|]. rewrite app_nil_r. split_and!; [done| |constructor].
    left. exists (w_tick w). by rewrite Hd. }
  simpl. destruct (Consume o _) as [[err|[]] w1] eqn:Hc; simpl.
  - assert (Hses : consumed o (Some err)) by (simpl; eauto).
    destruct (is_Canceled err || is_ErrClosed err) eqn:He.
    { exists [Some err], true. eexists. split; [done|]. split_and!; [done| |by repeat constructor].
      right. exists (Some err). apply orb_true_iff in He. by split. }
    simpl. destruct (o_done o (w_tick w1)) eqn:Hd1.
    { exists [Some err], true. eexists. split; [done|]. split_and!; [done| |by repeat constructor]. left. exists (w_tick w1). by rewrite Hd1. }
    simpl. edestruct IH as (ss & back & w' & Hrun & Hss & Hend & Hfrom). rewrite Hrun. exists (Some err :: ss), back, w'.
    split; [done|]. rewrite Hss. cbn [w_st lp_sessions]. rewrite <- app_assoc. split_and!; [done| |by constructor].
    apply turns_end_cons; [|done]. apply orb_false_iff in He as [H1 H2]. simpl. rewrite H1, H2. by intros [?|?].
  - assert (Hses : consumed o None) by (simpl; eauto).
    edestruct IH as (ss & back & w' & Hrun & Hss & Hend & Hfrom). rewrite Hrun. exists (None :: ss), back, w'.
    split; [done|]. rewrite Hss. cbn [w_st lp_sessions]. rewrite <- app_assoc. split_and!; [done| |by constructor].
    apply turns_end_cons; [by intros []|done].
Qed.

(** The consumer restarts itself. While its context lives and its group is
    open, the loop goes on whatever its sessions return: after any number of turns it
    is still running, with one session per turn. *)
Theorem consumer_restarts n o w :
  (forall k, o_done o k = None) ->
  (forall (u u' : world S) err, Consume o u = (inl err, u') -> is_Canceled err = false /\ is_ErrClosed err = false) ->
  exists sessions w', Start_loop Consume is_Canceled is_ErrClosed n o w = (inr false, w') /\
    lp_sessions (w_st w') = lp_sessions (w_st w) ++ sessions /\ length sessions = n /\ Forall (consumed o) sessions.
Proof.
  intros Hctx Herr. destruct (Start_loop_run n o w) as (ss & [] & w' & Hrun & Hss & Hend & Hfrom); [|by destruct Hend; eauto 10].
  exfalso. destruct Hend as [[k Hk]|(e & Hlast & He)]; [by rewrite Hctx in Hk|].
  apply last_Some_elem_of, (proj1 (Forall_forall _ _) Hfrom) in Hlast. destruct e as [err|]; [|done].
  destruct Hlast as (w0 & w1 & Hc). destruct (Herr _ _ _ Hc) as [H1 H2]. simpl in He. rewrite H1, H2 in He. by destruct He.
Qed.
End ConsumerFacts.

(** ** A concrete loop *)

Section Samples.
#[local] Existing Instance uuid_text.

(** A broker that always refuses. *)
Definition refusing : M unit unit := throw (EPlain "kafka: client has run out of available brokers").

Definition loop_oracle : oracle := Oracle (fun _ => FNone) (fun _ => 0) uuid_sample (fun _ => None) (fun _ => true).

Lemma consumer_restarts_witness :
  exists sessions w', Start_loop refusing (fun _ => false) (fun _ => false) 4 loop_oracle (World 0 (MkLoopSt [] [] tt)) = (inr false, w') /\
    lp_sessions (w_st w') = [] ++ sessions /\ length sessions = 4%nat /\ Forall (consumed refusing loop_oracle) sessions.
Proof. apply (consumer_restarts refusing (fun _ => false) (fun _ => false) 4 loop_oracle (World 0 (MkLoopSt [] [] tt))); done. Defined.
End Samples.
