(* ===== verification/Workers.v ===== *)
(** * Background workers: outbox relays and the saga recovery worker

    [Relay] of order- and catalog-service and [RecoveryWorker] of order-service
    have the same life cycle: Start spawns a loop under a mutex, Stop closes a
    channel and waits for the loop.  Callers and loops are threads whose critical
    sections and channel operations interleave freely.  A [select] captures its
    channels when it is entered, so a loop that polls while the worker is stopped
    and started again goes on with the new channel. *)
From S2P Require Import Prelude.

(** Where a thread is: a caller of Start or Stop, or a loop. *)
Inductive wpc :=
| StartLock
| StartRecovering
| StopLock
| StopWaiting
| CallDone
| LoopTop
| LoopSelecting (c : nat)
| Polling
| LoopGone.

(** The worker: the mutex, [started], the current channel (a counter), the
    channels that are closed, the wait group, whether the context is done, and the
    number of polls or recovery passes (a ghost). *)
Record wshared := MkW {
  wk_mu : bool;
  wk_started : bool;
  wk_stop : nat;
  wk_closed : list nat;
  wk_wg : nat;
  wk_ctx : bool;
  wk_polls : nat
}.

(** One step of one thread, with the threads it spawns.  [eager]: Start runs one
    recovery pass before it spawns the loop, as [RecoveryWorker] does. *)
Inductive wtstep (eager : bool) : wpc -> wshared -> wpc -> wshared -> list wpc -> Prop :=
| w_start_again ch cl wg cx n :
    wtstep eager StartLock (MkW false true ch cl wg cx n) CallDone (MkW false true ch cl wg cx n) []
| w_start ch cl wg cx n :
    eager = false ->
    wtstep eager StartLock (MkW false false ch cl wg cx n) CallDone (MkW false true (S ch) cl (S wg) cx n) [LoopTop]
| w_start_eager ch cl wg cx n :
    eager = true ->
    wtstep eager StartLock (MkW false false ch cl wg cx n) StartRecovering (MkW true true (S ch) cl (S wg) cx n) []
| w_start_recovered mu st ch cl wg cx n :
    wtstep eager StartRecovering (MkW mu st ch cl wg cx n) CallDone (MkW false st ch cl wg cx (S n)) [LoopTop]
| w_stop_idle ch cl wg cx n :
    wtstep eager StopLock (MkW false false ch cl wg cx n) CallDone (MkW false false ch cl wg cx n) []
| w_stop ch cl wg cx n :
    wtstep eager StopLock (MkW false true ch cl wg cx n) StopWaiting (MkW false false ch (ch :: cl) wg cx n) []
| w_stopped mu st ch cl cx n :
    wtstep eager StopWaiting (MkW mu st ch cl 0 cx n) CallDone (MkW mu st ch cl 0 cx n) []
| l_enter mu st ch cl wg cx n :
    wtstep eager LoopTop (MkW mu st ch cl wg cx n) (LoopSelecting ch) (MkW mu st ch cl wg cx n) []
| l_tick c mu st ch cl wg cx n :
    wtstep eager (LoopSelecting c) (MkW mu st ch cl wg cx n) Polling (MkW mu st ch cl wg cx n) []
| l_poll mu st ch cl wg cx n :
    wtstep eager Polling (MkW mu st ch cl wg cx n) LoopTop (MkW mu st ch cl wg cx (S n)) []
| l_stop c mu st ch cl wg cx n :
    c ∈ cl -> wtstep eager (LoopSelecting c) (MkW mu st ch cl wg cx n) LoopGone (MkW mu st ch cl (wg - 1) cx n) []
| l_ctx c mu st ch cl wg n :
    wtstep eager (LoopSelecting c) (MkW mu st ch cl wg true n) LoopGone (MkW mu st ch cl (wg - 1) true n) [].

Definition wsystem : Type := list wpc * wshared.

Definition cancelled (sh : wshared) : wshared :=
  MkW (wk_mu sh) (wk_started sh) (wk_stop sh) (wk_closed sh) (wk_wg sh) true (wk_polls sh).

(** [ordered]: Start does not run while a Stop still waits for the old loop. *)
Inductive wstep (eager ordered : bool) : wsystem -> wsystem -> Prop :=
| ws_call ths sh p : p = StartLock \/ p = StopLock -> wstep eager ordered (ths, sh) (ths ++ [p], sh)
| ws_cancel ths sh : wstep eager ordered (ths, sh) (ths, cancelled sh)
| ws_run ths sh i p p' sh' sp :
    ths !! i = Some p -> wtstep eager p sh p' sh' sp ->
    (ordered = true -> p = StartLock -> StopWaiting ∉ ths) ->
    wstep eager ordered (ths, sh) (<[i := p']> ths ++ sp, sh').

Definition wstart : wsystem := ([], MkW false false 0 [] 0 false 0).

Definition wreachable (eager ordered : bool) (sys : wsystem) : Prop := rtc (wstep eager ordered) wstart sys.

(** ** Counting threads *)

Definition live (p : wpc) : nat := match p with LoopTop | LoopSelecting _ | Polling => 1 | _ => 0 end.
Definition recovering (p : wpc) : nat := match p with StartRecovering => 1 | _ => 0 end.
Definition waiting_stop (p : wpc) : nat := match p with StopWaiting => 1 | _ => 0 end.

Definition count (f : wpc -> nat) (ths : list wpc) : nat := sum_list_with f ths.

Lemma count_insert f ths i p p' : ths !! i = Some p -> (count f (<[i := p']> ths) + f p = count f ths + f p')%nat.
Proof.
  intros Hi. unfold count. rewrite <- (take_drop_middle ths i p Hi) at 2.
  rewrite (insert_take_drop ths i p') by (by eapply lookup_lt_Some). rewrite !sum_list_with_app. simpl. lia.
Qed.

Lemma count_app f ths ths' : count f (ths ++ ths') = (count f ths + count f ths')%nat.
Proof. apply sum_list_with_app. Qed.

Lemma count_waiting ths : StopWaiting ∉ ths -> count waiting_stop ths = 0%nat.
Proof.
  induction ths as [|p ths IH]; [done|]. intros [Hp Hths]%not_elem_of_cons. unfold count in *. simpl.
  rewrite IH by done. by destruct p.
Qed.

(** ** The invariant of ordered use *)

Definition selects (ch : nat) (p : wpc) : Prop := match p with LoopSelecting c => c = ch | _ => True end.

Record worker_ok (sys : wsystem) : Prop := MkWorkerOk {
  wo_wg : wk_wg (snd sys) = (count live (fst sys) + count recovering (fst sys))%nat;
  wo_mu : count recovering (fst sys) = if wk_mu (snd sys) then 1%nat else 0%nat;
  wo_one : (count live (fst sys) + count recovering (fst sys) <= 1)%nat;
  wo_started : wk_started (snd sys) = true -> count waiting_stop (fst sys) = 0%nat /\ wk_stop (snd sys) ∉ wk_closed (snd sys);
  wo_stopped : wk_started (snd sys) = false -> count recovering (fst sys) = 0%nat /\
    (count waiting_stop (fst sys) = 0%nat -> count live (fst sys) = 0%nat) /\
    (count live (fst sys) <> 0%nat -> wk_stop (snd sys) ∈ wk_closed (snd sys));
  wo_fresh : Forall (fun c => (c <= wk_stop (snd sys))%nat) (wk_closed (snd sys));
  wo_selects : Forall (selects (wk_stop (snd sys))) (fst sys)
}.

Lemma count_live_selects ch ths : count live ths = 0%nat -> Forall (selects ch) ths.
Proof.
  induction ths as [|p ths IH]; [constructor|]. unfold count in *. simpl. intros H.
  constructor; [|apply IH; lia]. by destruct p.
Qed.

Lemma selects_insert ch ths i p' sp :
  Forall (selects ch) ths -> selects ch p' -> Forall (selects ch) sp -> Forall (selects ch) (<[i := p']> ths ++ sp).
Proof. intros H1 H2 H3. apply Forall_app. split; [by apply Forall_insert|done]. Qed.

Lemma closed_fresh ch cl : Forall (fun c => (c <= ch)%nat) cl -> S ch ∉ cl.
Proof. rewrite Forall_forall. intros H Hin%H. lia. Qed.

Lemma closed_mono ch cl : Forall (fun c => (c <= ch)%nat) cl -> Forall (fun c => (c <= S ch)%nat) cl.
Proof. intros H. eapply Forall_impl; [exact H|]. simpl. lia. Qed.

(** The bookkeeping of one step: counts change by what the thread was and is. *)
Ltac worker_case :=
  repeat match goal with
  | H : true = true -> _ |- _ => specialize (H eq_refl)
  | H : false = false -> _ |- _ => specialize (H eq_refl)
  | H : ?b = true -> _, E : ?b = true |- _ => specialize (H E)
  | H : ?b = false -> _, E : ?b = false |- _ => specialize (H E)
  | H : _ /\ _ |- _ => destruct H
  | |- _ /\ _ => split
  | |- _ -> _ => intros ?
  end; try done; try lia.

Lemma wstep_ok eager sys sys' : wstep eager true sys sys' -> worker_ok sys -> worker_ok sys'.
Proof.
  intros Hs [Hwg Hmu Hone Hst Hsp Hfr Hsel]. destruct Hs as [ths sh p Hp|ths sh|ths sh i p p' sh' sp Hi Ht Hord]; simpl in *.
  - assert (Hc : forall f, f StartLock = 0%nat -> f StopLock = 0%nat -> count f (ths ++ [p]) = count f ths).
    { intros f H1 H2. rewrite count_app. unfold count. destruct Hp as [-> | ->]; simpl; lia. }
    split; simpl; rewrite ?Hc by done; try done. apply Forall_app. split; [done|]. apply Forall_singleton. by destruct Hp as [-> | ->].
  - by split.
  - pose proof (count_insert live ths i p p' Hi) as Hl. pose proof (count_insert recovering ths i p p' Hi) as Hr.
    pose proof (count_insert waiting_stop ths i p p' Hi) as Hw.
    assert (Hnil : forall f, count f [] = 0%nat) by done. assert (Hloop : forall f, count f [LoopTop] = f LoopTop) by (intros f; apply Nat.add_0_r).
    pose proof (count_live_selects (wk_stop sh') ths) as Hsel0.
    assert (Hselp : selects (wk_stop sh) p) by (by eapply Forall_lookup_1).
    destruct Ht; simpl in *; try (specialize (Hord eq_refl eq_refl); apply count_waiting in Hord);
      (split; simpl; rewrite ?count_app, ?Hnil, ?Hloop; simpl; [..|apply selects_insert]); worker_case.
    all: first [ by apply closed_fresh | by apply closed_mono | by repeat constructor | by left
               | match goal with H : count live _ <> 0%nat -> _ |- _ => apply H; lia end
               | match goal with H : count live _ = 0%nat -> Forall _ _ |- _ => apply H; auto end ].
Qed.

Lemma worker_reachable_ok eager sys : wreachable eager true sys -> worker_ok sys.
Proof.
  unfold wreachable. revert sys. apply rtc_ind_r; [|intros y z _ Hyz HP; by eapply wstep_ok].
  split; simpl; done || (try by constructor); by split_and!.
Qed.

(** C35. One loop at a time: as long as Start is not called while a Stop still waits,
    every interleaving of calls, polls and cancellations leaves at most one loop
    alive, the wait group counts it, and when Stop has returned nothing polls until
    the next Start. *)
Theorem worker_runs_one_loop eager sys :
  wreachable eager true sys ->
  (count live (fst sys) <= 1)%nat /\
  (wk_started (snd sys) = false -> StopWaiting ∉ fst sys -> count live (fst sys) = 0%nat /\ wk_wg (snd sys) = 0%nat).
Proof.
  intros Hr. destruct (worker_reachable_ok _ _ Hr) as [Hwg Hmu Hone Hst Hsp _ _]. split; [lia|].
  intros Hf Hw%count_waiting. destruct (Hsp Hf) as (H1 & H2 & _). specialize (H2 Hw). lia.
Qed.

(** ** Stopping *)

Lemma wrun eager ord ths sh i p p' sh' sp sys :
  ths !! i = Some p -> wtstep eager p sh p' sh' sp -> p ≠ StartLock -> rtc (wstep eager ord) (<[i := p']> ths ++ sp, sh') sys ->
  rtc (wstep eager ord) (ths, sh) sys.
Proof. intros Hi Ht Hp Hrest. eapply rtc_l; [|exact Hrest]. eapply ws_run; [done|done|]. intros _ ->. by destruct Hp. Qed.

Lemma wrun_one eager ord ths sh i p p' sh' sys :
  ths !! i = Some p -> wtstep eager p sh p' sh' [] -> p ≠ StartLock -> rtc (wstep eager ord) (<[i := p']> ths, sh') sys ->
  rtc (wstep eager ord) (ths, sh) sys.
Proof. intros Hi Ht Hp Hrest. eapply wrun; [done|done|done|]. by rewrite app_nil_r. Qed.

Lemma live_thread ths : count live ths ≠ 0%nat -> exists i p, ths !! i = Some p /\ live p = 1%nat.
Proof.
  induction ths as [|p ths IH]; intros Hc; [done|]. destruct (live p) eqn:Hp.
  - destruct IH as (i & q & Hi & Hq); [unfold count in *; simpl in *; lia|]. exists (S i), q. done.
  - exists 0%nat, p. split; [done|]. by destruct p.
Qed.

(** A loop that may leave, because its channel is closed or its context is done,
    does so within three steps of its own. *)
Lemma loop_leaves eager ord ths sh i p :
  ths !! i = Some p -> live p = 1%nat -> selects (wk_stop sh) p -> (wk_stop sh ∈ wk_closed sh \/ wk_ctx sh = true) ->
  exists n, rtc (wstep eager ord) (ths, sh)
    (<[i := LoopGone]> ths, MkW (wk_mu sh) (wk_started sh) (wk_stop sh) (wk_closed sh) (wk_wg sh - 1) (wk_ctx sh) n).
Proof.
  intros Hi Hp Hsel Hleave. destruct sh as [mu st ch cl wg cx n]. simpl in *.
  assert (Hlt : (i < length ths)%nat) by (by eapply lookup_lt_Some).
  assert (Hat : forall ths' n', ths' !! i = Some (LoopSelecting ch) ->
    rtc (wstep eager ord) (ths', MkW mu st ch cl wg cx n') (<[i := LoopGone]> ths', MkW mu st ch cl (wg - 1) cx n')).
  { intros ths' n' Hi'. eapply wrun_one; [exact Hi'| |done|apply rtc_refl]. destruct Hleave as [Hc| ->]; by constructor. }
  assert (Htop : forall ths' n', ths' !! i = Some LoopTop -> (i < length ths')%nat ->
    rtc (wstep eager ord) (ths', MkW mu st ch cl wg cx n') (<[i := LoopGone]> ths', MkW mu st ch cl (wg - 1) cx n')).
  { intros ths' n' Hi' Hlt'. eapply wrun_one; [exact Hi'|constructor|done|].
    rewrite <- (list_insert_insert_eq ths' i LoopGone (LoopSelecting ch)). apply Hat. by apply list_lookup_insert_eq. }
  destruct p as [| | | | | |c| |]; try done.
  - exists n. by apply Htop.
  - simpl in Hsel. subst c. exists n. by apply Hat.
  - exists (S n). eapply wrun_one; [exact Hi|constructor|done|].
    rewrite <- (list_insert_insert_eq ths i LoopGone LoopTop). apply Htop; [by apply list_lookup_insert_eq|by rewrite length_insert].
Qed.

(** A Stop that waits is never stuck: in ordered use the loop leaves by itself
    once its channel is closed, and the Stop returns. *)
Theorem worker_Stop_returns eager sys i :
  wreachable eager true sys -> fst sys !! i = Some StopWaiting ->
  exists sys', rtc (wstep eager true) sys sys' /\ fst sys' !! i = Some CallDone /\ count live (fst sys') = 0%nat.
Proof.
  intros Hr Hi. destruct sys as [ths sh]. pose proof (worker_reachable_ok _ _ Hr) as HI. simpl in *.
  assert (Hw : count waiting_stop ths ≠ 0%nat).
  { pose proof (count_insert waiting_stop ths i StopWaiting CallDone Hi). simpl in *. lia. }
  destruct HI as [Hwg Hmu Hone Hst Hsp _ Hsel]. simpl in *.
  destruct (wk_started sh) eqn:Hstarted; [by destruct (Hst eq_refl)|]. destruct (Hsp eq_refl) as (Hrec & _ & Hcl).
  assert (Hfin : forall ths' sh', ths' !! i = Some StopWaiting -> wk_wg sh' = 0%nat -> count live ths' = 0%nat ->
    exists sys', rtc (wstep eager true) (ths', sh') sys' /\ fst sys' !! i = Some CallDone /\ count live (fst sys') = 0%nat).
  { intros ths' [mu st ch cl wg cx n] Hi' Hz Hl. simpl in Hz. subst wg. exists (<[i := CallDone]> ths', MkW mu st ch cl 0 cx n). split_and!.
    - eapply wrun_one; [done|constructor|done|apply rtc_refl].
    - simpl. apply list_lookup_insert_eq. by eapply lookup_lt_Some.
    - pose proof (count_insert live ths' i StopWaiting CallDone Hi'). simpl in *. lia. }
  destruct (decide (count live ths = 0%nat)) as [Hz|Hnz]; [apply Hfin; [done|lia|done]|].
  destruct (live_thread ths Hnz) as (j & p & Hj & Hp).
  destruct (loop_leaves eager true ths sh j p Hj Hp) as [n Hrun]; [by eapply Forall_lookup_1|left; by apply Hcl|].
  assert (Hij : j ≠ i) by (intros ->; simplify_eq; done).
  destruct (Hfin (<[j := LoopGone]> ths) (MkW (wk_mu sh) (wk_started sh) (wk_stop sh) (wk_closed sh) (wk_wg sh - 1) (wk_ctx sh) n))
    as (sys' & Hrun' & Hdone).
  - by rewrite list_lookup_insert_ne.
  - simpl. lia.
  - pose proof (count_insert live ths j p LoopGone Hj). simpl in *. lia.
  - exists sys'. split; [|done]. rewrite Hstarted in Hrun. rewrite Hstarted in Hrun'. by etrans.
Qed.

(** ** A cancelled context *)

(** Only callers of Start and finished threads are left. *)
Definition spent (p : wpc) : Prop := p = StartLock \/ p = CallDone \/ p = LoopGone.

Record dead (sys : wsystem) : Prop := MkDead {
  de_started : wk_started (snd sys) = true;
  de_threads : Forall spent (fst sys)
}.

(** A step that is not a call of Stop. *)
Definition start_step eager (sys sys' : wsystem) : Prop :=
  wstep eager false sys sys' /\ StopLock ∉ fst sys'.

Lemma start_step_dead eager sys sys' : start_step eager sys sys' -> dead sys -> dead sys'.
Proof.
  intros [Hs Hno] [Hst Hth]. destruct Hs as [ths sh p Hp|ths sh|ths sh i p p' sh' sp Hi Ht _]; simpl in *.
  - split; [done|]. simpl. apply Forall_app. split; [done|]. apply Forall_singleton. destruct Hp as [-> | ->]; [by left|].
    exfalso. apply Hno, elem_of_app. right. by left.
  - by split.
  - assert (Hp : spent p) by (by eapply Forall_lookup_1).
    destruct Hp as [-> |[-> | ->]]; inversion Ht; subst; simpl in *; try done.
    split; [done|]. simpl. rewrite app_nil_r. apply Forall_insert; [done|]. right. by left.
Qed.

(** A worker whose context ended stays dead: once the context is done the loop
    leaves, [started] stays true, and no number of further Starts brings a loop
    back. *)
Theorem cancelled_worker_stays_dead eager ths sh :
  Forall (fun p => spent p \/ live p = 1%nat) ths -> wreachable eager true (ths, sh) -> wk_started sh = true -> wk_ctx sh = true ->
  exists sys', rtc (wstep eager true) (ths, sh) sys' /\ dead sys' /\
    forall sys'', rtc (start_step eager) sys' sys'' -> dead sys'' /\ count live (fst sys'') = 0%nat.
Proof.
  intros Hth Hr Hst Hctx. destruct (worker_reachable_ok _ _ Hr) as [_ _ Hone _ _ _ Hsel]. simpl in *.
  assert (Hfor : forall sys', dead sys' -> forall sys'', rtc (start_step eager) sys' sys'' -> dead sys'' /\ count live (fst sys'') = 0%nat).
  { intros sys' Hd sys'' Hrun. assert (Hd' : dead sys'') by (induction Hrun; [done|]; eauto using start_step_dead). split; [done|].
    destruct Hd' as [_ Hall]. clear -Hall. induction Hall as [|p l Hp Hl IH]; [done|]. unfold count in *. simpl. rewrite IH.
    by destruct Hp as [-> |[-> | ->]]. }
  destruct (decide (count live ths = 0%nat)) as [Hz|Hnz].
  - assert (Hd : dead (ths, sh)).
    { split; [done|]. simpl. apply Forall_forall. intros p Hp. rewrite Forall_forall in Hth. destruct (Hth p Hp) as [Hsp|Hl]; [done|].
      exfalso. apply list_elem_of_lookup in Hp as [i Hi]. pose proof (count_insert live ths i p CallDone Hi). simpl in *. lia. }
    exists (ths, sh). split_and!; [apply rtc_refl|done|by apply Hfor].
  - destruct (live_thread ths Hnz) as (j & p & Hj & Hp).
    destruct (loop_leaves eager true ths sh j p Hj Hp) as [n Hrun]; [by eapply Forall_lookup_1|by right|].
    match type of Hrun with rtc _ _ ?s => assert (Hd : dead s) end.
    { split; [done|]. simpl. apply Forall_forall. intros q Hq. apply list_elem_of_lookup in Hq as [i Hi].
      apply list_lookup_insert_Some in Hi as [(-> & <- & _)|[Hne Hi]]; [by right; right|].
      destruct (Forall_lookup_1 _ _ _ _ Hth Hi) as [Hsp|Hl]; [done|]. exfalso.
      pose proof (count_insert live ths j p LoopGone Hj) as H1.
      assert (Hi' : <[j := LoopGone]> ths !! i = Some q) by (by rewrite list_lookup_insert_ne).
      pose proof (count_insert live _ i q LoopGone Hi') as H2. simpl in *. lia. }
    eexists. split_and!; [exact Hrun|exact Hd|by apply Hfor].
Qed.

(** ** Concrete runs *)

Ltac wcall p := eapply rtc_l; [apply (ws_call _ _ _ _ p); auto|].
Ltac wgo i p := eapply rtc_l; [apply (ws_run _ _ _ _ i p); [reflexivity|by constructor|by intros]|]; cbn [insert list_insert app].

(** A worker that runs and was told to stop. *)
Definition stopping : wsystem := ([CallDone; Polling; StopWaiting], MkW false false 1 [1%nat] 1 false 0).

Lemma stopping_reachable : wreachable false true stopping.
Proof.
  unfold wreachable, wstart.
  wcall StartLock. eapply rtc_l; [apply (ws_run _ _ _ _ 0 StartLock); [reflexivity|by constructor|]|]; [intros _ _; set_solver|].
  cbn [insert list_insert app]. wgo 1%nat LoopTop. wgo 1%nat (LoopSelecting 1). wcall StopLock. wgo 2%nat StopLock. apply rtc_refl.
Qed.

Lemma worker_runs_one_loop_witness :
  (count live (fst stopping) <= 1)%nat /\
  (wk_started (snd stopping) = false -> StopWaiting ∉ fst stopping -> count live (fst stopping) = 0%nat /\ wk_wg (snd stopping) = 0%nat).
Proof. apply (worker_runs_one_loop false stopping). exact stopping_reachable. Defined.

Lemma worker_Stop_returns_witness :
  exists sys', rtc (wstep false true) stopping sys' /\ fst sys' !! 2%nat = Some CallDone /\ count live (fst sys') = 0%nat.
Proof. apply (worker_Stop_returns false stopping 2); [exact stopping_reachable|reflexivity]. Defined.

Definition orphaned : wsystem := ([CallDone; LoopTop], MkW false true 1 [] 1 true 0).

Lemma orphaned_reachable : wreachable false true orphaned.
Proof.
  unfold wreachable, wstart.
  wcall StartLock. eapply rtc_l; [apply (ws_run _ _ _ _ 0 StartLock); [reflexivity|by constructor|]|]; [intros _ _; set_solver|].
  cbn [insert list_insert app]. eapply rtc_l; [apply ws_cancel|]. apply rtc_refl.
Qed.

Lemma cancelled_worker_stays_dead_witness :
  exists sys', rtc (wstep false true) orphaned sys' /\ dead sys' /\
    forall sys'', rtc (start_step false) sys' sys'' -> dead sys'' /\ count live (fst sys'') = 0%nat.
Proof.
  apply (cancelled_worker_stays_dead false).
  - apply Forall_cons. split; [left; right; by left|]. apply Forall_singleton. by right.
  - exact orphaned_reachable.
  - reflexivity.
  - reflexivity.
Defined.

(** A Start that overtakes a waiting Stop replaces the channel while the old loop
    polls: two loops run on the new, open channel, and the Stop waits for both. *)
Theorem racing_Start_leaves_two_loops :
  exists sys, wreachable false false sys /\ count live (fst sys) = 2%nat /\ StopWaiting ∈ fst sys /\
    Forall (selects (wk_stop (snd sys))) (fst sys) /\ wk_stop (snd sys) ∉ wk_closed (snd sys).
Proof.
  exists ([CallDone; LoopSelecting 2; StopWaiting; CallDone; LoopSelecting 2], MkW false true 2 [1%nat] 2 false 1).
  split_and!; [|done|set_solver|by repeat constructor|set_solver].
  unfold wreachable, wstart. wcall StartLock. wgo 0%nat StartLock. wgo 1%nat LoopTop. wgo 1%nat (LoopSelecting 1).
  wcall StopLock. wgo 2%nat StopLock. wcall StartLock. eapply rtc_l; [apply (ws_run _ _ _ _ 3 StartLock); [reflexivity|by constructor|done]|].
  cbn [insert list_insert app]. wgo 1%nat Polling. wgo 1%nat LoopTop. wgo 4%nat LoopTop. apply rtc_refl.
Qed.
