(* ===== verification/Recovery.v ===== *)
(** * The recovery worker's lock

    [PostgresAdvisoryLock] and [recoverOnce] of
    [order-service/internal/saga/orchestrator.go].  A Postgres advisory lock
    belongs to the session that took it, and the pool runs every statement on
    some connection; which one is a parameter. *)
From S2P Require Import Prelude Errors Effects OrderDomain OrderRepo Saga.

Section Recovery.
Context `{U : UuidLib} {E : Type}.

(** The holder of each lock, a session with its count, and what the recoverer
    works on. *)
Record LockSt := MkLockSt { lk_locks : gmap Z (nat * Z); lk_ext : E }.

Definition lock_ext : lens LockSt E := Lens lk_ext (fun e s => MkLockSt (lk_locks s) e).

(** The session that serves the statement of a tick. *)
Context (session : nat -> nat).

(** [pg_try_advisory_lock]: granted when the lock is free or held by the session
    itself, which then holds it once more. *)
Definition pg_try_lock (me : nat) (id : Z) (s : LockSt) : bool * LockSt :=
  match lk_locks s !! id with
  | None => (true, MkLockSt (<[id := (me, 1)]> (lk_locks s)) (lk_ext s))
  | Some (holder, n) =>
      if Nat.eqb holder me then (true, MkLockSt (<[id := (me, n + 1)]> (lk_locks s)) (lk_ext s)) else (false, s)
  end.

(** [pg_advisory_unlock]: a session that does not hold the lock gets a warning and
    false, which the caller does not look at. *)
Definition pg_unlock (me : nat) (id : Z) (s : LockSt) : LockSt :=
  match lk_locks s !! id with
  | Some (holder, n) =>
      if Nat.eqb holder me
      then MkLockSt (if n =? 1 then delete id (lk_locks s) else <[id := (me, n - 1)]> (lk_locks s)) (lk_ext s)
      else s
  | None => s
  end.

Definition TryLock (key : string) : M LockSt bool := fun o w =>
  wrap_err (wrapf "pg_try_advisory_lock")
    (io (fun s => let '(b, s') := pg_try_lock (session (w_tick w)) (advisoryLockID key) s in (inr b, s'))) o w.

Definition Unlock (key : string) : M LockSt unit := fun o w =>
  wrap_err (wrapf "pg_advisory_unlock")
    (io (fun s => (inr tt, pg_unlock (session (w_tick w)) (advisoryLockID key) s))) o w.

Definition lockKey : string := "saga-recovery-worker".

Context (Recover_ : M E unit).

(** [locker]: whether a lock was configured.  Errors are logged; the unlock is
    deferred. *)
Definition recoverOnce (locker : bool) : M LockSt unit :=
  if negb locker then do* attempt (zoom lock_ext Recover_) in ret tt
  else
    let* l := attempt (TryLock lockKey) in
    match l with
    | inl _ | inr false => ret tt
    | inr true =>
        do* attempt (zoom lock_ext Recover_) in
        do* attempt (Unlock lockKey) in
        ret tt
    end.

(** ** Theorems *)

#[local] Opaque advisoryLockID.

Implicit Types (o : oracle) (w : world LockSt).

(** A pass that does not get the lock does nothing to the sagas. *)
Lemma locked_out_pass_does_nothing o w holder n :
  lk_locks (w_st w) !! advisoryLockID lockKey = Some (holder, n) -> session (w_tick w) ≠ holder ->
  w_st (snd (recoverOnce true o w)) = w_st w.
Proof.
  intros Hl Hs. unfold recoverOnce, bind, attempt, TryLock, wrap_err, io. simpl. unfold pg_try_lock. rewrite Hl.
  rewrite (proj2 (Nat.eqb_neq holder (session (w_tick w)))) by done. by destruct (o_fault o (w_tick w)).
Qed.

(** The state after a pass that got the lock. *)
Lemma recoverOnce_calm o w (w1 : world E) r :
  no_faults o -> lk_locks (w_st w) !! advisoryLockID lockKey = None ->
  Recover_ o (World (S (w_tick w)) (lk_ext (w_st w))) = (r, w1) ->
  w_st (snd (recoverOnce true o w)) =
    pg_unlock (session (w_tick w1)) (advisoryLockID lockKey)
      (MkLockSt (<[advisoryLockID lockKey := (session (w_tick w), 1)]> (lk_locks (w_st w))) (w_st w1)).
Proof.
  intros Ho Hl Hrec. unfold recoverOnce, bind, attempt, TryLock, wrap_err. simpl. rewrite (io_no_faults _ _ _ Ho).
  unfold pg_try_lock. rewrite Hl. unfold zoom. simpl. rewrite Hrec. unfold Unlock, wrap_err. rewrite (io_no_faults _ _ _ Ho). done.
Qed.

(** The recovery lock is not always released: a pass whose unlock runs on the
    connection that took the lock frees it, but when the pool serves the unlock by
    another connection the lock stays taken, and every later pass on any other
    connection, of this or another instance, skips recovery. *)
Theorem recovery_lock_leaks o w (w1 : world E) r :
  no_faults o -> lk_locks (w_st w) !! advisoryLockID lockKey = None ->
  Recover_ o (World (S (w_tick w)) (lk_ext (w_st w))) = (r, w1) ->
  let s' := w_st (snd (recoverOnce true o w)) in
  lk_ext s' = w_st w1 /\
  (session (w_tick w1) = session (w_tick w) -> lk_locks s' !! advisoryLockID lockKey = None) /\
  (session (w_tick w1) ≠ session (w_tick w) ->
     forall o' w', w_st w' = s' -> session (w_tick w') ≠ session (w_tick w) -> w_st (snd (recoverOnce true o' w')) = s').
Proof.
  intros Ho Hl Hrec. cbv zeta. rewrite (recoverOnce_calm o w w1 r Ho Hl Hrec). set (id := advisoryLockID lockKey) in *.
  unfold pg_unlock. simpl. rewrite lookup_insert_eq. destruct (Nat.eqb_spec (session (w_tick w)) (session (w_tick w1))) as [Heq|Hne]; simpl.
  - split_and!; [done|intros _; apply lookup_delete_eq|done].
  - split_and!; [done|by intros Heq|]. intros _ o' w' Hw' Hs.
    rewrite <- Hw'. eapply locked_out_pass_does_nothing; [|exact Hs]. rewrite Hw'. simpl. apply lookup_insert_eq.
Qed.
End Recovery.

Section Sample.
#[local] Existing Instance uuid_text.

Definition rec_oracle : oracle := Oracle (fun _ => FNone) (fun _ => 0) uuid_sample (fun _ => None) (fun _ => true).

(** Every statement runs on its own connection. *)
Lemma recovery_lock_leaks_witness :
  let s' := w_st (snd (recoverOnce (fun t => t) (ret tt) true rec_oracle (World 0 (MkLockSt ∅ tt)))) in
  lk_ext s' = tt /\ (1%nat = 0%nat -> lk_locks s' !! advisoryLockID lockKey = None) /\
  (1%nat ≠ 0%nat -> forall o' w', w_st w' = s' -> w_tick w' ≠ 0%nat -> w_st (snd (recoverOnce (fun t => t) (ret tt) true o' w')) = s').
Proof.
  apply (recovery_lock_leaks (fun t => t) (ret tt) rec_oracle (World 0 (MkLockSt ∅ tt)) (World 1 tt) (inr tt)); [by split|apply lookup_empty|reflexivity].
Defined.
End Sample.
