(* ===== verification/EnvConfig.v ===== *)
(** * Configuration: pkg/config and the Load functions of the services

    The environment is a finite map; an unset variable reads as the empty string.
    [time.ParseDuration], [pgxpool.ParseConfig] and [net/mail.ParseAddress] are
    parameters. *)
From S2P Require Import Prelude.

Definition Environ : Type := gmap string string.

Definition Getenv (env : Environ) (key : string) : string := default "" (env !! key).

(** ** env.go *)

Definition GetEnv (env : Environ) (key defaultVal : string) : string :=
  if bool_decide (Getenv env key = "") then defaultVal else Getenv env key.

Definition digit (c : Ascii.ascii) : option Z :=
  let n := Z.of_nat (Ascii.nat_of_ascii c) in if (48 <=? n) && (n <=? 57) then Some (n - 48) else None.

Fixpoint digits (acc : Z) (s : string) : option Z :=
  match s with
  | EmptyString => Some acc
  | String c s' => d ← digit c; digits (acc * 10 + d) s'
  end.

(** [strconv.Atoi] and [strconv.ParseInt(s, 10, 64)]: an optional sign, at least
    one digit, 64 bits. *)
Definition Atoi (s : string) : option Z :=
  let '(neg, ds) := match s with
                    | String c s' => if Nat.eqb (Ascii.nat_of_ascii c) 45 then (true, s')
                                     else if Nat.eqb (Ascii.nat_of_ascii c) 43 then (false, s') else (false, s)
                    | EmptyString => (false, s)
                    end in
  if bool_decide (ds = "") then None
  else z ← digits 0 ds; let z' := if (neg : bool) then - z else z in if in_int64 z' then Some z' else None.

Example atoi_port : Atoi "50051" = Some 50051.
Proof. reflexivity. Qed.

Example atoi_min : Atoi "-9223372036854775808" = Some (- 2 ^ 63).
Proof. reflexivity. Qed.

Definition GetEnvInt (env : Environ) (key : string) (defaultVal : Z) : Z :=
  if bool_decide (Getenv env key = "") then defaultVal else default defaultVal (Atoi (Getenv env key)).

Definition GetEnvInt64 (env : Environ) (key : string) (defaultVal : Z) : Z :=
  if bool_decide (Getenv env key = "") then defaultVal else default defaultVal (Atoi (Getenv env key)).

Definition env_comma : Ascii.ascii := Ascii.ascii_of_nat 44.

Definition GetEnvSlice (env : Environ) (key : string) (defaultVal : list string) : list string :=
  if bool_decide (Getenv env key = "") then defaultVal else TrimSpace <$> Split (Getenv env key) env_comma.

(** ** validate.go: the errors by the sentinel they wrap *)

Inductive cfg_err :=
| ErrMissingJWTSecret
| ErrJWTSecretTooShort (got need : Z)
| ErrMissingPostgresDSN
| ErrInvalidPostgresDSN (detail : string)
| ErrMissingKafkaBrokers
| ErrMissingKafkaTopics
| ErrMissingClickHouseDSN
| ErrInvalidClickHouseDSN
| CfgError (msg : string)
| CfgWrap (msg : string) (e : cfg_err).

Section Validate.
Context (ParseDuration : string -> option Z) (pg_ParseConfig : string -> option string) (ParseAddress : string -> bool).

Definition GetEnvDuration (env : Environ) (key : string) (defaultVal : Z) : Z :=
  if bool_decide (Getenv env key = "") then defaultVal else default defaultVal (ParseDuration (Getenv env key)).

Definition ValidateJWTSecret (secret : string) (minLen : Z) : option cfg_err :=
  let n := Z.of_nat (String.length secret) in
  if bool_decide (secret = "") then Some ErrMissingJWTSecret
  else if n <? minLen then Some (ErrJWTSecretTooShort n minLen)
  else None.

(** [pg_ParseConfig] gives the error of the parser. *)
Definition ValidatePostgresDSN (dsn : string) : option cfg_err :=
  if bool_decide (TrimSpace dsn = "") then Some ErrMissingPostgresDSN
  else if negb (HasPrefix dsn "postgres://") && negb (HasPrefix dsn "postgresql://")
  then Some (ErrInvalidPostgresDSN "must start with postgres:// or postgresql://")
  else match pg_ParseConfig dsn with Some err => Some (ErrInvalidPostgresDSN err) | None => None end.

Definition ValidateKafkaBrokers (brokers : list string) : option cfg_err :=
  if bool_decide (length brokers = 0%nat) then Some ErrMissingKafkaBrokers else None.

Definition ValidateKafkaTopics (topics : list string) : option cfg_err :=
  if bool_decide (length topics = 0%nat) then Some ErrMissingKafkaTopics else None.

Definition ValidateClickHouseAddr (addr : string) : option cfg_err :=
  if bool_decide (addr = "") then Some ErrMissingClickHouseDSN
  else match index_byte (Ascii.ascii_of_nat 58) addr with None => Some ErrInvalidClickHouseDSN | Some _ => None end.

Definition ValidateSMTP (host : string) (port : Z) (from : string) : option cfg_err :=
  if bool_decide (host = "") then None
  else if (port <=? 0) || (65535 <? port) then Some (CfgError "SMTP_PORT must be a valid port number")
  else if negb (ParseAddress from) then Some (CfgError "SMTP_FROM must be a valid email address")
  else None.

(** ** base.go *)

Definition second : Z := 10 ^ 9.

Record Base := MkBase {
  ba_LogLevel : string; ba_LogFormat : string; ba_OTEL : string; ba_JWTSecret : string; ba_CertPath : string;
  ba_CallTimeout : Z; ba_QueryTimeout : Z
}.

Definition LoadBase (env : Environ) : Base :=
  MkBase (GetEnv env "LOG_LEVEL" "info") (GetEnv env "LOG_FORMAT" "json")
    (GetEnv env "OTEL_EXPORTER_OTLP_ENDPOINT" "http://localhost:4318") (GetEnv env "JWT_SECRET" "") (GetEnv env "CERT_PATH" "")
    (GetEnvDuration env "DEFAULT_CALL_TIMEOUT" (5 * second)) (GetEnvDuration env "DEFAULT_QUERY_TIMEOUT" (3 * second)).

Record ServerBase := MkServerBase { sb_GRPCPort : Z; sb_MetricsPort : Z }.

Definition LoadServerBase (env : Environ) (defaultGRPCPort : Z) : ServerBase :=
  let grpcPort := GetEnvInt env "GRPC_PORT" defaultGRPCPort in
  MkServerBase grpcPort (GetEnvInt env "METRICS_PORT" (int64 (grpcPort + 1000))).

(** A check that returns its error, then the rest. *)
Definition check {A} (e : option cfg_err) (k : cfg_err + A) : cfg_err + A := match e with Some err => inl err | None => k end.

(** ** The services *)

Record CatalogConfig := MkCatalogCfg { cc_Base : Base; cc_Server : ServerBase; cc_PostgresDSN : string; cc_ESURL : string }.

Definition catalog_Load (env : Environ) : cfg_err + CatalogConfig :=
  let base := LoadBase env in
  let dsn := GetEnv env "POSTGRES_DSN" "" in
  check (ValidatePostgresDSN dsn)
    (check (ValidateJWTSecret (ba_JWTSecret base) 32)
      (inr (MkCatalogCfg base (LoadServerBase env 50052) dsn (GetEnv env "ES_URL" "http://localhost:9200")))).

Record UserConfig := MkUserCfg { uc_Base : Base; uc_Server : ServerBase; uc_HTTPPort : Z; uc_PostgresDSN : string }.

Definition user_Load (env : Environ) : cfg_err + UserConfig :=
  let base := LoadBase env in
  check (ValidateJWTSecret (ba_JWTSecret base) 32)
    (let dsn := GetEnv env "POSTGRES_DSN" "" in
     check (ValidatePostgresDSN dsn)
       (inr (MkUserCfg base (LoadServerBase env 50051) (GetEnvInt env "HTTP_PORT" 8080) dsn))).

Record InventoryConfig := MkInventoryCfg { ic_Base : Base; ic_Server : ServerBase; ic_PostgresDSN : string; ic_RedisAddr : string }.

Definition inventory_Load (env : Environ) : cfg_err + InventoryConfig :=
  let base := LoadBase env in
  check (ValidateJWTSecret (ba_JWTSecret base) 32)
    (let dsn := GetEnv env "POSTGRES_DSN" "" in
     check (ValidatePostgresDSN dsn)
       (inr (MkInventoryCfg base (LoadServerBase env 50053) dsn (GetEnv env "REDIS_ADDR" "localhost:6379")))).

Record PaymentConfig := MkPaymentCfg {
  pc_Base : Base; pc_Server : ServerBase; pc_PostgresDSN : string; pc_KafkaBrokers : list string; pc_DLQTopic : string
}.

Definition minJWTSecretLen : Z := 8.

(** The text of an invalid DSN is the same whatever the parser said. *)
Definition payment_Validate (c : PaymentConfig) : option cfg_err :=
  let b := pc_Base c in
  if sb_GRPCPort (pc_Server c) <=? 0 then Some (CfgError "grpc port must be greater than 0")
  else if sb_MetricsPort (pc_Server c) <=? 0 then Some (CfgError "metrics port must be greater than 0")
  else match ValidatePostgresDSN (pc_PostgresDSN c) with
       | Some ErrMissingPostgresDSN => Some (CfgWrap "postgres dsn is required" ErrMissingPostgresDSN)
       | Some _ => Some (CfgWrap "postgres dsn must start with postgres:// or postgresql://" (ErrInvalidPostgresDSN ""))
       | None =>
           match ValidateJWTSecret (ba_JWTSecret b) minJWTSecretLen with
           | Some err => Some (CfgWrap "jwt secret must be at least 8 characters long" err)
           | None =>
               if ba_CallTimeout b <=? 0 then Some (CfgError "default call timeout must be greater than 0")
               else if ba_QueryTimeout b <=? 0 then Some (CfgError "default query timeout must be greater than 0")
               else match ValidateKafkaBrokers (pc_KafkaBrokers c) with
                    | Some _ => Some (CfgWrap "at least one kafka broker is required" ErrMissingKafkaBrokers)
                    | None => if bool_decide (TrimSpace (pc_DLQTopic c) = "") then Some (CfgError "dlq topic is required") else None
                    end
           end
       end.

Definition payment_Load (env : Environ) : cfg_err + PaymentConfig :=
  let cfg := MkPaymentCfg (LoadBase env) (LoadServerBase env 50054) (GetEnv env "POSTGRES_DSN" "")
               (GetEnvSlice env "KAFKA_BROKERS" ["localhost:9092"]) (GetEnv env "DLQ_TOPIC" "payment-dlq") in
  check (payment_Validate cfg) (inr cfg).

Record OrderConfig := MkOrderCfg {
  oc_Base : Base; oc_Server : ServerBase; oc_PostgresDSN : string; oc_InventoryAddr : string; oc_PaymentAddr : string;
  oc_CatalogAddr : string; oc_KafkaBrokers : list string; oc_KafkaTopic : string; oc_RedisAddr : string
}.

Definition order_Load (env : Environ) : cfg_err + OrderConfig :=
  let base := LoadBase env in
  check (ValidateJWTSecret (ba_JWTSecret base) 32)
    (let dsn := GetEnv env "POSTGRES_DSN" "" in
     check (ValidatePostgresDSN dsn)
       (let brokers := GetEnvSlice env "KAFKA_BROKERS" ["localhost:9092"] in
        check (ValidateKafkaBrokers brokers)
          (let topic := GetEnv env "KAFKA_TOPIC" "order-events" in
           check (ValidateKafkaTopics [topic])
             (inr (MkOrderCfg base (LoadServerBase env 50055) dsn (GetEnv env "INVENTORY_ADDR" "localhost:50053")
                     (GetEnv env "PAYMENT_ADDR" "localhost:50054") (GetEnv env "CATALOG_ADDR" "localhost:50052") brokers topic
                     (GetEnv env "REDIS_ADDR" "localhost:6379")))))).

Record NotificationConfig := MkNotificationCfg {
  nc_Base : Base; nc_Server : ServerBase; nc_KafkaBrokers : list string; nc_KafkaGroup : string; nc_KafkaTopics : list string;
  nc_DLQTopic : string; nc_SMTPHost : string; nc_SMTPPort : Z; nc_SMTPFrom : string; nc_SMTPUser : string; nc_SMTPPassword : string
}.

Definition notification_Validate (c : NotificationConfig) : option cfg_err :=
  let b := nc_Base c in
  match ValidateJWTSecret (ba_JWTSecret b) 8 with
  | Some e => Some e
  | None =>
      match ValidateKafkaBrokers (nc_KafkaBrokers c) with
      | Some e => Some e
      | None =>
          match ValidateKafkaTopics (nc_KafkaTopics c) with
          | Some e => Some e
          | None =>
              if ba_CallTimeout b <=? 0 then Some (CfgError "DEFAULT_CALL_TIMEOUT must be positive")
              else if ba_QueryTimeout b <=? 0 then Some (CfgError "DEFAULT_QUERY_TIMEOUT must be positive")
              else ValidateSMTP (nc_SMTPHost c) (nc_SMTPPort c) (nc_SMTPFrom c)
          end
      end
  end.

Definition notification_Load (env : Environ) : cfg_err + NotificationConfig :=
  let cfg := MkNotificationCfg (LoadBase env) (LoadServerBase env 50056)
    (GetEnvSlice env "KAFKA_BROKERS" ["localhost:9092"]) (GetEnv env "KAFKA_CONSUMER_GROUP" "notification-service")
    (GetEnvSlice env "KAFKA_TOPICS" ["order-events"]) (GetEnv env "KAFKA_DLQ_TOPIC" "notification-dlq")
    (GetEnv env "SMTP_HOST" "") (GetEnvInt env "SMTP_PORT" 587) (GetEnv env "SMTP_FROM" "notifications@example.com")
    (GetEnv env "SMTP_USER" "") (GetEnv env "SMTP_PASSWORD" "") in
  check (notification_Validate cfg) (inr cfg).

Record AnalyticsConfig := MkAnalyticsCfg {
  ac_Base : Base; ac_Server : ServerBase; ac_Addr : string; ac_User : string; ac_Password : string;
  ac_KafkaBrokers : list string; ac_KafkaGroup : string; ac_KafkaTopics : list string
}.

Definition analytics_Validate (c : AnalyticsConfig) : option cfg_err :=
  match ValidateJWTSecret (ba_JWTSecret (ac_Base c)) 32 with
  | Some e => Some e
  | None =>
      match ValidateClickHouseAddr (ac_Addr c) with
      | Some e => Some e
      | None =>
          match ValidateKafkaBrokers (ac_KafkaBrokers c) with
          | Some e => Some e
          | None => ValidateKafkaTopics (ac_KafkaTopics c)
          end
      end
  end.

Definition analytics_Load (env : Environ) : cfg_err + AnalyticsConfig :=
  let cfg := MkAnalyticsCfg (LoadBase env) (LoadServerBase env 50057) (GetEnv env "CLICKHOUSE_DSN" "localhost:9000")
    (GetEnv env "CLICKHOUSE_USER" "") (GetEnv env "CLICKHOUSE_PASSWORD" "") (GetEnvSlice env "KAFKA_BROKERS" ["localhost:9092"])
    (GetEnv env "KAFKA_CONSUMER_GROUP" "analytics-service") (GetEnvSlice env "KAFKA_TOPICS" ["order-events"]) in
  check (analytics_Validate cfg) (inr cfg).
End Validate.

(** ** What a Load accepts *)

Section ConfigFacts.
Context (ParseDuration : string -> option Z) (pg_ParseConfig : string -> option string) (ParseAddress : string -> bool).
Implicit Types env : Environ.

(** The two conditions the services share. *)
Definition secret_ok (min : Z) (secret : string) : Prop := secret <> "" /\ min <= Z.of_nat (String.length secret).

Definition dsn_ok (dsn : string) : Prop :=
  TrimSpace dsn <> "" /\ (HasPrefix dsn "postgres://" || HasPrefix dsn "postgresql://") = true /\ pg_ParseConfig dsn = None.

Lemma ValidateJWTSecret_decides secret min : ValidateJWTSecret secret min = None <-> secret_ok min secret.
Proof.
  unfold ValidateJWTSecret, secret_ok. case_bool_decide; [naive_solver|].
  destruct (Z.ltb_spec (Z.of_nat (String.length secret)) min); intuition (try lia; try congruence).
Qed.

Lemma ValidatePostgresDSN_decides dsn : ValidatePostgresDSN pg_ParseConfig dsn = None <-> dsn_ok dsn.
Proof.
  unfold ValidatePostgresDSN, dsn_ok. case_bool_decide; [naive_solver|].
  destruct (HasPrefix dsn "postgres://"), (HasPrefix dsn "postgresql://"); simpl;
    destruct (pg_ParseConfig dsn); naive_solver.
Qed.

Lemma Split_not_nil s c : Split s c <> [].
Proof.
  unfold Split. generalize "" as acc. induction s as [|a s IH]; intros acc; simpl; [done|].
  destruct (decide (c = a)); [done|apply IH].
Qed.

(** A list read from the environment is never empty when its default is not. *)
Lemma GetEnvSlice_not_nil env key d : d <> [] -> GetEnvSlice env key d <> [].
Proof.
  intros Hd. unfold GetEnvSlice. case_bool_decide; [done|].
  intros Hnil%fmap_nil_inv. exact (Split_not_nil _ _ Hnil).
Qed.

Lemma ValidateKafkaBrokers_not_nil l : l <> [] -> ValidateKafkaBrokers l = None.
Proof. by destruct l. Qed.

Lemma ValidateKafkaTopics_not_nil l : l <> [] -> ValidateKafkaTopics l = None.
Proof. by destruct l. Qed.

Lemma check_ok {A} e (k : cfg_err + A) : (exists c, check e k = inr c) <-> e = None /\ exists c, k = inr c.
Proof. unfold check. destruct e; naive_solver. Qed.

Lemma inr_ok {A} (a : A) : (exists c : A, (inr a : cfg_err + A) = inr c) <-> True.
Proof. naive_solver. Qed.

Lemma brokers_pass env : ValidateKafkaBrokers (GetEnvSlice env "KAFKA_BROKERS" ["localhost:9092"]) = None.
Proof. by apply ValidateKafkaBrokers_not_nil, GetEnvSlice_not_nil. Qed.

Lemma topics_pass env : ValidateKafkaTopics (GetEnvSlice env "KAFKA_TOPICS" ["order-events"]) = None.
Proof. by apply ValidateKafkaTopics_not_nil, GetEnvSlice_not_nil. Qed.

Definition env_secret env : string := Getenv env "JWT_SECRET".
Definition env_dsn env : string := Getenv env "POSTGRES_DSN".
Definition timeouts_ok env : Prop :=
  0 < GetEnvDuration ParseDuration env "DEFAULT_CALL_TIMEOUT" (5 * second) /\
  0 < GetEnvDuration ParseDuration env "DEFAULT_QUERY_TIMEOUT" (3 * second).

Lemma GetEnv_empty_default env key : GetEnv env key "" = Getenv env key.
Proof. unfold GetEnv. by case_bool_decide. Qed.

Lemma payment_Load_ok env :
  (exists c, payment_Load ParseDuration pg_ParseConfig env = inr c) <->
  0 < GetEnvInt env "GRPC_PORT" 50054 /\ 0 < GetEnvInt env "METRICS_PORT" (int64 (GetEnvInt env "GRPC_PORT" 50054 + 1000)) /\
  dsn_ok (env_dsn env) /\ secret_ok 8 (env_secret env) /\ timeouts_ok env /\ TrimSpace (GetEnv env "DLQ_TOPIC" "payment-dlq") <> "".
Proof.
  unfold payment_Load. rewrite check_ok, inr_ok. unfold payment_Validate; cbn [pc_Base pc_Server pc_PostgresDSN pc_KafkaBrokers pc_DLQTopic LoadServerBase sb_GRPCPort sb_MetricsPort].
  rewrite !GetEnv_empty_default, brokers_pass. cbn [LoadBase ba_JWTSecret ba_CallTimeout ba_QueryTimeout].
  rewrite !GetEnv_empty_default. fold (env_secret env) (env_dsn env). unfold timeouts_ok, minJWTSecretLen.
  rewrite <- ValidatePostgresDSN_decides, <- ValidateJWTSecret_decides.
  repeat match goal with |- context [?a <=? ?b] => destruct (Z.leb_spec a b) end;
    destruct (ValidatePostgresDSN _ _) as [[]|]; destruct (ValidateJWTSecret _ _); try case_bool_decide; intuition (try lia; try congruence).
Qed.

Lemma ValidateSMTP_decides host port from :
  ValidateSMTP ParseAddress host port from = None <-> (host <> "" -> 0 < port <= 65535 /\ ParseAddress from = true).
Proof.
  unfold ValidateSMTP. case_bool_decide; [naive_solver|].
  destruct (Z.leb_spec port 0), (Z.ltb_spec 65535 port); simpl; destruct (ParseAddress from); simpl; intuition (try lia; try congruence).
Qed.

Lemma notification_Load_ok env :
  (exists c, notification_Load ParseDuration ParseAddress env = inr c) <->
  secret_ok 8 (env_secret env) /\ timeouts_ok env /\
  (Getenv env "SMTP_HOST" <> "" ->
   0 < GetEnvInt env "SMTP_PORT" 587 <= 65535 /\ ParseAddress (GetEnv env "SMTP_FROM" "notifications@example.com") = true).
Proof.
  unfold notification_Load. rewrite check_ok, inr_ok. unfold notification_Validate.
  cbn [nc_Base nc_Server nc_KafkaBrokers nc_KafkaTopics nc_SMTPHost nc_SMTPPort nc_SMTPFrom].
  rewrite brokers_pass, topics_pass. cbn [LoadBase ba_JWTSecret ba_CallTimeout ba_QueryTimeout].
  rewrite !GetEnv_empty_default. fold (env_secret env). unfold timeouts_ok.
  rewrite <- ValidateSMTP_decides, <- ValidateJWTSecret_decides.
  destruct (ValidateJWTSecret _ _); [naive_solver|].
  repeat match goal with |- context [?a <=? ?b] => destruct (Z.leb_spec a b) end; intuition (try lia; try congruence).
Qed.

(** A host and a port with a colon between them. *)
Definition host_port (addr : string) : Prop := exists host port, addr = host +:+ ":" +:+ port.

Lemma index_byte_found c s : is_Some (index_byte c s) <-> exists s1 s2, s = s1 +:+ String c s2.
Proof.
  induction s as [|a s IH]; simpl.
  - split; [by intros []|]. intros ([|] & s2 & H); discriminate H.
  - destruct (decide (c = a)) as [->|Hne].
    + split; [by exists "", s|by eexists].
    + rewrite fmap_is_Some, IH. split.
      * intros (s1 & s2 & ->). by exists (String a s1), s2.
      * intros ([|b s1] & s2 & H); injection H as -> ->; [done|by exists s1, s2].
Qed.

Lemma ValidateClickHouseAddr_decides addr : ValidateClickHouseAddr addr = None <-> host_port addr.
Proof.
  transitivity (is_Some (index_byte (Ascii.ascii_of_nat 58) addr)); [|apply index_byte_found].
  unfold ValidateClickHouseAddr. case_bool_decide as Hnil; [subst; split; [done|by intros []]|].
  destruct (index_byte _ addr); split; try done; by intros [].
Qed.

Lemma analytics_Load_ok env :
  (exists c, analytics_Load ParseDuration env = inr c) <->
  secret_ok 32 (env_secret env) /\ host_port (GetEnv env "CLICKHOUSE_DSN" "localhost:9000").
Proof.
  rewrite <- ValidateClickHouseAddr_decides.
  unfold analytics_Load. rewrite check_ok, inr_ok. unfold analytics_Validate.
  cbn [ac_Base ac_Addr ac_KafkaBrokers ac_KafkaTopics LoadBase ba_JWTSecret].
  rewrite brokers_pass, topics_pass, GetEnv_empty_default. fold (env_secret env).
  rewrite <- ValidateJWTSecret_decides. destruct (ValidateJWTSecret _ _), (ValidateClickHouseAddr _); naive_solver.
Qed.

Ltac load_ok := repeat rewrite check_ok; rewrite inr_ok; cbn [LoadBase ba_JWTSecret]; rewrite !GetEnv_empty_default,
  ValidatePostgresDSN_decides, ValidateJWTSecret_decides; unfold env_secret, env_dsn.

Lemma catalog_Load_ok env :
  (exists c, catalog_Load ParseDuration pg_ParseConfig env = inr c) <-> secret_ok 32 (env_secret env) /\ dsn_ok (env_dsn env).
Proof. unfold catalog_Load. load_ok. tauto. Qed.

Lemma user_Load_ok env :
  (exists c, user_Load ParseDuration pg_ParseConfig env = inr c) <-> secret_ok 32 (env_secret env) /\ dsn_ok (env_dsn env).
Proof. unfold user_Load. load_ok. tauto. Qed.

Lemma inventory_Load_ok env :
  (exists c, inventory_Load ParseDuration pg_ParseConfig env = inr c) <-> secret_ok 32 (env_secret env) /\ dsn_ok (env_dsn env).
Proof. unfold inventory_Load. load_ok. tauto. Qed.

Lemma order_Load_ok env :
  (exists c, order_Load ParseDuration pg_ParseConfig env = inr c) <-> secret_ok 32 (env_secret env) /\ dsn_ok (env_dsn env).
Proof. unfold order_Load. rewrite brokers_pass. load_ok. rewrite ValidateKafkaTopics_not_nil by done. tauto. Qed.

(** C39. Which environments the configuration of a service accepts. Each Load succeeds exactly when
    its own conditions hold: catalog, user, inventory and order need a secret of
    32 bytes and a DSN the parser takes, payment needs a secret of 8 bytes, positive
    ports and timeouts and a DLQ topic, notification a secret of 8 bytes, positive
    timeouts and consistent SMTP settings, analytics a secret of 32 bytes and an
    address with a colon. The checks of the Kafka brokers and topics never decide. *)
Theorem Load_decides env :
  ((exists c, catalog_Load ParseDuration pg_ParseConfig env = inr c) <-> secret_ok 32 (env_secret env) /\ dsn_ok (env_dsn env)) /\
  ((exists c, user_Load ParseDuration pg_ParseConfig env = inr c) <-> secret_ok 32 (env_secret env) /\ dsn_ok (env_dsn env)) /\
  ((exists c, inventory_Load ParseDuration pg_ParseConfig env = inr c) <-> secret_ok 32 (env_secret env) /\ dsn_ok (env_dsn env)) /\
  ((exists c, order_Load ParseDuration pg_ParseConfig env = inr c) <-> secret_ok 32 (env_secret env) /\ dsn_ok (env_dsn env)) /\
  ((exists c, payment_Load ParseDuration pg_ParseConfig env = inr c) <->
   0 < GetEnvInt env "GRPC_PORT" 50054 /\ 0 < GetEnvInt env "METRICS_PORT" (int64 (GetEnvInt env "GRPC_PORT" 50054 + 1000)) /\
   dsn_ok (env_dsn env) /\ secret_ok 8 (env_secret env) /\ timeouts_ok env /\ TrimSpace (GetEnv env "DLQ_TOPIC" "payment-dlq") <> "") /\
  ((exists c, notification_Load ParseDuration ParseAddress env = inr c) <->
   secret_ok 8 (env_secret env) /\ timeouts_ok env /\
   (Getenv env "SMTP_HOST" <> "" ->
    0 < GetEnvInt env "SMTP_PORT" 587 <= 65535 /\ ParseAddress (GetEnv env "SMTP_FROM" "notifications@example.com") = true)) /\
  ((exists c, analytics_Load ParseDuration env = inr c) <->
   secret_ok 32 (env_secret env) /\ host_port (GetEnv env "CLICKHOUSE_DSN" "localhost:9000")).
Proof.
  split_and!; [apply catalog_Load_ok|apply user_Load_ok|apply inventory_Load_ok|apply order_Load_ok|apply payment_Load_ok|
    apply notification_Load_ok|apply analytics_Load_ok].
Qed.
End ConfigFacts.

(** ** Samples *)

Definition sample_env : Environ :=
  {[ "JWT_SECRET" := "0123456789abcdef0123456789abcdef"; "POSTGRES_DSN" := "postgres://db/orders"; "KAFKA_BROKERS" := "k1:9092, k2:9092" ]}.

Example order_sample :
  oc_KafkaBrokers <$> (match order_Load (fun _ => None) (fun _ => None) sample_env with inr c => Some c | inl _ => None end) = Some ["k1:9092"; "k2:9092"].
Proof. vm_compute. reflexivity. Qed.

(** A list of nothing but a comma is two empty brokers, which pass the check. *)
Lemma comma_is_two_brokers :
  GetEnvSlice {[ "KAFKA_BROKERS" := "," ]} "KAFKA_BROKERS" ["localhost:9092"] = [""; ""] /\ ValidateKafkaBrokers [""; ""] = None.
Proof. split; vm_compute; reflexivity. Qed.

(** A secret of ten bytes starts payment and notification, and no other service. *)
Lemma short_secret_starts_payment :
  let env : Environ := <["JWT_SECRET" := "0123456789"]> sample_env in
  (exists c, payment_Load (fun _ => None) (fun _ => None) env = inr c) /\
  order_Load (fun _ => None) (fun _ => None) env = inl (ErrJWTSecretTooShort 10 32).
Proof. split; [eexists|]; vm_compute; reflexivity. Qed.
