(* ===== verification/Wiring.v ===== *)
(** * Dependency injection

    The fx applications of the services as data: the constructors that
    [pkg/fxmodules] and the [app.New] functions provide, with the types they take
    and give, the functions they invoke, and which of them append a lifecycle hook.
    Go types are their qualified names.  fx itself is a library; what is used of its
    documentation: a parameter is resolved by its exact type, a type has at most one
    constructor, a constructor runs before what uses its result, the invoked
    functions run in the order given, OnStop hooks run in the reverse order of their
    registration. *)
From S2P Require Import Prelude.

(** ** Options *)

Record provider := MkProvider { pv_in : list string; pv_out : string; pv_hook : bool }.

(** [iv_hook]: the function appends a hook to the lifecycle. *)
Record invocation := MkInvoke { iv_name : string; iv_in : list string; iv_hook : bool }.

Record fx_options := MkFx { fx_Provide : list provider; fx_Invoke : list invocation }.

Definition provide (ins : list string) (out : string) : fx_options := MkFx [MkProvider ins out false] [].
Definition provide_hooked (ins : list string) (out : string) : fx_options := MkFx [MkProvider ins out true] [].
Definition invoke (name : string) (ins : list string) : fx_options := MkFx [] [MkInvoke name ins true].

Definition fx_Options (l : list fx_options) : fx_options :=
  MkFx (concat (fx_Provide <$> l)) (concat (fx_Invoke <$> l)).

(** What fx provides itself. *)
Definition fx_builtin : list string := ["fx.Lifecycle"].

(** ** pkg/fxmodules *)

Definition Logger : fx_options :=
  fx_Options [provide [] "fxmodules.LoggerConfig"; provide ["fxmodules.LoggerConfig"] "*zap.Logger"].

Definition Config (T : string) : fx_options := provide [] T.

(** The server registers its hook unless both ports are zero. *)
Definition GRPCServer (grpc_port metrics_port : Z) : fx_options :=
  fx_Options [
    provide [] "fxmodules.GRPCServerConfig";
    MkFx [] [MkInvoke "grpc server" ["fx.Lifecycle"; "fxmodules.GRPCServerConfig"; "server.RegisterFn"; "*zap.Logger"]
               (negb ((grpc_port =? 0) && (metrics_port =? 0)))]
  ].

Definition Postgres : fx_options :=
  fx_Options [provide [] "fxmodules.PostgresConfig"; provide ["fxmodules.PostgresConfig"] "*pgxpool.Pool"].

Definition Redis : fx_options :=
  fx_Options [provide [] "fxmodules.RedisConfig"; provide_hooked ["fx.Lifecycle"; "fxmodules.RedisConfig"] "*redis.Client"].

Definition KafkaProducer : fx_options :=
  fx_Options [provide [] "fxmodules.KafkaProducerConfig";
    provide_hooked ["fx.Lifecycle"; "fxmodules.KafkaProducerConfig"] "kafka.Producer"].

(** The kafka.IsPermanentError of the second parameter struct is optional. *)
Definition KafkaConsumer : fx_options :=
  fx_Options [
    provide [] "fxmodules.KafkaConsumerConfig";
    provide ["fxmodules.KafkaConsumerConfig"; "kafka.Processor"; "*zap.Logger"] "*kafka.Consumer";
    invoke "kafka consumer" ["fx.Lifecycle"; "*kafka.Consumer"; "*zap.Logger"]
  ].

Definition Runner (T : string) : fx_options := invoke ("runner " +:+ T) ["fx.Lifecycle"; T].

Definition CircuitBreakerModule : fx_options := provide [] "*gobreaker.CircuitBreaker".

Definition GRPCClientFactory : fx_options :=
  fx_Options [provide [] "fxmodules.GRPCClientFactoryConfig";
    provide ["*gobreaker.CircuitBreaker"; "fxmodules.GRPCClientFactoryConfig"] "*grpcclient.Factory"].

Definition GRPCClient (T : string) : fx_options := provide_hooked ["fx.Lifecycle"; "*grpcclient.Factory"] T.

Definition HTTPServer (name T : string) : fx_options := invoke ("http server " +:+ name) ["fx.Lifecycle"; T; "*zap.Logger"].

(** [newHandler] takes [handler_in] and returns the interface that [register] wants. *)
Definition GRPCService (ports : Z * Z) (Handler : string) (handler_in : list string) (opts : list fx_options) : fx_options :=
  fx_Options ([
    Logger; Config "*config.Config"; GRPCServer (fst ports) (snd ports);
    provide handler_in Handler; provide [Handler] "server.RegisterFn"
  ] ++ opts).

(** ** The services: internal/app/app.go *)

Section Apps.
Context (ports : Z * Z).

Definition user_app : fx_options :=
  GRPCService ports "userv1.UserServiceServer" ["usecase.UserUsecase"] [
    Postgres;
    provide ["*pgxpool.Pool"] "repository.UserRepository";
    provide ["repository.UserRepository"; "*config.Config"] "usecase.UserUsecase"
  ].

Definition inventory_app : fx_options :=
  GRPCService ports "inventoryv1.InventoryServiceServer" ["usecase.InventoryUsecase"] [
    Postgres; Redis;
    provide ["*pgxpool.Pool"] "postgres.Querier";
    provide ["postgres.Querier"] "repository.InventoryRepository";
    provide ["*pgxpool.Pool"; "repository.InventoryRepository"] "repository.TxManager";
    provide ["repository.InventoryRepository"; "repository.TxManager"; "*redis.Client"; "*config.Config"] "usecase.InventoryUsecase"
  ].

Definition payment_app : fx_options :=
  GRPCService ports "paymentv1.PaymentServiceServer" ["usecase.PaymentUsecase"; "*dlq.Producer"] [
    Postgres; KafkaProducer;
    provide ["*pgxpool.Pool"] "postgres.Querier";
    provide ["postgres.Querier"] "repository.PaymentRepository";
    provide ["*pgxpool.Pool"; "repository.PaymentRepository"] "repository.TxManager";
    provide ["repository.PaymentRepository"; "repository.TxManager"; "*zap.Logger"; "*config.Config"] "usecase.PaymentUsecase";
    provide ["*config.Config"; "*zap.Logger"] "*dlq.Producer";
    invoke "dlq close" ["fx.Lifecycle"; "*dlq.Producer"; "*zap.Logger"]
  ].

Definition order_app : fx_options :=
  GRPCService ports "orderv1.OrderServiceServer" ["usecase.OrderUsecase"] [
    Postgres; Redis; KafkaProducer;
    Runner "*outbox.Relay"; Runner "*saga.RecoveryWorker";
    CircuitBreakerModule; GRPCClientFactory;
    GRPCClient "inventoryv1.InventoryServiceClient"; GRPCClient "paymentv1.PaymentServiceClient";
    GRPCClient "catalogv1.CatalogServiceClient";
    provide ["*pgxpool.Pool"] "*txmanager.Manager[unitofwork.UnitOfWork]";
    provide ["postgres.Querier"] "repository.OrderRepository";
    provide ["postgres.Querier"] "repository.OutboxRepository";
    provide ["postgres.Querier"] "saga.SagaRepository";
    provide ["repository.OrderRepository"; "saga.SagaRepository"; "inventoryv1.InventoryServiceClient";
             "paymentv1.PaymentServiceClient"; "*zap.Logger"; "*config.Config"] "*saga.Orchestrator";
    provide ["*txmanager.Manager[unitofwork.UnitOfWork]"; "repository.OrderRepository"; "repository.OutboxRepository";
             "*saga.Orchestrator"; "catalogv1.CatalogServiceClient"; "*redis.Client"; "*config.Config"] "usecase.OrderUsecase";
    provide ["repository.OutboxRepository"; "kafka.Producer"; "*zap.Logger"; "*config.Config"] "*outbox.Relay";
    provide ["*saga.Orchestrator"; "*pgxpool.Pool"; "*zap.Logger"] "*saga.RecoveryWorker"
  ].

Definition catalog_app : fx_options :=
  GRPCService ports "catalogv1.CatalogServiceServer" ["usecase.CatalogUsecase"] [
    Postgres; Runner "*outbox.Relay";
    provide ["*config.Config"] "*elastic.Client";
    provide ["postgres.Querier"] "repository.ProductRepository";
    provide ["postgres.Querier"] "repository.OutboxRepository";
    provide ["*elastic.Client"; "*zap.Logger"] "repository.ProductSearchRepository";
    provide ["*pgxpool.Pool"; "repository.ProductRepository"; "repository.OutboxRepository";
             "repository.ProductSearchRepository"; "*config.Config"] "usecase.CatalogUsecase";
    provide ["*pgxpool.Pool"; "repository.OutboxRepository"; "repository.ProductSearchRepository"; "*zap.Logger";
             "*config.Config"] "*outbox.Relay";
    invoke "ensure index" ["fx.Lifecycle"; "repository.ProductSearchRepository"; "*zap.Logger"]
  ].

Definition analytics_app : fx_options :=
  GRPCService ports "analyticsv1.AnalyticsServiceServer" ["usecase.AnalyticsUsecase"] [
    provide ["*config.Config"] "*clickhouse.EventRepo";
    provide ["*config.Config"; "*clickhouse.EventRepo"; "*zap.Logger"] "usecase.AnalyticsUsecase";
    provide ["usecase.AnalyticsUsecase"; "*zap.Logger"] "*consumer.Processor";
    KafkaConsumer;
    invoke "flush" ["fx.Lifecycle"; "usecase.AnalyticsUsecase"; "*zap.Logger"]
  ].

Definition notification_app : fx_options :=
  GRPCService ports "notificationv1.NotificationServiceServer" ["usecase.NotificationUsecase"] [
    KafkaConsumer;
    provide ["*config.Config"; "*zap.Logger"] "email.Provider";
    provide ["*zap.Logger"; "*config.Config"; "email.Provider"] "usecase.NotificationUsecase";
    provide ["usecase.NotificationUsecase"; "*zap.Logger"] "*consumer.Processor";
    provide [] "kafka.IsPermanentError"
  ].
End Apps.

(** ** Resolution *)

(** The types that can be constructed: fx's own, and those whose constructor gets
    all it asks for. *)
Inductive constructible (ps : list provider) : string -> Prop :=
| con_builtin t : t ∈ fx_builtin -> constructible ps t
| con_provided p : p ∈ ps -> Forall (constructible ps) (pv_in p) -> constructible ps (pv_out p).

Definition once (ps : list provider) : Prop := NoDup (pv_out <$> ps).

(** The application starts: no type is provided twice and every invoked function
    gets its arguments. *)
Definition startable (app : fx_options) : Prop :=
  once (fx_Provide app) /\ Forall (fun i => Forall (constructible (fx_Provide app)) (iv_in i)) (fx_Invoke app).

(** Two executable checks. *)
Fixpoint buildable (n : nat) (ps : list provider) (t : string) : bool :=
  match n with
  | O => false
  | S n' =>
      if bool_decide (t ∈ fx_builtin) then true
      else existsb (fun p => if bool_decide (pv_out p = t) then forallb (buildable n' ps) (pv_in p) else false) ps
  end.

Fixpoint blocked (n : nat) (ps : list provider) (t : string) : bool :=
  match n with
  | O => false
  | S n' =>
      if bool_decide (t ∈ fx_builtin) then false
      else forallb (fun p => if bool_decide (pv_out p = t) then existsb (blocked n' ps) (pv_in p) else true) ps
  end.

Lemma buildable_sound n ps t : buildable n ps t = true -> constructible ps t.
Proof.
  revert t. induction n as [|n IH]; intros t; simpl; [done|]. case_bool_decide as Hb; [intros _; by apply con_builtin|].
  intros (p & Hin & Hp)%existsb_exists. case_bool_decide as Ho; [|done]. rewrite <- Ho.
  - apply con_provided; [by apply list_elem_of_In|]. apply Forall_forall. intros u Hu.
    apply IH. rewrite forallb_forall in Hp. by apply Hp, list_elem_of_In.
Qed.

Lemma blocked_sound n ps t : blocked n ps t = true -> ~ constructible ps t.
Proof.
  revert t. induction n as [|n IH]; intros t; simpl; [done|]. case_bool_decide as Hb; [done|]. intros Hall Hc. rewrite forallb_forall in Hall.
  destruct Hc as [t Ht|p Hp Hin]; [done|].
  - specialize (Hall p (proj1 (list_elem_of_In _ _) Hp)). rewrite bool_decide_eq_true_2 in Hall by done. simpl in Hall.
    apply existsb_exists in Hall as (u & Hu & Hbl). rewrite Forall_forall in Hin. eapply IH; [exact Hbl|].
    by apply Hin, list_elem_of_In.
Qed.

Definition starts (app : fx_options) : bool :=
  bool_decide (once (fx_Provide app)) &&
  forallb (fun i => forallb (buildable (S (length (fx_Provide app))) (fx_Provide app)) (iv_in i)) (fx_Invoke app).

(** The arguments of invoked functions that cannot be constructed. *)
Definition blocked_args (app : fx_options) : list string :=
  concat ((fun i => filter (fun t => blocked (S (length (fx_Provide app))) (fx_Provide app) t = true) (iv_in i)) <$> fx_Invoke app).

Lemma starts_sound app : starts app = true -> startable app.
Proof.
  intros [H1 H2]%andb_prop. apply bool_decide_eq_true in H1. split; [done|]. apply Forall_forall. intros i Hi.
  rewrite forallb_forall in H2. specialize (H2 i (proj1 (list_elem_of_In _ _) Hi)). rewrite forallb_forall in H2.
  apply Forall_forall. intros t Ht. eapply buildable_sound, H2. by apply list_elem_of_In.
Qed.

Lemma blocked_args_sound app : blocked_args app ≠ [] -> ~ startable app.
Proof.
  intros Hne [_ Hall]. apply Hne, elem_of_nil_inv. intros t (i & Hi & [Hb Ht]%list_elem_of_filter)%elem_of_concat_fmap.
  rewrite Forall_forall in Hall. specialize (Hall i Hi). rewrite Forall_forall in Hall. by eapply blocked_sound, Hall.
Qed.

(** The types of an application that are asked for and have no constructor. *)
Definition unprovided (app : fx_options) : list string :=
  filter (fun t => t ∉ fx_builtin ++ (pv_out <$> fx_Provide app))
    (remove_dups (concat (pv_in <$> fx_Provide app) ++ concat (iv_in <$> fx_Invoke app))).

(** The constructor that the two services with their own Querier interface lack, and
    the one that the two services with a consumer lack. *)
Definition querier : fx_options := provide ["*pgxpool.Pool"] "postgres.Querier".
Definition processor : fx_options := provide ["*consumer.Processor"] "kafka.Processor".

(** user-, inventory- and payment-service start.  order- and catalog-service ask for a
    postgres.Querier that nothing provides, analytics- and notification-service for a
    kafka.Processor: their applications cannot start, and that one constructor is all
    they lack. *)
Theorem four_services_cannot_start ports :
  startable (user_app ports) /\ startable (inventory_app ports) /\ startable (payment_app ports) /\
  (forall app, app ∈ [order_app ports; catalog_app ports] ->
     ~ startable app /\ unprovided app = ["postgres.Querier"] /\ startable (fx_Options [app; querier])) /\
  (forall app, app ∈ [analytics_app ports; notification_app ports] ->
     ~ startable app /\ unprovided app = ["kafka.Processor"] /\ startable (fx_Options [app; processor])).
Proof.
  split_and!; [by apply starts_sound; vm_compute..| |].
  - intros app [->|[->|[]%elem_of_nil]%elem_of_cons]%elem_of_cons;
      (split_and!; [apply blocked_args_sound; vm_compute; discriminate|vm_compute; reflexivity|by apply starts_sound; vm_compute]).
  - intros app [->|[->|[]%elem_of_nil]%elem_of_cons]%elem_of_cons;
      (split_and!; [apply blocked_args_sound; vm_compute; discriminate|vm_compute; reflexivity|by apply starts_sound; vm_compute]).
Qed.

(** ** Start and stop *)

Inductive call := Construct (p : provider) | CallInvoke (i : invocation).

Definition call_in (c : call) : list string := match c with Construct p => pv_in p | CallInvoke i => iv_in i end.
Definition call_hook (c : call) : bool := match c with Construct p => pv_hook p | CallInvoke i => iv_hook i end.

(** The calls in their order: each gets only what is there already. *)
Fixpoint ordered (avail : list string) (calls : list call) : bool :=
  match calls with
  | [] => true
  | c :: calls' =>
      forallb (fun t => bool_decide (t ∈ avail)) (call_in c) &&
      ordered (match c with Construct p => pv_out p :: avail | CallInvoke _ => avail end) calls'
  end.

Definition constructors (calls : list call) : list provider := omap (fun c => match c with Construct p => Some p | CallInvoke _ => None end) calls.
Definition invoked (calls : list call) : list invocation := omap (fun c => match c with CallInvoke i => Some i | Construct _ => None end) calls.

(** What fx may do to start [app]. *)
Record start_of (app : fx_options) (calls : list call) : Prop := MkStartOf {
  st_ordered : ordered fx_builtin calls = true;
  st_constructors : forall p, p ∈ constructors calls -> p ∈ fx_Provide app;
  st_once : NoDup (pv_out <$> constructors calls);
  st_invoked : invoked calls = fx_Invoke app
}.

Definition hooks (calls : list call) : list call := filter (fun c => call_hook c = true) calls.

(** The hooks in the order in which they are stopped. *)
Definition stopped (calls : list call) : list call := reverse (hooks calls).

Definition before {A} (l : list A) (a b : A) : Prop := exists l1 l2 l3, l = l1 ++ a :: l2 ++ b :: l3.

(** *** A startable application has a start *)

Lemma constructible_rec ps (P : string -> Prop) :
  (forall t, t ∈ fx_builtin -> P t) -> (forall p, p ∈ ps -> Forall (constructible ps) (pv_in p) -> Forall P (pv_in p) -> P (pv_out p)) ->
  forall t, constructible ps t -> P t.
Proof.
  intros Hb Hp. fix IH 2. intros t [t' Ht|p Hin Hall]; [by apply Hb|]. apply Hp; [done|done|].
  induction Hall as [|u l Hu _ IHl]; constructor; [by apply IH|done].
Qed.

Definition outs (calls : list call) : list string := pv_out <$> constructors calls.

Lemma outs_app c1 c2 : outs (c1 ++ c2) = outs c1 ++ outs c2.
Proof. unfold outs, constructors. by rewrite omap_app, fmap_app. Qed.

Lemma ordered_mono avail avail' calls : (forall t, t ∈ avail -> t ∈ avail') -> ordered avail calls = true -> ordered avail' calls = true.
Proof.
  revert avail avail'. induction calls as [|c calls IH]; intros avail avail' Hsub; simpl; [done|]. intros [H1 H2]%andb_prop.
  apply andb_true_intro. split.
  - rewrite forallb_forall in *. intros t Ht. specialize (H1 t Ht). apply bool_decide_eq_true in H1. by apply bool_decide_eq_true, Hsub.
  - eapply IH; [|exact H2]. destruct c as [p|i]; [|done]. intros t [->|Ht]%elem_of_cons; [apply list_elem_of_here|].
    apply list_elem_of_further. by apply Hsub.
Qed.

Lemma ordered_app avail c1 c2 : ordered avail (c1 ++ c2) = ordered avail c1 && ordered (reverse (outs c1) ++ avail) c2.
Proof.
  revert avail. induction c1 as [|c c1 IH]; intros avail; simpl; [done|]. rewrite IH, andb_assoc. f_equal.
  destruct c as [p|i]; unfold outs; csimpl; [|done]. by rewrite reverse_cons, <- app_assoc.
Qed.

(** Calls that construct [ts] on top of what is there. *)
Definition makes (ps : list provider) (ts : list string) : Prop := exists calls,
  ordered fx_builtin calls = true /\ (forall p, p ∈ constructors calls -> p ∈ ps) /\ invoked calls = [] /\
  forall t, t ∈ ts -> t ∈ outs calls ++ fx_builtin.

Lemma makes_all ps ts : Forall (fun t => makes ps [t]) ts -> makes ps ts.
Proof.
  induction 1 as [|t ts (c1 & Ho1 & Hp1 & Hi1 & Hm1) _ (c2 & Ho2 & Hp2 & Hi2 & Hm2)].
  { exists []. split_and!; [done|by intros p ?%elem_of_nil|done|by intros t ?%elem_of_nil]. }
  exists (c1 ++ c2). split_and!.
  - rewrite ordered_app, Ho1. simpl. eapply ordered_mono; [|exact Ho2]. intros u Hu. apply elem_of_app. by right.
  - intros p. unfold constructors. rewrite omap_app. intros [Hp|Hp]%elem_of_app; [by apply Hp1|by apply Hp2].
  - unfold invoked in *. by rewrite omap_app, Hi1, Hi2.
  - intros u [->|Hu]%elem_of_cons; rewrite outs_app, <- app_assoc.
    + specialize (Hm1 t (list_elem_of_here _ _)). set_solver.
    + specialize (Hm2 u Hu). set_solver.
Qed.

Lemma constructible_makes ps t : constructible ps t -> makes ps [t].
Proof.
  revert t. apply constructible_rec.
  - intros t Ht. exists []. split_and!; [done|by intros p ?%elem_of_nil|done|]. by intros u ->%list_elem_of_singleton.
  - intros p Hp _ (c & Ho & Hc & Hi & Hm)%makes_all. exists (c ++ [Construct p]). split_and!.
    + rewrite ordered_app, Ho. simpl. rewrite andb_true_r. apply forallb_forall. intros t Ht%list_elem_of_In.
      apply bool_decide_eq_true. specialize (Hm t Ht). rewrite elem_of_app, elem_of_reverse. by apply elem_of_app in Hm.
    + intros q. unfold constructors. rewrite omap_app. intros [Hq|Hq]%elem_of_app; [by apply Hc|]. by apply list_elem_of_singleton in Hq as ->.
    + unfold invoked in *. by rewrite omap_app, Hi.
    + intros u ->%list_elem_of_singleton. rewrite outs_app. apply elem_of_app. left. apply elem_of_app. right. apply list_elem_of_here.
Qed.

(** A constructor is called only when its result is not there yet. *)
Fixpoint fresh_calls (avail : list string) (calls : list call) : list call :=
  match calls with
  | [] => []
  | Construct p :: calls' =>
      if bool_decide (pv_out p ∈ avail) then fresh_calls avail calls'
      else Construct p :: fresh_calls (pv_out p :: avail) calls'
  | CallInvoke i :: calls' => CallInvoke i :: fresh_calls avail calls'
  end.

Lemma fresh_calls_ordered avail avail' calls :
  (forall t, t ∈ avail -> t ∈ avail') -> ordered avail calls = true -> ordered avail' (fresh_calls avail' calls) = true.
Proof.
  revert avail avail'. induction calls as [|[p|i] calls IH]; intros avail avail' Hsub; simpl; [done| |]; intros [H1 H2]%andb_prop.
  - assert (Hin : forallb (fun t => bool_decide (t ∈ avail')) (pv_in p) = true).
    { rewrite forallb_forall in *. intros t Ht. specialize (H1 t Ht). apply bool_decide_eq_true in H1. by apply bool_decide_eq_true, Hsub. }
    case_bool_decide as Ho; simpl; [|rewrite Hin; simpl]; (eapply IH; [|exact H2]); set_solver.
  - apply andb_true_intro. split; [|by eapply IH]. rewrite forallb_forall in *. intros t Ht. specialize (H1 t Ht).
    apply bool_decide_eq_true in H1. by apply bool_decide_eq_true, Hsub.
Qed.

Lemma fresh_calls_once avail calls : NoDup (outs (fresh_calls avail calls)) /\ forall t, t ∈ outs (fresh_calls avail calls) -> t ∉ avail.
Proof.
  revert avail. induction calls as [|[p|i] calls IH]; intros avail; simpl; [split; [constructor|by intros t ?%elem_of_nil]| |apply IH].
  case_bool_decide as Ho; [apply IH|]. destruct (IH (pv_out p :: avail)) as [Hnd Hav]. unfold outs in *. csimpl. split.
  - constructor; [|done]. intros Hin. by eapply (Hav _ Hin), list_elem_of_here.
  - intros t [->|Ht]%elem_of_cons; [done|]. intros Hin. by eapply (Hav _ Ht), list_elem_of_further.
Qed.

Lemma fresh_calls_same avail calls :
  invoked (fresh_calls avail calls) = invoked calls /\ forall p, p ∈ constructors (fresh_calls avail calls) -> p ∈ constructors calls.
Proof.
  revert avail. induction calls as [|[p|i] calls IH]; intros avail; simpl; [done| |].
  - case_bool_decide as Ho; [destruct (IH avail)|destruct (IH (pv_out p :: avail))]; unfold invoked, constructors in *; csimpl; set_solver.
  - destruct (IH avail) as [Hi Hc]. unfold invoked, constructors in *. csimpl. by rewrite Hi.
Qed.

(** Calls that run a list of invoked functions. *)
Lemma invokes_made ps ivs :
  Forall (fun i => Forall (constructible ps) (iv_in i)) ivs ->
  exists calls, ordered fx_builtin calls = true /\ (forall p, p ∈ constructors calls -> p ∈ ps) /\ invoked calls = ivs.
Proof.
  induction ivs as [|i ivs IH] using rev_ind; [by exists []; split_and!; [|intros p ?%elem_of_nil|]|].
  intros [Hivs [Hi _]%Forall_cons]%Forall_app. destruct (IH Hivs) as (c1 & Ho1 & Hp1 & Hi1).
  destruct (makes_all ps (iv_in i)) as (c2 & Ho2 & Hp2 & Hi2 & Hm2); [by eapply Forall_impl; [exact Hi|apply constructible_makes]|].
  exists (c1 ++ c2 ++ [CallInvoke i]). split_and!.
  - rewrite !ordered_app, Ho1. simpl. apply andb_true_intro. split; [eapply ordered_mono; [|exact Ho2]; set_solver|].
    rewrite andb_true_r. apply forallb_forall. intros t Ht%list_elem_of_In. apply bool_decide_eq_true. specialize (Hm2 t Ht).
    rewrite !elem_of_app, !elem_of_reverse. apply elem_of_app in Hm2. tauto.
  - intros p. unfold constructors in *. rewrite !omap_app, !elem_of_app. intros [Hp|[Hp|Hp]]; [by apply Hp1|by apply Hp2|by apply elem_of_nil in Hp].
  - unfold invoked in *. by rewrite !omap_app, Hi1, Hi2.
Qed.

Lemma startable_has_start app : startable app -> exists calls, start_of app calls.
Proof.
  intros [_ Hinv]. destruct (invokes_made _ _ Hinv) as (c & Ho & Hp & Hi). exists (fresh_calls fx_builtin c).
  destruct (fresh_calls_same fx_builtin c) as [Hi' Hc']. constructor.
  - by eapply fresh_calls_ordered; [|exact Ho].
  - intros p Hpin. by apply Hp, Hc'.
  - apply fresh_calls_once.
  - by rewrite Hi', Hi.
Qed.

(** *** The check is exact *)

Lemma buildable_mono n n' ps t : (n <= n')%nat -> buildable n ps t = true -> buildable n' ps t = true.
Proof.
  revert n' t. induction n as [|n IH]; intros n' t Hle; [done|]. destruct n' as [|n']; [lia|]. simpl.
  case_bool_decide; [done|]. rewrite !existsb_exists. intros (p & Hin & Hp). exists p. split; [done|].
  case_bool_decide; [|done]. rewrite forallb_forall in *. intros u Hu. apply (IH n'); [lia|by apply Hp].
Qed.

(** What an ordered list of calls constructs is found with as much fuel as it has calls. *)
Lemma ordered_buildable ps n avail calls :
  (forall t, t ∈ avail -> buildable n ps t = true) -> (forall p, p ∈ constructors calls -> p ∈ ps) -> ordered avail calls = true ->
  forall t, t ∈ outs calls ++ avail -> buildable (n + length (constructors calls)) ps t = true.
Proof.
  revert n avail. induction calls as [|[p|i] calls IH]; intros n avail Hav Hps; simpl.
  { intros _ t Ht. rewrite Nat.add_0_r. by apply Hav. }
  - intros [Hin Hord]%andb_prop t Ht. unfold constructors, outs in *. csimpl.
    replace (n + S (length _))%nat with (S n + length (omap (fun c => match c with Construct p => Some p | CallInvoke _ => None end) calls))%nat by (unfold omap; lia).
    apply (IH (S n) (pv_out p :: avail)); [|set_solver|done|csimpl; set_solver].
    intros u [->|Hu]%elem_of_cons; [|apply (buildable_mono n); [lia|by apply Hav]].
    simpl. case_bool_decide; [done|]. apply existsb_exists. exists p. split; [apply list_elem_of_In, Hps; csimpl; set_solver|].
    rewrite bool_decide_true by done. rewrite forallb_forall in *. intros v Hv. apply Hav. specialize (Hin v Hv).
    by apply bool_decide_eq_true in Hin.
  - intros [_ Hord]%andb_prop. by apply IH.
Qed.

Lemma calls_bounded (ps : list provider) calls :
  NoDup (outs calls) -> (forall p, p ∈ constructors calls -> p ∈ ps) -> (length (constructors calls) <= length ps)%nat.
Proof.
  intros Hnd Hps. rewrite <- (length_fmap pv_out (constructors calls)), <- (length_fmap pv_out ps).
  apply submseteq_length, NoDup_submseteq; [done|]. intros t (p & -> & Hp)%list_elem_of_fmap. by apply list_elem_of_fmap_2, Hps.
Qed.

Lemma builtin_buildable ps t : t ∈ fx_builtin -> buildable 1 ps t = true.
Proof. intros Ht. simpl. by rewrite bool_decide_true. Qed.

Lemma start_buildable app calls :
  start_of app calls -> forall i t, i ∈ fx_Invoke app -> t ∈ iv_in i -> buildable (S (length (fx_Provide app))) (fx_Provide app) t = true.
Proof.
  intros Hst i t Hi Ht. rewrite <- (st_invoked _ _ Hst) in Hi. apply list_elem_of_omap in Hi as ([p|j] & Hin & Hi); [done|].
  injection Hi as ->. apply list_elem_of_split in Hin as (l1 & l2 & ->). destruct Hst as [Ho Hps Hnd _].
  rewrite ordered_app in Ho. apply andb_prop in Ho as [Ho Ho2]. simpl in Ho2. apply andb_prop in Ho2 as [Hin _].
  rewrite forallb_forall in Hin. specialize (Hin t (proj1 (list_elem_of_In _ _) Ht)). apply bool_decide_eq_true in Hin.
  change (NoDup (outs (l1 ++ CallInvoke i :: l2))) in Hnd. rewrite outs_app in Hnd. apply NoDup_app in Hnd as (Hnd & _ & _).
  assert (Hps1 : forall p, p ∈ constructors l1 -> p ∈ fx_Provide app).
  { intros p Hp. apply Hps. unfold constructors. rewrite omap_app. apply elem_of_app. by left. }
  apply (buildable_mono (1 + length (constructors l1))); [pose proof (calls_bounded _ _ Hnd Hps1); lia|].
  eapply ordered_buildable; [apply builtin_buildable|exact Hps1|exact Ho|].
  rewrite elem_of_app, elem_of_reverse in Hin. by apply elem_of_app.
Qed.

Lemma starts_complete app : startable app -> starts app = true.
Proof.
  intros Hs. destruct (startable_has_start app Hs) as [calls Hst]. unfold starts. apply andb_true_intro. split.
  - apply bool_decide_eq_true, Hs.
  - apply forallb_forall. intros i Hi%list_elem_of_In. apply forallb_forall. intros t Ht%list_elem_of_In. by eapply start_buildable.
Qed.

(** An application starts exactly when no type is provided twice and fx has an order
    of calls in which every constructor runs once and every argument is there; the
    executable check finds out. *)
Theorem starts_decides app :
  starts app = true <-> once (fx_Provide app) /\ exists calls, start_of app calls.
Proof.
  split.
  - intros Hs%starts_sound. split; [apply Hs|by apply startable_has_start].
  - intros [Hone [calls Hst]]. apply starts_complete. split; [done|]. apply Forall_forall. intros i Hi.
    apply Forall_forall. intros t Ht. by eapply buildable_sound, start_buildable.
Qed.

(** *** The order of the hooks *)

(** A call with arguments [ts] uses what [p] constructs, itself or through other
    constructors. *)
Inductive uses (ps : list provider) (p : provider) : list string -> Prop :=
| uses_direct ts : pv_out p ∈ ts -> uses ps p ts
| uses_through q ts : q ∈ ps -> pv_out q ∈ ts -> pv_out q ∉ fx_builtin -> uses ps p (pv_in q) -> uses ps p ts.

Fixpoint uses_b (n : nat) (ps : list provider) (p : provider) (ts : list string) : bool :=
  match n with
  | O => false
  | S n' =>
      if bool_decide (pv_out p ∈ ts) then true
      else existsb (fun q => if bool_decide (pv_out q ∈ ts /\ pv_out q ∉ fx_builtin) then uses_b n' ps p (pv_in q) else false) ps
  end.

Lemma uses_b_sound n ps p ts : uses_b n ps p ts = true -> uses ps p ts.
Proof.
  revert ts. induction n as [|n IH]; intros ts; simpl; [done|]. case_bool_decide as Hd; [intros _; by apply uses_direct|].
  intros (q & Hq & Hb)%existsb_exists. case_bool_decide as Ho; [|done]. destruct Ho as [Ho Hnb].
  eapply uses_through; [by apply list_elem_of_In|done|done|by apply IH].
Qed.

Lemma constructed_before app l1 c l2 t :
  start_of app (l1 ++ c :: l2) -> t ∈ call_in c -> t ∉ fx_builtin ->
  exists p, Construct p ∈ l1 /\ pv_out p = t.
Proof.
  intros Hst Ht Hnb. destruct Hst as [Ho _ _ _]. rewrite ordered_app in Ho. apply andb_prop in Ho as [_ Ho]. simpl in Ho.
  apply andb_prop in Ho as [Ho _]. rewrite forallb_forall in Ho. specialize (Ho t (proj1 (list_elem_of_In _ _) Ht)).
  apply bool_decide_eq_true in Ho. rewrite elem_of_app, elem_of_reverse in Ho. destruct Ho as [Ho|]; [|done].
  unfold outs, constructors in Ho. apply list_elem_of_fmap in Ho as (p & -> & Hp). apply list_elem_of_omap in Hp as ([p'|i] & Hin & Hp); [|done].
  injection Hp as ->. by exists p.
Qed.

Lemma provider_of_type (ps : list provider) p q : once ps -> p ∈ ps -> q ∈ ps -> pv_out p = pv_out q -> p = q.
Proof.
  intros Hnd (i & Hi)%list_elem_of_lookup (j & Hj)%list_elem_of_lookup Heq.
  assert (i = j) as ->; [|congruence]. eapply NoDup_lookup; [exact Hnd| |]; rewrite list_lookup_fmap; [by rewrite Hi|by rewrite Hj, Heq].
Qed.

Lemma used_before app c p l1 l2 ts :
  once (fx_Provide app) -> p ∈ fx_Provide app -> pv_out p ∉ fx_builtin -> start_of app (l1 ++ c :: l2) ->
  (forall t, t ∈ ts -> t ∈ call_in c) -> uses (fx_Provide app) p ts -> Construct p ∈ l1.
Proof.
  intros Honce Hp Hnb Hst Hsub Huse. revert c l1 l2 Hst Hsub.
  assert (Hof : forall l1 c l2 q, start_of app (l1 ++ c :: l2) -> q ∈ fx_Provide app -> pv_out q ∉ fx_builtin -> pv_out q ∈ call_in c -> Construct q ∈ l1).
  { intros l1 c l2 q Hst Hq Hqnb Hin. destruct (constructed_before app l1 c l2 _ Hst Hin Hqnb) as (q' & Hq' & Hout).
    enough (q' = q) as ->; [done|]. eapply provider_of_type; [exact Honce| |done|done].
    apply (st_constructors _ _ Hst). unfold constructors. apply list_elem_of_omap. exists (Construct q'). split; [|done].
    apply elem_of_app. by left. }
  induction Huse as [ts Hd|q ts Hq Hin Hqnb _ IH]; intros c l1 l2 Hst Hsub; [by eapply Hof; [exact Hst|..|apply Hsub]|].
  assert (Hql : Construct q ∈ l1) by (by eapply Hof; [exact Hst|..|apply Hsub]).
  apply list_elem_of_split in Hql as (a & b & ->). apply elem_of_app. left. rewrite <- app_assoc in Hst. simpl in Hst.
  by eapply IH; [exact Hst|].
Qed.

Lemma before_filter {A} (P : A -> Prop) `{forall x, Decision (P x)} (l : list A) a b : P a -> P b -> before l a b -> before (filter P l) a b.
Proof.
  intros Ha Hb (l1 & l2 & l3 & ->). exists (filter P l1), (filter P l2), (filter P l3).
  by rewrite filter_app, filter_cons_True, filter_app, filter_cons_True.
Qed.

Lemma before_reverse {A} (l : list A) a b : before l a b -> before (reverse l) b a.
Proof.
  intros (l1 & l2 & l3 & ->). exists (reverse l3), (reverse l2), (reverse l1).
  by rewrite reverse_app, reverse_cons, reverse_app, reverse_cons, <- !app_assoc.
Qed.

Lemma stopped_before calls a b : call_hook a = true -> call_hook b = true -> before calls a b -> before (stopped calls) b a.
Proof. intros Ha Hb Hbef. by apply before_reverse, before_filter. Qed.

(** Invoked functions run in their order. *)
Lemma before_invoked calls i j : before (invoked calls) i j -> before calls (CallInvoke i) (CallInvoke j).
Proof.
  intros (l1 & l2 & l3 & Heq). revert l1 Heq. induction calls as [|[p|k] calls IH]; intros l1 Heq; [by destruct l1| |].
  - destruct (IH l1 Heq) as (a & b & c & ->). by exists (Construct p :: a), b, c.
  - unfold invoked in Heq. csimpl. destruct l1 as [|k' l1]; simpl in Heq; injection Heq as -> Heq.
    + change (invoked calls = l2 ++ j :: l3) in Heq. assert (Hj : j ∈ invoked calls) by (rewrite Heq; set_solver).
      apply list_elem_of_omap in Hj as ([p|j'] & Hin & Hj); [done|injection Hj as ->].
      apply list_elem_of_split in Hin as (b & c & ->). by exists [], b, c.
    + destruct (IH l1 Heq) as (a & b & c & ->). by exists (CallInvoke k' :: a), b, c.
Qed.

Lemma users_stop_first app calls c p :
  once (fx_Provide app) -> start_of app calls -> c ∈ calls -> call_hook c = true ->
  p ∈ fx_Provide app -> pv_hook p = true -> pv_out p ∉ fx_builtin -> uses (fx_Provide app) p (call_in c) ->
  before (stopped calls) c (Construct p).
Proof.
  intros Honce Hst Hc Hh Hp Hph Hnb Huse. apply list_elem_of_split in Hc as (l1 & l2 & ->).
  assert (Hin : Construct p ∈ l1) by (by eapply used_before; [..|exact Huse]).
  apply stopped_before; [done|done|]. apply list_elem_of_split in Hin as (a & b & ->). exists a, b, l2. by rewrite <- app_assoc.
Qed.

Lemma invoked_stop_reversed app calls i j :
  start_of app calls -> before (fx_Invoke app) i j -> iv_hook i = true -> iv_hook j = true ->
  before (stopped calls) (CallInvoke j) (CallInvoke i).
Proof. intros Hst Hb Hi Hj. apply stopped_before; [done|done|]. apply before_invoked. by rewrite (st_invoked _ _ Hst). Qed.

Lemma before_lookup {A} (l : list A) i j a b : l !! i = Some a -> l !! j = Some b -> (i < j)%nat -> before l a b.
Proof.
  intros Hi Hj Hlt. apply list_elem_of_split_length in Hi as (l1 & l2 & -> & Hlen). rewrite lookup_app_r in Hj by lia.
  replace (j - length l1)%nat with (S (j - length l1 - 1)) in Hj by lia. simpl in Hj. apply list_elem_of_lookup_2 in Hj.
  apply list_elem_of_split in Hj as (l3 & l4 & ->). by exists l1, l3, l4.
Qed.

Lemma invoked_in_calls app calls i : start_of app calls -> i ∈ fx_Invoke app -> CallInvoke i ∈ calls.
Proof.
  intros Hst. rewrite <- (st_invoked _ _ Hst). intros ([p|i'] & Hin & Hi)%list_elem_of_omap; [done|]. by injection Hi as ->.
Qed.

(** The invoked functions by their name, the hooked constructors by their type. *)
Definition invoked_as (app : fx_options) (name : string) : option invocation := list_find (fun i => iv_name i = name) (fx_Invoke app) ≫= fun r => Some r.2.
Definition provider_as (app : fx_options) (t : string) : option provider := list_find (fun p => pv_out p = t) (fx_Provide app) ≫= fun r => Some r.2.

(** [a] stops before [b] in every run of the application. *)
Definition always_before (app : fx_options) (a b : option call) : Prop :=
  exists x y, a = Some x /\ b = Some y /\ forall calls, start_of app calls -> before (stopped calls) x y.

Definition user_of (app : fx_options) (name t : string) : bool :=
  match invoked_as app name, provider_as app t with
  | Some i, Some p =>
      iv_hook i && pv_hook p && bool_decide (once (fx_Provide app)) && bool_decide (pv_out p ∉ fx_builtin) &&
      uses_b (S (length (fx_Provide app))) (fx_Provide app) p (iv_in i)
  | _, _ => false
  end.

Definition given_before (app : fx_options) (name name' : string) : bool :=
  match list_find (fun i => iv_name i = name) (fx_Invoke app), list_find (fun i => iv_name i = name') (fx_Invoke app) with
  | Some (n, i), Some (n', j) => iv_hook i && iv_hook j && (n <? n')%nat
  | _, _ => false
  end.

Lemma user_of_sound app name t : user_of app name t = true -> always_before app (CallInvoke <$> invoked_as app name) (Construct <$> provider_as app t).
Proof.
  unfold user_of, invoked_as, provider_as, always_before. destruct (list_find _ (fx_Invoke app)) as [[n i]|] eqn:Hi; [|done].
  destruct (list_find _ (fx_Provide app)) as [[m p]|] eqn:Hp; [|done]. cbn [mbind option_bind fmap option_fmap snd].
  intros [[[[Hih Hph]%andb_prop Ho%bool_decide_eq_true]%andb_prop Hnb%bool_decide_eq_true]%andb_prop Hu%uses_b_sound]%andb_prop.
  apply list_find_Some in Hi as (Hi & _ & _). apply list_find_Some in Hp as (Hp & _ & _).
  apply list_elem_of_lookup_2 in Hi, Hp. do 2 eexists. split_and!; [done..|]. intros calls Hst.
  eapply users_stop_first; [done|exact Hst|by eapply invoked_in_calls|done..].
Qed.

Lemma given_before_sound app name name' :
  given_before app name name' = true -> always_before app (CallInvoke <$> invoked_as app name') (CallInvoke <$> invoked_as app name).
Proof.
  unfold given_before, invoked_as, always_before. destruct (list_find _ (fx_Invoke app)) as [[n i]|] eqn:Hi; [|done].
  destruct (list_find (fun i => iv_name i = name') (fx_Invoke app)) as [[m j]|] eqn:Hj; [|done]. simpl.
  intros [[Hih Hjh]%andb_prop Hlt%Nat.ltb_lt]%andb_prop.
  apply list_find_Some in Hi as (Hi & _ & _). apply list_find_Some in Hj as (Hj & _ & _).
  do 2 eexists. split_and!; [done..|]. intros calls Hst. eapply invoked_stop_reversed; [exact Hst| |done|done].
  by eapply before_lookup.
Qed.

(** An application with its gRPC server running starts, and its hooks stop as the lists
    say: each pair of invoked functions, and each invoked function with a constructor. *)
Definition stops_in_order (app : fx_options) (invokes : list (string * string)) (made : list (string * string)) : Prop :=
  (exists calls, start_of app calls) /\
  Forall (fun x => always_before app (CallInvoke <$> invoked_as app x.1) (CallInvoke <$> invoked_as app x.2)) invokes /\
  Forall (fun x => always_before app (CallInvoke <$> invoked_as app x.1) (Construct <$> provider_as app x.2)) made.

Lemma stops_in_order_sound app invokes made :
  starts app = true -> forallb (fun x => given_before app x.2 x.1) invokes = true -> forallb (fun x => user_of app x.1 x.2) made = true ->
  stops_in_order app invokes made.
Proof.
  rewrite !forallb_forall. intros Hs Hi Hm. split_and!.
  - by apply startable_has_start, starts_sound.
  - apply Forall_forall. intros x Hx%list_elem_of_In. by apply given_before_sound, Hi.
  - apply Forall_forall. intros x Hx%list_elem_of_In. by apply user_of_sound, Hm.
Qed.

(** The ports matter only for whether the server has a hook. *)
Lemma GRPCServer_ports ports : (ports.1 =? 0) && (ports.2 =? 0) = false -> GRPCServer ports.1 ports.2 = GRPCServer 1 1.
Proof. intros Hp. unfold GRPCServer. by rewrite Hp. Qed.

Ltac stops Hports :=
  unfold inventory_app, order_app, catalog_app, analytics_app, notification_app, GRPCService; rewrite (GRPCServer_ports _ Hports);
  apply stops_in_order_sound; vm_compute; reflexivity.



(** Two hooks close too early.  payment-service closes its DLQ producer, and
    analytics-service (with the constructor it lacks) flushes its buffer, while the gRPC
    server and the consumer that feed them still run. *)
Theorem early_closers ports :
  let pay := payment_app ports in
  let ana := fx_Options [analytics_app ports; processor] in
  (ports.1 =? 0) && (ports.2 =? 0) = false ->
  always_before pay (CallInvoke <$> invoked_as pay "dlq close") (CallInvoke <$> invoked_as pay "grpc server") /\
  always_before ana (CallInvoke <$> invoked_as ana "flush") (CallInvoke <$> invoked_as ana "kafka consumer") /\
  always_before ana (CallInvoke <$> invoked_as ana "flush") (CallInvoke <$> invoked_as ana "grpc server").
Proof.
  intros pay ana Hports. split_and!; apply given_before_sound.
  - unfold pay, payment_app, GRPCService, GRPCServer. simpl. by rewrite Hports.
  - by vm_compute.
  - unfold ana, analytics_app, GRPCService, GRPCServer. simpl. by rewrite Hports.
Qed.
