(* ===== verification/Startup.v ===== *)
(** * From main to a serving process

    [pkg/app] ([Run] and [RunService]), [pkg/logger], the tracer provider of
    [pkg/tracing], [StartService] of [pkg/server], the pool and client of
    [pkg/postgres] and [pkg/redis], the consumer configuration of
    [pkg/fxmodules/kafka_consumer.go], and the main functions of the seven services,
    over their [Load] functions and fx applications. *)
From S2P Require Import Prelude Errors Effects Payment Kafka Analytics Transport Lifecycle EnvConfig Wiring.

(** ** pkg/logger *)

Inductive ZapLevel := DebugLevel | InfoLevel | WarnLevel | ErrorLevel.
Inductive ZapEncoder := ConsoleEncoder | JSONEncoder.
Record ZapLogger := MkZap { zl_level : ZapLevel; zl_encoder : ZapEncoder }.

Definition logger_New (level format : string) : error + ZapLogger :=
  let lvl :=
    if bool_decide (level = "debug") then DebugLevel
    else if bool_decide (level = "info") then InfoLevel
    else if bool_decide (level = "warn") then WarnLevel
    else if bool_decide (level = "error") then ErrorLevel
    else InfoLevel in
  let encoder := if bool_decide (format = "console") then ConsoleEncoder else JSONEncoder in
  inr (MkZap lvl encoder).

(** ** pkg/server: StartService *)

Section StartService.
Context `{T : TLSLib} {Interceptor : Type}.

Record ServiceConfig := MkServiceConfig { sc_GRPCPort : Z; sc_MetricsPort : Z; sc_CertPath : string }.

(** [grpc.ServerOption]. *)
Inductive ServerOption := ChainUnary (ics : list Interceptor) | Creds (c : Credentials).

(** The gRPC server: its options, and the services registered on it in order; the
    status that its health service gives to the empty name. *)
Record GrpcServer := MkGrpc { gs_Port : Z; gs_opts : list ServerOption; gs_services : list string; gs_serving : bool }.

Record HttpServer := MkHttp { hs_Addr : string; hs_paths : list string; hs_ReadTimeout : Z; hs_WriteTimeout : Z }.

Definition NewGRPCWithLogger (port : Z) (opts : list ServerOption) : GrpcServer := MkGrpc port opts [] false.

Definition NewHTTPWithLogger (paths : list string) (port : Z) : HttpServer :=
  MkHttp (":" +:+ pretty port) paths (5 * second) (10 * second).

Definition RegisterService (name : string) (s : GrpcServer) : GrpcServer :=
  MkGrpc (gs_Port s) (gs_opts s) (gs_services s ++ [name]) (gs_serving s).

Definition StartService (cfg : ServiceConfig) (register : GrpcServer -> GrpcServer) (interceptors : list Interceptor) :
    error + (GrpcServer * HttpServer) :=
  let opts := if bool_decide (interceptors = []) then [] else [ChainUnary interceptors] in
  let build opts :=
    let grpcServer := RegisterService "grpc.health.v1.Health" (NewGRPCWithLogger (sc_GRPCPort cfg) opts) in
    let grpcServer := MkGrpc (gs_Port grpcServer) (gs_opts grpcServer) (gs_services grpcServer) true in
    (register grpcServer, NewHTTPWithLogger ["/metrics"] (sc_MetricsPort cfg)) in
  if bool_decide (sc_CertPath cfg = "") then inr (build opts)
  else match LoadServerMTLSCredentials (sc_CertPath cfg, "server-cert.pem") (sc_CertPath cfg, "server-key.pem") (sc_CertPath cfg, "ca-cert.pem") with
       | inl err => inl (wrapf "load tls credentials" err)
       | inr tlsOpt => inr (build (opts ++ [Creds tlsOpt]))
       end.
End StartService.
Arguments ServerOption : clear implicits.
Arguments GrpcServer : clear implicits.

(** ** The process *)

(** How a process ends: [os.Exit], which [log.Fatal] calls too and which skips the
    deferred calls, or the return of [main]. *)
Inductive ending := Exited (code : Z) | Returned.

(** The global tracer provider and whether it was shut down, the application that was
    started, what was written to stderr and to the log. *)
Record ProcessSt := MkProcess {
  pr_tracer : option string; pr_tracer_down : bool; pr_started : option fx_options; pr_stderr : list string; pr_log : list string
}.

Definition fresh_process : ProcessSt := MkProcess None false None [] [].

Section Process.
Context `{U : UuidLib}.

Definition note (f : ProcessSt -> ProcessSt) : M ProcessSt unit := fun _ w => (inr tt, World (w_tick w) (f (w_st w))).

Definition to_stderr (line : string) : M ProcessSt unit :=
  note (fun s => MkProcess (pr_tracer s) (pr_tracer_down s) (pr_started s) (pr_stderr s ++ [line]) (pr_log s)).

Definition to_log (line : string) : M ProcessSt unit :=
  note (fun s => MkProcess (pr_tracer s) (pr_tracer_down s) (pr_started s) (pr_stderr s) (pr_log s ++ [line])).

(** A call of a library that talks to the outside. *)
Definition outside : M ProcessSt unit := io (fun s => (inr tt, s)).

(** The exporter, then the provider with the resource of the service, set globally. *)
Definition InitTracer (serviceName : string) : M ProcessSt string :=
  do* wrap_err (wrapf "create otlp trace exporter") outside in
  do* note (fun s => MkProcess (Some serviceName) (pr_tracer_down s) (pr_started s) (pr_stderr s) (pr_log s)) in
  ret serviceName.

Definition ShutdownTracer (tp : option string) : M ProcessSt unit :=
  match tp with
  | None => ret tt
  | Some _ => io (fun s => (inr tt, MkProcess (pr_tracer s) true (pr_started s) (pr_stderr s) (pr_log s)))
  end.

(** [fx.App.Run]: an application whose constructors cannot be resolved, or whose start
    fails, exits with 1; a started one runs until a signal and is then stopped. *)
Definition fx_Run (app : fx_options) : M ProcessSt ending :=
  if starts app then
    let* r := attempt outside in
    match r with
    | inl _ => ret (Exited 1)
    | inr _ =>
        do* note (fun s => MkProcess (pr_tracer s) (pr_tracer_down s) (Some app) (pr_stderr s) (pr_log s)) in
        let* r := attempt outside in
        match r with inl _ => ret (Exited 1) | inr _ => ret Returned end
    end
  else ret (Exited 1).

Context {Cfg : Type}.

(** The tracer's shutdown is deferred: it runs when the function returns. *)
Definition Run (serviceName : string) (loadConfig : cfg_err + Cfg) (base : Cfg -> Base) (buildApp : Cfg -> error + fx_options) : M ProcessSt ending :=
  match loadConfig with
  | inl _ => do* to_stderr "load config" in ret (Exited 1)
  | inr cfg =>
      match logger_New (ba_LogLevel (base cfg)) (ba_LogFormat (base cfg)) with
      | inl _ => do* to_stderr "init logger" in ret (Exited 1)
      | inr _ =>
          let* tp := attempt (InitTracer serviceName) in
          match tp with
          | inl _ => do* to_log "init tracer" in ret (Exited 1)
          | inr tp =>
              match buildApp cfg with
              | inl _ => do* to_log "build application" in ret (Exited 1)
              | inr application =>
                  let* out := fx_Run application in
                  match out with
                  | Exited code => ret (Exited code)
                  | Returned =>
                      let* r := attempt (ShutdownTracer (Some tp)) in
                      match r with
                      | inl _ => do* to_log "shutdown tracer" in ret Returned
                      | inr _ => ret Returned
                      end
                  end
              end
          end
      end
  end.

Definition RunService (serviceName : string) (loadConfig : cfg_err + Cfg) (base : Cfg -> Base) (buildApp : Cfg -> fx_options) : M ProcessSt ending :=
  Run serviceName loadConfig base (fun cfg => inr (buildApp cfg)).
End Process.

(** ** cmd/main.go of the services *)

Section Mains.
Context `{U : UuidLib} (ParseDuration : string -> option Z) (pg_ParseConfig : string -> option string) (ParseAddress : string -> bool).

Definition ports_of (s : ServerBase) : Z * Z := (sb_GRPCPort s, sb_MetricsPort s).

Definition user_main (env : Environ) : M ProcessSt ending :=
  RunService "user-service" (user_Load ParseDuration pg_ParseConfig env) uc_Base (fun c => user_app (ports_of (uc_Server c))).
Definition inventory_main (env : Environ) : M ProcessSt ending :=
  RunService "inventory-service" (inventory_Load ParseDuration pg_ParseConfig env) ic_Base (fun c => inventory_app (ports_of (ic_Server c))).
Definition payment_main (env : Environ) : M ProcessSt ending :=
  RunService "payment-service" (payment_Load ParseDuration pg_ParseConfig env) pc_Base (fun c => payment_app (ports_of (pc_Server c))).
Definition order_main (env : Environ) : M ProcessSt ending :=
  RunService "order-service" (order_Load ParseDuration pg_ParseConfig env) oc_Base (fun c => order_app (ports_of (oc_Server c))).
Definition catalog_main (env : Environ) : M ProcessSt ending :=
  RunService "catalog-service" (catalog_Load ParseDuration pg_ParseConfig env) cc_Base (fun c => catalog_app (ports_of (cc_Server c))).
Definition analytics_main (env : Environ) : M ProcessSt ending :=
  RunService "analytics-service" (analytics_Load ParseDuration env) ac_Base (fun c => analytics_app (ports_of (ac_Server c))).
Definition notification_main (env : Environ) : M ProcessSt ending :=
  RunService "notification-service" (notification_Load ParseDuration ParseAddress env) nc_Base (fun c => notification_app (ports_of (nc_Server c))).
End Mains.

(** ** What a process does *)

Section ProcessFacts.
Context `{U : UuidLib}.
Implicit Types (o : oracle) (w : world ProcessSt).

(** The two ways a process ends, and what they leave behind: [ran] is the application
    that was started. *)
Definition ended (serviceName : string) (app : option fx_options) (r : (error + ending) * world ProcessSt) : Prop :=
  match r with
  | (inr Returned, w') => pr_started (w_st w') = app /\ app <> None /\ pr_tracer (w_st w') = Some serviceName
  | (inr (Exited code), w') =>
      code = 1 /\ pr_tracer_down (w_st w') = false /\ (pr_started (w_st w') = None \/ pr_started (w_st w') = app)
  | (inl _, _) => False
  end.

Lemma outside_keeps o w : w_st (outside o w).2 = w_st w.
Proof. unfold outside, io. by destruct (o_fault o (w_tick w)). Qed.

Lemma outside_fine o w : no_faults o -> exists w', outside o w = (inr tt, w') /\ w_st w' = w_st w.
Proof. intros [Hf _]. unfold outside, io. rewrite Hf. by eexists. Qed.

(** The application starts only when its constructors resolve; it ends the process
    with 1 when the start or the stop fails. *)
Lemma fx_Run_ends app o w :
  pr_started (w_st w) = None -> pr_tracer_down (w_st w) = false ->
  exists out w', fx_Run app o w = (inr out, w') /\ pr_tracer (w_st w') = pr_tracer (w_st w) /\ pr_tracer_down (w_st w') = false /\
    match out with
    | Returned => starts app = true /\ pr_started (w_st w') = Some app
    | Exited code => code = 1 /\ (pr_started (w_st w') = None \/ starts app = true /\ pr_started (w_st w') = Some app)
    end.
Proof.
  intros Hs Hd. unfold fx_Run. destruct (starts app) eqn:Ha; [|exists (Exited 1), w; split_and!; eauto].
  unfold bind, attempt, ret, note. pose proof (outside_keeps o w) as Hk. destruct (outside o w) as [[e|[]] w1]; simpl in Hk.
  { exists (Exited 1), w1. rewrite Hk. split_and!; eauto. }
  match goal with |- context [outside o ?v] => pose proof (outside_keeps o v) as Hk2; destruct (outside o v) as [[e|[]] w2] end;
    simpl in Hk2.
  - exists (Exited 1), w2. rewrite Hk2, Hk. simpl. split_and!; eauto.
  - exists Returned, w2. rewrite Hk2, Hk. simpl. split_and!; eauto.
Qed.

Lemma fx_Run_fine app o w :
  no_faults o -> starts app = true -> pr_started (w_st w) = None -> pr_tracer_down (w_st w) = false ->
  exists w', fx_Run app o w = (inr Returned, w').
Proof.
  intros Ho Ha Hs Hd. unfold fx_Run. rewrite Ha. unfold bind, attempt, ret, note.
  destruct (outside_fine o w Ho) as (w1 & -> & _). edestruct (outside_fine o) as (w2 & -> & _); [done|]. by exists w2.
Qed.

Context {Cfg : Type} (serviceName : string) (loadConfig : cfg_err + Cfg) (base : Cfg -> Base) (buildApp : Cfg -> error + fx_options).

Definition main_run o : (error + ending) * world ProcessSt := Run serviceName loadConfig base buildApp o (World 0 fresh_process).

(** The application a process may serve: that of the accepted configuration, when it
    can be built and resolved. *)
Definition servable : option fx_options :=
  match loadConfig with
  | inl _ => None
  | inr cfg => match buildApp cfg with inl _ => None | inr app => if starts app then Some app else None end
  end.

Lemma Run_ends o : ended serviceName servable (main_run o).
Proof.
  unfold main_run, Run, servable. destruct loadConfig as [e|cfg]; [simpl; by split_and!; [..|left]|].
  destruct (logger_New _ _) as [le|lg] eqn:Hlg; [done|].
  unfold InitTracer, wrap_err, to_log, to_stderr, note, attempt, bind, ret.
  destruct (outside o (World 0 fresh_process)) as [[e|[]] w1] eqn:Ho; pose proof (outside_keeps o (World 0 fresh_process)) as Hk;
    rewrite Ho in Hk; simpl in Hk; simpl; [rewrite Hk; simpl; by split_and!; [..|left]|].
  rewrite Hk. simpl. destruct (buildApp cfg) as [e|app]; [simpl; by split_and!; [..|left]|].
  destruct (fx_Run_ends app o (World (w_tick w1) (MkProcess (Some serviceName) false None [] []))) as (out & w2 & -> & Htr & Hd & Hout); [done|done|].
  destruct out as [code|]; simpl.
  - destruct Hout as [-> [Hn|[-> Hs]]]; split_and!; [done|done|by left|done|done|by right].
  - destruct Hout as [-> Hs]. unfold io. destruct (o_fault o (w_tick w2)); simpl; by rewrite Hs, Htr.
Qed.

Lemma Run_fine o app : no_faults o -> servable = Some app ->
  exists w', main_run o = (inr Returned, w') /\ pr_started (w_st w') = Some app /\ pr_tracer_down (w_st w') = true.
Proof.
  intros Ho Hsv. pose proof (Run_ends o) as Hend. unfold main_run, Run, servable in *. destruct loadConfig as [e|cfg]; [done|].
  destruct (buildApp cfg) as [e|app']; [done|]. destruct (starts app') eqn:Ha; [|done]. injection Hsv as ->.
  destruct (logger_New _ _) as [le|lg] eqn:Hlg; [done|].
  unfold InitTracer, wrap_err, to_log, to_stderr, note, attempt, bind, ret in *. 
  destruct (outside_fine o (World 0 fresh_process) Ho) as (w1 & Hw1 & Hk). rewrite Hw1 in *. simpl in *. rewrite Hk in *. simpl in *.
  destruct (fx_Run_fine app o (World (w_tick w1) (MkProcess (Some serviceName) false None [] []))) as [w2 Hw2]; [done..|].
  rewrite Hw2 in *. unfold io in *. destruct Ho as [Hf _]. rewrite Hf in *. simpl in *. eexists. split; [done|]. simpl. by split; [apply Hend|].
Qed.

(** The life of a process.  Whatever the environment does, [main] ends: with code 1, its
    spans never flushed, or by returning, and then it has served the application that
    its configuration builds.  It serves only an application whose configuration was
    accepted and whose constructors resolve; with those and no failure it serves, and
    returns with its tracer shut down. *)
Theorem Run_outcome :
  (forall o, ended serviceName servable (main_run o)) /\
  (forall app, servable = Some app <->
     exists cfg, loadConfig = inr cfg /\ buildApp cfg = inr app /\ startable app) /\
  (forall o app, no_faults o -> servable = Some app ->
     exists w', main_run o = (inr Returned, w') /\ pr_started (w_st w') = Some app /\ pr_tracer_down (w_st w') = true).
Proof.
  split_and!; [apply Run_ends| |apply Run_fine]. intros app. unfold servable. split.
  - destruct loadConfig as [e|cfg]; [done|]. destruct (buildApp cfg) as [e|app'] eqn:Hb; [done|].
    destruct (starts app') eqn:Ha; [|done]. intros [= ->]. exists cfg. by split_and!; [..|apply starts_sound].
  - intros (cfg & -> & -> & Hs%starts_complete). by rewrite Hs.
Qed.
End ProcessFacts.

(** *** The fleet *)

Section Fleet.
Context `{U : UuidLib} (ParseDuration : string -> option Z) (pg_ParseConfig : string -> option string) (ParseAddress : string -> bool).
Implicit Types (o : oracle).

(** The process exits with 1 and has started nothing. *)
Definition dies (main : M ProcessSt ending) o : Prop :=
  exists w', main o (World 0 fresh_process) = (inr (Exited 1), w') /\ pr_started (w_st w') = None.

Definition serves (main : M ProcessSt ending) (app : fx_options) o : Prop :=
  exists w', main o (World 0 fresh_process) = (inr Returned, w') /\ pr_started (w_st w') = Some app.

Lemma unresolved_dies {Cfg} name (load : cfg_err + Cfg) base (build : Cfg -> fx_options) o :
  (forall c, starts (build c) = false) -> dies (RunService name load base build) o.
Proof.
  intros Hno. pose proof (Run_ends name load base (fun c => inr (build c)) o) as Hend.
  assert (Hs : servable load (fun c => inr (build c)) = None) by (unfold servable; destruct load; by rewrite ?Hno).
  rewrite Hs in Hend. unfold main_run, ended in Hend. unfold dies, RunService.
  destruct (Run _ _ _ _ o _) as [[e|[code|]] w']; [done| |by destruct Hend as (_ & ? & _)].
  destruct Hend as (-> & _ & [H|H]); by exists w'.
Qed.

Lemma resolved_serves {Cfg} name (load : cfg_err + Cfg) base (build : Cfg -> fx_options) cfg o :
  load = inr cfg -> starts (build cfg) = true -> no_faults o -> serves (RunService name load base build) (build cfg) o.
Proof.
  intros Hl Hst Ho. destruct (Run_fine name load base (fun c => inr (build c)) o (build cfg) Ho) as (w' & Hr & Hs & _).
  - unfold servable. by rewrite Hl, Hst.
  - by exists w'.
Qed.

Lemma blocked_starts app : blocked_args app <> [] -> starts app = false.
Proof. intros Hb%blocked_args_sound. destruct (starts app) eqn:Hs; [|done]. by apply starts_sound in Hs. Qed.

(** C21. The fleet.  For every environment and whatever happens outside, order-, catalog-,
    analytics- and notification-service exit with code 1 before anything is started.
    user-, inventory- and payment-service serve as soon as their configuration is
    accepted and nothing fails. *)
Theorem fleet_outcomes (env : Environ) o :
  dies (order_main ParseDuration pg_ParseConfig env) o /\ dies (catalog_main ParseDuration pg_ParseConfig env) o /\
  dies (analytics_main ParseDuration env) o /\ dies (notification_main ParseDuration ParseAddress env) o /\
  (no_faults o ->
   (forall c, user_Load ParseDuration pg_ParseConfig env = inr c -> serves (user_main ParseDuration pg_ParseConfig env) (user_app (ports_of (uc_Server c))) o) /\
   (forall c, inventory_Load ParseDuration pg_ParseConfig env = inr c -> serves (inventory_main ParseDuration pg_ParseConfig env) (inventory_app (ports_of (ic_Server c))) o) /\
   (forall c, payment_Load ParseDuration pg_ParseConfig env = inr c -> serves (payment_main ParseDuration pg_ParseConfig env) (payment_app (ports_of (pc_Server c))) o)).
Proof.
  split_and!; [by apply unresolved_dies; intros c; apply blocked_starts; vm_compute..|].
  intros Ho. split_and!; intros c Hc.
  - by apply (resolved_serves _ _ _ (fun c => user_app (ports_of (uc_Server c)))); [|vm_compute|].
  - by apply (resolved_serves _ _ _ (fun c => inventory_app (ports_of (ic_Server c)))); [|vm_compute|].
  - by apply (resolved_serves _ _ _ (fun c => payment_app (ports_of (pc_Server c)))); [|vm_compute|].
Qed.
End Fleet.

Section FleetSample.
#[local] Existing Instance uuid_text.

Lemma fleet_outcomes_witness :
  dies (order_main (fun _ => None) (fun _ => None) sample_env) loop_oracle /\
  exists c, serves (user_main (fun _ => None) (fun _ => None) sample_env) (user_app (ports_of (uc_Server c))) loop_oracle.
Proof.
  destruct (fleet_outcomes (fun _ => None) (fun _ => None) (fun _ => true) sample_env loop_oracle) as (Ho & _ & _ & _ & Hs).
  split; [exact Ho|]. destruct (Hs (conj (fun _ => eq_refl) (fun _ => eq_refl))) as [Hu _].
  destruct (user_Load (fun _ => None) (fun _ => None) sample_env) as [e|c] eqn:Hl; [vm_compute in Hl; discriminate|].
  exists c. by apply Hu.
Defined.
End FleetSample.

(** ** pkg/fxmodules/kafka_consumer.go *)

Definition defaultIfZero (v d : Z) : Z := if v =? 0 then d else v.

Record KafkaConsumerConfig := MkKafkaCC {
  GetKafkaBrokers : list string; GetKafkaConsumerGroup : string; GetKafkaTopics : list string; GetKafkaDLQTopic : string;
  GetKafkaMaxRetries : Z; GetKafkaInitialBackoff : Z; GetKafkaProcessTimeout : Z
}.

Definition millisecond : Z := 10 ^ 6.

Definition analytics_kafka (c : AnalyticsConfig) : KafkaConsumerConfig :=
  MkKafkaCC (ac_KafkaBrokers c) (ac_KafkaGroup c) (ac_KafkaTopics c) "" 3 (100 * millisecond) (10 * second).

Definition notification_kafka (c : NotificationConfig) : KafkaConsumerConfig :=
  MkKafkaCC (nc_KafkaBrokers c) (nc_KafkaGroup c) (nc_KafkaTopics c) (nc_DLQTopic c) 2 (50 * millisecond) (10 * second).

(** The two fields that the module does not set are Go's zero values. *)
Definition consumer_config (cfg : KafkaConsumerConfig) (isPermanent : option (error -> bool)) : Kafka.Config :=
  MkConfig (GetKafkaConsumerGroup cfg) (GetKafkaTopics cfg) (GetKafkaDLQTopic cfg) "" 0
    (defaultIfZero (GetKafkaMaxRetries cfg) 3)
    (defaultIfZero (GetKafkaInitialBackoff cfg) (100 * millisecond))
    (defaultIfZero (GetKafkaProcessTimeout cfg) (10 * second)) isPermanent.

Definition provide_consumer `{U : UuidLib} {S} (cfg : KafkaConsumerConfig) (isPermanent : option (error -> bool)) : M S Consumer :=
  NewConsumer (GetKafkaBrokers cfg) (consumer_config cfg isPermanent).

Section ConsumerOfServices.
Context `{U : UuidLib} {S : Type}.
Implicit Types (o : oracle) (w : world S).

(** With no failure outside, a consumer whose configuration leaves the strategy to its
    default is built, with a dead-letter producer exactly when it has a topic for it. *)
Lemma provide_consumer_fine cfg isPermanent o w :
  no_faults o -> GetKafkaBrokers cfg <> [] ->
  exists w', provide_consumer cfg isPermanent o w =
    (inr (MkConsumer (setDefaults (consumer_config cfg isPermanent)) (negb (bool_decide (GetKafkaDLQTopic cfg = "")))), w').
Proof.
  intros [Hf _] Hb. unfold provide_consumer, NewConsumer, consumer_config, saramaConfig. simpl.
  unfold bind, wrap_err, sarama_connect, io. rewrite Hf. simpl. case_bool_decide; simpl; [by eexists|].
  unfold newDLQProducer. rewrite bool_decide_false; [|by destruct (GetKafkaBrokers cfg)].
  unfold bind, attempt, sarama_connect, io. simpl. rewrite Hf. by eexists.
Qed.
End ConsumerOfServices.

Section AnalyticsConsumer.
#[local] Existing Instance uuid_text.

Definition analytics_sample : AnalyticsConfig :=
  MkAnalyticsCfg (LoadBase (fun _ => None) sample_env) (LoadServerBase sample_env 50057) "ch:9000" "" "" ["k1:9092"] "analytics-service" ["order-events"].

Definition event_at (n : Z) : Message := MkMessage "order-events" 0 n "order" "{}".

(** Refuses the first message: ClickHouse is down. *)
Definition down_once (m : Message) : M unit unit :=
  if bool_decide (m_Offset m = 10) then throw (EPlain "clickhouse: connection refused") else ret tt.

(** The consumer of analytics-service has no dead-letter topic: a message that fails
    all its attempts is neither marked nor dead-lettered, and the mark of the next
    message moves the group past it.  The event is lost. *)
Theorem analytics_loses_refused :
  exists c w, provide_consumer (S := unit) (analytics_kafka analytics_sample) None loop_oracle (World 0 tt) = (inr c, w) /\
    let s := w_st (ConsumeClaim (co_cfg c) (co_dlq c) down_once [event_at 10; event_at 11] loop_oracle (World 0 (MkConsSt [] [] [] tt))).2 in
    k_marked s = [event_at 11] /\ k_dlq s = [] /\ resume_offset 10 s = 12.
Proof.
  destruct (provide_consumer_fine (S := unit) (analytics_kafka analytics_sample) None loop_oracle (World 0 tt)) as [w Hw]; [done|done|].
  eexists _, w. split; [exact Hw|]. by vm_compute.
Qed.
End AnalyticsConsumer.

(** ** pkg/postgres and pkg/redis *)

Record PoolConfig := MkPoolCfg { pl_dsn : string; pl_MaxConns : Z; pl_MinConns : Z; pl_MaxConnLifetime : Z; pl_MaxConnIdleTime : Z }.

Record RedisOptions := MkRedisOpts {
  ro_Addr : string; ro_PoolSize : Z; ro_MinIdleConns : Z; ro_ConnMaxIdleTime : Z; ro_ReadTimeout : Z; ro_WriteTimeout : Z
}.

Section Stores.
Context `{U : UuidLib} (pg_ParseConfig : string -> option string).

(** The pools and clients that are open. *)
Record Open := MkOpen { op_pools : list PoolConfig; op_redis : list RedisOptions }.

Definition NewPool (dsn : string) : M Open PoolConfig :=
  match pg_ParseConfig dsn with
  | Some err => throw (wrapf "parse dsn" (EPlain err))
  | None =>
      let config := MkPoolCfg dsn 20 5 (3600 * second) (1800 * second) in
      do* wrap_err (wrapf "create pool") (io (fun s => (inr tt, MkOpen (config :: op_pools s) (op_redis s)))) in
      do* wrap_err (wrapf "ping") (read (fun _ => inr tt)) in
      ret config
  end.

Definition redis_NewClient (addr : string) : M Open RedisOptions :=
  let opts := MkRedisOpts addr 20 5 (1800 * second) (5 * second) (5 * second) in
  do* (fun _ w => (inr tt, World (w_tick w) (MkOpen (op_pools (w_st w)) (opts :: op_redis (w_st w))))) in
  do* wrap_err (wrapf "ping redis") (read (fun _ => inr tt)) in
  ret opts.
End Stores.

Section StoresFacts.
Context `{U : UuidLib} (pg_ParseConfig : string -> option string).
Implicit Types (o : oracle) (w : world Open).

(** A pool is handed out only for a DSN that parses and a database that answered.  The
    pool of a failed ping is left open. *)
Theorem NewPool_outcome dsn o w :
  let '(r, w') := NewPool pg_ParseConfig dsn o w in
  match r with
  | inr c => pg_ParseConfig dsn = None /\ pl_dsn c = dsn /\ pl_MinConns c <= pl_MaxConns c /\ op_pools (w_st w') = c :: op_pools (w_st w)
  | inl e =>
      (pg_ParseConfig dsn <> None /\ w' = w) \/
      (exists e0, e = wrapf "create pool" e0) \/
      (exists e0 c, e = wrapf "ping" e0 /\ op_pools (w_st w') = c :: op_pools (w_st w))
  end.
Proof.
  unfold NewPool. destruct (pg_ParseConfig dsn) as [err|]; [simpl; left; done|].
  unfold bind, wrap_err, read_with, io. destruct (o_fault o (w_tick w)) eqn:Hf1; simpl; [|by eauto..].
  destruct (o_fault o (S (w_tick w))) eqn:Hf2; simpl; [by split_and!; [..|lia|]|right; right; eauto..].
Qed.
End StoresFacts.

(** ** What StartService sets up *)

Section StartServiceFacts.
Context `{T : TLSLib} {Interceptor : Type}.

Definition chain_of (opts : list (ServerOption Interceptor)) : list Interceptor :=
  concat ((fun o => match o with ChainUnary ics => ics | Creds _ => [] end) <$> opts).

Definition creds_of (opts : list (ServerOption Interceptor)) : Credentials :=
  foldl (fun acc o => match o with ChainUnary _ => acc | Creds c => c end) Insecure opts.

(** A service gets every interceptor in order, the credentials that its certificate
    directory gives (mutual TLS, or plain text without a directory), its health service
    first, already SERVING, and then what [register] adds; it fails only on its
    certificates. *)
Theorem StartService_sets_up cfg (name : string) (ics : list Interceptor) :
  match StartService cfg (RegisterService name) ics, server_creds (sc_CertPath cfg) with
  | inr (g, h), inr c =>
      chain_of (gs_opts g) = ics /\ creds_of (gs_opts g) = c /\ gs_services g = ["grpc.health.v1.Health"; name] /\
      gs_serving g = true /\ gs_Port g = sc_GRPCPort cfg /\ hs_Addr h = ":" +:+ pretty (sc_MetricsPort cfg)
  | inl e, inl e' => e = e'
  | _, _ => False
  end.
Proof.
  unfold StartService, server_creds. case_bool_decide as Hc; [|destruct (LoadServerMTLSCredentials _ _ _) as [e|c]; [done|]];
    case_bool_decide as Hi; subst; unfold chain_of, creds_of; simpl; by rewrite ?app_nil_r.
Qed.
End StartServiceFacts.

(** ** Events after the flush *)

Section AfterFlush.
Context `{U : UuidLib}.
Implicit Types (o : oracle) (w : world AnSt) (e : AnalyticsEvent).

Lemma append_all_keeps events o w : w_st (append_all events o w).2 = w_st w.
Proof.
  revert w. induction events as [|e events IH]; intros w; [done|]. simpl. unfold bind, wrap_err, read_with, io.
  destruct (o_fault o (w_tick w)); simpl; [|done|done]. by rewrite IH.
Qed.

Lemma BatchInsert_keeps_buffer events o w :
  let s' := w_st (BatchInsert events o w).2 in a_buffer s' = a_buffer (w_st w) /\ a_stopped s' = a_stopped (w_st w).
Proof.
  unfold BatchInsert, bind, wrap_err, read_with, io. destruct (o_fault o (w_tick w)); simpl; [|done|done].
  pose proof (append_all_keeps events o (World (S (w_tick w)) (w_st w))) as Hk.
  destruct (append_all events o _) as [[err|u] w1]; simpl in *; [by rewrite Hk|].
  destruct (o_fault o (w_tick w1)); simpl; by rewrite Hk.
Qed.

Lemma flushed_empty o w w1 : uc_Flush o w = (inr tt, w1) -> a_buffer (w_st w1) = [] /\ a_stopped (w_st w1) = true.
Proof.
  unfold uc_Flush, Stop, bind at 1, locked. simpl. destruct (a_stopped (w_st w)); [done|]. unfold Flush, bind at 1, locked, take_buffer. simpl.
  destruct (a_buffer (w_st w)) as [|e es]; [by intros [= <-]|]. unfold bind, attempt.
  match goal with |- context [BatchInsert ?l o ?v] => pose proof (BatchInsert_keeps_buffer l o v) as [Hb Hs]; destruct (BatchInsert l o v) as [[err|u] w2] end; simpl in *; [done|].
  intros [= <-]. by rewrite Hb, Hs.
Qed.

(** Analytics-service flushes its buffer before its consumer is closed
    ([early_closers]).  An event that arrives in between is accepted, and its message
    marked, but it stays in the buffer: no later flush stores it. *)
Theorem event_after_flush_is_lost e o w w1 :
  uc_Flush o w = (inr tt, w1) ->
  exists w2, Add e o w1 = (inr tt, w2) /\ a_buffer (w_st w2) = [e] /\ a_events (w_st w2) = a_events (w_st w1) /\
    forall o', exists err w3, uc_Flush o' w2 = (inl err, w3) /\ a_events (w_st w3) = a_events (w_st w1).
Proof.
  intros [Hb Hs]%flushed_empty. unfold Add, bind, locked, append_event. simpl. rewrite Hb. simpl. eexists. split; [reflexivity|]. simpl.
  split_and!; [done|done|]. intros o'. unfold uc_Flush, Stop, bind, locked. simpl. rewrite Hs. by do 2 eexists.
Qed.
End AfterFlush.

(** ** Other constructors *)

Section Constructors.
Context `{U : UuidLib} {S : Type}.

(** [kafka.NewSyncProducer] connects, or fails. *)
Definition NewSyncProducer (brokers : list string) : M S unit := sarama_connect.

(** dlq.go: a broker that is away leaves a producer whose sends do nothing. *)
Definition dlq_NewProducer (brokers : list string) (topic : string) : M S DLQProducer :=
  let* r := attempt (NewSyncProducer brokers) in
  match r with
  | inl _ => ret (MkDLQProducer false topic)
  | inr _ => ret (MkDLQProducer true topic)
  end.

Definition dlq_NewProducerWithClient (topic : string) : DLQProducer := MkDLQProducer true topic.

Definition dlq_Close (p : option DLQProducer) (producer_Close : M S unit) : M S unit :=
  match p with
  | None => ret tt
  | Some p => if dp_connected p then producer_Close else ret tt
  end.

(** payment-service starts without its broker. *)
Lemma dlq_NewProducer_total brokers topic (o : oracle) (w : world S) :
  exists p w', dlq_NewProducer brokers topic o w = (inr p, w') /\ dp_topic p = topic.
Proof.
  unfold dlq_NewProducer, bind, attempt, NewSyncProducer, sarama_connect, io. destruct (o_fault o (w_tick w)); by do 2 eexists.
Qed.
End Constructors.

(** event_ch.go: the options of the connection, and the repository once the server has
    answered and the migrations ran. *)
Record CHOptions := MkCHOpts { ch_Addr : list string; ch_Auth : option (string * string * string) }.
Record EventRepo := MkEventRepo { er_opts : CHOptions; er_callTimeout : Z; er_queryTimeout : Z }.

Section ClickHouse.
Context `{U : UuidLib}.

Definition NewEventRepo (addr user password : string) (callTimeout queryTimeout : Z) (migrationFS : option (list DirEntry)) : M (list string) EventRepo :=
  let opts := MkCHOpts [addr] (if bool_decide (user = "") then None else Some ("default", user, password)) in
  do* wrap_err (wrapf "clickhouse open") (read (fun _ => inr tt)) in
  do* wrap_err (wrapf "clickhouse ping") (read (fun _ => inr tt)) in
  do* (match migrationFS with
       | None => ret tt
       | Some dir => wrap_err (wrapf "run migrations") (runMigrations dir)
       end) in
  ret (MkEventRepo opts callTimeout queryTimeout).
End ClickHouse.
