(* ===== verification/Deadlines.v ===== *)
(** * Deadlines

    [context.WithTimeout] in the services.  First, what an expired context does to the
    saga: an operation whose context has expired fails before it is sent, and the
    compensation of a failed step runs under the context of the step.  Second, which
    timeouts the constructors of the services end up with, given a configuration that
    [Load] accepts; a timeout that is not positive is a context that has expired when
    it is made. *)
From S2P Require Import Prelude Errors Effects Auth Inventory InventoryFacts Payment OrderDomain OrderRepo Saga SagaFacts System Recovery EnvConfig.

(** ** Operations under an expired context *)

Section Inert.
Context `{U : UuidLib}.
Implicit Types (o : oracle).

(** From tick [t] on, every operation fails before its effect. *)
Definition expired_from o (t : nat) : Prop := forall n, (t <= n)%nat -> exists e, o_fault o n = FBefore e.

(** Under an expired context the operation leaves the stores as they are. *)
Class Inert {S A} (m : M S A) : Prop :=
  inert : forall o w, expired_from o (w_tick w) -> w_st (snd (m o w)) = w_st w /\ (w_tick w <= w_tick (snd (m o w)))%nat.

#[global] Instance inert_ret {S A} (a : A) : Inert (S := S) (ret a).
Proof. by intros o w _. Qed.

#[global] Instance inert_throw {S A} e : Inert (S := S) (A := A) (throw e).
Proof. by intros o w _. Qed.

#[global] Instance inert_bind {S A B} (m : M S A) (k : A -> M S B) : Inert m -> (forall a, Inert (k a)) -> Inert (bind m k).
Proof.
  intros Hm Hk o w Hex. destruct (Hm o w Hex) as [Hst Ht]. unfold bind. destruct (m o w) as [[e|a] w1]; [done|]. simpl in *.
  destruct (Hk a o w1) as [Hst2 Ht2]; [intros n Hn; apply Hex; lia|]. rewrite Hst2. split; [done|lia].
Qed.

#[global] Instance inert_attempt {S A} (m : M S A) : Inert m -> Inert (attempt m).
Proof. intros Hm o w Hex. specialize (Hm o w Hex). unfold attempt. by destruct (m o w). Qed.

#[global] Instance inert_wrap_err {S A} f (m : M S A) : Inert m -> Inert (wrap_err f m).
Proof. intros Hm o w Hex. specialize (Hm o w Hex). unfold wrap_err. by destruct (m o w) as [[|] ?]. Qed.

#[global] Instance inert_if {S A} (b : bool) (m1 m2 : M S A) : Inert m1 -> Inert m2 -> Inert (if b then m1 else m2).
Proof. by destruct b. Qed.

#[global] Instance inert_now {S} : Inert (S := S) now.
Proof. intros o w _. simpl. split; [done|lia]. Qed.

#[global] Instance inert_new_uuid {S} : Inert (S := S) new_uuid.
Proof. intros o w _. simpl. split; [done|lia]. Qed.

#[global] Instance inert_ctx_done {S} : Inert (S := S) ctx_done.
Proof. intros o w _. simpl. split; [done|lia]. Qed.

#[global] Instance inert_io {S A} (f : S -> (error + A) * S) : Inert (io f).
Proof. intros o w Hex. destruct (Hex (w_tick w) ltac:(lia)) as [e He]. unfold io. rewrite He. simpl. split; [done|lia]. Qed.

#[global] Instance inert_read {S A} g (f : S -> error + A) : Inert (read_with g f).
Proof. intros o w Hex. destruct (Hex (w_tick w) ltac:(lia)) as [e He]. unfold read_with. rewrite He. simpl. split; [done|lia]. Qed.

#[global] Instance inert_rpc {S A} (m : M S A) : Inert (rpc m).
Proof. intros o w Hex. destruct (Hex (w_tick w) ltac:(lia)) as [e He]. unfold rpc. rewrite He. simpl. split; [done|lia]. Qed.

#[global] Instance inert_Run {S A} (m : M S A) : Inert (Run m).
Proof. intros o w Hex. destruct (Hex (w_tick w) ltac:(lia)) as [e He]. unfold Run. rewrite He. simpl. split; [done|lia]. Qed.

#[global] Instance inert_zoom {S T A} (l : lens S T) `{!LensLaws l} (m : M T A) : Inert m -> Inert (zoom l m).
Proof.
  intros Hm o w Hex. destruct (Hm o (World (w_tick w) (l_get l (w_st w))) Hex) as [Hst Ht]. unfold zoom.
  destruct (m o _) as [r w1]. simpl in *. rewrite Hst. split; [apply l_put_get|done].
Qed.
End Inert.

(** ** The saga *)

(** A client does not send a call whose context has expired. *)
Class InertClients `{U : UuidLib} (E : Type) {IC : InventoryClient E} {PC : PaymentClient E} : Prop := {
  inert_Reserve :: forall p q oid k, Inert (cl_Reserve p q oid k);
  inert_Release :: forall p q oid k, Inert (cl_Release p q oid k);
  inert_ProcessPayment :: forall oid a k, Inert (cl_ProcessPayment oid a k);
  inert_Refund :: forall pid k, Inert (cl_Refund pid k)
}.

Section SagaDeadline.
Context `{U : UuidLib} {E : Type} {IC : InventoryClient E} {PC : PaymentClient E} {IK : InertClients E}.
Implicit Types (o : oracle) (saga : Saga) (order : Order) (w : world (OrderSt E)).

#[local] Instance inert_UpdateStatus id st : Inert (OrderRepo_UpdateStatus (E := E) id st).
Proof. unfold OrderRepo_UpdateStatus. apply _. Qed.

#[local] Instance inert_Save saga : Inert (SagaRepo_Save (E := E) saga).
Proof. unfold SagaRepo_Save. apply _. Qed.

#[local] Instance inert_persistSaga saga : Inert (persistSaga (E := E) saga).
Proof. unfold persistSaga. apply _. Qed.

#[local] Instance inert_release_all oid items : Inert (release_all (E := E) oid items).
Proof. induction items as [|i items IH]; simpl; [apply _|]. unfold ext. apply _. Qed.

#[local] Instance inert_Compensate st saga order key : Inert (Compensate (E := E) st saga order key).
Proof.
  destruct st; simpl; [apply _| | |apply _].
  - unfold reserveInventoryStep_Compensate. apply inert_bind; [apply _|intros errs]. destruct (errors_Join errs); apply _.
  - unfold processPaymentStep_Compensate, ext. case_bool_decide; apply _.
Qed.

#[local] Instance inert_retry_again {A} n err (fn : M (OrderSt E) A) : Inert fn -> Inert (retry_again n err fn).
Proof.
  intros Hfn. revert err. induction n as [|n IH]; intros err; simpl; [apply _|].
  apply inert_bind; [apply _|intros [e|]; [apply _|]]. apply inert_bind; [apply _|intros [e|a]; apply _].
Qed.

#[local] Instance inert_retry {A} (fn : M (OrderSt E) A) : Inert fn -> Inert (retry fn).
Proof. intros Hfn. unfold retry. apply inert_bind; [apply _|intros [e|a]; apply _]. Qed.

#[local] Instance inert_compensate_plan plan saga order key : Inert (compensate_plan (E := E) plan saga order key).
Proof. induction plan as [|st plan IH]; simpl; [apply _|]. unfold compensateWithRetry. apply _. Qed.

#[local] Instance inert_handleStepFailure saga order step key err : Inert (handleStepFailure (E := E) saga order step key err).
Proof. unfold handleStepFailure, saveSaga. case_bool_decide; apply _. Qed.

(** The compensation always comes to its end. *)
Lemma compensate_plan_returns plan saga order key o w : exists w', compensate_plan (E := E) plan saga order key o w = (inr tt, w').
Proof.
  revert w. induction plan as [|st plan IH]; intros w; simpl; [by eexists|]. unfold bind, attempt.
  destruct (compensateWithRetry _ _ _ _ o w) as [r w1]. apply IH.
Qed.

Lemma persistSaga_returns saga o w : exists sr w', persistSaga (E := E) saga o w = (inr sr, w').
Proof. unfold persistSaga, bind, attempt, now, ret. destruct (SagaRepo_Save _ o _) as [r w1]. by do 2 eexists. Qed.

Lemma handleStepFailure_returns saga order step key err o w :
  s_Status saga <> SagaStatusPending -> exists w', handleStepFailure (E := E) saga order step key err o w = (inr tt, w').
Proof.
  intros Hst. unfold handleStepFailure. rewrite bool_decide_false by done. unfold saveSaga, bind, attempt, ret.
  destruct (persistSaga_returns (with_error (Error err) (with_status SagaStatusCompensating ("compensate_" +:+ joinStepNames (compensationPlan step)) saga)) o w)
    as (sr & w1 & ->).
  destruct (compensate_plan_returns (compensationPlan step) (fst sr) order key o w1) as [w2 ->].
  destruct (OrderRepo_UpdateStatus _ _ o w2) as [r w3].
  destruct (persistSaga_returns (with_error "" (with_status SagaStatusCancelled "cancelled" (fst sr))) o w3) as (sr2 & w4 & ->). by eexists.
Qed.

(** The first half of [process_step]. *)
Definition prepared (step : Step) saga : M (OrderSt E) Saga :=
  match Prepare step saga with
  | None => ret saga
  | Some saga' => let* sr := persistSaga saga' in match snd sr with inl e => throw e | inr _ => ret (fst sr) end
  end.

Lemma process_step_eq step saga order key :
  process_step (E := E) step saga order key =
    (let* saga := prepared step saga in
     let* r := attempt (executeWithRetry step saga order key) in
     match r with
     | inl err => do* handleStepFailure saga order step key err in ret None
     | inr saga' => let* sr := persistSaga saga' in match snd sr with inl e => throw e | inr _ => ret (Some (fst sr)) end
     end).
Proof. reflexivity. Qed.

(** The loop of ProcessOrder comes from one saga to another: its steps in between succeed. *)
Inductive loop_at order key o : Saga -> world (OrderSt E) -> Saga -> world (OrderSt E) -> Prop :=
| la_here saga w : loop_at order key o saga w saga w
| la_next saga w st saga1 w1 saga' w' :
    nextStep saga = Some st -> process_step st saga order key o w = (inr (Some saga1), w1) ->
    loop_at order key o saga1 w1 saga' w' -> loop_at order key o saga w saga' w'.

(** The loop has fuel left wherever it comes to. *)
Lemma process_loop_at order key o saga w saga' w' fuel :
  loop_at order key o saga w saga' w' -> (gas saga order <= fuel)%nat ->
  exists fuel', (gas saga' order <= fuel')%nat /\ process_loop (E := E) fuel saga order key o w = process_loop fuel' saga' order key o w'.
Proof.
  intros Hat. revert fuel. induction Hat as [saga w|saga w st saga1 w1 saga' w' Hn Hs _ IH]; intros fuel Hg; [by exists fuel|].
  pose proof (process_step_gas _ _ _ _ _ _ _ _ Hn Hs) as Hdec. destruct fuel as [|fuel]; [lia|].
  destruct (IH fuel ltac:(lia)) as (fuel' & Hg' & Heq). exists fuel'. split; [done|]. simpl. rewrite Hn. unfold bind. by rewrite Hs.
Qed.

Lemma prepared_status step saga o w saga1 w0 :
  nextStep saga = Some step -> prepared step saga o w = (inr saga1, w0) ->
  s_Status saga1 = SagaStatusPending <-> step = startStep.
Proof.
  intros Hn Hp. unfold prepared in Hp. unfold nextStep in Hn.
  destruct (s_Status saga) eqn:Hs; simplify_eq; simpl in Hp; rewrite ?Hs in Hp; simpl in Hp;
    try (unfold ret in Hp; simplify_eq; by rewrite Hs);
    (apply bind_ok in Hp as (sr & w2 & Hsave & Hp); destruct (snd sr); [done|]; unfold ret in Hp; simplify_eq;
     unfold persistSaga in Hsave; apply bind_ok in Hsave as (t & w3 & _ & Hsave); apply bind_ok in Hsave as (r & w4 & _ & Hsave);
     unfold ret in Hsave; by simplify_eq).
Qed.

(** One iteration with a step that fails under an expired context. *)
Lemma expired_step step saga order key o w saga1 w0 err w1 :
  nextStep saga = Some step -> prepared step saga o w = (inr saga1, w0) ->
  executeWithRetry step saga1 order key o w0 = (inl err, w1) -> expired_from o (w_tick w1) ->
  exists w', w_st w' = w_st w1 /\
    process_step (E := E) step saga order key o w =
      (match step with startStep => inl (wrapf "start step failed" err) | _ => inr None end, w').
Proof.
  intros Hn Hp Hex Hexp. pose proof (prepared_status _ _ _ _ _ _ Hn Hp) as Hst.
  pose proof (inert_handleStepFailure saga1 order step key err o w1 Hexp) as [Hsame _].
  rewrite process_step_eq. unfold bind. rewrite Hp. unfold attempt. rewrite Hex.
  destruct (decide (step = startStep)) as [->|Hne].
  - apply proj2 in Hst. specialize (Hst eq_refl). unfold handleStepFailure in *. rewrite bool_decide_true in * by done.
    unfold saveSaga, bind in *. destruct (persistSaga_returns (with_error (Error err) (with_status SagaStatusFailed (Name startStep) saga1)) o w1)
      as (sr & w2 & Hsv). rewrite Hsv in *. by exists w2.
  - destruct (handleStepFailure_returns saga1 order step key err o w1) as [w2 Hh]; [by rewrite Hst|]. rewrite Hh in Hsame |- *.
    exists w2. split; [done|]. by destruct step.
Qed.

(** C22. A step that fails because the saga's context has expired is not compensated.  ProcessOrder
    has a saga, found or created, and has come to a step that fails, and the context has
    expired by then.  The compensation, the cancellation of the order and both writes of
    the saga row run under the same context and have no effect: ProcessOrder returns
    with the stores as the failed step left them.  It returns no error, so the caller is
    told that the order went through, unless the step was the first one, which only sets
    the order to awaiting_payment and has nothing to compensate: then it returns the
    error of the step. *)
Theorem deadline_skips_compensation order key o w saga0 w0 saga w1 step saga1 w2 err w3 :
  get_or_create_saga order o w = (inr saga0, w0) -> loop_at order key o saga0 w0 saga w1 -> nextStep saga = Some step ->
  prepared step saga o w1 = (inr saga1, w2) -> executeWithRetry step saga1 order key o w2 = (inl err, w3) ->
  expired_from o (w_tick w3) ->
  exists w', w_st w' = w_st w3 /\
    ProcessOrder (E := E) order key o w =
      (match step with startStep => inl (wrapf "start step failed" err) | _ => inr (inr tt) end, w').
Proof.
  intros Hget Hat Hn Hp Hex Hexp. destruct (expired_step _ _ _ key _ _ _ _ _ _ Hn Hp Hex Hexp) as (w' & Hst & Hstep).
  exists w'. split; [done|]. unfold ProcessOrder, bind. rewrite Hget.
  assert (Hterm : isTerminal saga0 = false).
  { assert (Hs : is_Some (nextStep saga0)) by (inversion Hat; subst; eauto). unfold nextStep, isTerminal in *.
    destruct (s_Status saga0); try done; by destruct Hs. }
  rewrite Hterm. destruct (process_loop_at _ _ _ _ _ _ _ (saga_fuel order) Hat) as (fuel' & Hg & ->).
  { unfold gas, saga_fuel. destruct (s_Status saga0); lia. }
  destruct fuel' as [|fuel']; [unfold gas in Hg; destruct (s_Status saga); simpl in Hg; lia|].
  simpl. rewrite Hn. unfold bind. rewrite Hstep. by destruct step.
Qed.
End SagaDeadline.

(** The clients of order-service go through gRPC, which checks the context first. *)
#[global] Instance inert_grpc_clients `{U : UuidLib} redis dlq inv_ctx pay_ctx pb_text :
  @InertClients _ sys (grpc_inventory redis inv_ctx) (grpc_payment dlq pay_ctx pb_text).
Proof. split; intros; simpl; unfold client_Reserve, client_Release, client_ProcessPayment, client_Refund; apply _. Qed.

Section TimedOut.
#[local] Existing Instance uuid_text.
#[local] Instance timed_inventory : InventoryClient sys := grpc_inventory false service_ctx.
#[local] Instance timed_payment : PaymentClient sys := grpc_payment None payer_ctx request_text.

(** The context of the saga expires at tick [k]. *)
Definition deadline_at (k : nat) : oracle :=
  Oracle (fun n => if (k <=? n)%nat then FBefore (EPlain "context deadline exceeded") else FNone) (fun _ => 0) uuid_sample
    (fun n => if (k <=? n)%nat then Some (EPlain "context deadline exceeded") else None) (fun _ => true).

Definition timed_out (k : nat) : (error + (unit + unit)) * world (OrderSt sys) :=
  ProcessOrder small_order "key" (deadline_at k) small_world.

(** The saga row says that the first item is to be reserved, and the context expires
    once it has been read. *)
Definition reserving_saga : Saga := MkSaga (uuid_sample 7) the_order SagaStatusReserving "reserve" "" "" [] 0 0.
Definition reserving_world : world (OrderSt sys) := World 0 (set_sagas {[ the_order := saga_row reserving_saga 0 0 ]} small_state).

Lemma reserving_found : get_or_create_saga small_order (deadline_at 1) reserving_world = (inr reserving_saga, next reserving_world).
Proof. reflexivity. Qed.

Definition failed {A} (r : (error + A) * world (OrderSt sys)) : bool := match fst r with inl _ => true | inr _ => false end.
Definition late {A} (r : (error + A) * world (OrderSt sys)) : bool := (1 <=? w_tick (snd r))%nat.

Lemma reserve_expires :
  let r := executeWithRetry reserveInventoryStep reserving_saga small_order "key" (deadline_at 1) (next reserving_world) in
  failed r && late r = true.
Proof. vm_compute. reflexivity. Qed.

Lemma deadline_skips_compensation_witness : exists w1 w',
  w_st w' = w_st w1 /\ ProcessOrder small_order "key" (deadline_at 1) reserving_world = (inr (inr tt), w').
Proof.
  pose proof reserve_expires as Hx. cbv zeta in Hx.
  destruct (executeWithRetry reserveInventoryStep reserving_saga small_order "key" (deadline_at 1) (next reserving_world))
    as [[err|sg] w1] eqn:Hex; unfold failed, late in Hx; cbn [fst snd andb] in Hx; [|discriminate Hx].
  exists w1. apply (deadline_skips_compensation small_order "key" (deadline_at 1) reserving_world reserving_saga (next reserving_world)
    reserving_saga (next reserving_world) reserveInventoryStep reserving_saga (next reserving_world) err w1 reserving_found).
  - apply la_here.
  - reflexivity.
  - reflexivity.
  - exact Hex.
  - intros n Hn. apply Nat.leb_le in Hx. unfold deadline_at, o_fault. destruct (Nat.leb_spec 1 n); [by eexists|lia].
Defined.

(** What is left: the answer, the saga row, the order row, the payment, the reservations. *)
Definition left_behind (r : (error + (unit + unit)) * world (OrderSt sys)) :=
  let st := w_st (snd r) in
  (fst r, sr_Status <$> t_sagas st !! the_order, or_Status <$> t_orders st !! the_order,
   p_Status <$> payments (y_db (snd (t_ext st))) !! the_order, size (reservations (i_db (fst (t_ext st))))).

(** The deadline passes before the payment call, or after it: ProcessOrder reports
    success, the order awaits its payment, the stock is held and, in the second case,
    the buyer is charged. *)
Theorem timed_out_order_reported_created :
  left_behind (timed_out 27) = (inr (inr tt), Some SagaStatusPaying, Some OrderStatusAwaitingPayment, None, 1%nat) /\
  left_behind (timed_out 40) = (inr (inr tt), Some SagaStatusConfirming, Some OrderStatusAwaitingPayment, Some StatusSuccess, 1%nat).
Proof. split; vm_compute; reflexivity. Qed.
End TimedOut.

(** ** The timeouts of the constructors *)

(** A context made with timeout [d] has expired at once when [d] is not positive. *)
Definition usable (d : Z) : bool := 0 <? d.

(** [if d == 0 { d = def }]. *)
Definition or_default (def d : Z) : Z := if d =? 0 then def else d.

Record Timeouts := MkTimeouts { to_call : Z; to_query : Z }.

Definition DefaultCallTimeout : Z := 5 * second.
Definition DefaultQueryTimeout : Z := 3 * second.

(** The retries of the orchestrator: how many attempts, and the first delay. *)
Record retryConfig := MkRetry { rc_maxRetries : nat; rc_baseDelay : Z }.

Record OrchestratorCfg := MkOrchestrator { ox_timeouts : Timeouts; ox_retry : retryConfig }.

Definition NewOrchestrator (callTimeout queryTimeout : Z) : OrchestratorCfg :=
  MkOrchestrator (MkTimeouts (or_default (5 * second) callTimeout) (or_default (3 * second) queryTimeout))
    (MkRetry maxRetries (200 * 10 ^ 6)).

Definition NewOrderUsecase (callTimeout queryTimeout : Z) : Timeouts :=
  MkTimeouts (or_default (5 * second) callTimeout) (or_default (3 * second) queryTimeout).
Definition NewCatalogUsecase (callTimeout queryTimeout : Z) : Timeouts :=
  MkTimeouts (or_default DefaultCallTimeout callTimeout) (or_default DefaultQueryTimeout queryTimeout).
Definition NewInventoryUsecase (callTimeout queryTimeout : Z) : Timeouts :=
  MkTimeouts (or_default DefaultCallTimeout callTimeout) (or_default DefaultQueryTimeout queryTimeout).
Definition NewPaymentUsecase (callTimeout queryTimeout : Z) : Timeouts :=
  MkTimeouts (or_default DefaultCallTimeout callTimeout) (or_default DefaultQueryTimeout queryTimeout).

(** The query timeout is checked and then dropped. *)
Definition NewUserUsecase (callTimeout queryTimeout : Z) : Z := or_default DefaultCallTimeout callTimeout.

(** No defaults. *)
Definition NewAnalyticsUsecase (callTimeout queryTimeout : Z) : Timeouts := MkTimeouts callTimeout queryTimeout.
Definition NewNotificationUsecase (callTimeout queryTimeout : Z) : Timeouts := MkTimeouts callTimeout queryTimeout.
Definition NewInventoryClient (callTimeout : Z) : Z := callTimeout.
Definition NewPaymentClient (callTimeout : Z) : Z := callTimeout.
Definition NewCatalogClient (callTimeout : Z) : Z := callTimeout.

(** The settings of a relay: its query timeout, retries and backoff. *)
Record RelayCfg := MkRelayCfg { rl_queryTimeout : Z; rl_maxRetries : Z; rl_baseBackoff : Z; rl_maxBackoff : Z }.

Definition NewRelay (queryTimeout : Z) : RelayCfg := MkRelayCfg queryTimeout 5 (500 * 10 ^ 6) (30 * second).
Definition catalog_NewRelay (queryTimeout : Z) : RelayCfg := MkRelayCfg queryTimeout 5 (500 * 10 ^ 6) (30 * second).

(** The recovery worker: its options are applied in order. *)
Record RecoveryCfg := MkRecoveryCfg { rw_interval : Z; rw_locked : bool; rw_lockKey : string }.

Definition RecoveryWorkerOption : Type := RecoveryCfg -> RecoveryCfg.
Definition WithLocker : RecoveryWorkerOption := fun w => MkRecoveryCfg (rw_interval w) true (rw_lockKey w).
Definition WithRecoveryInterval (interval : Z) : RecoveryWorkerOption := fun w => MkRecoveryCfg interval (rw_locked w) (rw_lockKey w).

Definition NewRecoveryWorker (opts : list RecoveryWorkerOption) : RecoveryCfg :=
  foldl (fun w opt => opt w) (MkRecoveryCfg (5 * second) false lockKey) opts.

(** Every timeout that the application of a service puts on a context: those of its
    pools and clients at the start, and those of its operations. *)
Definition both (t : Timeouts) : list Z := [to_call t; to_query t].

Definition order_deadlines (b : Base) : list Z :=
  ba_QueryTimeout b :: both (ox_timeouts (NewOrchestrator (ba_CallTimeout b) (ba_QueryTimeout b))) ++
  both (NewOrderUsecase (ba_CallTimeout b) (ba_QueryTimeout b)) ++
  [NewInventoryClient (ba_CallTimeout b); NewPaymentClient (ba_CallTimeout b); NewCatalogClient (ba_CallTimeout b);
   rl_queryTimeout (NewRelay (ba_QueryTimeout b))].

Definition catalog_deadlines (b : Base) : list Z :=
  ba_QueryTimeout b :: both (NewCatalogUsecase (ba_CallTimeout b) (ba_QueryTimeout b)) ++ [rl_queryTimeout (catalog_NewRelay (ba_QueryTimeout b))].

Definition inventory_deadlines (b : Base) : list Z := ba_QueryTimeout b :: both (NewInventoryUsecase (ba_CallTimeout b) (ba_QueryTimeout b)).

(** The repository of user-service has a constant timeout. *)
Definition user_deadlines (b : Base) : list Z :=
  [ba_QueryTimeout b; NewUserUsecase (ba_CallTimeout b) (ba_QueryTimeout b); DefaultQueryTimeout].

Definition payment_deadlines (b : Base) : list Z := ba_QueryTimeout b :: both (NewPaymentUsecase (ba_CallTimeout b) (ba_QueryTimeout b)).
Definition notification_deadlines (b : Base) : list Z := [to_call (NewNotificationUsecase (ba_CallTimeout b) (ba_QueryTimeout b))].
Definition analytics_deadlines (b : Base) : list Z := ba_CallTimeout b :: both (NewAnalyticsUsecase (ba_CallTimeout b) (ba_QueryTimeout b)).

Definition all_usable (l : list Z) : Prop := Forall (fun d => usable d = true) l.

Lemma usable_spec d : usable d = true <-> 0 < d.
Proof. unfold usable. apply Z.ltb_lt. Qed.

Lemma or_default_usable def d : 0 < def -> usable (or_default def d) = true <-> 0 <= d.
Proof. intros Hdef. rewrite usable_spec. unfold or_default. destruct (Z.eqb_spec d 0); lia. Qed.

Ltac deadlines :=
  unfold all_usable, both, NewOrchestrator, NewOrderUsecase, NewCatalogUsecase, NewInventoryUsecase, NewPaymentUsecase, NewRelay,
    catalog_NewRelay, NewInventoryClient, NewPaymentClient, NewCatalogClient, NewUserUsecase, NewAnalyticsUsecase,
    NewNotificationUsecase, DefaultCallTimeout, DefaultQueryTimeout;
  cbn [to_call to_query ox_timeouts rl_queryTimeout app]; rewrite !Forall_cons, Forall_nil;
  rewrite ?or_default_usable by (unfold second; lia); rewrite ?usable_spec; unfold second in *; intuition lia.

Section Accepted.
Context (ParseDuration : string -> option Z) (pg_ParseConfig : string -> option string) (ParseAddress : string -> bool).

Definition env_call (env : Environ) : Z := GetEnvDuration ParseDuration env "DEFAULT_CALL_TIMEOUT" (5 * second).
Definition env_query (env : Environ) : Z := GetEnvDuration ParseDuration env "DEFAULT_QUERY_TIMEOUT" (3 * second).

(** Environments that differ at most in the two timeouts. *)
Definition same_but_timeouts (env env' : Environ) : Prop :=
  forall k, k <> "DEFAULT_CALL_TIMEOUT" -> k <> "DEFAULT_QUERY_TIMEOUT" -> Getenv env k = Getenv env' k.

(** What the lists of deadlines are: [call] and [query] are the configured timeouts,
    [call5] and [query3] those with a zero replaced. *)
Lemma deadlines_are b :
  let call := ba_CallTimeout b in let query := ba_QueryTimeout b in
  let call5 := if call =? 0 then 5 * 10 ^ 9 else call in let query3 := if query =? 0 then 3 * 10 ^ 9 else query in
  order_deadlines b = [query; call5; query3; call5; query3; call; call; call; query] /\
  catalog_deadlines b = [query; call5; query3; query] /\
  inventory_deadlines b = [query; call5; query3] /\
  payment_deadlines b = [query; call5; query3] /\
  user_deadlines b = [query; call5; 3 * 10 ^ 9] /\
  notification_deadlines b = [call] /\
  analytics_deadlines b = [call; call; query].
Proof. done. Qed.

(** The timeouts of an accepted configuration are those of the environment. *)
Lemma accepted_base env :
  (forall c, payment_Load ParseDuration pg_ParseConfig env = inr c -> pc_Base c = LoadBase ParseDuration env) /\
  (forall c, notification_Load ParseDuration ParseAddress env = inr c -> nc_Base c = LoadBase ParseDuration env) /\
  (forall c, order_Load ParseDuration pg_ParseConfig env = inr c -> oc_Base c = LoadBase ParseDuration env) /\
  (forall c, analytics_Load ParseDuration env = inr c -> ac_Base c = LoadBase ParseDuration env) /\
  (forall c, catalog_Load ParseDuration pg_ParseConfig env = inr c -> cc_Base c = LoadBase ParseDuration env) /\
  (forall c, inventory_Load ParseDuration pg_ParseConfig env = inr c -> ic_Base c = LoadBase ParseDuration env) /\
  (forall c, user_Load ParseDuration pg_ParseConfig env = inr c -> uc_Base c = LoadBase ParseDuration env).
Proof.
  assert (Hpass : forall (A : Type) e (k : cfg_err + A) c, check e k = inr c -> k = inr c) by (by intros A [e|] k c).
  split_and!; intros c Hc; repeat apply Hpass in Hc; by injection Hc as <-.
Qed.

(** Five services accept a configuration whatever its timeouts. *)
Lemma timeouts_not_checked env env' :
  same_but_timeouts env env' ->
  ((exists c, order_Load ParseDuration pg_ParseConfig env = inr c) <-> (exists c, order_Load ParseDuration pg_ParseConfig env' = inr c)) /\
  ((exists c, catalog_Load ParseDuration pg_ParseConfig env = inr c) <-> (exists c, catalog_Load ParseDuration pg_ParseConfig env' = inr c)) /\
  ((exists c, inventory_Load ParseDuration pg_ParseConfig env = inr c) <-> (exists c, inventory_Load ParseDuration pg_ParseConfig env' = inr c)) /\
  ((exists c, user_Load ParseDuration pg_ParseConfig env = inr c) <-> (exists c, user_Load ParseDuration pg_ParseConfig env' = inr c)) /\
  ((exists c, analytics_Load ParseDuration env = inr c) <-> (exists c, analytics_Load ParseDuration env' = inr c)).
Proof.
  intros Hsame. rewrite !(order_Load_ok ParseDuration pg_ParseConfig ParseAddress), !(catalog_Load_ok ParseDuration pg_ParseConfig ParseAddress), !(inventory_Load_ok ParseDuration pg_ParseConfig ParseAddress),
    !(user_Load_ok ParseDuration pg_ParseConfig ParseAddress), !(analytics_Load_ok ParseDuration pg_ParseConfig ParseAddress).
  unfold env_secret, env_dsn, GetEnv. by rewrite !(Hsame "JWT_SECRET"), !(Hsame "POSTGRES_DSN"), !(Hsame "CLICKHOUSE_DSN").
Qed.

Lemma usable_deadlines env :
  let b := LoadBase ParseDuration env in let call := env_call env in let query := env_query env in
  (all_usable (order_deadlines b) <-> 0 < call /\ 0 < query) /\ (all_usable (analytics_deadlines b) <-> 0 < call /\ 0 < query) /\
  (all_usable (catalog_deadlines b) <-> 0 <= call /\ 0 < query) /\ (all_usable (inventory_deadlines b) <-> 0 <= call /\ 0 < query) /\
  (all_usable (user_deadlines b) <-> 0 <= call /\ 0 < query) /\
  (0 < call -> 0 < query -> all_usable (payment_deadlines b) /\ all_usable (notification_deadlines b)).
Proof.
  cbv zeta. unfold order_deadlines, analytics_deadlines, catalog_deadlines, inventory_deadlines, user_deadlines, payment_deadlines, notification_deadlines.
  cbn [LoadBase ba_CallTimeout ba_QueryTimeout]. fold (env_call env) (env_query env). split_and!; deadlines.
Qed.

End Accepted.

(** A call timeout of zero is accepted.  The orchestrator and the use case of order-service
    replace it; the clients do not, and every call they make has expired at once. *)
Theorem zero_call_timeout_breaks_clients :
  let env : Environ := <["DEFAULT_CALL_TIMEOUT" := "0s"]> sample_env in
  let parse s := if bool_decide (s = "0s") then Some 0 else None in
  exists c, order_Load parse (fun _ => None) env = inr c /\
    let b := oc_Base c in
    all_usable (both (ox_timeouts (NewOrchestrator (ba_CallTimeout b) (ba_QueryTimeout b)))) /\
    all_usable (both (NewOrderUsecase (ba_CallTimeout b) (ba_QueryTimeout b))) /\
    usable (NewInventoryClient (ba_CallTimeout b)) = false /\ usable (NewPaymentClient (ba_CallTimeout b)) = false.
Proof. eexists. split; [vm_compute; reflexivity|]. vm_compute. split_and!; [by repeat constructor..|done|done]. Qed.
