(* ===== verification/SagaRecovery.v ===== *)
(** * order-service: what a crash leaves and what recovery makes of it

    Instances of order-service stop anywhere in ProcessOrder, with any failures
    before; what they leave is [recoverable] as long as none of them compensates, and a
    calm recovery pass then brings every listed saga of that kind to an end: confirmed
    and paid, or cancelled with nothing held.  It leaves sagas that are being
    compensated, and orders that it does not list, as they are.  The crash is the one of
    [SagaRaces.v]: an instance that takes no more pieces. *)
From S2P Require Import Prelude Errors Effects Auth OrderDomain OrderRepo Saga SagaFacts SagaFrame OrderService SagaRuns SagaRaces OrderFacts.

(** ** What recovery relies on *)

(** Under every failure pattern a reservation holds at most what was asked for, a
    release and a payment hold nothing new, and no call touches the holds of another
    order; and a reservation that is already held succeeds again when nothing fails. *)
Class SagaCrashLaws `{U : UuidLib} (E : Type) `{IC : !InventoryClient E} `{PC : !PaymentClient E}
    `{L : !SagaClientLaws E} `{CL : !SagaCalmLaws E} : Prop := {
  Reserve_only : forall (p : UUID) q (oid : UUID) k o w r w', calm_inv (w_st w) ->
    cl_Reserve (uuid_String p) q (uuid_String oid) k o w = (r, w') ->
    calm_inv (w_st w') /\
    forall oid' p' q', holds_at (w_st w') oid' p' q' ->
      holds_at (w_st w) oid' p' q' \/ (oid' = oid /\ p' = p /\ q' = q);
  Reserve_again : forall (p : UUID) q (oid : UUID) k o w r w', no_faults o -> calm_inv (w_st w) ->
    holds_at (w_st w) oid p q ->
    cl_Reserve (uuid_String p) q (uuid_String oid) k o w = (r, w') -> r = inr tt;
  Release_only : forall p q (oid : UUID) k o w r w', calm_inv (w_st w) ->
    cl_Release p q (uuid_String oid) k o w = (r, w') ->
    calm_inv (w_st w') /\
    forall oid' p' q', (holds_at (w_st w') oid' p' q' -> holds_at (w_st w) oid' p' q') /\
      (oid' ≠ oid -> holds_at (w_st w) oid' p' q' -> holds_at (w_st w') oid' p' q');
  Pay_only : forall oid a k o w r w', calm_inv (w_st w) ->
    cl_ProcessPayment oid a k o w = (r, w') ->
    calm_inv (w_st w') /\ forall oid' p' q', holds_at (w_st w') oid' p' q' -> holds_at (w_st w) oid' p' q';
  Refund_only : forall pid k o w r w', calm_inv (w_st w) ->
    cl_Refund pid k o w = (r, w') ->
    calm_inv (w_st w') /\ forall oid' p' q', holds_at (w_st w') oid' p' q' <-> holds_at (w_st w) oid' p' q'
}.

Section Recovery.
Context `{U : UuidLib} {E : Type} `{IC : !InventoryClient E} `{PC : !PaymentClient E}.
Context `{HL : !UuidLaws} `{L : !SagaClientLaws E} `{CL : !SagaCalmLaws E} `{XL : !SagaCrashLaws E}.
Implicit Types (o : oracle) (saga : Saga) (order : Order) (w : world (OrderSt E)) (s : OrderSt E) (e : E).

(** ** The holds of an interrupted order *)

Definition item_held order e (item : OrderItem) : Prop :=
  holds_at e (o_ID order) (it_ProductID item) (int32 (it_Quantity item)).

(** The first [m] items are held, and perhaps the next one: its reservation may have
    succeeded without anybody having learnt of it. *)
Definition nearly order (m : nat) e : Prop :=
  tracked order e (reserved_item <$> take (S m) (o_Items order)) /\ Forall (item_held order e) (take m (o_Items order)).

Lemma tracked_take order e m n :
  (m <= n)%nat -> tracked order e (reserved_item <$> take m (o_Items order)) ->
  tracked order e (reserved_item <$> take n (o_Items order)).
Proof.
  intros Hle Ht p q Hh. specialize (Ht p q Hh). apply list_elem_of_fmap in Ht as (item & -> & Hi).
  apply list_elem_of_fmap_2. apply (subseteq_take m). by rewrite take_take, Nat.min_l by lia.
Qed.

(** A reservation of item [k] while the first [k] are held. *)
Lemma Reserve_nearly order m k item key o (w w' : world E) r :
  calm_inv (w_st w) -> nearly order m (w_st w) -> Forall (item_held order (w_st w)) (take k (o_Items order)) ->
  o_Items order !! k = Some item ->
  cl_Reserve (uuid_String (it_ProductID item)) (int32 (it_Quantity item)) (oid_text order) key o w = (r, w') ->
  calm_inv (w_st w') /\ nearly order (m `max` k) (w_st w').
Proof.
  intros Hinv [Ht Hh] Hk Hi Hr.
  pose proof (fun p' q' => Reserve_keeps_holds (o_ID order) p' q' (uuid_String (it_ProductID item)) (int32 (it_Quantity item)) (oid_text order) key) as Hkp.
  assert (Hkeep : forall l, Forall (item_held order (w_st w)) l -> Forall (item_held order (w_st w')) l).
  { intros l Hl. eapply Forall_impl; [exact Hl|]. intros j Hj.
    specialize (Hkp (it_ProductID j) (int32 (it_Quantity j)) o w Hj). by rewrite Hr in Hkp. }
  apply Reserve_only in Hr as [Hinv' Honly]; [|done]. split; [done|]. split.
  - intros p q Hp. destruct (Honly _ _ _ Hp) as [Hb|(_ & -> & ->)].
    + eapply tracked_take; [|exact Ht|exact Hb]. lia.
    + apply list_elem_of_fmap. exists item. split; [done|]. apply list_elem_of_lookup. exists k.
      rewrite lookup_take_lt by lia. done.
  - apply Hkeep. destruct (Nat.max_spec m k) as [[_ ->]|[_ ->]]; done.
Qed.

(** ** A calm run from there *)

Lemma triple_retry_from {A} O (P R : OrderSt E -> Prop) (fn : M (OrderSt E) A) Q :
  triple O P fn Q R -> triple O R fn Q R -> triple O P (retry fn) Q R.
Proof.
  intros Hfirst Hagain. unfold retry. eapply triple_bind; [apply triple_attempt, Hfirst|intros [e'|a]].
  - by apply triple_retry_again.
  - apply triple_ret.
Qed.

(** A saga that has still to catch up with what is held: it has recorded no more than
    the first [m] items. *)
Definition lagging order (m : nat) saga e : Prop :=
  calm_inv e /\ nearly order m e /\ (length (s_ReservedItems saga) <= m)%nat /\
  s_ReservedItems saga = reserved_item <$> take (length (s_ReservedItems saga)) (o_Items order).

Definition catching_up order m saga s : Prop :=
  s_OrderID saga = o_ID order /\ (s_Status saga = SagaStatusPending \/ s_Status saga = SagaStatusReserving) /\
  rows order (s_Status saga) s /\ lagging order m saga (t_ext s).

Definition pre_catching_up order m saga s : Prop :=
  s_OrderID saga = o_ID order /\ (s_Status saga = SagaStatusPending \/ s_Status saga = SagaStatusReserving) /\
  (exists st, rows order st s) /\ lagging order m saga (t_ext s).

(** The saga has caught up, or is about to. *)
Definition on_the_way order m saga s : Prop := live order saga s \/ catching_up order m saga s.
Definition pre_on_the_way order m saga s : Prop := pre_live order saga s \/ pre_catching_up order m saga s.

Lemma reserve_catches_up order m saga key :
  s_Status saga = SagaStatusReserving ->
  triple no_faults (catching_up order m saga) (reserveInventoryStep_Execute saga order key)
    (pre_on_the_way order m) (live order saga).
Proof.
  intros Hs o w Ho (Hid & _ & Hrows & Hinv & [Ht Hh] & Hle & Hrec). unfold reserveInventoryStep_Execute.
  set (k := length (s_ReservedItems saga)) in *. destruct (o_Items order !! k) as [item|] eqn:Hi.
  - unfold bind. destruct (ext _ o w) as [r w'] eqn:Hext. apply ext_run in Hext as (w1 & Hres & Hw').
    assert (Hnew : reserved_item <$> take (S k) (o_Items order) = s_ReservedItems saga ++ [reserved_item item]).
    { rewrite (take_S_r _ _ _ Hi), fmap_app. by rewrite <- Hrec. }
    pose proof Hres as Hc. apply Reserve_calm in Hc as [Hinv' Honly]; [|done..]. rewrite Hs in Hrows.
    assert (Hagain : item_held order (t_ext (w_st w)) item -> r = inr tt).
    { intros Hk. by eapply (Reserve_again _ _ _ _ _ _ _ _ Ho) in Hres. }
    destruct (decide (k < m)%nat) as [Hlt|Hge].
    + assert (Hk : item_held order (t_ext (w_st w)) item).
      { apply (proj1 (Forall_forall _ _) Hh). apply list_elem_of_lookup. exists k. by rewrite lookup_take_lt. }
      specialize (Hagain Hk) as ->. simpl. right. rewrite Hw'.
      apply (Reserve_nearly order m k item) in Hres as [_ Hn]; [|done|by split| |done].
      2: { apply Forall_forall. intros j Hj. apply (proj1 (Forall_forall _ _) Hh). apply (subseteq_take k).
           by rewrite take_take, Nat.min_l by lia. }
      rewrite Nat.max_l in Hn by lia. split_and!; simpl; [done|by right|by eexists|].
      split_and!; simpl; [done|done| |].
      * rewrite length_app. simpl. fold k. lia.
      * rewrite length_app. simpl. fold k. by rewrite Nat.add_1_r, Hnew.
    + assert (k = m) as Hkm by lia. subst m. rewrite Hnew in Ht. destruct r as [err|[]]; simpl; rewrite Hw'.
      * split_and!; simpl; [done|by rewrite Hs|by rewrite Hs|done| |by rewrite Hs]. intros p q Hp.
        destruct (Honly _ _ _ Hp) as [Hb|[? _]]; [|done].
        specialize (Ht p q Hb). apply elem_of_app in Ht as [Hin|Hin%list_elem_of_singleton]; [done|].
        injection Hin as Heq ->. apply uuid_String_inj in Heq as ->.
        by specialize (Hagain Hb).
      * left. split_and!; simpl; [done|by rewrite Hs|by eexists|done| |by rewrite Hs]. intros p q Hp.
        destruct (Honly _ _ _ Hp) as [Hb|(_ & _ & -> & ->)]; [by apply Ht|]. apply elem_of_app. right. by apply list_elem_of_singleton.
  - simpl. left. split_and!; simpl; [done|done|by eexists|done| |done]. rewrite Hrec. fold k. intros p q Hp.
    specialize (Ht p q Hp). rewrite take_ge in Ht by (apply lookup_ge_None in Hi; lia).
    apply lookup_ge_None in Hi. by rewrite take_ge.
Qed.

Lemma start_catches_up order m saga :
  s_Status saga = SagaStatusPending ->
  triple no_faults (catching_up order m saga) (startStep_Execute saga order) (pre_on_the_way order m) (fun _ => False).
Proof.
  intros Hs. unfold startStep_Execute. apply (triple_bind_ret no_faults _ _ (fun _ => _)).
  set (P := fun s => s_OrderID saga = o_ID order /\ saga_in order (s_Status saga) s /\ lagging order m saga (t_ext s)).
  eapply triple_conseq; [apply (UpdateStatus_calm order OrderStatusAwaitingPayment P)| | |done].
  - done.
  - by intros s os (? & ? & ?).
  - intros s (Hid & _ & [Hord Hsaga] & Hlag). by split_and!.
  - intros u s ((orow & Horow & _) & Hid & Hsaga & Hlag). right. split_and!; simpl; [done|by right| |done].
    exists (s_Status saga). split; [by exists orow|done].
Qed.

Lemma persist_on_the_way order m saga :
  triple no_faults (pre_on_the_way order m saga)
    (let* sr := persistSaga saga in match snd sr with inl e => throw e | inr _ => ret (Some (fst sr)) end)
    (fun next s => exists sg, next = Some sg /\ on_the_way order m sg s) (fun _ => False).
Proof.
  intros o w Ho [Hl|Hc].
  - apply (persist_live order saga Some (fun next s => exists sg, next = Some sg /\ on_the_way order m sg s)); [|done|done].
    intros sg s _ Hlive. exists sg. split; [done|by left].
  - destruct Hc as (Hid & Hst & [st Hrows] & Hlag).
    pose proof (persistSaga_calm order saga st (fun s => lagging order m saga (t_ext s)) Hid (fun _ _ H => H) o w Ho) as HP.
    unfold bind. destruct (persistSaga saga o w) as [[e|[sg r]] w']; [by apply HP|].
    destruct HP as (Hr & Hid' & Hst' & Hit & Hrows' & Hlag'); [by split|]. simpl in *. subst r. simpl.
    exists sg. split; [done|]. right. split_and!; rewrite ?Hst'; [done..|]. unfold lagging in *. by rewrite Hit.
Qed.

(** One iteration of the loop. *)
Lemma process_step_recovers order m saga st key :
  nextStep saga = Some st ->
  triple no_faults (on_the_way order m saga) (process_step st saga order key)
    (fun next s => match next with Some sg => on_the_way order m sg s | None => cancelled_clean order s end) (fun _ => False).
Proof.
  intros Hn o w Ho [Hl|Hc].
  { pose proof (process_step_calm order saga st key Hn o w Ho Hl) as H.
    destruct (process_step st saga order key o w) as [[e|[sg|]] w']; [done|by left|done]. }
  assert (Hx : triple no_faults (catching_up order m saga) (executeWithRetry st saga order key) (pre_on_the_way order m)
                 (fun s => st = reserveInventoryStep /\ live order saga s) /\ Prepare st saga = None).
  { destruct Hc as (_ & [Hs|Hs] & _); unfold nextStep in Hn; rewrite Hs in Hn; injection Hn as <-; (split; [|done]); unfold executeWithRetry; simpl.
    - intros o1 w1 Ho1 Hc1. pose proof (start_catches_up order m saga Hs o1 w1 Ho1 Hc1) as H.
      unfold retry, bind, attempt. destruct (startStep_Execute saga order o1 w1) as [[e|sg] w']; [done|exact H].
    - eapply triple_conseq; [eapply (triple_retry_from no_faults _ (live order saga)); [by apply reserve_catches_up|]|done|done|by intros s].
      eapply triple_conseq; [by apply reserve_Execute_calm|done| |done]. intros sg s Hp. by left. }
  destruct Hx as [Hx Hp]. unfold process_step. rewrite Hp. unfold bind at 1, ret at 1.
  enough (HT : triple no_faults (catching_up order m saga)
    (let* r := attempt (executeWithRetry st saga order key) in
     match r with
     | inl err => do* handleStepFailure saga order st key err in ret None
     | inr saga' => let* sr := persistSaga saga' in match snd sr with inl e => throw e | inr _ => ret (Some (fst sr)) end
     end) (fun next s => match next with Some sg => on_the_way order m sg s | None => cancelled_clean order s end) (fun _ => False))
    by exact (HT o w Ho Hc).
  eapply triple_bind; [apply triple_attempt, Hx|intros [err|sg]].
  - apply triple_pure. intros ->. eapply triple_bind; [apply handleStepFailure_calm|by intros u o1 w1 _]; [done|].
    unfold nextStep in Hn. by destruct (s_Status saga).
  - eapply triple_conseq; [apply persist_on_the_way|done| |done]. by intros next s (sg' & -> & H).
Qed.

Lemma process_loop_recovers fuel order m saga key :
  (gas saga order <= fuel)%nat ->
  triple no_faults (on_the_way order m saga) (process_loop fuel saga order key)
    (fun r s => r = inr tt /\ (confirmed_paid order s \/ cancelled_clean order s)) (fun _ => False).
Proof.
  revert saga. induction fuel as [|fuel IH]; intros saga Hg; simpl.
  { unfold gas in Hg. destruct (s_Status saga); simpl in Hg; lia. }
  destruct (nextStep saga) as [st|] eqn:Hn.
  - intros o w Ho Hl. unfold bind. pose proof (process_step_recovers order m saga st key Hn o w Ho Hl) as Hstep.
    destruct (process_step st saga order key o w) as [[e|[saga'|]] w1] eqn:Hrun; [done| |by split; [|right]].
    apply (process_step_gas _ _ _ _ _ _ _ _ Hn) in Hrun. apply IH; [lia|done|done].
  - intros o w Ho [Hl|(_ & [Hs|Hs] & _)]; [|by unfold nextStep in Hn; rewrite Hs in Hn..].
    pose proof (process_loop_calm 1 order saga key) as H. simpl in H. rewrite Hn in H. apply H; [|done|done].
    unfold gas, nextStep in *. by destruct (s_Status saga).
Qed.

(** ** From the tables *)

(** What the saga has recorded is held. *)
Definition recorded order e saga : Prop :=
  match s_Status saga with
  | SagaStatusPending => s_ReservedItems saga = []
  | SagaStatusReserving => reserved_prefix order e (length (s_ReservedItems saga)) (s_ReservedItems saga)
  | SagaStatusReserved | SagaStatusPaying | SagaStatusPaid | SagaStatusConfirming | SagaStatusConfirmed =>
      all_reserved order e (s_ReservedItems saga)
  | SagaStatusCompensating | SagaStatusCancelled | SagaStatusFailed => True
  end.

Lemma recorded_ok order e saga : saga_ok order e saga -> recorded order e saga.
Proof. unfold saga_ok, recorded. destruct (s_Status saga); try done; by intros []. Qed.

(** What the tables and the other services hold for an interrupted order. *)
Definition recoverable order s : Prop :=
  calm_inv (t_ext s) /\ is_Some (t_orders s !! o_ID order) /\
  (forall row, t_sagas s !! o_ID order = Some row -> recorded order (t_ext s) (saga_of_row (o_ID order) row)) /\
  exists m, nearly order m (t_ext s).

(** The saga row, if there is one, is neither final nor being compensated. *)
Definition unfinished order s : Prop :=
  row_status (fun st => forward st = true /\ st ≠ SagaStatusConfirmed) order s.

Definition concluded order s : Prop := confirmed_paid order s \/ cancelled_clean order s.

Lemma nearly_tracked order m e : nearly order m e -> tracked order e (reserved_item <$> o_Items order).
Proof.
  intros [Ht _] p q Hh. rewrite <- (take_ge (o_Items order) (S m `max` length (o_Items order))) by lia.
  eapply tracked_take; [|exact Ht|exact Hh]. lia.
Qed.

Lemma resume_on_the_way order s row :
  recoverable order s -> t_sagas s !! o_ID order = Some row -> forward (sr_Status row) = true -> sr_Status row ≠ SagaStatusConfirmed ->
  exists m, on_the_way order m (saga_of_row (o_ID order) row) s.
Proof.
  intros (Hinv & Hord & Hfine & m & Hn) Hrow Hfw Hnc. specialize (Hfine row Hrow). set (saga := saga_of_row (o_ID order) row) in *.
  assert (Hrows : rows order (s_Status saga) s) by (split; [done|by exists row]).
  assert (Hlive : s_ReservedItems saga = reserved_item <$> o_Items order -> on_the_way order m saga s).
  { intros Hall. left. split_and!; [done|done|done..| |done]. rewrite Hall. by eapply nearly_tracked. }
  assert (Hcatch : forall k, s_ReservedItems saga = reserved_item <$> take k (o_Items order) -> k = length (s_ReservedItems saga) ->
    Forall (item_held order (t_ext s)) (take k (o_Items order)) -> (s_Status saga = SagaStatusPending \/ s_Status saga = SagaStatusReserving) ->
    on_the_way order (m `max` k) saga s).
  { intros k Hrec Hk Hheld Hst. right. split_and!; [done|done|done..|]. destruct Hn as [Ht Hh]. split_and!; [done| |lia|by rewrite <- Hk].
    split; [eapply tracked_take; [|exact Ht]; lia|]. destruct (Nat.max_spec m k) as [[_ ->]|[_ ->]]; done. }
  unfold recorded, all_reserved in Hfine. simpl in Hfw, Hnc. change (sr_Status row) with (s_Status saga) in *.
  destruct (s_Status saga) eqn:Hs; try done.
  - exists (m `max` 0)%nat. apply Hcatch; [by rewrite Hfine|by rewrite Hfine|constructor|by left].
  - eexists. apply (Hcatch _ (proj1 Hfine) eq_refl (proj2 Hfine)). by right.
  - exists m. apply Hlive. rewrite (proj1 Hfine). by rewrite take_ge.
  - exists m. apply Hlive. rewrite (proj1 Hfine). by rewrite take_ge.
  - exists m. apply Hlive. rewrite (proj1 Hfine). by rewrite take_ge.
  - exists m. apply Hlive. rewrite (proj1 Hfine). by rewrite take_ge.
Qed.

Lemma ProcessOrder_recovers order key o w :
  no_faults o -> recoverable order (w_st w) -> unfinished order (w_st w) ->
  exists w', ProcessOrder order key o w = (inr (inr tt), w') /\ concluded order (w_st w').
Proof.
  intros Ho Hrec Hun. unfold ProcessOrder, get_or_create_saga, bind, attempt, SagaRepo_GetByOrderID.
  rewrite (read_no_faults _ _ _ Ho). destruct (t_sagas (w_st w) !! o_ID order) as [row|] eqn:Hrow.
  - simpl. destruct (Hun row Hrow) as [Hfw Hnc]. destruct (resume_on_the_way order (w_st w) row Hrec Hrow Hfw Hnc) as [m Hway].
    set (saga := saga_of_row (o_ID order) row) in *.
    assert (Hterm : isTerminal saga = false) by (unfold isTerminal; simpl; by destruct (sr_Status row)). rewrite Hterm.
    assert (Hgas : (gas saga order <= saga_fuel order)%nat) by (unfold gas, saga_fuel; destruct (s_Status saga); lia).
    pose proof (process_loop_recovers (saga_fuel order) order m saga key Hgas o (next w) Ho Hway) as H.
    destruct (process_loop _ saga order key o (next w)) as [[e|r] w']; [done|]. destruct H as [-> Hout]. by exists w'.
  - destruct Hrec as (Hinv & [orow Horow] & _ & m & Hn). simpl. unfold new_uuid, now, wrap_err, SagaRepo_Create, wrap_err.
    rewrite (io_no_faults _ _ _ Ho). simpl. rewrite Hrow, Horow. simpl. set (sg := MkSaga _ _ _ _ _ _ _ _ _). set (w1 := World _ _).
    assert (Hway : on_the_way order m sg (w_st w1)).
    { right. split_and!; [done|by left| |].
      - split; [by exists orow|]. simpl. rewrite lookup_insert_eq. by eexists.
      - split_and!; [done|done|simpl; lia|done]. }
    assert (Hgas : (gas sg order <= saga_fuel order)%nat) by (unfold gas, saga_fuel; simpl; lia).
    pose proof (process_loop_recovers (saga_fuel order) order m sg key Hgas o w1 Ho Hway) as H.
    destruct (process_loop _ sg order key o w1) as [[e|r] w']; [done|]. destruct H as [-> Hout]. by exists w'.
Qed.
(** ** What a crash leaves *)

Context `{CS : !PaymentsStay (E:=E)}.

Section Crash.
Context (order : Order).

(** The part of [recoverable] that speaks about the other services. *)
Definition near s : Prop :=
  calm_inv (t_ext s) /\ is_Some (t_orders s !! o_ID order) /\ exists m, nearly order m (t_ext s).

Lemma near_sagas s g : near s -> near (set_sagas g s).
Proof. done. Qed.

Lemma near_status s id row st t : near s -> t_orders s !! id = Some row ->
  near (set_orders (<[id := MkOrderRow (or_UserID row) (or_TotalAmount row) st (or_CreatedAt row) t]> (t_orders s)) s).
Proof. intros (Hinv & Hord & Hn) _. split_and!; [done| |done]. simpl. by apply lookup_insert_is_Some'; right. Qed.

Lemma Execute_near st saga key o w :
  fine order (t_ext (w_st w)) saga -> ready st saga -> near (w_st w) -> near (w_st (snd (Execute st saga order key o w))).
Proof.
  intros (_ & _ & Hok) Hready Hnear. unfold saga_ok in Hok. rewrite Hready in Hok.
  pose proof (fun id st' => frame_UpdateStatus near id st' near_status) as Hup. destruct st; simpl.
  - apply (pres_bind near); [apply Hup|intros; apply pres_ret|done].
  - unfold reserveInventoryStep_Execute. destruct (o_Items order !! _) as [item|] eqn:Hi; [|done].
    unfold bind. destruct (ext _ o w) as [r w'] eqn:Hext. apply ext_run in Hext as (w1 & Hres & Hw').
    destruct Hnear as (Hinv & Hord & m & Hn).
    eapply (Reserve_nearly order m) in Hres as [Hinv' Hn']; [|done|done|apply Hok|done].
    assert (near (w_st w')); [|by destruct r]. rewrite Hw'. split_and!; [done|done|by eexists].
  - unfold processPaymentStep_Execute, bind. destruct (ext _ o w) as [r w'] eqn:Hext. apply ext_run in Hext as (w1 & Hpay & Hw').
    destruct Hnear as (Hinv & Hord & m & Ht & Hh).
    pose proof (fun p q => Pay_keeps_holds (o_ID order) p q (oid_text order) (o_TotalAmount order) (paymentKey key) o
      (World (w_tick w) (t_ext (w_st w)))) as Hkp. unfold oid_text in Hkp. rewrite Hpay in Hkp.
    apply Pay_only in Hpay as [Hinv' Hsub]; [|done].
    assert (near (w_st w')); [|by destruct r]. rewrite Hw'. split_and!; [done|done|]. exists m. split.
    + intros p q Hp. by apply Ht, Hsub.
    + eapply Forall_impl; [exact Hh|]. intros item. apply Hkp.
  - apply (pres_bind near); [apply Hup|intros; apply pres_ret|done].
Qed.

Lemma piece_near key p o w :
  compensates p = false -> pc_fine order (t_ext (w_st w)) p -> near (w_st w) -> near (w_st (snd (piece order key p o w))).
Proof.
  intros Hc Hp Hn. pose proof (fun sg => frame_persist near sg near_sagas) as Hsave. pose proof (fun id st => frame_UpdateStatus near id st near_status) as Hup.
  pose proof (fun sg => frame_Create near sg near_sagas) as Hcreate.
  destruct p as [| |saga|st saga n|saga|st saga err|plan saga|saga|saga|res].
  4: { destruct Hp as [Hf Hready]. pose proof (Execute_near st saga key o w Hf Hready Hn) as Hx. simpl. unfold bind, attempt.
       destruct (Execute st saga order key o w) as [[err|sg] w1]; destruct n as [|[|n]]; done. }
  all: enough (Hpres : pres near (piece order key _)) by (by apply Hpres); simpl; unfold SagaRepo_GetByOrderID, saveSaga; auto 20 with go_pres.
  by destruct plan; [apply pres_ret|].
Qed.

Lemma near_step (s s' : racing (E:=E)) : race_fine order s -> near (ra_st s) -> same_step order true s s' -> near (ra_st s').
Proof.
  intros [_ Hths] Hn Hs. inversion Hs as [st ths key|st ths i key p o n q w' Hi Hp Hc|st ths new o n r w' Hu]; subst; simpl in *; [done| |].
  - apply negb_true_iff in Hc. pose proof (piece_near key p o (World n st) Hc (Hths _ _ _ Hi) Hn) as H. by rewrite Hp in H.
  - pose proof (frame_UpdateStatus near (o_ID order) new near_status o (World n st) Hn) as H. by rewrite Hu in H.
Qed.

Lemma crash_recoverable s0 (c : crowd (E:=E)) :
  row_fine order s0 -> near s0 -> reads_back order s0 -> rtc (race_step order true) (MkCrowd s0 []) c -> recoverable order (cr_st c).
Proof.
  intros Hrow Hnear Hback [Hrun _]%race_same; [|done]. change (cr_st c) with (ra_st (forget c)). revert Hrun. generalize (forget c). clear c.
  intros s Hrun. enough (H : race_fine order s /\ near (ra_st s)).
  { destruct H as [[Hr _] (? & ? & ?)]. split_and!; [done|done| |done]. intros row Hr'. by apply recorded_ok, Hr. }
  revert s Hrun. apply rtc_ind_r; [by split|]. intros a b _ Hab [Hf Hn]. split; [by eapply race_fine_step|by eapply near_step].
Qed.

Lemma fresh_near s : calm_inv (t_ext s) -> is_Some (t_orders s !! o_ID order) -> no_holds order s -> near s.
Proof.
  intros Hinv Hord Hno. split_and!; [done|done|]. exists 0%nat. split; [|constructor]. intros p q Hh. by apply Hno in Hh.
Qed.
End Crash.

(** ** One order does not disturb another *)

Lemma pres_bind_ok {A B} (I : OrderSt E -> Prop) (m : M (OrderSt E) A) (k : A -> M (OrderSt E) B) :
  pres I m -> (forall a o w w', m o w = (inr a, w') -> pres I (k a)) -> pres I (bind m k).
Proof.
  intros Hm Hk o w HI. unfold bind. specialize (Hm o w HI). destruct (m o w) as [[e|a] w'] eqn:Hr; [done|]. by apply (Hk a o w w').
Qed.

(** Every saga value of a run belongs to the order it started with. *)
Lemma persistSaga_id saga o w sr w' : persistSaga saga o w = (inr sr, w') -> s_OrderID (fst sr) = s_OrderID saga.
Proof. unfold persistSaga. intros (t & w1 & _ & (r & w2 & _ & H)%bind_ok)%bind_ok. unfold ret in H. by simplify_eq. Qed.

Lemma Execute_id st saga order key o w sg w' : Execute st saga order key o w = (inr sg, w') -> s_OrderID sg = s_OrderID saga.
Proof.
  destruct st; simpl.
  - intros (u & w1 & _ & H)%bind_ok. unfold ret in H. by simplify_eq.
  - unfold reserveInventoryStep_Execute. destruct (o_Items order !! _); [|unfold ret; intros; by simplify_eq].
    intros (u & w1 & _ & H)%bind_ok. unfold ret in H. by simplify_eq.
  - intros (u & w1 & _ & H)%bind_ok. unfold ret in H. by simplify_eq.
  - intros (u & w1 & _ & H)%bind_ok. unfold ret in H. by simplify_eq.
Qed.

Lemma Prepare_id st saga saga' : Prepare st saga = Some saga' -> s_OrderID saga' = s_OrderID saga.
Proof. unfold Prepare. destruct st; try done; case_bool_decide; intros; by simplify_eq. Qed.

Lemma prepared_id st saga o w saga1 w' :
  (match Prepare st saga with
   | None => ret saga
   | Some saga' => let* sr := persistSaga saga' in match snd sr with inl e => throw e | inr _ => ret (fst sr) end
   end) o w = (inr saga1, w') -> s_OrderID saga1 = s_OrderID saga.
Proof.
  destruct (Prepare st saga) as [saga'|] eqn:Hp; [|unfold ret; intros; by simplify_eq].
  intros (sr & w2 & Hs%persistSaga_id & H1)%bind_ok. destruct (snd sr); [done|]. unfold ret in H1. simplify_eq.
  rewrite Hs. by eapply Prepare_id.
Qed.

Lemma process_step_id st saga order key o w sg w' :
  process_step st saga order key o w = (inr (Some sg), w') -> s_OrderID sg = s_OrderID saga.
Proof.
  unfold process_step. intros (saga1 & w1 & Hid%prepared_id & H)%bind_ok.
  apply bind_ok in H as (r & w2 & Hx & H). unfold attempt in Hx. destruct (executeWithRetry st saga1 order key o w1) as [r' w3] eqn:Hr.
  injection Hx as <- <-. destruct r' as [err|sg1].
  - apply bind_ok in H as (u & w4 & _ & H). unfold ret in H. by simplify_eq.
  - apply retry_ok in Hr as (w4 & Hr%Execute_id). apply bind_ok in H as (sr & w5 & Hs%persistSaga_id & H).
    destruct (snd sr); [done|]. unfold ret in H. simplify_eq. congruence.
Qed.

(** What concerns order [b] is the same in the two states. *)
Definition untouched (b : UUID) s0 s : Prop :=
  t_orders s !! b = t_orders s0 !! b /\ t_sagas s !! b = t_sagas s0 !! b /\ t_items s = t_items s0 /\
  forall p q, holds_at (t_ext s) b p q <-> holds_at (t_ext s0) b p q.

Section Others.
Context (mine : UUID) (s0 : OrderSt E).

(** What concerns the other orders is as it was in [s0]. *)
Definition others_same s : Prop := calm_inv (t_ext s) /\ forall b, b ≠ mine -> untouched b s0 s.

(** A call that leaves the holds of the others alone. *)
Lemma others_ext {A} (m : M E A) :
  (forall o (w : world E) r (w' : world E), calm_inv (w_st w) -> m o w = (r, w') ->
     calm_inv (w_st w') /\ forall b p q, b ≠ mine -> holds_at (w_st w') b p q <-> holds_at (w_st w) b p q) ->
  pres others_same (ext m).
Proof.
  intros Hm o w [Hinv Hb]. destruct (ext m o w) as [r w'] eqn:Hext. apply ext_run in Hext as (w1 & Hrun & Hw').
  apply Hm in Hrun as [Hinv' Hiff]; [|done]. simpl. rewrite Hw'. split; [done|]. intros b Hne. destruct (Hb b Hne) as (H1 & H2 & H3 & Hh).
  split_and!; [done..|]. intros p q. simpl. rewrite Hiff by done. apply Hh.
Qed.

Lemma others_UpdateStatus id st : id = mine -> pres others_same (OrderRepo_UpdateStatus id st).
Proof.
  intros Hne. unfold OrderRepo_UpdateStatus. apply pres_bind; [apply pres_now|intros t].
  apply pres_bind; [|intros n; destruct (n =? 0); auto with go_pres].
  apply pres_wrap_err, pres_io. intros s [Hinv Hb]. destruct (t_orders s !! id); [|done].
  destruct (valid_status st); [|done]. split; [done|]. intros b Hne'. destruct (Hb b Hne') as (H1 & H2 & H3 & Hh).
  split_and!; simpl; [rewrite lookup_insert_ne; congruence|done..].
Qed.

Lemma others_persist saga : s_OrderID saga = mine -> pres others_same (persistSaga saga).
Proof.
  intros Hne. unfold persistSaga, SagaRepo_Save. apply pres_bind; [apply pres_now|intros t].
  apply pres_bind; [|intros; apply pres_ret]. apply pres_attempt, pres_bind; [apply pres_now|intros t'].
  apply pres_bind; [|intros n; destruct (n =? 0); auto with go_pres].
  apply pres_wrap_err, pres_io. intros s [Hinv Hb]. simpl. destruct (t_sagas s !! s_OrderID saga); [|done].
  split; [done|]. intros b Hne'. destruct (Hb b Hne') as (H1 & H2 & H3 & Hh). split_and!; simpl; [done|rewrite lookup_insert_ne; congruence|done..].
Qed.

Context (order : Order) (key : string) (Hmine : o_ID order = mine).

Lemma others_Reserve p q k : pres others_same (ext (cl_Reserve (uuid_String p) q (uuid_String (o_ID order)) k)).
Proof.
  apply others_ext. intros o w r w' Hinv Hrun. pose proof Hrun as H. apply Reserve_only in H as [Hinv' Honly]; [|done].
  split; [done|]. intros b p' q' Hne. split; [intros Hh; by destruct (Honly _ _ _ Hh) as [?|[-> _]]|].
  intros Hh. pose proof (Reserve_keeps_holds b p' q' (uuid_String p) q (uuid_String (o_ID order)) k o w Hh) as H. by rewrite Hrun in H.
Qed.

Lemma others_Release p q k : pres others_same (ext (cl_Release p q (uuid_String (o_ID order)) k)).
Proof.
  apply others_ext. intros o w r w' Hinv Hrun. apply Release_only in Hrun as [Hinv' Hh]; [|done]. split; [done|].
  intros b p' q' Hne. destruct (Hh b p' q') as [H1 H2]. split; [done|]. apply H2. congruence.
Qed.

Lemma others_Pay oid a k : pres others_same (ext (cl_ProcessPayment oid a k)).
Proof.
  apply others_ext. intros o w r w' Hinv Hrun. pose proof Hrun as H. apply Pay_only in H as [Hinv' Honly]; [|done].
  split; [done|]. intros b p' q' _. split; [apply Honly|].
  intros Hh. pose proof (Pay_keeps_holds b p' q' oid a k o w Hh) as H. by rewrite Hrun in H.
Qed.

Lemma others_Refund pid k : pres others_same (ext (cl_Refund pid k)).
Proof. apply others_ext. intros o w r w' Hinv Hrun. apply Refund_only in Hrun as [Hinv' Hh]; [|done]. split; [done|]. intros b p q _. apply Hh. Qed.

#[local] Hint Resolve others_Reserve others_Release others_Pay others_Refund others_UpdateStatus others_persist : go_pres.

Lemma others_release_all l : pres others_same (release_all (uuid_String (o_ID order)) l).
Proof. induction l; simpl; auto 10 with go_pres. Qed.
#[local] Hint Resolve others_release_all : go_pres.

Lemma others_Compensate st saga : pres others_same (compensateWithRetry st saga order key).
Proof.
  apply pres_retry. destruct st; simpl; unfold reserveInventoryStep_Compensate, processPaymentStep_Compensate; auto 10 with go_pres.
Qed.

Lemma others_Execute st saga : pres others_same (executeWithRetry st saga order key).
Proof.
  apply pres_retry. destruct st; simpl; unfold startStep_Execute, reserveInventoryStep_Execute, processPaymentStep_Execute,
    confirmOrderStep_Execute; auto 10 with go_pres.
Qed.
#[local] Hint Resolve others_Compensate others_Execute : go_pres.

Lemma others_plan plan saga : pres others_same (compensate_plan plan saga order key).
Proof. induction plan; simpl; auto 10 with go_pres. Qed.
#[local] Hint Resolve others_plan : go_pres.

Lemma others_failure saga st err : s_OrderID saga = mine -> pres others_same (handleStepFailure saga order st key err).
Proof.
  intros Hs. unfold handleStepFailure, saveSaga. case_bool_decide.
  - apply pres_bind; [by apply others_persist|auto with go_pres].
  - apply pres_bind_ok; [by apply others_persist|]. intros sr o w w' Hsr%persistSaga_id.
    assert (s_OrderID (fst sr) = mine) by (rewrite Hsr; exact Hs). auto 20 with go_pres.
Qed.

Lemma others_step st saga : s_OrderID saga = mine -> pres others_same (process_step st saga order key).
Proof.
  intros Hs. unfold process_step. apply pres_bind_ok.
  - destruct (Prepare st saga) as [saga'|] eqn:Hp; [|apply pres_ret].
    assert (s_OrderID saga' = mine) by (rewrite (Prepare_id _ _ _ Hp); exact Hs). auto with go_pres.
  - intros saga1 o w w' Hid%prepared_id. rewrite <- Hid in Hs. apply pres_bind_ok; [auto with go_pres|]. intros [err|sg] o1 w1 w2 Hx.
    + apply pres_bind; [by apply others_failure|auto with go_pres].
    + unfold attempt in Hx. destruct (executeWithRetry st saga1 order key o1 w1) as [r' w3] eqn:Hr. injection Hx as -> _.
      apply retry_ok in Hr as (w4 & Hr%Execute_id). assert (s_OrderID sg = mine) by congruence. auto with go_pres.
Qed.

Lemma others_loop fuel saga : s_OrderID saga = mine -> pres others_same (process_loop fuel saga order key).
Proof.
  revert saga. induction fuel as [|n IH]; intros saga Hs; simpl; [apply pres_ret|]. destruct (nextStep saga) as [st|]; [|apply pres_ret].
  apply pres_bind_ok; [by apply others_step|]. intros [sg|] o w w' Hstep; [|apply pres_ret]. apply process_step_id in Hstep.
  apply IH. congruence.
Qed.

Lemma others_ProcessOrder : pres others_same (ProcessOrder order key).
Proof.
  unfold ProcessOrder. assert (Hcreate : forall sg, s_OrderID sg = mine -> pres others_same (SagaRepo_Create sg)).
  { intros sg Hne. apply pres_wrap_err, pres_io. intros s [Hinv Hb]. destruct (t_sagas s !! s_OrderID sg); [done|].
    destruct (t_orders s !! s_OrderID sg); [|done]. split; [done|]. intros b Hne'. destruct (Hb b Hne') as (H1 & H2 & H3 & Hh).
    split_and!; simpl; [done|rewrite lookup_insert_ne; congruence|done..]. }
  apply pres_bind_ok.
  - unfold get_or_create_saga, SagaRepo_GetByOrderID. apply pres_bind; [apply pres_attempt, pres_read|intros [err|sg]; [|apply pres_ret]].
    destruct (negb _); [apply pres_throw|]. do 3 (apply pres_bind; [auto with go_pres|intros ?]).
    apply pres_bind; [by apply pres_wrap_err, Hcreate|intros; apply pres_ret].
  - intros saga o w w' Hget. destruct (isTerminal saga); [apply pres_ret|]. apply others_loop.
    enough (s_OrderID saga = o_ID order) by congruence. unfold get_or_create_saga in Hget.
    apply bind_ok in Hget as (r & w1 & Hr & Hget). unfold attempt in Hr. destruct (SagaRepo_GetByOrderID (o_ID order) o w) as [r' w2] eqn:Hg.
    injection Hr as <- <-. destruct r' as [err|sg].
    + destruct (negb _); [done|]. apply bind_ok in Hget as (id & w3 & _ & Hget). apply bind_ok in Hget as (t1 & w4 & _ & Hget).
      apply bind_ok in Hget as (t2 & w5 & _ & Hget). apply bind_ok in Hget as (u & w6 & _ & Hget). unfold ret in Hget. by simplify_eq.
    + unfold ret in Hget. simplify_eq. apply read_inv in Hg as [_ Hg]. specialize (Hg _ eq_refl).
      destruct (t_sagas (w_st w) !! o_ID order); [|done]. by simplify_eq.
Qed.
End Others.

(** ** The recovery pass *)

Lemma stored_order_ID id s order : stored_order id s = Some order -> o_ID order = id.
Proof. unfold stored_order. destruct (t_orders s !! id); [|done]. intros H. by simplify_eq/=. Qed.

(** The order of [id] waits for a recovery that can conclude it. *)
Definition waiting s (id : UUID) : Prop :=
  exists order, stored_order id s = Some order /\ recoverable order s /\ unfinished order s.

Definition settled (id : UUID) s : Prop := exists order, o_ID order = id /\ concluded order s.

#[local] Instance untouched_preorder b : PreOrder (untouched b).
Proof.
  split; [by intros s; split_and!|]. intros s1 s2 s3 (A1 & A2 & A3 & A4) (B1 & B2 & B3 & B4).
  split_and!; [congruence..|]. intros p q. by rewrite B4.
Qed.

Lemma untouched_reserved order s s' k l :
  untouched (o_ID order) s s' -> reserved_prefix order (t_ext s) k l -> reserved_prefix order (t_ext s') k l.
Proof. intros (_ & _ & _ & Hh) [Hl HF]. split; [done|]. eapply Forall_impl; [exact HF|]. intros item. apply Hh. Qed.

Lemma untouched_waiting id s s' : calm_inv (t_ext s') -> untouched id s s' -> waiting s id -> waiting s' id.
Proof.
  intros A4 HA (order & Hst & (Hinv & Hord & Hrec & m & Ht & Hh) & Hun). pose proof (stored_order_ID _ _ _ Hst) as <-.
  pose proof HA as (A1 & A2 & A3 & A5). exists order. split_and!.
  - unfold stored_order, items_of in *. by rewrite A1, A3.
  - split_and!; [done|by rewrite A1| |exists m; split].
    + rewrite A2. intros row Hrow. specialize (Hrec row Hrow). unfold recorded in *.
      destruct (s_Status _); try done; by eapply untouched_reserved.
    + intros p q Hp. by apply Ht, A5.
    + eapply Forall_impl; [exact Hh|]. intros item. apply A5.
  - unfold unfinished, row_status in *. by rewrite A2.
Qed.

Lemma untouched_settled id s s' : untouched id s s' -> settled id s -> settled id s'.
Proof.
  intros (A1 & A2 & _ & A5) (order & <- & Hc). exists order. split; [done|].
  unfold concluded, confirmed_paid, cancelled_clean, order_paid in *. rewrite A1, A2. destruct Hc as [Hc|(H1 & H2 & H3)]; [by left|right].
  split_and!; [done|done|]. intros p q Hh. by apply (H3 p q), A5.
Qed.

(** Recovering a saga leaves the other orders alone, whatever state it is in and
    whatever fails. *)
Lemma recover_saga_others sg o w :
  calm_inv (t_ext (w_st w)) ->
  exists w', recover_saga sg o w = (inr tt, w') /\ others_same (s_OrderID sg) (w_st w) (w_st w').
Proof.
  intros Hinv. assert (H0 : others_same (s_OrderID sg) (w_st w) (w_st w)) by (split; [done|]; by intros b _).
  unfold recover_saga, bind, attempt. destruct (OrderRepo_GetByID (s_OrderID sg) o w) as [[e|order] w1] eqn:Hg.
  - exists w1. split; [done|]. apply read_inv in Hg as [Hw _]. by rewrite Hw.
  - destruct w as [n st]. pose proof Hg as (Hw & Hst)%stored_order_read. apply stored_order_ID in Hst.
    set (key := recoveryIdempotencyKey (uuid_String (s_OrderID sg))).
    pose proof (others_ProcessOrder (s_OrderID sg) st order key Hst o w1) as HA. rewrite Hw in HA. specialize (HA H0).
    destruct (ProcessOrder order key o w1) as [r w']. by exists w'.
Qed.

Lemma recover_saga_settles sg o w w' :
  no_faults o -> waiting (w_st w) (s_OrderID sg) -> recover_saga sg o w = (inr tt, w') -> settled (s_OrderID sg) (w_st w').
Proof.
  intros Ho (order & Hst & Hrec & Hun). pose proof (stored_order_ID _ _ _ Hst) as Hid.
  assert (Hget : OrderRepo_GetByID (s_OrderID sg) o w = (inr order, next w)).
  { unfold OrderRepo_GetByID. rewrite (read_no_faults _ _ _ Ho). unfold stored_order in Hst.
    destruct (t_orders (w_st w) !! s_OrderID sg); [|done]. by simplify_eq/=. }
  destruct (ProcessOrder_recovers order (recoveryIdempotencyKey (uuid_String (s_OrderID sg))) o (next w) Ho Hrec Hun) as (w1 & Hrun & Hc).
  unfold recover_saga, bind, attempt. rewrite Hget, Hrun. intros [= <-]. by exists order.
Qed.

(** The order of [id] has a saga that is being compensated. *)
Definition stuck s (id : UUID) : Prop := exists row, t_sagas s !! id = Some row /\ sr_Status row = SagaStatusCompensating.

Lemma recover_saga_stuck sg o w w' : stuck (w_st w) (s_OrderID sg) -> recover_saga sg o w = (inr tt, w') -> w_st w' = w_st w.
Proof.
  intros (row & Hrow & Hst). unfold recover_saga, bind, attempt. destruct w as [n st].
  destruct (OrderRepo_GetByID (s_OrderID sg) o (World n st)) as [[e|order] w1] eqn:Hg.
  - intros [= <-]. by apply read_inv in Hg as [Hw _].
  - apply stored_order_read in Hg as [Hw Hso]. apply stored_order_ID in Hso. set (key := recoveryIdempotencyKey _).
    pose proof (compensating_unchanged order key o w1 row) as Hsame. rewrite Hw, Hso in Hsame. specialize (Hsame Hrow Hst).
    destruct (ProcessOrder order key o w1) as [r w2]. by intros [= <-].
Qed.

Lemma recover_all_runs sagas o w :
  no_faults o -> calm_inv (t_ext (w_st w)) -> NoDup (s_OrderID <$> sagas) ->
  exists w', recover_all sagas o w = (inr tt, w') /\
    (forall sg, sg ∈ sagas -> waiting (w_st w) (s_OrderID sg) -> settled (s_OrderID sg) (w_st w')) /\
    (forall sg, sg ∈ sagas -> stuck (w_st w) (s_OrderID sg) -> untouched (s_OrderID sg) (w_st w) (w_st w')) /\
    forall b, b ∉ (s_OrderID <$> sagas) -> untouched b (w_st w) (w_st w').
Proof.
  intros Ho. revert w. induction sagas as [|sg sagas IH]; intros w Hinv Hnd; simpl.
  { exists w. split_and!; [done|by intros sg Hsg%not_elem_of_nil..|by intros b _]. }
  apply NoDup_cons in Hnd as [Hfresh Hnd]. destruct (recover_saga_others sg o w Hinv) as (w1 & H1 & Hinv1 & Hsame).
  destruct (IH w1 Hinv1 Hnd) as (w' & Hrun & Hset & Hstk & Hrest). exists w'. unfold bind. rewrite H1.
  assert (Hne : forall sg', sg' ∈ sagas -> s_OrderID sg' ≠ s_OrderID sg).
  { intros sg' Hin Heq. apply Hfresh. rewrite <- Heq. by apply list_elem_of_fmap_2. }
  split_and!; [done| | |].
  - intros sg' [->|Hin]%elem_of_cons Hw.
    + eapply untouched_settled; [by apply Hrest|by eapply recover_saga_settles].
    + apply Hset; [done|]. eapply untouched_waiting; [done|by apply Hsame, Hne|done].
  - intros sg' [->|Hin]%elem_of_cons Hw.
    + rewrite <- (recover_saga_stuck _ _ _ _ Hw H1). by apply Hrest.
    + pose proof (Hsame _ (Hne _ Hin)) as Hu. transitivity (w_st w1); [exact Hu|]. apply Hstk; [done|].
      unfold stuck. destruct Hu as (_ & -> & _). exact Hw.
  - intros b Hb. apply not_elem_of_cons in Hb as [Hb1 Hb2]. transitivity (w_st w1); [by apply Hsame|by apply Hrest].
Qed.

(** *** A crash and the recovery after it *)

Lemma recoverable_same order order' s :
  o_ID order' = o_ID order -> o_Items order' = o_Items order -> recoverable order s -> recoverable order' s.
Proof.
  intros Hid Hit. unfold recoverable, recorded, nearly, tracked, item_held, all_reserved, reserved_prefix. by rewrite Hid, Hit.
Qed.

Lemma crash_waiting order s0 (c : crowd (E:=E)) row :
  calm_inv (t_ext s0) -> reads_back order s0 -> t_sagas s0 !! o_ID order = None -> no_holds order s0 ->
  rtc (race_step order true) (MkCrowd s0 []) c ->
  t_sagas (cr_st c) !! o_ID order = Some row -> forward (sr_Status row) = true -> sr_Status row ≠ SagaStatusConfirmed ->
  waiting (cr_st c) (o_ID order).
Proof.
  intros Hinv Hback Hnone Hno Hrun Hrow Hfw Hnc.
  assert (Hord : is_Some (t_orders s0 !! o_ID order)).
  { destruct Hback as (ord & Hst & _). unfold stored_order in Hst. by destruct (t_orders s0 !! o_ID order). }
  assert (Hrec : recoverable order (cr_st c)).
  { eapply crash_recoverable; [|by apply fresh_near|done|exact Hrun]. intros r Hr. congruence. }
  apply race_same in Hrun as [_ Hkept]; [|done]. destruct (proj1 (proj2 Hrec)) as [orow Horow].
  destruct (stored_order (o_ID order) (cr_st c)) as [order'|] eqn:Hso; [|unfold stored_order in Hso; by rewrite Horow in Hso].
  destruct (kept_same_lines _ _ _ _ Hback Hkept Hso) as (Hid & Hit & _).
  exists order'. split_and!; [done|by eapply recoverable_same|]. intros r Hr. rewrite Hid, Hrow in Hr. by injection Hr as <-.
Qed.

(** A crash can be recovered from. Any number of requests and recovery passes of
    order-service process a new order, call by call, with any failures, and all stop
    wherever they are, as long as none compensates.  If they leave an unfinished saga,
    recovering it without failures concludes the order: confirmed and paid, or
    cancelled with nothing held.  The request has the items in the order in which the
    repository returns them, as for a single item. *)
Theorem crashed_order_concludes order s0 (c : crowd (E:=E)) row o t :
  calm_inv (t_ext s0) -> reads_back order s0 -> t_sagas s0 !! o_ID order = None -> no_holds order s0 ->
  rtc (race_step order true) (MkCrowd s0 []) c ->
  t_sagas (cr_st c) !! o_ID order = Some row -> forward (sr_Status row) = true -> sr_Status row ≠ SagaStatusConfirmed -> no_faults o ->
  exists w', recover_saga (saga_of_row (o_ID order) row) o (World t (cr_st c)) = (inr tt, w') /\ settled (o_ID order) (w_st w').
Proof.
  intros Hinv Hst Hnone Hno Hrun Hrow Hfw Hnc Ho.
  assert (Hw : waiting (cr_st c) (o_ID order)) by (by apply (crash_waiting order s0 c row)).
  assert (Hinv' : calm_inv (t_ext (cr_st c))) by (by destruct Hw as (ord & _ & (Hc & _) & _)).
  destruct (recover_saga_others (saga_of_row (o_ID order) row) o (World t (cr_st c)) Hinv') as (w' & Hr & _).
  exists w'. split; [done|]. exact (recover_saga_settles (saga_of_row (o_ID order) row) o (World t (cr_st c)) w' Ho Hw Hr).
Qed.

(** *** What the pass lists *)

Definition listed s : list Saga := take 100 (incomplete_sagas s).

Lemma elem_of_incomplete s sg :
  sg ∈ incomplete_sagas s <->
  exists id row, t_sagas s !! id = Some row /\ incomplete (sr_Status row) = true /\ sg = saga_of_row id row.
Proof.
  unfold incomplete_sagas. rewrite merge_sort_Permutation, list_elem_of_filter, list_elem_of_fmap. split.
  - intros [Hi ([id row] & -> & Hin%elem_of_map_to_list)]. by exists id, row.
  - intros (id & row & Hrow & Hi & ->). split; [done|]. exists (id, row). split; [done|]. by apply elem_of_map_to_list.
Qed.

Lemma listed_NoDup s : NoDup (s_OrderID <$> listed s).
Proof.
  unfold listed. rewrite fmap_take. apply (sublist_NoDup _ (s_OrderID <$> incomplete_sagas s)); [|apply sublist_take].
  unfold incomplete_sagas. rewrite merge_sort_Permutation.
  eapply sublist_NoDup; [|apply fmap_sublist, sublist_filter].
  rewrite <- list_fmap_compose. apply (NoDup_fst_map_to_list (t_sagas s)).
Qed.

Lemma listed_unfinished s sg order :
  sg ∈ listed s -> s_Status sg ≠ SagaStatusCompensating -> o_ID order = s_OrderID sg -> unfinished order s.
Proof.
  intros (id & row & Hrow & Hi & ->)%subseteq_take%elem_of_incomplete Hst Hid row' Hrow'. rewrite Hid in Hrow'. simpl in *.
  rewrite Hrow in Hrow'. injection Hrow' as <-. by destruct (sr_Status row).
Qed.

(** A table with a single saga lists no other. *)
Lemma sole_saga s id sg : (map_to_list (t_sagas s)).*1 = [id] -> sg ∈ incomplete_sagas s -> s_OrderID sg = id.
Proof.
  intros Hone (id' & row & Hrow & _ & ->)%elem_of_incomplete. simpl.
  assert (Hid : id' ∈ (map_to_list (t_sagas s)).*1).
  { apply list_elem_of_fmap. exists (id', row). split; [done|]. by apply elem_of_map_to_list. }
  rewrite Hone in Hid. by apply list_elem_of_singleton in Hid.
Qed.

Lemma settled_complete id s row : settled id s -> t_sagas s !! id = Some row -> incomplete (sr_Status row) = false.
Proof.
  intros (order & <- & [[(r & Hr & Hst) _]|[(r & Hr & Hst) _]]) Hrow; rewrite Hr in Hrow; injection Hrow as <-; by rewrite Hst.
Qed.

(** A listed saga that is not being compensated and whose order is recoverable. *)
Lemma listed_waiting s sg order :
  sg ∈ listed s -> s_Status sg ≠ SagaStatusCompensating -> stored_order (s_OrderID sg) s = Some order -> recoverable order s ->
  waiting s (s_OrderID sg).
Proof.
  intros Hin Hst Hso Hrec. exists order. split_and!; [done|done|]. eapply listed_unfinished; [exact Hin|exact Hst|by eapply stored_order_ID].
Qed.

Lemma listed_stuck s sg : sg ∈ listed s -> s_Status sg = SagaStatusCompensating -> stuck s (s_OrderID sg).
Proof. intros (id & row & Hrow & Hi & ->)%subseteq_take%elem_of_incomplete Hst. by exists row. Qed.

Lemma Recover_runs o w :
  no_faults o -> calm_inv (t_ext (w_st w)) ->
  exists w', Recover o w = (inr tt, w') /\
    (forall sg, sg ∈ listed (w_st w) -> waiting (w_st w) (s_OrderID sg) -> settled (s_OrderID sg) (w_st w')) /\
    (forall sg, sg ∈ listed (w_st w) -> stuck (w_st w) (s_OrderID sg) -> untouched (s_OrderID sg) (w_st w) (w_st w')) /\
    (forall id, id ∉ (s_OrderID <$> listed (w_st w)) -> untouched id (w_st w) (w_st w')).
Proof.
  intros Ho Hinv. destruct (recover_all_runs (listed (w_st w)) o (next w) Ho Hinv (listed_NoDup _)) as (w' & Hrun & Hrest).
  exists w'. split; [|exact Hrest]. unfold Recover, SagaRepo_ListIncomplete, bind, wrap_err. rewrite (read_no_faults _ _ _ Ho). exact Hrun.
Qed.

(** What a pass over waiting and stuck sagas leaves to do. *)
Lemma left_unfinished s s' :
  (length (incomplete_sagas s) <= 100)%nat ->
  (forall sg, sg ∈ listed s -> s_Status sg = SagaStatusCompensating \/ settled (s_OrderID sg) s') ->
  (forall sg, sg ∈ listed s -> s_Status sg = SagaStatusCompensating -> untouched (s_OrderID sg) s s') ->
  (forall id, id ∉ (s_OrderID <$> listed s) -> untouched id s s') ->
  forall sg, sg ∈ incomplete_sagas s' <-> sg ∈ incomplete_sagas s /\ s_Status sg = SagaStatusCompensating.
Proof.
  intros Hlen Hset Hstk Hsame sg. assert (Hl : listed s = incomplete_sagas s) by (unfold listed; by rewrite take_ge).
  rewrite Hl in *. rewrite !elem_of_incomplete. split.
  - intros (id & row & Hrow & Hi & ->). simpl. destruct (decide (id ∈ (s_OrderID <$> incomplete_sagas s))) as [(sg & -> & Hin)%list_elem_of_fmap|Hout].
    + destruct (Hset sg Hin) as [Hst|Hs]; [|by rewrite (settled_complete _ _ _ Hs Hrow) in Hi].
      destruct (Hstk sg Hin Hst) as (_ & Hr & _). rewrite Hr in Hrow. split; [by eexists _, row|].
      apply elem_of_incomplete in Hin as (id & row' & Hrow' & _ & ->). simpl in *. congruence.
    + destruct (Hsame id Hout) as (_ & Hr & _). rewrite Hr in Hrow. exfalso. apply Hout, list_elem_of_fmap.
      exists (saga_of_row id row). split; [done|]. apply elem_of_incomplete. by exists id, row.
  - intros [(id & row & Hrow & Hi & ->) Hst]. exists id, row. split_and!; [|done|done].
    assert (Hin : saga_of_row id row ∈ incomplete_sagas s) by (apply elem_of_incomplete; by exists id, row).
    destruct (Hstk _ Hin Hst) as (_ & Hr & _). simpl in Hr. by rewrite Hr.
Qed.

(** C5. What a recovery pass without failures does, when the tables of the other services are
    consistent.  It never fails.  A saga that it lists, that is not being compensated and
    whose order is recoverable (what is held for it is a prefix of its items, perhaps
    with the next one, and includes what the saga records), is concluded: the order is
    paid and its saga confirmed, or both are cancelled and nothing is held for the
    order.  A saga that is being compensated stays as it is, with the order and its
    holds.  Whatever the listed sagas are, what belongs to orders that are not listed
    stays as it was.  When every unfinished saga is listed and is of one of the two
    kinds, the sagas being compensated are exactly those left unfinished. *)
Theorem Recover_completes o w :
  no_faults o -> calm_inv (t_ext (w_st w)) ->
  exists w', Recover o w = (inr tt, w') /\
    (forall sg order, sg ∈ listed (w_st w) -> s_Status sg ≠ SagaStatusCompensating ->
       stored_order (s_OrderID sg) (w_st w) = Some order -> recoverable order (w_st w) -> settled (s_OrderID sg) (w_st w')) /\
    (forall sg, sg ∈ listed (w_st w) -> s_Status sg = SagaStatusCompensating -> untouched (s_OrderID sg) (w_st w) (w_st w')) /\
    (forall id, id ∉ (s_OrderID <$> listed (w_st w)) -> untouched id (w_st w) (w_st w')) /\
    ((length (incomplete_sagas (w_st w)) <= 100)%nat ->
     (forall sg, sg ∈ incomplete_sagas (w_st w) -> s_Status sg = SagaStatusCompensating \/
        exists order, stored_order (s_OrderID sg) (w_st w) = Some order /\ recoverable order (w_st w)) ->
     forall sg, sg ∈ incomplete_sagas (w_st w') <-> sg ∈ incomplete_sagas (w_st w) /\ s_Status sg = SagaStatusCompensating).
Proof.
  intros Ho Hinv. destruct (Recover_runs o w Ho Hinv) as (w' & Hrun & Hset & Hstk & Hsame).
  assert (Hstk' : forall sg, sg ∈ listed (w_st w) -> s_Status sg = SagaStatusCompensating -> untouched (s_OrderID sg) (w_st w) (w_st w')).
  { intros sg Hin Hst. apply Hstk; [done|]. by apply listed_stuck. }
  exists w'. split_and!; [done| |done|done|].
  - intros sg order Hin Hst Hso Hrec. apply Hset; [done|]. by eapply listed_waiting.
  - intros Hlen Hall. apply left_unfinished; [done| |done|done]. intros sg Hin.
    destruct (decide (s_Status sg = SagaStatusCompensating)) as [Hst|Hst]; [by left|right].
    destruct (Hall sg) as [?|(order & Hso & Hrec)]; [by apply subseteq_take in Hin|done|].
    apply Hset; [done|]. by eapply listed_waiting.
Qed.
End Recovery.

(** ** The in-memory services *)

#[global] Instance toy_crash `{U : UuidLib} `{HL : !UuidLaws} : SagaCrashLaws toy.
Proof.
  split.
  - intros p q oid k o w r w' _ H. split; [done|]. intros oid' p' q'. cbn in H. apply io_inv in H as [Hw'|Hw']; rewrite Hw'; [by left|].
    unfold toy_Reserve. case_bool_decide; [by left|]. destruct (10 <? q); simpl; [by left|].
    intros [Heq|?]%elem_of_cons; [|by left]. injection Heq as Ho' Hp' ->. apply uuid_String_inj in Ho', Hp'. by right.
  - intros p q oid k o w r w' Ho _ Hh H. cbn in H. rewrite (io_no_faults _ _ _ Ho) in H. unfold toy_Reserve in H.
    rewrite bool_decide_true in H by done. by injection H as <- _.
  - intros p q oid k o w r w' _ H. split; [done|]. intros oid' p' q'. cbn in H. apply io_inv in H as [Hw'|Hw']; rewrite Hw'; [done|].
    cbn. split; [by intros [_ Hh]%list_elem_of_filter|]. intros Hne Hh. apply list_elem_of_filter. split; [|done]. simpl.
    intros Heq. injection Heq as Heq _. by apply uuid_String_inj in Heq.
  - intros oid a k o w r w' _ H. split; [done|]. intros oid' p' q'. cbn in H. by apply io_inv in H as [Hw'|Hw']; rewrite Hw'.
  - intros pid k o w r w' _ H. split; [done|]. intros oid' p' q'. cbn in H. by apply io_inv in H as [Hw'|Hw']; rewrite Hw'.
Qed.

Section Samples.
Local Existing Instance uuid_text.
Local Existing Instance uuid_text_laws.

Definition alone : racing (E:=toy) := MkRacing small_st [("key", SBegin)].

(** The reply to the reservation is lost and the process stops: the item is held, the
    saga has not recorded it. *)
Definition crash_turns : list (nat * oracle) := takes 0 6 ++ [(0%nat, lost_at 0)].
Definition crashed : racing (E:=toy) := turns small crash_turns alone.

Example crashed_shown :
  (saga_status (ra_st crashed), order_status (ra_st crashed), held_units (ra_st crashed) pA) =
  (Some SagaStatusReserving, Some OrderStatusAwaitingPayment, 2).
Proof. vm_compute. reflexivity. Qed.

Definition crashed_crowd : crowd (E:=toy) := lift small crashed.

Lemma crashed_forward : rtc (race_step small true) (MkCrowd small_st []) crashed_crowd.
Proof. eapply rtc_l; [apply (rc_request _ _ _ "key")|]. apply (forward_turns_run small _ alone). vm_compute. reflexivity. Qed.

Lemma crashed_status : sr_Status <$> t_sagas (ra_st crashed) !! o_ID small = Some SagaStatusReserving.
Proof. vm_compute. reflexivity. Qed.

Lemma crashed_row : exists row, t_sagas (ra_st crashed) !! o_ID small = Some row /\ sr_Status row = SagaStatusReserving.
Proof. pose proof crashed_status as (row & Hrow & Hst)%fmap_Some. exists row. by split. Qed.

Lemma small_no_holds : no_holds small small_st.
Proof. intros p q Hh. by apply not_elem_of_nil in Hh. Qed.

Lemma small_stored : stored_order (o_ID small) small_st = Some small.
Proof. reflexivity. Qed.

Lemma crashed_order_concludes_witness : exists sg w',
  recover_saga sg calm (World 0 (cr_st crashed_crowd)) = (inr tt, w') /\ settled (o_ID small) (w_st w').
Proof.
  destruct crashed_row as (row & Hrow & Hst). exists (saga_of_row (o_ID small) row).
  apply (crashed_order_concludes small small_st crashed_crowd row calm 0).
  - exact I.
  - exact small_reads_back.
  - reflexivity.
  - exact small_no_holds.
  - exact crashed_forward.
  - exact Hrow.
  - by rewrite Hst.
  - by rewrite Hst.
  - exact calm_no_faults.
Defined.

Lemma crashed_only : (map_to_list (t_sagas (ra_st crashed))).*1 = [o_ID small].
Proof. apply (bool_decide_unpack _). vm_compute. exact I. Qed.

Lemma crashed_listed sg : sg ∈ listed (ra_st crashed) -> s_OrderID sg = o_ID small /\ s_Status sg = SagaStatusReserving.
Proof.
  intros Hin%subseteq_take. pose proof (sole_saga _ _ _ crashed_only Hin) as Hid. split; [done|].
  apply elem_of_incomplete in Hin as (id & row & Hrow & _ & ->). cbn [saga_of_row s_OrderID s_Status] in *. subst id.
  destruct crashed_row as (row' & Hrow' & Hst). rewrite Hrow in Hrow'. injection Hrow' as <-. exact Hst.
Qed.

Lemma crashed_waits : waiting (ra_st crashed) (o_ID small).
Proof.
  destruct crashed_row as (row & Hrow & Hst).
  apply (crash_waiting small small_st crashed_crowd row); [exact I|exact small_reads_back|reflexivity|exact small_no_holds|exact crashed_forward|exact Hrow|by rewrite Hst..].
Qed.

Lemma Recover_completes_witness : exists w', Recover calm (World 0 (ra_st crashed)) = (inr tt, w') /\
  (forall sg, sg ∈ listed (ra_st crashed) -> settled (s_OrderID sg) (w_st w')).
Proof.
  destruct crashed_waits as (order & Hso & Hrec & _).
  assert (Hinv : calm_inv (t_ext (ra_st crashed))) by exact I.
  destruct (Recover_completes calm (World 0 (ra_st crashed)) calm_no_faults Hinv) as (w' & Hrun & Hset & _).
  exists w'. split; [exact Hrun|]. intros sg Hin. destruct (crashed_listed sg Hin) as [Hid Hst].
  apply (Hset sg order); [exact Hin|by rewrite Hst|by rewrite Hid|exact Hrec].
Defined.

(** The payment call fails three times, and so do the two saves around the
    compensation: the row keeps saying that the order is to be paid. *)
Definition half_dead : list (nat * oracle) :=
  takes 0 12 ++ replicate 4 (0%nat, dead_network) ++ takes 0 3 ++ [(0%nat, dead_network)].

Definition undone : racing (E:=toy) := turns small half_dead alone.

(** The only instance has returned without an error. *)
Definition returned (s : racing (E:=toy)) : bool := match ra_ths s with [(_, SDone (inr _))] => true | _ => false end.

Definition shown (s : OrderSt toy) : option SagaStatus * option OrderStatus * Z * nat :=
  (saga_status s, order_status s, held_units s pA, length (toy_charges (t_ext s))).

(** Recovery undoes a compensation that was not saved: handleStepFailure goes on when
    the saga cannot be marked as compensating, the goods are released and the order is
    cancelled; the next recovery pass finds the row as it was before, charges the
    buyer, and ends with a paid order and a confirmed saga that hold nothing. *)
Theorem unsaved_compensation_is_undone :
  race_run small (lift small alone) (lift small undone) /\ returned undone = true /\
  shown (ra_st undone) = (Some SagaStatusPaying, Some OrderStatusCancelled, 0, 0%nat) /\
  shown (recovered (World 0 (ra_st undone))) = (Some SagaStatusConfirmed, Some OrderStatusPaid, 0, 1%nat).
Proof. split; [apply turns_run|]. split_and!; vm_compute; reflexivity. Qed.

(** An order whose saga row was never written is out of recovery's sight. *)
Theorem order_without_saga_is_not_recovered :
  length (listed small_st) = 0%nat /\ shown (recovered (World 0 small_st)) = (None, Some OrderStatusPending, 0, 0%nat).
Proof. split; vm_compute; reflexivity. Qed.
End Samples.
