(* ===== verification/SystemRecovery.v ===== *)
(** * The services together: recovery after a crash

    inventory-service and payment-service, reached through the gRPC clients of
    order-service, satisfy what recovery relies on; so the crash and recovery theorems
    of [SagaRecovery.v] hold of the composed system. *)
From S2P Require Import Prelude Errors Effects Auth Inventory InventoryFacts Payment PaymentFacts OrderDomain OrderRepo Saga SagaFacts OrderService SagaRuns SagaRaces System OrderFacts SagaRecovery.

Section SystemRecovery.
Context `{U : UuidLib} `{HL : !UuidLaws}.
Context (redis : bool) (dlq : option DLQProducer) (inv_ctx pay_ctx : Ctx) (pb_text : string -> Z -> string -> string).
Context (T : gmap UUID Z) (Tfit : forall p t, T !! p = Some t -> t < 2 ^ 31).
Context (Hrole : RequireRole inv_ctx [RoleService] = None).

#[local] Instance sys_inventory : InventoryClient sys := grpc_inventory redis inv_ctx.
#[local] Instance sys_payment : PaymentClient sys := grpc_payment dlq pay_ctx pb_text.
#[local] Instance sys_client_laws : SagaClientLaws sys := sys_laws redis dlq inv_ctx pay_ctx pb_text.
#[local] Instance sys_calm_laws : SagaCalmLaws sys := sys_calm redis dlq inv_ctx pay_ctx pb_text T Tfit Hrole.
#[local] Instance sys_stay : PaymentsStay (E:=sys) := sys_payments_stay redis dlq inv_ctx pay_ctx pb_text.

(** ** Rows under every failure pattern *)

(** A reservation row is as it was, or is the one that was asked for. *)
Definition row_or_asked (k : UUID * UUID) (x : option ReservationRow) (asked : UUID * UUID) (q : Z) (s : InvSt) : Prop :=
  reservations (i_db s) !! k = x \/ (k = asked /\ reservations (i_db s) !! k = Some (MkRow q "reserved")).

Lemma handler_Reserve_only p q oid k x :
  pres (row_or_asked k x (oid, p) q) (handler_Reserve redis inv_ctx (MkStockRequest (uuid_String p) q (uuid_String oid))).
Proof.
  unfold handler_Reserve. destruct (RequireRole _ _); [auto with go_pres|]. simpl. rewrite !uuid_Parse_String.
  apply pres_bind; [|intros; apply pres_ret]. apply pres_wrap_err. unfold Reserve. rewrite uuid_Parse_String.
  destruct (q <=? 0); [auto with go_pres|]. apply pres_bind.
  - apply pres_wrap_err, pres_Run. intros o w [] w' HI H.
    apply reserve_ok in H as (_ & [[_ ->]|(_ & a & r & id & t & _ & _ & _ & ->)]); [done|]. unfold row_or_asked. cbn.
    destruct (decide (k = (oid, p))) as [->|Hne]; [right; split; [done|]; by rewrite lookup_insert_eq|].
    rewrite lookup_insert_ne by done. exact HI.
  - intros _. apply (db_only (fun d => reservations d !! k = x \/ (k = (oid, p) /\ reservations d !! k = Some (MkRow q "reserved")))).
    intros d. apply pres_bind; [apply writeStockToCache_db|intros; apply publishInventoryEvent_db].
Qed.

(** A release leaves the rows of other orders alone and reserves nothing. *)
Definition row_or_released (k : UUID * UUID) (x : option ReservationRow) (oid : UUID) (s : InvSt) : Prop :=
  reservations (i_db s) !! k = x \/ (fst k = oid /\ exists q, reservations (i_db s) !! k = Some (MkRow q "released")).

Lemma handler_Release_only p q oid k x :
  pres (row_or_released k x oid) (handler_Release redis inv_ctx (MkStockRequest p q (uuid_String oid))).
Proof.
  unfold handler_Release. destruct (RequireRole _ _); [auto with go_pres|]. simpl. rewrite !uuid_Parse_String.
  destruct (uuid_Parse p) as [pu|]; [|auto with go_pres].
  apply pres_bind; [|intros; apply pres_ret]. apply pres_wrap_err. unfold Release. rewrite uuid_Parse_String.
  destruct (q <=? 0); [auto with go_pres|]. apply pres_bind.
  - apply pres_wrap_err, pres_Run. intros o w [] w' HI H.
    apply release_ok in H as [[_ ->]|(_ & a & r & id & t & _ & _ & _ & ->)]; [done|]. unfold row_or_released. cbn.
    destruct (decide (k = (oid, pu))) as [->|Hne]; [right; split; [done|]; rewrite lookup_insert_eq; by eexists|].
    rewrite lookup_insert_ne by done. exact HI.
  - intros _. apply (db_only (fun d => reservations d !! k = x \/ (fst k = oid /\ exists q, reservations d !! k = Some (MkRow q "released")))).
    intros d. apply pres_bind; [apply writeStockToCache_db|intros; apply publishInventoryEvent_db].
Qed.

(** ** The clients *)

(** What a handler of inventory-service keeps, its client keeps. *)
Lemma inventory_call {A} (I : InvSt -> Prop) (h : M InvSt A) o (w : world sys) r w' :
  pres I h -> I (fst (w_st w)) -> (do* zoom inv_lens (rpc h) in ret tt) o w = (r, w') -> I (fst (w_st w')).
Proof.
  intros Hh HI Hrun.
  assert (Hp : pres (fun e : sys => I (fst e)) (do* zoom inv_lens (rpc h) in ret tt)).
  { apply pres_bind; [|intros; apply pres_ret]. apply (pres_zoom inv_lens I), pres_rpc, Hh. }
  specialize (Hp o w HI). by rewrite Hrun in Hp.
Qed.

(** A call of payment-service leaves the inventory alone. *)
Lemma payment_call {A B} (h : M PaySt A) (f : A -> B) o (w : world sys) r w' :
  (let* x := zoom pay_lens (rpc h) in ret (f x)) o w = (r, w') -> fst (w_st w') = fst (w_st w).
Proof.
  intros Hrun. assert (Hp : pres (fun e : sys => fst e = fst (w_st w)) (let* x := zoom pay_lens (rpc h) in ret (f x))).
  { apply pres_bind; [|intros; apply pres_ret]. by apply (pres_zoom_other pay_lens (fun s : sys => fst s)). }
  specialize (Hp o w eq_refl). by rewrite Hrun in Hp.
Qed.

Lemma Reserve_again_calm p q oid o w r w' :
  no_faults o -> stock_ok T (w_st w) -> res_row (i_db (w_st w)) oid p = Some (MkRow q "reserved") ->
  handler_Reserve redis inv_ctx (MkStockRequest (uuid_String p) q (uuid_String oid)) o w = (r, w') -> r = inr true.
Proof.
  intros Ho HI Hrow. destruct (held_fits T Tfit _ _ _ _ HI Hrow) as (Hq & Hq32 & Hfit).
  unfold handler_Reserve. simpl. rewrite Hrole, !uuid_Parse_String. unfold bind, map_err, wrap_err.
  destruct (Reserve _ _ _ _ _ _) as [r' w1] eqn:Hres.
  eapply Reserve_decides in Hres; [|done|done|done|done|done|apply uuid_Parse_String].
  unfold book_reserve in Hres. simpl in Hres. unfold res_row in Hrow. rewrite lookup_fmap, Hrow in Hres. simpl in Hres.
  rewrite Z.eqb_refl in Hres. destruct Hres as [-> _]. by intros [= <- <-].
Qed.

#[local] Instance sys_crash : SagaCrashLaws sys.
Proof.
  split.
  - intros p q oid k o w r w' HI H. split; [exact (inventory_call (stock_ok T) _ _ _ _ _ (handler_Reserve_keeps redis inv_ctx T Hrole _) HI H)|].
    intros oid' p' q' Hrow.
    pose proof (inventory_call (row_or_asked (oid', p') (reservations (i_db (fst (w_st w))) !! (oid', p')) (oid, p) q) _ _ _ _ _
      (handler_Reserve_only p q oid (oid', p') _) (or_introl eq_refl) H) as [Hsame|[Heq Hnew]].
    + left. cbn. unfold sys_holds, res_row. by rewrite <- Hsame.
    + right. injection Heq as -> ->. cbn in Hrow. unfold sys_holds, res_row in Hrow. rewrite Hnew in Hrow. by simplify_eq.
  - intros p q oid k o w r w' Ho HI Hh H. cbn in H. unfold client_Reserve, bind in H.
    destruct (zoom inv_lens _ o w) as [r1 w1] eqn:Hz. apply zoom_run in Hz as (w2 & Hz & _). rewrite (rpc_no_faults _ _ _ Ho) in Hz.
    apply Reserve_again_calm in Hz as ->; [|done|exact HI|exact Hh]. unfold ret in H. by simplify_eq.
  - intros p q oid k o w r w' HI H. split; [exact (inventory_call (stock_ok T) _ _ _ _ _ (handler_Release_keeps redis inv_ctx T Hrole _) HI H)|].
    intros oid' p' q'. cbn. unfold sys_holds, res_row.
    pose proof (inventory_call (row_or_released (oid', p') (reservations (i_db (fst (w_st w))) !! (oid', p')) oid) _ _ _ _ _
      (handler_Release_only p q oid (oid', p') _) (or_introl eq_refl) H) as [Hsame|[Heq [q0 Hnew]]].
    + by rewrite Hsame.
    + rewrite Hnew. split; [done|]. by intros Hne.
  - intros oid a k o w r w' HI H. cbn in H. unfold client_ProcessPayment in H. apply payment_call in H.
    cbn in *. unfold sys_holds. by rewrite H.
  - intros pid k o w r w' HI H. cbn in H. unfold client_Refund in H. apply (payment_call _ (fun _ => tt)) in H.
    cbn in *. unfold sys_holds. by rewrite H.
Qed.

(** ** The composed system *)

(** In the tables of the three services an order is done with: paid under a confirmed
    saga, or cancelled with no unit reserved for it. *)
Definition done_with (id : UUID) (s : OrderSt sys) : Prop :=
  exists orow srow, t_orders s !! id = Some orow /\ t_sagas s !! id = Some srow /\
    ((or_Status orow = OrderStatusPaid /\ sr_Status srow = SagaStatusConfirmed) \/
     (or_Status orow = OrderStatusCancelled /\ sr_Status srow = SagaStatusCancelled /\
      forall p q, reservations (i_db (fst (t_ext s))) !! (id, p) ≠ Some (MkRow q "reserved"))).

Lemma settled_done id s : settled id s -> done_with id s.
Proof.
  intros (order & <- & [[(srow & Hs & Hst) (orow & Ho & Hp)]|((srow & Hs & Hst) & (orow & Ho & Hp) & Hno)]); exists orow, srow; split_and!; try done.
  - by left.
  - right. split_and!; [done|done|]. intros p q Hrow. by apply (Hno p q).
Qed.

End SystemRecovery.

(** ** A concrete crash *)

Section Sample.
Local Existing Instance uuid_text.
Local Existing Instance uuid_text_laws.
Local Instance one_inventory : InventoryClient sys := grpc_inventory false service_ctx.
Local Instance one_payment : PaymentClient sys := grpc_payment None payer_ctx request_text.

(** The request creates the saga and reserves the item; the process stops before the
    saga has recorded it. *)
Definition one_instance : racing (E:=sys) := MkRacing small_state [("key", SBegin)].
Definition crashed_system : racing (E:=sys) := turns small_order (takes 0 7) one_instance.
Definition crashed_instances : crowd (E:=sys) := lift small_order crashed_system.

Lemma stopped_forward : rtc (race_step small_order true) (MkCrowd small_state []) crashed_instances.
Proof. eapply rtc_l; [apply (rc_request _ _ _ "key")|]. apply (forward_turns_run small_order _ one_instance). vm_compute. reflexivity. Qed.

Lemma stopped_status : sr_Status <$> t_sagas (cr_st crashed_instances) !! o_ID small_order = Some SagaStatusReserving.
Proof. vm_compute. reflexivity. Qed.

Lemma stopped_row : exists row, t_sagas (cr_st crashed_instances) !! o_ID small_order = Some row /\ sr_Status row = SagaStatusReserving.
Proof. pose proof stopped_status as (row & Hrow & Hst)%fmap_Some. exists row. by split. Qed.

Lemma stopped_few : (length (incomplete_sagas (cr_st crashed_instances)) <=? 100)%nat = true.
Proof. vm_compute. reflexivity. Qed.

Lemma stopped_listed row :
  t_sagas (cr_st crashed_instances) !! o_ID small_order = Some row -> sr_Status row = SagaStatusReserving ->
  saga_of_row (o_ID small_order) row ∈ listed (cr_st crashed_instances).
Proof.
  intros Hrow Hst. pose proof stopped_few as Hlen%Nat.leb_le. unfold listed. rewrite take_ge by exact Hlen.
  apply elem_of_incomplete. exists (o_ID small_order), row. split; [exact Hrow|]. by rewrite Hst.
Qed.

End Sample.
