(* ===== verification/Delivery.v ===== *)
(** * order-service: what is stored is announced

    The relay of [Outbox.v] once failures stop: polls empty the outbox, a hundred
    events each, and every event is published exactly once by them.  With the invariants
    of the outbox and of CreateOrder: every stored order is announced on the topic or
    sits in the dead-letter table. *)
From S2P Require Import Prelude Errors Effects Auth OrderDomain OrderRepo Saga SagaFacts OrderService SagaRuns OrderFacts Outbox OutboxFacts CatalogFacts.

Section Delivery.
Context `{U : UuidLib} (topic : string).
Implicit Types (o : oracle) (w : world OutSt) (s : OutSt) (rows : list OutboxEvent).

Definition unsent (e : OutboxEvent) : Prop := ev_ProcessedAt e = None.

#[global] Instance unsent_dec e : Decision (unsent e).
Proof. unfold unsent. apply _. Defined.

Definition outbox_waits s : list OutboxEvent := filter unsent (ob_rows (os_tab s)).

(** No transaction is open, ids are unique and everything that waits is due by [T]. *)
Definition ready_by (T : Z) s : Prop :=
  os_tx s = None /\ NoDup (ev_ID <$> ob_rows (os_tab s)) /\ Forall (fun e => ev_NextRetryAt e <= T) (outbox_waits s).

Lemma due_waits T t rows :
  T <= t -> Forall (fun e => ev_NextRetryAt e <= T) (filter unsent rows) -> filter (due t) rows = filter unsent rows.
Proof.
  intros Ht. induction rows as [|e rows IH]; [done|]. rewrite !filter_cons. destruct (decide (unsent e)) as [Hu|Hu].
  - intros [He Hr]%Forall_cons. rewrite decide_True by (split; [done|lia]). f_equal. by apply IH.
  - intros Hr. rewrite decide_False by (by intros [? _]). by apply IH.
Qed.

(** Marking some rows takes exactly these off the waiting ones. *)
Lemma waits_after (ids : list UUID) t rows :
  filter unsent ((fun e => if bool_decide (ev_ID e ∈ ids) then mark t e else e) <$> rows) =
  filter (fun e => ev_ID e ∉ ids) (filter unsent rows).
Proof.
  induction rows as [|e rows IH]; [done|]. rewrite fmap_cons, !filter_cons. case_bool_decide as Hin.
  - rewrite decide_False by done. rewrite IH. destruct (decide (unsent e)); [|done]. by rewrite filter_cons_False by (intros H; by apply H).
  - rewrite IH. destruct (decide (unsent e)); [|done]. by rewrite filter_cons_True.
Qed.

(** A poll without failures. *)
Lemma poll_takes T o w :
  no_faults o -> (forall n, T <= o_now o n) -> ready_by T (w_st w) ->
  exists evs w', poll topic o w = (inr tt, w') /\ outbox_waits (w_st w) ≡ₚ evs ++ outbox_waits (w_st w') /\
    length evs = min 100 (length (outbox_waits (w_st w))) /\ os_kafka (w_st w') = os_kafka (w_st w) ++ (message topic <$> evs) /\
    ob_dlq (os_tab (w_st w')) = ob_dlq (os_tab (w_st w)) /\ ready_by T (w_st w').
Proof.
  intros Ho HT (Htx & Hnd & Hdue). destruct (poll_calm topic o w Ho Htx) as (t' & n & Hrun). cbv zeta in Hrun.
  set (evs := batch (o_now o (S (w_tick w))) (ob_rows (os_tab (w_st w)))) in *.
  assert (Hevs : evs = take 100 (merge_sort older_event (outbox_waits (w_st w)))).
  { unfold evs, batch. by rewrite (due_waits T). }
  set (rest := drop 100 (merge_sort older_event (outbox_waits (w_st w)))).
  assert (Hperm : outbox_waits (w_st w) ≡ₚ evs ++ rest).
  { unfold rest. rewrite Hevs, take_drop. symmetry. apply merge_sort_Permutation. }
  exists evs. eexists. split; [exact Hrun|]. simpl.
  assert (Hnew : outbox_waits (MkOutSt (update_rows (fun e => bool_decide (ev_ID e ∈ (ev_ID <$> evs))) (mark t') (os_tab (w_st w))) None
                    (os_kafka (w_st w) ++ (message topic <$> evs))) ≡ₚ rest).
  { unfold outbox_waits. simpl. rewrite waits_after. fold (outbox_waits (w_st w)). rewrite Hperm. rewrite filter_taken; [done|].
    rewrite <- Hperm. eapply sublist_NoDup; [exact Hnd|]. apply fmap_sublist, sublist_filter. }
  split_and!; [by rewrite Hnew| |done|done|].
  - rewrite Hevs, length_take, merge_sort_Permutation. done.
  - split_and!; [done| |].
    + simpl. rewrite <- list_fmap_compose. erewrite list_fmap_ext; [exact Hnd|]. intros i e _. simpl. by case_bool_decide.
    + rewrite Hnew. rewrite Hperm in Hdue. by apply Forall_app in Hdue as [_ ?].
Qed.

Lemma polls_drain T k o w :
  no_faults o -> (forall n, T <= o_now o n) -> ready_by T (w_st w) -> (length (outbox_waits (w_st w)) <= 100 * k)%nat ->
  exists evs w', polls topic k o w = (inr tt, w') /\ outbox_waits (w_st w') = [] /\ evs ≡ₚ outbox_waits (w_st w) /\
    os_kafka (w_st w') = os_kafka (w_st w) ++ (message topic <$> evs) /\ ob_dlq (os_tab (w_st w')) = ob_dlq (os_tab (w_st w)).
Proof.
  intros Ho HT. revert w. induction k as [|k IH]; intros w Hr Hlen; simpl.
  { exists [], w. apply Nat.le_0_r, nil_length_inv in Hlen. rewrite Hlen, app_nil_r. by split_and!. }
  destruct (poll_takes T o w Ho HT Hr) as (evs & w1 & Hrun & Hperm & Hl & Hk & Hd & Hr1).
  destruct (IH w1 Hr1) as (evs' & w' & Hrun' & Hnil & Hperm' & Hk' & Hd').
  { apply Permutation_length in Hperm. rewrite length_app in Hperm. lia. }
  exists (evs ++ evs'), w'. unfold bind. rewrite Hrun. split_and!; [done|done| | |congruence].
  - by rewrite Hperm', Hperm.
  - by rewrite Hk', Hk, fmap_app, app_assoc.
Qed.

(** ** From CreateOrder to the topic *)

Context {E : Type} {IC : InventoryClient E} {PC : PaymentClient E} {CC : CatalogClient E}.

(** A row that is marked processed was published. *)
Definition marked_sent s : Prop := forall e, e ∈ ob_rows (os_tab s) -> ev_ProcessedAt e ≠ None -> message topic e ∈ os_kafka s.

Lemma drained_announced T k o w (s : OrderSt E) :
  announced s -> os_tab (w_st w) = t_outbox s -> marked_sent (w_st w) -> no_faults o -> (forall n, T <= o_now o n) ->
  ready_by T (w_st w) -> (length (outbox_waits (w_st w)) <= 100 * k)%nat ->
  exists w', polls topic k o w = (inr tt, w') /\ outbox_waits (w_st w') = [] /\
    (exists evs, evs ≡ₚ outbox_waits (w_st w) /\ os_kafka (w_st w') = os_kafka (w_st w) ++ (message topic <$> evs)) /\
    forall id, is_Some (t_orders s !! id) -> exists e, announces id e /\ message topic e ∈ os_kafka (w_st w').
Proof.
  intros Hann Htab Hsent Ho HT Hr Hlen.
  destruct (polls_drain T k o w Ho HT Hr Hlen) as (evs & w' & Hrun & Hnil & Hperm & Hk & _). exists w'. split_and!; [done|done| |].
  - by exists evs.
  - intros id (e & He & Ha)%Hann. exists e. split; [done|]. rewrite Hk. apply elem_of_app. rewrite <- Htab in He.
    destruct (decide (unsent e)) as [Hu|Hu]; [right|left; by apply Hsent].
    apply list_elem_of_fmap_2. rewrite Hperm. by apply list_elem_of_filter.
Qed.

(** C6. Every order is announced. Whatever fails while CreateOrder runs, an
    order that is stored after it, this one or an earlier one, has an OrderCreated event;
    and once the relay polls without failures, late enough for the retry delays, a
    hundred events a poll, the outbox is empty, each waiting event has been published
    once, and the topic has a message with the key and the payload of the event of every
    stored order. *)
Theorem created_orders_are_announced redis userID items key o1 (w1 : world (OrderSt E)) T k o w :
  announced (w_st w1) ->
  let s := w_st (snd (CreateOrder redis userID items key o1 w1)) in
  os_tab (w_st w) = t_outbox s -> marked_sent (w_st w) -> no_faults o -> (forall n, T <= o_now o n) ->
  ready_by T (w_st w) -> (length (outbox_waits (w_st w)) <= 100 * k)%nat ->
  exists w', polls topic k o w = (inr tt, w') /\ outbox_waits (w_st w') = [] /\
    (exists evs, evs ≡ₚ outbox_waits (w_st w) /\ os_kafka (w_st w') = os_kafka (w_st w) ++ (message topic <$> evs)) /\
    forall id, is_Some (t_orders s !! id) -> exists e, announces id e /\ message topic e ∈ os_kafka (w_st w').
Proof. intros Hann s. by apply drained_announced, CreateOrder_announced. Qed.
End Delivery.

(** ** A concrete order *)

Section Samples.
Local Existing Instance uuid_text.

(** A first order on empty tables; the reply of one of the calls is lost. *)
Definition empty_shop : world (OrderSt toy) := World 0 (MkOrderSt ∅ [] ∅ (MkOutbox [] ∅) [] (MkToy [] [])).
Definition one_line : list OrderItem := [MkItem (uuid_sample 9) (uuid_sample 9) pA 2 100].
Definition after_create : OrderSt toy := w_st (snd (CreateOrder false usr_id one_line "key" (lost_at 8) empty_shop)).
Definition relay_world : world OutSt := World 0 (MkOutSt (t_outbox after_create) None []).

Example created_one : size (t_orders after_create) = 1%nat.
Proof. vm_compute. reflexivity. Qed.

Lemma created_count : length (ob_rows (t_outbox after_create)) = 1%nat.
Proof. vm_compute. reflexivity. Qed.

Lemma created_due :
  forallb (fun e => bool_decide (unsent e) && (ev_NextRetryAt e <=? 0)) (ob_rows (t_outbox after_create)) = true.
Proof. vm_compute. reflexivity. Qed.

Lemma created_waits e : e ∈ ob_rows (t_outbox after_create) -> unsent e /\ ev_NextRetryAt e <= 0.
Proof.
  intros He. pose proof created_due as Hall. rewrite forallb_forall in Hall.
  apply list_elem_of_In, Hall, andb_prop in He as [Hu%bool_decide_eq_true Hn]. split; [done|]. by apply Z.leb_le.
Qed.

Lemma relay_world_ready : ready_by 0 (w_st relay_world).
Proof.
  pose proof created_count as Hlen. split_and!; [reflexivity| |].
  - change (NoDup (ev_ID <$> ob_rows (t_outbox after_create))).
    destruct (ob_rows (t_outbox after_create)) as [|e [|]]; [done| |done]. apply NoDup_singleton.
  - apply Forall_forall. intros e [_ He]%list_elem_of_filter. by apply created_waits.
Qed.

Lemma created_orders_are_announced_witness : exists w', polls "orders" 1 calm relay_world = (inr tt, w') /\
  forall id, is_Some (t_orders after_create !! id) -> exists e, announces id e /\ message "orders" e ∈ os_kafka (w_st w').
Proof.
  destruct (created_orders_are_announced "orders" false usr_id one_line "key" (lost_at 8) empty_shop 0 1 calm relay_world)
    as (w' & Hrun & _ & _ & Hall).
  - intros id [row Hrow]. simpl in Hrow. by rewrite lookup_empty in Hrow.
  - reflexivity.
  - intros e He Hp. exfalso. apply Hp. by apply created_waits.
  - exact calm_no_faults.
  - intros n. simpl. lia.
  - exact relay_world_ready.
  - etransitivity; [apply length_filter|]. change (ob_rows (os_tab (w_st relay_world))) with (ob_rows (t_outbox after_create)).
    rewrite created_count. apply le_n_S, Nat.le_0_l.
  - exists w'. exact (conj Hrun Hall).
Defined.
End Samples.
