(* ===== verification/Serving.v ===== *)
(** * Life of a serving process

    [RegisterGRPCService], [RunService], the two servers of [pkg/server] and the
    goroutines they start, from the start hooks of fx to the end of the process: the
    hooks that may fail, the listeners that may fail, the requests in flight, the
    signal, the graceful stop with its limits, [log.Fatal] and the exit of main.  net,
    net/http, grpc and fx are used with their documented behaviour: [ListenAndServe] and
    [Serve] return when they fail or when their server was shut down, before or after;
    fx runs the start hooks in turn, stops those that have started when one fails, runs
    all stop hooks in reverse order after a signal even if some fail, gives both a time
    limit, and exits with 1 if anything failed. *)
From S2P Require Import Prelude Errors Effects Transport EnvConfig Startup.

(** [GRPCServer] of [pkg/fxmodules]: with both ports zero no server is registered. *)
Definition server_registered (cfg : ServiceConfig) : bool := negb ((sc_GRPCPort cfg =? 0) && (sc_MetricsPort cfg =? 0)).

(** A lifecycle hook: the one of RegisterGRPCService, or one of a client or a worker. *)
Inductive hook := ServerHook | OtherHook.

#[global] Instance hook_eq_dec : EqDecision hook.
Proof. solve_decision. Defined.

Section Serving.
Context `{TL : TLSLib} {Interceptor : Type}.
Context (cfg : ServiceConfig) (register : GrpcServer Interceptor -> GrpcServer Interceptor) (interceptors : list Interceptor).

(** The hooks of the application: how many are appended before and after the server's. *)
Context (hooks_before hooks_after : nat).

Definition lifecycle : list hook :=
  replicate hooks_before OtherHook ++ (if server_registered cfg then [ServerHook] else []) ++ replicate hooks_after OtherHook.

(** ** Goroutines *)

(** The main goroutine in [fx.App.Run]: running the start hooks (those done, the last
    one first, and those to do), waiting for a signal, running stop hooks before it
    exits with a code. *)
Inductive main_pc := Starting (started todo : list hook) | AwaitSignal | Stopping (todo : list hook) (code : Z).

(** The goroutine of the OnStart hook: not started, in StartService, in the select on
    its context, shutting the metrics server down since a time, in GracefulStop since a
    time, returned. *)
Inductive run_pc := NoRun | InStartService | AwaitCancel | MetricsShutdown (since : Z) | GracefulStopping (since : Z) | RunReturned.

(** The goroutine of one server's Start. *)
Inductive server_pc := NoServer | Binding | Accepting | ServerReturned.

(** The process: when the context of RunService was cancelled, the goroutines, the
    requests and the scrapes of the metrics in flight, the time, the exit code; as
    ghosts the requests taken and those cut off. *)
Record Process := MkProcess {
  ps_cancelled : option Z; ps_main : main_pc; ps_run : run_pc; ps_metrics : server_pc; ps_grpc : server_pc;
  ps_inflight : nat; ps_scrapes : nat; ps_now : Z; ps_exit : option Z; ps_taken : nat; ps_lost : nat
}.

Definition with_main (m : main_pc) (p : Process) : Process :=
  MkProcess (ps_cancelled p) m (ps_run p) (ps_metrics p) (ps_grpc p) (ps_inflight p) (ps_scrapes p) (ps_now p) (ps_exit p) (ps_taken p) (ps_lost p).

Definition with_run (r : run_pc) (p : Process) : Process :=
  MkProcess (ps_cancelled p) (ps_main p) r (ps_metrics p) (ps_grpc p) (ps_inflight p) (ps_scrapes p) (ps_now p) (ps_exit p) (ps_taken p) (ps_lost p).

Definition with_servers (m g : server_pc) (p : Process) : Process :=
  MkProcess (ps_cancelled p) (ps_main p) (ps_run p) m g (ps_inflight p) (ps_scrapes p) (ps_now p) (ps_exit p) (ps_taken p) (ps_lost p).

Definition with_now (t : Z) (p : Process) : Process :=
  MkProcess (ps_cancelled p) (ps_main p) (ps_run p) (ps_metrics p) (ps_grpc p) (ps_inflight p) (ps_scrapes p) t (ps_exit p) (ps_taken p) (ps_lost p).

Definition take_request (p : Process) : Process :=
  MkProcess (ps_cancelled p) (ps_main p) (ps_run p) (ps_metrics p) (ps_grpc p) (S (ps_inflight p)) (ps_scrapes p) (ps_now p) (ps_exit p)
    (S (ps_taken p)) (ps_lost p).

Definition answer_request (p : Process) : Process :=
  MkProcess (ps_cancelled p) (ps_main p) (ps_run p) (ps_metrics p) (ps_grpc p) (pred (ps_inflight p)) (ps_scrapes p) (ps_now p) (ps_exit p)
    (ps_taken p) (ps_lost p).

(** A scrape of the metrics server begins or ends. *)
Definition with_scrapes (n : nat) (p : Process) : Process :=
  MkProcess (ps_cancelled p) (ps_main p) (ps_run p) (ps_metrics p) (ps_grpc p) (ps_inflight p) n (ps_now p) (ps_exit p) (ps_taken p) (ps_lost p).

(** The start hook of the server starts the goroutine of RunService; its stop hook
    cancels the context, which only the first call does, and returns at once.  What the
    other hooks do is theirs. *)
Definition OnStart (h : hook) (p : Process) : Process := match h with ServerHook => with_run InStartService p | OtherHook => p end.

Definition OnStop (h : hook) (p : Process) : Process :=
  match h with
  | ServerHook =>
      MkProcess (Some (default (ps_now p) (ps_cancelled p))) (ps_main p) (ps_run p) (ps_metrics p) (ps_grpc p) (ps_inflight p) (ps_scrapes p) (ps_now p) (ps_exit p)
        (ps_taken p) (ps_lost p)
  | OtherHook => p
  end.

(** [Server.Stop] closes the connections: what is in flight is cut off. *)
Definition force_stop (p : Process) : Process :=
  MkProcess (ps_cancelled p) (ps_main p) (ps_run p) (ps_metrics p) (ps_grpc p) 0 (ps_scrapes p) (ps_now p) (ps_exit p)
    (ps_taken p) (ps_lost p + ps_inflight p).

(** The end of the process, by [os.Exit] or by the return of main. *)
Definition exit_process (code : Z) (p : Process) : Process :=
  MkProcess (ps_cancelled p) (ps_main p) (ps_run p) (ps_metrics p) (ps_grpc p) 0 0 (ps_now p) (Some code)
    (ps_taken p) (ps_lost p + ps_inflight p).

(** [log.Fatal]: exit code 1. *)
Definition fatal (p : Process) : Process := exit_process 1 p.

(** ** Time limits *)

Definition defaultShutdownTimeout : Z := 10 * second.

(** [time.After] of GracefulStop. *)
Definition gracefulTimeout : Z := 25 * second.

(** ** What each server's state allows *)

(** The metrics server was told to shut down; the gRPC server was told to stop. *)
Definition metrics_down (r : run_pc) : bool := match r with MetricsShutdown _ | GracefulStopping _ | RunReturned => true | _ => false end.
Definition grpc_stopped (r : run_pc) : bool := match r with GracefulStopping _ | RunReturned => true | _ => false end.

Definition started (r : error + (GrpcServer Interceptor * HttpServer)) : bool := match r with inr _ => true | inl _ => false end.

(** ** Steps *)

Inductive running_step : Process -> Process -> Prop :=
(* fx: the start hooks; when one fails, those that have started are stopped *)
| p_hook_starts p h done todo : ps_main p = Starting done (h :: todo) ->
    running_step p (OnStart h (with_main (Starting (h :: done) todo) p))
| p_hook_fails p done todo : ps_main p = Starting done (OtherHook :: todo) -> running_step p (with_main (Stopping done 1) p)
| p_start_late p done todo : ps_main p = Starting done todo -> running_step p (fatal p)
| p_hooks_started p done : ps_main p = Starting done [] -> running_step p (with_main AwaitSignal p)
(* the signal, and the stop hooks *)
| p_signal p : ps_main p = AwaitSignal -> running_step p (with_main (Stopping (reverse lifecycle) 0) p)
| p_hook_stops p h todo code : ps_main p = Stopping (h :: todo) code -> running_step p (OnStop h (with_main (Stopping todo code) p))
| p_hook_stop_fails p todo code : ps_main p = Stopping (OtherHook :: todo) code -> running_step p (with_main (Stopping todo 1) p)
| p_stop_late p h todo code : ps_main p = Stopping (h :: todo) code -> running_step p (exit_process 1 p)
| p_exit p code : ps_main p = Stopping [] code -> running_step p (exit_process code p)
(* RunService *)
| p_StartService p : ps_run p = InStartService -> started (StartService cfg register interceptors) = true ->
    running_step p (with_servers Binding Binding (with_run AwaitCancel p))
| p_StartService_fails p : ps_run p = InStartService -> started (StartService cfg register interceptors) = false ->
    running_step p (fatal p)
(* HTTPServer.Start *)
| p_metrics_binds p : ps_metrics p = Binding -> metrics_down (ps_run p) = false -> running_step p (with_servers Accepting (ps_grpc p) p)
| p_metrics_fails p : ps_metrics p = Binding \/ (ps_metrics p = Accepting /\ metrics_down (ps_run p) = false) -> running_step p (fatal p)
| p_metrics_closed p : ps_metrics p = Binding \/ ps_metrics p = Accepting -> metrics_down (ps_run p) = true ->
    running_step p (with_servers ServerReturned (ps_grpc p) p)
(* GRPCServer.Start *)
| p_grpc_binds p : ps_grpc p = Binding -> grpc_stopped (ps_run p) = false -> running_step p (with_servers (ps_metrics p) Accepting p)
| p_grpc_bind_fails p : ps_grpc p = Binding -> running_step p (fatal p)
| p_grpc_fails p : ps_grpc p = Accepting -> grpc_stopped (ps_run p) = false -> running_step p (fatal p)
| p_grpc_closed p : ps_grpc p = Binding \/ ps_grpc p = Accepting -> grpc_stopped (ps_run p) = true ->
    running_step p (with_servers (ps_metrics p) ServerReturned p)
(* clients and time *)
| p_request p : ps_grpc p = Accepting -> grpc_stopped (ps_run p) = false -> running_step p (take_request p)
| p_answer p : (0 < ps_inflight p)%nat -> running_step p (answer_request p)
| p_scrape p : ps_metrics p = Accepting -> metrics_down (ps_run p) = false -> running_step p (with_scrapes (S (ps_scrapes p)) p)
| p_scraped p : (0 < ps_scrapes p)%nat -> running_step p (with_scrapes (pred (ps_scrapes p)) p)
| p_time p t : ps_now p <= t -> running_step p (with_now t p)
(* the end of RunService *)
| p_cancelled p : ps_run p = AwaitCancel -> is_Some (ps_cancelled p) -> running_step p (with_run (MetricsShutdown (ps_now p)) p)
| p_metrics_shut p since : ps_run p = MetricsShutdown since -> ps_scrapes p = 0%nat ->
    running_step p (with_run (GracefulStopping (ps_now p)) p)
| p_metrics_late p since : ps_run p = MetricsShutdown since -> since + defaultShutdownTimeout <= ps_now p ->
    running_step p (with_run (GracefulStopping (ps_now p)) p)
| p_drained p since : ps_run p = GracefulStopping since -> ps_inflight p = 0%nat -> running_step p (with_run RunReturned p)
| p_force p since : ps_run p = GracefulStopping since -> since + gracefulTimeout <= ps_now p ->
    running_step p (with_run RunReturned (force_stop p)).

(** Nothing runs in a process that has exited. *)
Inductive proc_step : Process -> Process -> Prop :=
| proc_runs p p' : ps_exit p = None -> running_step p p' -> proc_step p p'.

Definition new_process : Process := MkProcess None (Starting [] lifecycle) NoRun NoServer NoServer 0 0 0 None 0 0.

Definition alive (p : Process) : Prop := rtc proc_step new_process p.

(** ** What holds of every process *)

Implicit Types (p : Process).

(** Something is served only by a server that StartService has set up. *)
Definition set_up : Prop := server_registered cfg = true /\ started (StartService cfg register interceptors) = true.

(** What the main goroutine has done about the server's hook. *)
Definition main_ok (m : main_pc) (r : run_pc) (cancelled : option Z) : Prop :=
  match m with
  | Starting done todo => lifecycle = reverse done ++ todo /\ cancelled = None /\ (ServerHook ∈ done -> r ≠ NoRun)
  | AwaitSignal => cancelled = None /\ (ServerHook ∈ lifecycle -> r ≠ NoRun)
  | Stopping todo code =>
      (ServerHook ∈ todo -> r ≠ NoRun) /\ (is_Some cancelled -> r ≠ NoRun) /\
      (code = 0 -> ServerHook ∈ lifecycle -> ServerHook ∈ todo \/ is_Some cancelled)
  end.

(** Since when RunService is stopping. *)
Definition run_ok (r : run_pc) (cancelled : option Z) (now : Z) : Prop :=
  (forall t, cancelled = Some t -> t <= now) /\
  match r with
  | MetricsShutdown since | GracefulStopping since => exists t, cancelled = Some t /\ t <= since <= now
  | RunReturned => is_Some cancelled
  | _ => True
  end.

Record proc_ok p : Prop := MkProcOk {
  ok_main : main_ok (ps_main p) (ps_run p) (ps_cancelled p);
  ok_run : run_ok (ps_run p) (ps_cancelled p) (ps_now p);
  ok_exit : ps_exit p = Some 0 -> server_registered cfg = true -> is_Some (ps_cancelled p);
  ok_lost : ps_exit p = None -> ps_lost p ≠ 0%nat ->
    ps_run p = RunReturned /\ exists t, ps_cancelled p = Some t /\ t + 25 * 10 ^ 9 <= ps_now p
}.

Lemma server_in_lifecycle : ServerHook ∈ lifecycle <-> server_registered cfg = true.
Proof.
  unfold lifecycle. rewrite !elem_of_app. split.
  - intros [H|[H|H]]; [by apply elem_of_replicate in H as [? _]| |by apply elem_of_replicate in H as [? _]].
    destruct (server_registered cfg); [done|by apply elem_of_nil in H].
  - intros ->. right. left. apply list_elem_of_here.
Qed.

(** The main goroutine's steps. *)
Lemma main_ok_starts h done todo r c : main_ok (Starting done (h :: todo)) r c ->
  main_ok (Starting (h :: done) todo) (if decide (h = ServerHook) then InStartService else r) c.
Proof.
  intros (Hl & Hc & Hr). split_and!; [by rewrite Hl, reverse_cons, <- app_assoc|done|].
  intros [Heq|Hin]%elem_of_cons; [by rewrite decide_True by done|]. destruct (decide (h = ServerHook)); [done|by apply Hr].
Qed.

Lemma main_ok_stops h todo code r c t : main_ok (Stopping (h :: todo) code) r c ->
  main_ok (Stopping todo code) r (if decide (h = ServerHook) then Some t else c).
Proof.
  intros (Hr & Hc & Hz). split_and!.
  - intros Hin. apply Hr. by apply list_elem_of_further.
  - destruct (decide (h = ServerHook)) as [->|]; [intros _; apply Hr, list_elem_of_here|done].
  - intros H0 Hl. destruct (decide (h = ServerHook)) as [->|Hne]; [right; by eexists|].
    destruct (Hz H0 Hl) as [[Heq|Hin]%elem_of_cons|Hs]; [by symmetry in Heq|by left|by right].
Qed.

Lemma main_ok_run m r r' c : (r ≠ NoRun -> r' ≠ NoRun) -> main_ok m r c -> main_ok m r' c.
Proof. intros Hr. unfold main_ok. destruct m; naive_solver. Qed.

Lemma main_ok_cancelled m r c : main_ok m r c -> is_Some c -> r ≠ NoRun.
Proof. intros Hm Hc. destruct m as [done todo| |todo code]; [destruct Hm as (_ & -> & _)|destruct Hm as [-> _]|by apply Hm]; by destruct Hc. Qed.

(** No request is lost before RunService has returned. *)
Lemma none_lost p : proc_ok p -> ps_exit p = None -> ps_run p ≠ RunReturned -> ps_lost p = 0%nat.
Proof. intros Hok He Hr. destruct (decide (ps_lost p = 0%nat)) as [|Hl]; [done|]. by destruct (ok_lost _ Hok He Hl). Qed.

Lemma proc_ok_exit p code : proc_ok p -> (code = 0 -> server_registered cfg = true -> is_Some (ps_cancelled p)) -> proc_ok (exit_process code p).
Proof. intros [Hm Hr _ _] Hc. split; [done|done|simpl; intros [= Hz] Hreg; by apply Hc|done]. Qed.

(** A step after which the main goroutine is at [m]. *)
Lemma proc_ok_main p m : proc_ok p -> main_ok m (ps_run p) (ps_cancelled p) -> proc_ok (with_main m p).
Proof. intros [_ Hr He Hl] Hm. by split. Qed.

(** A step of the goroutine of RunService, before it returns. *)
Lemma proc_ok_run p r :
  proc_ok p -> ps_exit p = None -> ps_run p ≠ RunReturned -> (ps_run p ≠ NoRun -> r ≠ NoRun) -> run_ok r (ps_cancelled p) (ps_now p) -> proc_ok (with_run r p).
Proof.
  intros Hok He Hne Hr Hrun. pose proof (none_lost p Hok He Hne) as Hl. destruct Hok as [Hm _ _ _].
  split; simpl; [by eapply main_ok_run|done|by rewrite He|by rewrite Hl].
Qed.

Lemma proc_ok_starts p h done todo :
  proc_ok p -> ps_exit p = None -> ps_main p = Starting done (h :: todo) -> proc_ok (OnStart h (with_main (Starting (h :: done) todo) p)).
Proof.
  intros Hok He Hm. pose proof (ok_main _ Hok) as Hmain. rewrite Hm in Hmain. pose proof Hmain as (_ & Hc & _). apply main_ok_starts in Hmain.
  destruct h; simpl in *; [|by apply proc_ok_main].
  assert (Hl : ps_lost p = 0%nat).
  { destruct (decide (ps_lost p = 0%nat)) as [|Hl]; [done|]. destruct (ok_lost _ Hok He Hl) as (_ & t & Ht & _). congruence. }
  split; simpl; [done|split; [apply (ok_run _ Hok)|done]|by rewrite He|by rewrite Hl].
Qed.

Lemma proc_ok_stops p h todo code :
  proc_ok p -> ps_exit p = None -> ps_main p = Stopping (h :: todo) code -> proc_ok (OnStop h (with_main (Stopping todo code) p)).
Proof.
  intros Hok He Hm. pose proof (ok_main _ Hok) as Hmain. rewrite Hm in Hmain.
  apply (main_ok_stops _ _ _ _ _ (default (ps_now p) (ps_cancelled p))) in Hmain. destruct h; simpl in *; [|by apply proc_ok_main].
  destruct Hok as [_ Hr _ Hl]. split; simpl; [done| |by rewrite He|].
  - unfold run_ok in *. destruct Hr as [Hle Hr]. split.
    + intros t [= <-]. destruct (ps_cancelled p); simpl; [by apply Hle|lia].
    + destruct (ps_run p); try done; destruct Hr as (t & -> & Ht); by exists t.
  - intros _ Hlost. destruct (Hl He Hlost) as (Hret & t & -> & Ht). split; [done|]. by exists t.
Qed.

Lemma proc_ok_force p since :
  proc_ok p -> ps_exit p = None -> ps_run p = GracefulStopping since -> since + gracefulTimeout <= ps_now p ->
  proc_ok (with_run RunReturned (force_stop p)).
Proof.
  intros Hok He Hr Hle. destruct Hok as [Hm Hrun _ _]. rewrite Hr in Hrun. destruct Hrun as (Hnow & t & Ht & Hle2).
  split; simpl; [|split; [done|rewrite Ht; by eexists]|by rewrite He|].
  - apply (main_ok_run _ (ps_run p)); [done|exact Hm].
  - intros _ _. split; [done|]. exists t. split; [done|]. unfold gracefulTimeout, second in Hle. lia.
Qed.

Lemma proc_ok_time p t : proc_ok p -> ps_now p <= t -> proc_ok (with_now t p).
Proof.
  intros [Hm Hr He Hl] Hle. split; simpl; [done| |done|].
  - destruct Hr as [Hnow Hr]. split; [intros t' Ht'; specialize (Hnow t' Ht'); lia|].
    destruct (ps_run p); try done; destruct Hr as (t' & Ht & Hle'); exists t'; (split; [done|lia]).
  - intros Hx Hlost. destruct (Hl Hx Hlost) as (Hret & t' & Ht & Hle'). split; [done|]. exists t'. split; [done|lia].
Qed.

Lemma proc_ok_step p p' : proc_ok p -> proc_step p p' -> proc_ok p'.
Proof.
  intros Hok Hst. revert Hok. destruct Hst as [q q' He Hs]. intros Hok. pose proof (ok_main _ Hok) as Hmain. pose proof (ok_run _ Hok) as Hrun.
  destruct Hs as [q h done todo Hm|q done todo Hm|q done todo Hm|q done Hm|q Hm|q h todo code Hm|q todo code Hm|q h todo code Hm|q code Hm|q Hr _|q _ _
    |q _ _|q _|q _ _|q _ _|q _|q _ _|q _ _|q _ _|q _|q _ _|q _|q t Hle|q Hr Hc|q since Hr _|q since Hr _|q since Hr _|q since Hr Hle];
    try (by apply proc_ok_exit); try (by destruct Hok as [? ? ? ?]; split).
  - apply proc_ok_starts; [exact Hok|exact He|exact Hm].
  - apply proc_ok_main; [done|]. rewrite Hm in Hmain. destruct Hmain as (_ & -> & Hd). split_and!; [done|by intros []|done].
  - apply proc_ok_main; [done|]. rewrite Hm in Hmain. destruct Hmain as (Hl & -> & Hd). split; [done|]. rewrite Hl, app_nil_r.
    intros Hin. apply Hd. by rewrite elem_of_reverse in Hin.
  - apply proc_ok_main; [done|]. rewrite Hm in Hmain. destruct Hmain as (-> & Hd). split_and!; [|by intros []|].
    + intros Hin. apply Hd. by rewrite elem_of_reverse in Hin.
    + intros _ Hin. left. by rewrite elem_of_reverse.
  - by apply proc_ok_stops.
  - apply proc_ok_main; [done|]. rewrite Hm in Hmain. destruct Hmain as (H1 & H2 & _). split_and!; [|done|done].
    intros Hin. apply H1. by apply list_elem_of_further.
  - apply proc_ok_exit; [done|]. intros -> Hreg. rewrite Hm in Hmain. destruct Hmain as (_ & _ & H3).
    destruct (H3 eq_refl (proj2 server_in_lifecycle Hreg)) as [Hin|Hc]; [by apply elem_of_nil in Hin|done].
  - apply (proc_ok_run q AwaitCancel) in Hok; [|done|by rewrite Hr|done|split; [apply Hrun|done]]. destruct Hok as [? ? ? ?]. by split.
  - by apply proc_ok_time.
  - destruct Hc as [t Hc], Hrun as [Hnow _]. apply proc_ok_run; [done|done|by rewrite Hr|done|]. split; [done|]. exists t. split; [done|].
    split; [by apply Hnow|lia].
  - apply proc_ok_run; [done|done|by rewrite Hr|done|]. rewrite Hr in Hrun. destruct Hrun as (Hnow & t & Ht & Hle). split; [done|]. exists t. split; [done|lia].
  - apply proc_ok_run; [done|done|by rewrite Hr|done|]. rewrite Hr in Hrun. destruct Hrun as (Hnow & t & Ht & Hle). split; [done|]. exists t. split; [done|lia].
  - apply proc_ok_run; [done|done|by rewrite Hr|done|]. rewrite Hr in Hrun. destruct Hrun as (Hnow & t & Ht & _). split; [done|]. by eexists.
  - by eapply proc_ok_force.
Qed.

Lemma alive_ok p : alive p -> proc_ok p.
Proof.
  unfold alive. revert p. apply rtc_ind_r; [|intros p p' _ Hs Hp; by eapply proc_ok_step].
  split; simpl; [|done|done|done]. split_and!; [done|done|by intros ?%elem_of_nil].
Qed.

(** ** The end of RunService *)

(** [q] leads to the return of RunService by [t], with no further request taken. *)
Definition returns_by (t : Z) (q : Process) : Prop :=
  exists p', rtc proc_step q p' /\ ps_run p' = RunReturned /\ ps_taken p' = ps_taken q /\ ps_now p' <= t.

Lemma returns_by_step t q q' : ps_exit q = None -> running_step q q' -> ps_taken q' = ps_taken q -> returns_by t q' -> returns_by t q.
Proof. intros He Hs Ht (p' & H1 & H2 & H3 & H4). exists p'. split_and!; [by eapply rtc_l; [apply proc_runs|]|done|by rewrite H3|done]. Qed.

Lemma limits_positive : 0 < defaultShutdownTimeout /\ 0 < gracefulTimeout.
Proof. done. Qed.

(** The forced stop, and the time limit of the metrics server before it. *)
Lemma stopping_returns q since : ps_exit q = None -> ps_run q = GracefulStopping since -> since <= ps_now q -> returns_by (ps_now q + gracefulTimeout) q.
Proof.
  intros He Hr Hle. set (t := ps_now q + gracefulTimeout). pose proof limits_positive.
  eapply returns_by_step; [done|apply (p_time q t); lia|done|].
  eapply returns_by_step; [done|apply (p_force _ since); [done|simpl; lia]|done|].
  eexists. split_and!; [apply rtc_refl|done|done|simpl; lia].
Qed.

Lemma shutdown_returns q since : ps_exit q = None -> ps_run q = MetricsShutdown since -> since <= ps_now q ->
  returns_by (ps_now q + defaultShutdownTimeout + gracefulTimeout) q.
Proof.
  intros He Hr Hle. set (t := ps_now q + defaultShutdownTimeout). pose proof limits_positive.
  eapply returns_by_step; [done|apply (p_time q t); lia|done|].
  eapply returns_by_step; [done|apply (p_metrics_late _ since); [done|simpl; lia]|done|].
  exact (stopping_returns (with_run (GracefulStopping t) (with_now t q)) t He eq_refl (Z.le_refl _)).
Qed.

Lemma cancelled_returns q : ps_exit q = None -> is_Some (ps_cancelled q) -> ps_run q = AwaitCancel ->
  returns_by (ps_now q + defaultShutdownTimeout + gracefulTimeout) q.
Proof.
  intros He Hc Hr. eapply returns_by_step; [done|by apply p_cancelled|done|].
  exact (shutdown_returns (with_run (MetricsShutdown (ps_now q)) q) (ps_now q) He eq_refl (Z.le_refl _)).
Qed.

Lemma RunService_can_return p :
  alive p -> ps_exit p = None -> is_Some (ps_cancelled p) -> started (StartService cfg register interceptors) = true ->
  returns_by (ps_now p + defaultShutdownTimeout + gracefulTimeout) p.
Proof.
  intros Hal He Hc Hst. pose proof (alive_ok _ Hal) as Hok. pose proof (main_ok_cancelled _ _ _ (ok_main _ Hok) Hc) as Hr.
  pose proof (ok_run _ Hok) as [_ Hrun]. pose proof limits_positive. destruct (ps_run p) as [| | |since|since|] eqn:Hpc; [done| | | | |].
  - eapply returns_by_step; [done|by apply p_StartService|done|].
    exact (cancelled_returns (with_servers Binding Binding (with_run AwaitCancel p)) He Hc eq_refl).
  - by apply cancelled_returns.
  - destruct Hrun as (t & _ & Hle). apply (shutdown_returns p since He Hpc). lia.
  - destruct Hrun as (t & _ & Hle). destruct (stopping_returns p since He Hpc) as (p' & H1 & H2 & H3 & H4); [lia|].
    exists p'. split_and!; [done..|lia].
  - exists p. split_and!; [apply rtc_refl|done|done|lia].
Qed.

(** ** A request that is cut off *)

Lemma others_start n done todo p :
  ps_exit p = None -> ps_main p = Starting done (replicate n OtherHook ++ todo) ->
  rtc proc_step p (with_main (Starting (replicate n OtherHook ++ done) todo) p).
Proof.
  revert done p. induction n as [|n IH]; intros done p He Hm; simpl in *; [destruct p; simpl in *; subst; apply rtc_refl|].
  eapply rtc_l; [apply proc_runs; [done|by apply (p_hook_starts p OtherHook done (replicate n OtherHook ++ todo))]|]. simpl.
  replace (OtherHook :: replicate n OtherHook ++ done) with (replicate n OtherHook ++ OtherHook :: done); [|].
  { exact (IH (OtherHook :: done) (with_main (Starting (OtherHook :: done) (replicate n OtherHook ++ todo)) p) He eq_refl). }
  change (OtherHook :: done) with ([OtherHook] ++ done). rewrite app_assoc, <- replicate_cons_app. done.
Qed.

Lemma others_stop n todo code p :
  ps_exit p = None -> ps_main p = Stopping (replicate n OtherHook ++ todo) code -> rtc proc_step p (with_main (Stopping todo code) p).
Proof.
  revert p. induction n as [|n IH]; intros p He Hm; simpl in *; [destruct p; simpl in *; subst; apply rtc_refl|].
  eapply rtc_l; [apply proc_runs; [done|by apply (p_hook_stops p OtherHook (replicate n OtherHook ++ todo) code)]|].
  exact (IH (with_main (Stopping (replicate n OtherHook ++ todo) code) p) He eq_refl).
Qed.

(** A request is in flight when the signal comes and main returns. *)
Lemma cut_off : set_up -> exists p, alive p /\ ps_exit p = Some 0 /\ ps_lost p = 1%nat /\ ps_now p = 0.
Proof.
  intros [Hreg Hst]. unfold alive, new_process, lifecycle. rewrite Hreg. eexists. split.
  - etrans; [eapply (others_start hooks_before [] ([ServerHook] ++ replicate hooks_after OtherHook)); done|].
    eapply rtc_l; [apply proc_runs; [done|by apply (p_hook_starts _ ServerHook)]|].
    rewrite <- (app_nil_r (replicate hooks_after OtherHook)). etrans; [eapply (others_start hooks_after _ []); done|].
    eapply rtc_l; [apply proc_runs; [done|by eapply p_hooks_started]|]. eapply rtc_l; [apply proc_runs; [done|by apply p_StartService]|].
    eapply rtc_l; [apply proc_runs; [done|by apply p_grpc_binds]|]. eapply rtc_l; [apply proc_runs; [done|by apply p_request]|].
    eapply rtc_l; [apply proc_runs; [done|by apply p_signal]|].
    assert (Hrev : reverse lifecycle = replicate hooks_after OtherHook ++ ServerHook :: replicate hooks_before OtherHook ++ []).
    { unfold lifecycle. by rewrite Hreg, !reverse_app, !reverse_replicate, <- app_assoc, app_nil_r. }
    rewrite Hrev. etrans; [eapply (others_stop hooks_after _ 0); done|].
    eapply rtc_l; [apply proc_runs; [done|by apply (p_hook_stops _ ServerHook)]|].
    etrans; [eapply (others_stop hooks_before [] 0); done|].
    apply rtc_once, proc_runs; [done|by apply p_exit].
  - done.
Qed.

End Serving.

(** ** A concrete server *)

Section Samples.
(** A machine without certificate files. *)
#[local] Instance no_files : TLSLib := {|
  tls_LoadX509KeyPair _ _ := inl (EPlain "no such file"); os_ReadFile _ := inl (EPlain "no such file");
  x509_AppendCertsFromPEM _ := false;
  credentials_NewServerTLSFromFile _ _ := inl (EPlain "no such file"); credentials_NewClientTLSFromFile _ _ := inl (EPlain "no such file")
|}.

Definition plain_service : ServiceConfig := MkServiceConfig 50055 9090 "".

End Samples.
